(* ===== verification/_CoqProject ===== *)
-Q . S2P
Prelude.v
Bincode.v
Messages.v
MessageTypes.v
ByteRange.v
Sidecar.v
LocalFile.v
StagedContent.v
StagedCheckpoint.v
OpenState.v
Counting.v
KeyedLock.v
Ids.v
SnapshotCollector.v
Gf256.v
Cauchy.v
ReedSolomon.v
RsVector.v
Crc32c.v
CrcFusion.v
Divide32.v
SpanLayout.v
BlockFetch.v
SpanFetch.v
Bitmap.v
CellRange.v
ReadRs.v
FileRead.v
SessionFile.v
LeaseGate.v
ReplyCache.v
ReplayRecord.v
ReplayGate.v
SlotTable.v
ClientRecords.v
DiskIO.v
