(* ===== verification/Prelude.v ===== *)
(** Shared vocabulary of the development: outcomes of Go functions, fixed-width
    integers, byte strings with their little- and big-endian encodings, and the
    tactics and hint databases the components use.

    - [outcome E A] is what a Go call gives its caller: a value, an [error]
      value of type [E], or a run-time panic.
    - A [uintN] is a [Z]; [wrapN] writes its wrap-around out.
    - A byte slice is a [list byte]; an [io.Reader] is the list of bytes that
      are still to come. *)

From Stdlib Require Import ZArith Lia.
From Stdlib Require Strings.Byte.
From stdpp Require Import base numbers option countable list.

Abbreviation byte := Byte.byte.

Declare Scope go_scope.
Delimit Scope go_scope with go.
Open Scope go_scope.
Open Scope Z_scope.

(** * Outcomes *)

Inductive outcome (E A : Type) : Type :=
| Ok (a : A)
| Err (e : E)
| Panic.
Arguments Ok {E A} a.
Arguments Err {E A} e.
Arguments Panic {E A}.

#[export] Instance outcome_ret {E} : MRet (outcome E) := fun A a => Ok a.
#[export] Instance outcome_bind {E} : MBind (outcome E) := fun A B f m =>
  match m with
  | Ok a => f a
  | Err e => Err e
  | Panic => Panic
  end.

Notation "'let!' x := m 'in' k" := (mbind (fun x => k) m)
  (at level 10, x pattern, m at level 100, k at level 200) : go_scope.

(** An [assert]-style guard: [if !b { return e }]. *)
Definition check {E} (b : bool) (e : E) : outcome E unit := if b then Ok tt else Err e.

(** Errors of the [io] package that the readers below return. *)
Inductive io_error :=
| EOF
| ErrUnexpectedEOF
| ErrFormat (* an error made with fmt.Errorf *).

(** * Fixed-width integers *)

Definition wrap8 (z : Z) : Z := z mod 2 ^ 8.
Definition wrap16 (z : Z) : Z := z mod 2 ^ 16.
Definition wrap32 (z : Z) : Z := z mod 2 ^ 32.
Definition wrap64 (z : Z) : Z := z mod 2 ^ 64.

(** Two's complement reading of the low [w] bits. *)
Definition to_signed (w z : Z) : Z :=
  let m := z mod 2 ^ w in
  if decide (m < 2 ^ (w - 1)) then m else m - 2 ^ w.

Definition is_u8 (z : Z) : Prop := 0 <= z < 2 ^ 8.
Definition is_u16 (z : Z) : Prop := 0 <= z < 2 ^ 16.
Definition is_u32 (z : Z) : Prop := 0 <= z < 2 ^ 32.
Definition is_u64 (z : Z) : Prop := 0 <= z < 2 ^ 64.

(** * Bytes *)

Definition byte_val (b : byte) : Z := Z.of_N (Strings.Byte.to_N b).

Definition byte_of (z : Z) : byte :=
  match Strings.Byte.of_N (Z.to_N (z mod 256)) with
  | Some b => b
  | None => Byte.x00
  end.

(** [binary.LittleEndian.PutUint] of an [n]-byte integer, and its inverse. *)
Fixpoint le_bytes (n : nat) (z : Z) : list byte :=
  match n with
  | O => []
  | S n => byte_of z :: le_bytes n (z / 256)
  end.

Fixpoint le_val (bs : list byte) : Z :=
  match bs with
  | [] => 0
  | b :: bs => byte_val b + 256 * le_val bs
  end.

(** [binary.BigEndian.PutUint] of an [n]-byte integer, and its inverse. *)
Definition be_bytes (n : nat) (z : Z) : list byte := reverse (le_bytes n z).
Definition be_val (bs : list byte) : Z := le_val (reverse bs).

(** [io.ReadFull] into a buffer of [n] bytes, on the bytes left in the reader. *)
Definition read_full (n : nat) (r : list byte) : outcome io_error (list byte * list byte) :=
  if decide (n = 0)%nat then Ok ([], r)
  else if decide (length r = 0)%nat then Err EOF
  else if decide (length r < n)%nat then Err ErrUnexpectedEOF
  else Ok (take n r, drop n r).

(** The slice expression [data[a:b]] and the index expression [data[i]]. *)
Definition sub {E A} (data : list A) (a b : nat) : outcome E (list A) :=
  if decide (a <= b /\ b <= length data)%nat then Ok (take (b - a) (drop a data)) else Panic.

Definition index {E A} (data : list A) (i : nat) : outcome E A :=
  match data !! i with Some x => Ok x | None => Panic end.

(** [binary.BigEndian.UintN(data[off : off+n])]. *)
Definition be_at {E} (n : nat) (data : list byte) (off : nat) : outcome E Z :=
  let! bs := sub data off (off + n) in Ok (be_val bs).

(** * Disk files *)

(** The content of an operating system file, with truncation, writing and
    reading at an offset. *)
Definition zero_byte : byte := Byte.x00.

Definition f_truncate (f : list byte) (size : nat) : list byte := resize size zero_byte f.

(** Writing past the end fills the hole with zeros. *)
Definition f_write (f : list byte) (off : nat) (data : list byte) : list byte :=
  let f := resize (max (length f) off) zero_byte f in
  take off f ++ data ++ drop (off + length data) f.

Definition f_read (f : list byte) (off n : nat) : list byte := take n (drop off f).

(** * Tactics *)

(** Case analysis on the match or conditional that blocks an equation [H]
    about outcomes, discarding the impossible branches. *)
Ltac step_in H :=
  match type of H with
  | context [match ?x with _ => _ end] => destruct x eqn:?; simplify_eq/=
  | context [if ?x then _ else _] => destruct x eqn:?; simplify_eq/=
  end.

Lemma Ok_inj {E A} (a b : A) : @Ok E A a = Ok b -> a = b.
Proof. congruence. Qed.

(** [H : Ok a = Ok b] after exposing the binds of an outcome computation. *)
Ltac inv_ok H := cbn [mbind outcome_bind] in H; apply Ok_inj in H as <-.

Ltac inv_outcome H := repeat (first [progress simplify_eq/= | step_in H]).

(** Reflects the boolean comparisons of [Z] in the context into propositions. *)
Ltac reflect_bools :=
  repeat match goal with
  | H : andb _ _ = true |- _ => apply andb_true_iff in H; destruct H
  | H : orb _ _ = false |- _ => apply orb_false_iff in H; destruct H
  | H : negb _ = true |- _ => apply negb_true_iff in H
  | H : negb _ = false |- _ => apply negb_false_iff in H
  | H : (_ <=? _) = true |- _ => apply Z.leb_le in H
  | H : (_ <=? _) = false |- _ => apply Z.leb_gt in H
  | H : (_ <? _) = true |- _ => apply Z.ltb_lt in H
  | H : (_ <? _) = false |- _ => apply Z.ltb_ge in H
  | H : (_ =? _) = true |- _ => apply Z.eqb_eq in H
  | H : (_ =? _) = false |- _ => apply Z.eqb_neq in H
  end.

Create HintDb bytes.

(** * Generic lemmas *)

Lemma byte_val_bound (b : byte) : 0 <= byte_val b < 256.
Proof. unfold byte_val. pose proof (Strings.Byte.to_N_bounded b). lia. Qed.

Lemma byte_of_val (b : byte) : byte_of (byte_val b) = b.
Proof.
  unfold byte_of. rewrite Z.mod_small by apply byte_val_bound.
  unfold byte_val. by rewrite N2Z.id, Strings.Byte.of_to_N.
Qed.

Lemma byte_val_of (z : Z) : byte_val (byte_of z) = z mod 256.
Proof.
  unfold byte_of, byte_val.
  pose proof (Z.mod_pos_bound z 256 ltac:(lia)) as Hb.
  destruct (Strings.Byte.of_N _) as [b|] eqn:E.
  - apply Strings.Byte.to_of_N in E. rewrite E. lia.
  - apply Strings.Byte.of_N_None_iff in E. lia.
Qed.

Lemma byte_val_inj (a b : byte) : byte_val a = byte_val b -> a = b.
Proof. intros H. by rewrite <-(byte_of_val a), <-(byte_of_val b), H. Qed.

#[export] Instance byte_eq_dec : EqDecision byte := Strings.Byte.byte_eq_dec.
#[export] Instance byte_countable : Countable byte.
Proof. refine (inj_countable Strings.Byte.to_N Strings.Byte.of_N _). intros b. apply Strings.Byte.of_to_N. Defined.

Lemma high_bits (a n i : Z) : 0 <= a < 2 ^ n -> 0 <= n <= i -> Z.testbit a i = false.
Proof. intros Ha Hi. rewrite <- (Z.mod_small a (2 ^ n)) by lia. apply Z.mod_pow2_bits_high. lia. Qed.

Lemma lxor_bound (a b n : Z) : 0 <= n -> 0 <= a < 2 ^ n -> 0 <= b < 2 ^ n -> 0 <= Z.lxor a b < 2 ^ n.
Proof.
  intros Hn Ha Hb. replace (Z.lxor a b) with (Z.lxor a b mod 2 ^ n); [apply Z.mod_pos_bound; lia|].
  apply Z.bits_inj'. intros i Hi. destruct (decide (i < n)).
  - by rewrite Z.mod_pow2_bits_low by lia.
  - rewrite Z.mod_pow2_bits_high, Z.lxor_spec, (high_bits a n i), (high_bits b n i) by lia. done.
Qed.

Lemma length_le_bytes n z : length (le_bytes n z) = n.
Proof. revert z. induction n; intros; simpl; auto. Qed.

Lemma length_be_bytes n z : length (be_bytes n z) = n.
Proof. unfold be_bytes. by rewrite length_reverse, length_le_bytes. Qed.

Lemma pow256_S (n : nat) : 256 ^ Z.of_nat (S n) = 256 * 256 ^ Z.of_nat n.
Proof. rewrite Nat2Z.inj_succ, Z.pow_succ_r; lia. Qed.

Lemma le_val_le_bytes n z : le_val (le_bytes n z) = z mod 256 ^ Z.of_nat n.
Proof.
  revert z. induction n as [|n IH]; intros z; simpl.
  - by rewrite Z.mod_1_r.
  - rewrite IH, byte_val_of, pow256_S.
    pose proof (Z.pow_pos_nonneg 256 (Z.of_nat n)).
    rewrite Z.rem_mul_r by lia. lia.
Qed.

Lemma be_val_be_bytes n z : be_val (be_bytes n z) = z mod 256 ^ Z.of_nat n.
Proof. unfold be_val, be_bytes. by rewrite reverse_involutive, le_val_le_bytes. Qed.

Lemma le_val_bound bs : 0 <= le_val bs < 256 ^ Z.of_nat (length bs).
Proof.
  induction bs as [|b bs IH]; cbn [le_val length]; [done|].
  pose proof (byte_val_bound b). rewrite pow256_S. lia.
Qed.

Lemma be_val_bound bs : 0 <= be_val bs < 256 ^ Z.of_nat (length bs).
Proof. unfold be_val. rewrite <-length_reverse. apply le_val_bound. Qed.

Lemma byte_of_add (b : byte) (v : Z) : byte_of (byte_val b + 256 * v) = b.
Proof.
  apply byte_val_inj. rewrite byte_val_of.
  rewrite Z.mul_comm, Z.mod_add by lia.
  apply Z.mod_small, byte_val_bound.
Qed.

Lemma le_bytes_le_val bs : le_bytes (length bs) (le_val bs) = bs.
Proof.
  induction bs as [|b bs IH]; simpl; [done|].
  rewrite byte_of_add. f_equal.
  pose proof (byte_val_bound b).
  replace ((byte_val b + 256 * le_val bs) / 256) with (le_val bs); [done|].
  rewrite Z.mul_comm, Z.div_add, Z.div_small by lia. lia.
Qed.

Lemma be_bytes_be_val bs : be_bytes (length bs) (be_val bs) = bs.
Proof.
  unfold be_bytes, be_val. rewrite <-length_reverse, le_bytes_le_val.
  apply reverse_involutive.
Qed.

Lemma le_bytes_inj n x y :
  0 <= x < 256 ^ Z.of_nat n -> 0 <= y < 256 ^ Z.of_nat n ->
  le_bytes n x = le_bytes n y -> x = y.
Proof.
  intros Hx Hy H%(f_equal le_val). rewrite !le_val_le_bytes in H.
  by rewrite !Z.mod_small in H.
Qed.

Lemma read_full_app n a r : length a = n -> read_full n (a ++ r) = Ok (a, r).
Proof.
  intros <-. unfold read_full. rewrite length_app.
  repeat case_decide; try lia.
  - destruct a; [done|simpl in *; lia].
  - by rewrite take_app_length, drop_app_length.
Qed.

Lemma read_full_Ok n r a r' :
  read_full n r = Ok (a, r') -> r = a ++ r' /\ length a = n.
Proof.
  unfold read_full. repeat case_decide; intros; simplify_eq/=; [by subst|].
  split; [by rewrite take_drop|]. rewrite length_take. lia.
Qed.

#[export] Hint Resolve length_le_bytes length_be_bytes : bytes.

(** Scalars of the widths the program uses. *)
Lemma le_val_bytes_u8 z : is_u8 z -> le_val (le_bytes 1 z) = z.
Proof. intros. rewrite le_val_le_bytes. by apply Z.mod_small. Qed.
Lemma le_val_bytes_u16 z : is_u16 z -> le_val (le_bytes 2 z) = z.
Proof. intros. rewrite le_val_le_bytes. by apply Z.mod_small. Qed.
Lemma le_val_bytes_u32 z : is_u32 z -> le_val (le_bytes 4 z) = z.
Proof. intros. rewrite le_val_le_bytes. by apply Z.mod_small. Qed.
Lemma le_val_bytes_u64 z : is_u64 z -> le_val (le_bytes 8 z) = z.
Proof. intros. rewrite le_val_le_bytes. by apply Z.mod_small. Qed.
Lemma be_val_bytes_u16 z : is_u16 z -> be_val (be_bytes 2 z) = z.
Proof. intros. rewrite be_val_be_bytes. by apply Z.mod_small. Qed.
Lemma be_val_bytes_u32 z : is_u32 z -> be_val (be_bytes 4 z) = z.
Proof. intros. rewrite be_val_be_bytes. by apply Z.mod_small. Qed.
Lemma be_val_bytes_u64 z : is_u64 z -> be_val (be_bytes 8 z) = z.
Proof. intros. rewrite be_val_be_bytes. by apply Z.mod_small. Qed.

(** ** Slices at an offset *)

(** What is left of [data] from [off] on starts with [bs]. *)
Lemma sub_drop {E A} (data : list A) off bs rest n :
  drop off data = bs ++ rest -> (off <= length data)%nat -> length bs = n ->
  @sub E A data off (off + n) = Ok bs /\ drop (off + n) data = rest /\ (off + n <= length data)%nat.
Proof.
  intros Hd Hoff <-. pose proof (f_equal length Hd) as Hl. rewrite length_drop, length_app in Hl.
  unfold sub. rewrite decide_True by lia. replace (off + length bs - off)%nat with (length bs) by lia.
  rewrite Hd, take_app_length, <-drop_drop, Hd, drop_app_length. split_and!; [done..|lia].
Qed.

Lemma be_at_drop {E} (data : list byte) off bs rest n :
  drop off data = bs ++ rest -> (off <= length data)%nat -> length bs = n ->
  @be_at E n data off = Ok (be_val bs) /\ drop (off + n) data = rest /\ (off + n <= length data)%nat.
Proof.
  intros Hd Hoff Hn. destruct (@sub_drop E _ _ _ _ _ _ Hd Hoff Hn) as (H1 & H2 & H3).
  unfold be_at. by rewrite H1.
Qed.

Lemma sub_in_range {E A} (data : list A) off n :
  (off + n <= length data)%nat ->
  exists bs, @sub E A data off (off + n) = Ok bs /\ length bs = n /\ drop off data = bs ++ drop (off + n) data.
Proof.
  intros H. exists (take n (drop off data)). unfold sub. rewrite decide_True by lia.
  replace (off + n - off)%nat with n by lia. split_and!; [done| |].
  - rewrite length_take, length_drop. lia.
  - by rewrite <-drop_drop, take_drop.
Qed.

Lemma be_at_in_range {E} (data : list byte) off n :
  (off + n <= length data)%nat ->
  exists bs, @be_at E n data off = Ok (be_val bs) /\ length bs = n /\ drop off data = bs ++ drop (off + n) data.
Proof.
  intros H. destruct (@sub_in_range E _ _ _ _ H) as (bs & H1 & H2). exists bs. unfold be_at. by rewrite H1.
Qed.

Lemma index_drop {E A} (data : list A) off x rest :
  drop off data = x :: rest -> @index E A data off = Ok x /\ drop (off + 1) data = rest /\ (off + 1 <= length data)%nat.
Proof.
  intros H. pose proof (f_equal length H) as Hl. rewrite length_drop in Hl. cbn in Hl. split_and!; [| |lia].
  - unfold index. by rewrite <-(Nat.add_0_r off), <-lookup_drop, H.
  - by rewrite <-drop_drop, H.
Qed.

Lemma index_in_range {E A} (data : list A) off :
  (off < length data)%nat ->
  exists x, @index E A data off = Ok x /\ drop off data = x :: drop (off + 1) data.
Proof.
  intros H. destruct (lookup_lt_is_Some_2 data off H) as [x Hx]. exists x. unfold index. rewrite Hx.
  split; [done|]. rewrite (drop_S _ x) by done. by rewrite Nat.add_1_r.
Qed.

(** ** Counting *)

Lemma filter_length_lt {A} (P Q : A -> Prop) `{!forall x, Decision (P x), !forall x, Decision (Q x)} (l : list A) (a : A) :
  (forall x, P x -> Q x) -> a ∈ l -> Q a -> ~ P a -> (length (filter P l) < length (filter Q l))%nat.
Proof.
  intros Hsub. induction l as [|b l IH]; intros Hin HQ HP; [by apply not_elem_of_nil in Hin|].
  assert (length (filter P l) <= length (filter Q l))%nat as Hle.
  { clear -Hsub. induction l as [|b l IH]; [done|]. rewrite !filter_cons.
    repeat case_decide; cbn; try lia. by exfalso; auto. }
  rewrite !filter_cons. apply elem_of_cons in Hin as [->|Hin].
  - rewrite decide_False, decide_True by done. cbn. lia.
  - specialize (IH Hin HQ HP). repeat case_decide; cbn; try lia. by exfalso; auto.
Qed.

(** Encodings stay folded under simplification. *)
#[global] Arguments le_bytes : simpl never.
#[global] Arguments be_bytes : simpl never.
#[global] Arguments le_val : simpl never.
#[global] Arguments be_val : simpl never.

(** ** Disk files *)

Lemma lookup_resize_byte (l : list byte) n i :
  resize n zero_byte l !! i = if decide (i < n)%nat then Some (default zero_byte (l !! i)) else None.
Proof.
  case_decide as H.
  - destruct (decide (i < length l)%nat) as [Hl|Hl].
    + rewrite lookup_resize by done. destruct (lookup_lt_is_Some_2 _ _ Hl) as [x ->]. done.
    + rewrite lookup_resize_new by lia. by rewrite lookup_ge_None_2 by lia.
  - apply lookup_resize_old. lia.
Qed.

Lemma lookup_f_truncate f n i :
  f_truncate f n !! i = if decide (i < n)%nat then Some (default zero_byte (f !! i)) else None.
Proof. apply lookup_resize_byte. Qed.

Lemma length_f_truncate f n : length (f_truncate f n) = n.
Proof. apply length_resize. Qed.

Lemma length_f_write f off data : length (f_write f off data) = max (length f) (off + length data).
Proof.
  unfold f_write. rewrite !length_app, length_take, length_drop, length_resize. lia.
Qed.

Lemma lookup_f_write f off data i :
  f_write f off data !! i =
  if decide (off <= i < off + length data)%nat then data !! (i - off)%nat
  else if decide (i < off)%nat then Some (default zero_byte (f !! i))
  else f !! i.
Proof.
  unfold f_write. set (g := resize _ _ f).
  assert (length g = max (length f) off) as Hg by apply length_resize.
  assert (forall j, (j < max (length f) off)%nat -> g !! j = Some (default zero_byte (f !! j))) as Hl.
  { intros j Hj. unfold g. rewrite lookup_resize_byte. by rewrite decide_True. }
  destruct (decide (i < off)%nat) as [H1|H1].
  - rewrite decide_False by lia. rewrite lookup_app_l by (rewrite length_take; lia).
    rewrite lookup_take_lt by done. apply Hl. lia.
  - rewrite lookup_app_r by (rewrite length_take; lia).
    rewrite length_take, Nat.min_l by lia. case_decide as H2.
    + by rewrite lookup_app_l by lia.
    + rewrite lookup_app_r by lia. rewrite lookup_drop.
      replace (off + length data + (i - off - length data))%nat with i by lia.
      destruct (decide (i < length f)%nat) as [H3|H3].
      * rewrite Hl by lia. destruct (lookup_lt_is_Some_2 _ _ H3) as [x ->]. done.
      * rewrite !lookup_ge_None_2 by lia. done.
Qed.
