(* ===== verification/Bincode.v ===== *)
(** The wire format of every TernFS message: src/go/core/bincode/bincode.go.

    A writer is a [bytes.Buffer]: packing gives the bytes appended to it, or
    the error. A reader is the list of the bytes still to come, which every
    [Unpack] consumes a prefix of. [Packable] and [Unpackable] are the two
    interfaces of the package; [LawfulCodec] is what the generated message
    types promise to [Pack] and [Unpack]. *)

From Stdlib Require Import ZArith Lia.
From stdpp Require Import base numbers option list.
From S2P Require Import Prelude.

(** ** Errors *)

Inductive bincode_error :=
| ErrIO (e : io_error)
| ErrBytesTooLong (n : Z)
| ErrLengthRange (n : Z)
| ErrBlobTooLong (n : Z)
| ErrLeftover (n : Z)
| ErrMessage (* an error the code of one message type makes *).

Definition MaxUint8 : Z := 255.
Definition MaxUint16 : Z := 65535.
Definition MaxUint32 : Z := 4294967295.

Abbreviation writer := (outcome bincode_error (list byte)).
Abbreviation reader A := (list byte -> outcome bincode_error (A * list byte)).

Definition zlen {A} (l : list A) : Z := Z.of_nat (length l).

(** Lifts the [io] errors of [io.ReadFull] and [binary.Read]. *)
Definition io_read (n : nat) : reader (list byte) := fun r =>
  match read_full n r with
  | Ok p => Ok p
  | Err e => Err (ErrIO e)
  | Panic => Panic
  end.

(** ** Scalars *)

(** The types [PackScalar] and [UnpackScalar] are used at. *)
Inductive scalar_kind := KBool | KU8 | KU16 | KU32 | KU64.

Definition scalar_size (k : scalar_kind) : nat :=
  match k with KBool | KU8 => 1 | KU16 => 2 | KU32 => 4 | KU64 => 8 end.

Definition scalar_type (k : scalar_kind) : Type :=
  match k with KBool => bool | _ => Z end.

(** The Z that a value of the kind can be. *)
Definition scalar_wf (k : scalar_kind) : scalar_type k -> Prop :=
  match k with
  | KBool => fun _ => True
  | KU8 => is_u8 | KU16 => is_u16 | KU32 => is_u32 | KU64 => is_u64
  end.

(** [binary.Write(w, binary.LittleEndian, x)]: a bool is one byte, 0 or 1. *)
Definition PackScalar (k : scalar_kind) : scalar_type k -> writer :=
  match k with
  | KBool => fun b => Ok (le_bytes 1 (if b : bool then 1 else 0))
  | KU8 => fun x => Ok (le_bytes 1 x)
  | KU16 => fun x => Ok (le_bytes 2 x)
  | KU32 => fun x => Ok (le_bytes 4 x)
  | KU64 => fun x => Ok (le_bytes 8 x)
  end.

(** [binary.Read(r, binary.LittleEndian, x)]: a bool is true when its byte is
    not zero. *)
Definition UnpackScalar (k : scalar_kind) : reader (scalar_type k) := fun r =>
  let! (bs, r) := io_read (scalar_size k) r in
  Ok (match k return scalar_type k with
      | KBool => negb (le_val bs =? 0)
      | KU8 | KU16 | KU32 | KU64 => le_val bs
      end, r).

(** ** Byte strings and blobs *)

Definition PackBytes (bs : list byte) : writer :=
  if decide (zlen bs > MaxUint8) then Err (ErrBytesTooLong (zlen bs))
  else
    let! l := PackScalar KU8 (wrap8 (zlen bs)) in
    Ok (l ++ bs).

Definition PackFixedBytes (l : Z) (bs : list byte) : writer :=
  if decide (zlen bs = l) then Ok bs else Panic.

Definition PackLength (l : Z) : writer :=
  if decide (l < 0 \/ l > MaxUint16) then Err (ErrLengthRange l)
  else PackScalar KU16 (wrap16 l).

(** [uint64(l)] of an [int]: [l] is not negative where it is compared. *)
Definition PackLength32 (l : Z) : writer :=
  if decide (l < 0 \/ wrap64 l > MaxUint32) then Err (ErrLengthRange l)
  else PackScalar KU32 (wrap32 l).

Definition PackBlob (bs : list byte) : writer :=
  if decide (zlen bs > MaxUint16) then Err (ErrBlobTooLong (zlen bs))
  else
    let! l := PackScalar KU16 (wrap16 (zlen bs)) in
    Ok (l ++ bs).

Definition PackBlob32 (bs : list byte) : writer :=
  let! l := PackLength32 (zlen bs) in
  Ok (l ++ bs).

Definition UnpackBytes : reader (list byte) := fun r =>
  let! (l, r) := UnpackScalar KU8 r in
  io_read (Z.to_nat l) r.

Definition UnpackFixedBytes (l : Z) (data : list byte) : reader (list byte) := fun r =>
  if decide (zlen data = l) then io_read (length data) r else Panic.

(** A Go string is its bytes. *)
Definition UnpackString : reader (list byte) := fun r =>
  let! (bs, r) := UnpackBytes r in
  Ok (bs, r).

Definition UnpackBlob : reader (list byte) := fun r =>
  let! (l, r) := UnpackScalar KU16 r in
  io_read (Z.to_nat l) r.

(** [int(l16)] and [int(l32)]: an [int] has 64 bits. *)
Definition UnpackLength : reader Z := fun r =>
  let! (l, r) := UnpackScalar KU16 r in
  Ok (l, r).

Definition UnpackLength32 : reader Z := fun r =>
  let! (l, r) := UnpackScalar KU32 r in
  Ok (l, r).

Definition UnpackBlob32 : reader (list byte) := fun r =>
  let! (l, r) := UnpackLength32 r in
  io_read (Z.to_nat l) r.

(** ** EnsureLength

    A Go slice is its length within a backing array; what is between the two
    is kept by a reslice. [xs = nil] is the slice with no backing array. *)
Record slice (A : Type) := mk_slice { sl_backing : list A; sl_len : nat }.
Arguments mk_slice {A} sl_backing sl_len.
Arguments sl_backing {A} s.
Arguments sl_len {A} s.

Definition sl_elems {A} (s : slice A) : list A := take (sl_len s) (sl_backing s).

Definition EnsureLength {A} (zero : A) (xs : option (slice A)) (l : nat) : slice A :=
  match xs with
  | None => mk_slice (replicate l zero) l
  | Some s =>
      if decide (length (sl_backing s) < l)%nat then mk_slice (replicate l zero) l
      else mk_slice (sl_backing s) l
  end.

(** ** Messages *)

Class Packable (A : Type) := pack : A -> writer.
Class Unpackable (A : Type) := unpack : reader A.

Definition Pack {A} `{Packable A} (v : A) : writer := pack v.

Definition Unpack {A} `{Unpackable A} (data : list byte) : outcome bincode_error A :=
  let! (v, r) := unpack data in
  if decide (length r = 0%nat) then Ok v else Err (ErrLeftover (zlen r)).

(** [u] gives back [v] from [bs], and leaves what follows alone. *)
Definition reads {A} (u : reader A) (bs : list byte) (v : A) : Prop :=
  forall r, u (bs ++ r) = Ok (v, r).

(** A reader looks only at the bytes it consumes. *)
Definition framed {A} (u : reader A) : Prop :=
  forall r v r', u r = Ok (v, r') -> exists used, r = used ++ r' /\ reads u used v.

(** What a message type promises: [unpack] reads back exactly what [pack]
    wrote, and looks at nothing else. [wf] is what the Go types of the fields
    say of their values. *)
Class LawfulCodec (A : Type) `{Packable A, Unpackable A} (wf : A -> Prop) : Prop := {
  pack_reads : forall v bs, wf v -> pack v = Ok bs -> reads unpack bs v;
  unpack_framed : framed unpack;
}.

(** A slice of messages, as the generated code packs it: [PackLength] of the
    element count, then the elements in turn. *)
Fixpoint pack_elems {A} (p : A -> writer) (l : list A) : writer :=
  match l with
  | [] => Ok []
  | x :: l =>
      let! bs := p x in
      let! rest := pack_elems p l in
      Ok (bs ++ rest)
  end.

Definition pack_slice {A} (p : A -> writer) (l : list A) : writer :=
  let! n := PackLength (zlen l) in
  let! es := pack_elems p l in
  Ok (n ++ es).

Fixpoint unpack_elems {A} (u : reader A) (n : nat) : reader (list A) := fun r =>
  match n with
  | O => Ok ([], r)
  | S n =>
      let! (x, r) := u r in
      let! (l, r) := unpack_elems u n r in
      Ok (x :: l, r)
  end.

Definition unpack_slice {A} (u : reader A) : reader (list A) := fun r =>
  let! (n, r) := UnpackLength r in
  unpack_elems u (Z.to_nat n) r.

(** ** Readers *)

Create HintDb codec.

Lemma reads_io (bs : list byte) : reads (io_read (length bs)) bs bs.
Proof. intros r. unfold io_read. by rewrite read_full_app. Qed.

Lemma reads_bind {A B} (u : reader A) (k : A -> reader B) a v bs cs :
  reads u bs a -> reads (k a) cs v ->
  reads (fun r => let! (x, r) := u r in k x r) (bs ++ cs) v.
Proof. intros Hu Hk r. rewrite <-app_assoc, Hu. apply Hk. Qed.

Lemma reads_ret {A} (v : A) : reads (fun r => Ok (v, r)) [] v.
Proof. done. Qed.

(** The last step of a reader that builds a value from what it has read. *)
Lemma reads_map {A B} (u : reader A) (f : A -> B) a bs :
  reads u bs a -> reads (fun r => let! (x, r) := u r in Ok (f x, r)) bs (f a).
Proof. intros Hu r. by rewrite Hu. Qed.

Lemma framed_io n : framed (io_read n).
Proof.
  intros r v r' H. unfold io_read in H.
  destruct (read_full n r) as [[a r'']| |] eqn:E; simplify_eq.
  apply read_full_Ok in E as [-> <-]. eexists; split; [done|apply reads_io].
Qed.

Lemma framed_ret {A} (v : A) : framed (fun r => Ok (v, r)).
Proof. intros r v' r' H. simplify_eq. by exists []. Qed.

Lemma framed_bind {A B} (u : reader A) (k : A -> reader B) :
  framed u -> (forall a, framed (k a)) ->
  framed (fun r => let! (x, r) := u r in k x r).
Proof.
  intros Hu Hk r v r' H.
  destruct (u r) as [[a r1]| |] eqn:E; simplify_eq/=.
  destruct (Hu _ _ _ E) as (used & -> & Hused).
  destruct (Hk _ _ _ _ H) as (used' & -> & Hused').
  exists (used ++ used'). rewrite app_assoc. eauto using reads_bind.
Qed.

Lemma framed_err {A} (e : bincode_error) : @framed A (fun _ => Err e).
Proof. by intros r v r' H. Qed.

#[export] Hint Resolve framed_io framed_ret framed_err : codec.

(** Splits a reader at its binds and closes the parts with the database. *)
Ltac solve_framed :=
  repeat (intros; first
    [ solve [auto with codec nocore] | assumption
    | apply framed_io | apply framed_ret
    | match goal with H : forall x, framed _ |- _ => apply H end
    | apply framed_bind ]).

(** ** Scalars *)

Lemma PackScalar_Ok k x :
  PackScalar k x = Ok (le_bytes (scalar_size k)
    (match k return scalar_type k -> Z with
     | KBool => fun b => if b : bool then 1 else 0
     | _ => fun z => z end x)).
Proof. by destruct k. Qed.

Lemma reads_scalar k x bs :
  scalar_wf k x -> PackScalar k x = Ok bs -> reads (UnpackScalar k) bs x.
Proof.
  rewrite PackScalar_Ok. intros Hwf [= <-] r. unfold UnpackScalar, io_read.
  rewrite read_full_app by apply length_le_bytes. cbn.
  destruct k; cbn [scalar_size scalar_wf] in *.
  - by destruct x.
  - by rewrite le_val_bytes_u8.
  - by rewrite le_val_bytes_u16.
  - by rewrite le_val_bytes_u32.
  - by rewrite le_val_bytes_u64.
Qed.

Lemma framed_scalar k : framed (UnpackScalar k).
Proof. unfold UnpackScalar. solve_framed. Qed.
#[export] Hint Resolve framed_scalar : codec.
#[export] Hint Extern 1 (framed (UnpackScalar _)) => apply framed_scalar : codec.

(** ** Byte strings, lengths and blobs *)

Lemma zlen_nonneg {A} (l : list A) : 0 <= zlen l.
Proof. unfold zlen. lia. Qed.

(** A length prefix followed by that many bytes. *)
Lemma reads_prefixed k (conv : scalar_type k -> Z) bs pre n :
  scalar_wf k n -> PackScalar k n = Ok pre -> Z.to_nat (conv n) = length bs ->
  reads (fun r => let! (l, r) := UnpackScalar k r in io_read (Z.to_nat (conv l)) r) (pre ++ bs) bs.
Proof.
  intros Hwf Hp Hn. apply (reads_bind (UnpackScalar k) (fun l => io_read (Z.to_nat (conv l))) n).
  - by apply reads_scalar.
  - rewrite Hn. apply reads_io.
Qed.

Lemma reads_bytes bs out : PackBytes bs = Ok out -> reads UnpackBytes out bs.
Proof.
  unfold PackBytes. case_decide as Hlen; [done|]. intros H.
  pose proof (zlen_nonneg bs). unfold MaxUint8, zlen in *.
  rewrite PackScalar_Ok in H. inv_ok H.
  apply (reads_prefixed KU8 (fun z => z) bs _ (wrap8 (Z.of_nat (length bs)))); cbn [scalar_wf].
  - apply Z.mod_pos_bound. lia.
  - done.
  - unfold wrap8. rewrite Z.mod_small; lia.
Qed.

Lemma reads_string bs out : PackBytes bs = Ok out -> reads UnpackString out bs.
Proof. intros H r. unfold UnpackString. by rewrite (reads_bytes _ _ H). Qed.

Lemma reads_blob bs out : PackBlob bs = Ok out -> reads UnpackBlob out bs.
Proof.
  unfold PackBlob. case_decide as Hlen; [done|]. intros H.
  pose proof (zlen_nonneg bs). unfold MaxUint16, zlen in *.
  rewrite PackScalar_Ok in H. inv_ok H.
  apply (reads_prefixed KU16 (fun z => z) bs _ (wrap16 (Z.of_nat (length bs)))); cbn [scalar_wf].
  - apply Z.mod_pos_bound. lia.
  - done.
  - unfold wrap16. rewrite Z.mod_small; lia.
Qed.

Lemma reads_length l out : PackLength l = Ok out -> reads UnpackLength out l.
Proof.
  unfold PackLength. case_decide as Hl; [done|]. intros H.
  assert (is_u16 l) by (unfold is_u16, MaxUint16 in *; lia).
  unfold wrap16 in H. rewrite Z.mod_small in H by done.
  intros r. unfold UnpackLength. by rewrite (reads_scalar KU16 _ _ H0 H).
Qed.

Lemma PackLength32_range l out : PackLength32 l = Ok out -> l < 2 ^ 63 -> is_u32 l.
Proof.
  unfold PackLength32, wrap64. case_decide as Hl; [done|]. intros _ H63.
  rewrite Z.mod_small in Hl by lia. unfold is_u32, MaxUint32 in *. lia.
Qed.

Lemma reads_length32 l out : l < 2 ^ 63 -> PackLength32 l = Ok out -> reads UnpackLength32 out l.
Proof.
  intros H63 H. pose proof (PackLength32_range _ _ H H63) as Hl.
  unfold PackLength32 in H. case_decide; [done|].
  unfold wrap32 in H. rewrite Z.mod_small in H by done.
  intros r. unfold UnpackLength32. by rewrite (reads_scalar KU32 _ _ Hl H).
Qed.

Lemma reads_blob32 bs out :
  zlen bs < 2 ^ 63 -> PackBlob32 bs = Ok out -> reads UnpackBlob32 out bs.
Proof.
  unfold PackBlob32. intros H63 H.
  destruct (PackLength32 (zlen bs)) as [pre| |] eqn:E; simplify_eq/=.
  apply (reads_bind UnpackLength32 (fun l => io_read (Z.to_nat l)) (zlen bs)).
  - by apply reads_length32.
  - unfold zlen. rewrite Nat2Z.id. apply reads_io.
Qed.

Lemma reads_fixed l zero bs out :
  zlen zero = l -> zlen bs = l -> PackFixedBytes l bs = Ok out -> reads (UnpackFixedBytes l zero) out bs.
Proof.
  unfold PackFixedBytes, UnpackFixedBytes. intros Hz Hb.
  case_decide; [|done]. intros [= <-] r. case_decide; [|done].
  assert (length zero = length bs) as -> by (unfold zlen in *; lia).
  apply reads_io.
Qed.

Lemma framed_fixed l zero : framed (UnpackFixedBytes l zero).
Proof. unfold UnpackFixedBytes. case_decide; [apply framed_io|by intros ???]. Qed.
#[export] Hint Resolve framed_fixed : codec.

Lemma framed_bytes : framed UnpackBytes.
Proof. unfold UnpackBytes. solve_framed. Qed.
Lemma framed_string : framed UnpackString.
Proof. unfold UnpackString. pose proof framed_bytes. solve_framed. Qed.
Lemma framed_blob : framed UnpackBlob.
Proof. unfold UnpackBlob. solve_framed. Qed.
Lemma framed_length : framed UnpackLength.
Proof. unfold UnpackLength. solve_framed. Qed.
Lemma framed_length32 : framed UnpackLength32.
Proof. unfold UnpackLength32. solve_framed. Qed.
#[export] Hint Resolve framed_bytes framed_string framed_blob framed_length framed_length32 : codec.
Lemma framed_blob32 : framed UnpackBlob32.
Proof. unfold UnpackBlob32. solve_framed. Qed.
#[export] Hint Resolve framed_blob32 : codec.

(** ** Slices of messages *)

Lemma reads_elems {A} (p : A -> writer) (u : reader A) (wf : A -> Prop) l out :
  (forall v bs, wf v -> p v = Ok bs -> reads u bs v) -> Forall wf l ->
  pack_elems p l = Ok out -> reads (unpack_elems u (length l)) out l.
Proof.
  intros Hp Hl. revert out. induction Hl as [|x l Hx Hl IH]; intros out H.
  - simplify_eq/=. apply reads_ret.
  - cbn [pack_elems] in H.
    destruct (p x) as [bs| |] eqn:E1; try done.
    destruct (pack_elems p l) as [rest| |] eqn:E2; simplify_eq/=.
    eapply (reads_bind u (fun x r => let! (l, r) := unpack_elems u (length l) r in Ok (x :: l, r)) x).
    + by apply Hp.
    + apply (reads_map _ (cons x)). by apply IH.
Qed.

Lemma reads_slice {A} (p : A -> writer) (u : reader A) (wf : A -> Prop) l out :
  (forall v bs, wf v -> p v = Ok bs -> reads u bs v) -> Forall wf l ->
  pack_slice p l = Ok out -> reads (unpack_slice u) out l.
Proof.
  intros Hp Hl. unfold pack_slice. intros H.
  destruct (PackLength (zlen l)) as [pre| |] eqn:E1; try done.
  destruct (pack_elems p l) as [es| |] eqn:E2; simplify_eq/=.
  apply (reads_bind UnpackLength (fun n => unpack_elems u (Z.to_nat n)) (zlen l)).
  - by apply reads_length.
  - unfold zlen. rewrite Nat2Z.id. by eapply reads_elems.
Qed.

Lemma framed_elems {A} (u : reader A) n : framed u -> framed (unpack_elems u n).
Proof.
  intros Hu. induction n as [|n IH]; cbn [unpack_elems]; solve_framed.
Qed.

Lemma framed_slice {A} (u : reader A) : framed u -> framed (unpack_slice u).
Proof. intros Hu. pose proof (fun n => framed_elems u n Hu). unfold unpack_slice. solve_framed. Qed.
#[export] Hint Resolve framed_slice : codec.

(** ** Whole messages *)

(** [Pack] and [Unpack] of a lawful message type: what was packed is unpacked,
    more bytes than that are reported as leftovers, and no message cut short
    unpacks at all. *)
Section Whole.
Context {A : Type} `{HP : Packable A, HU : Unpackable A} {wf : A -> Prop}.
Context `{HC : !LawfulCodec A wf}.

Lemma unpack_cut v bs pre suf v' r :
  wf v -> Pack v = Ok bs -> bs = pre ++ suf -> suf <> [] -> unpack pre <> Ok (v', r).
Proof.
  intros Hwf HPk -> Hsuf Hcut.
  destruct (unpack_framed _ _ _ Hcut) as (used & -> & Hused).
  pose proof (pack_reads _ _ Hwf HPk []) as Hall.
  rewrite app_nil_r, <-app_assoc, (Hused (r ++ suf)) in Hall.
  injection Hall as _ Hnil. by apply app_nil in Hnil as [_ ->].
Qed.

End Whole.

(** The length prefixes are exact: byte strings are accepted up to 255
    bytes, blobs up to 65535, 32-bit blobs up to 4294967295, and lengths in
    their ranges, each longer one being the error of its function and no other
    outcome; and whatever is accepted is read back. *)
Theorem length_prefix_bounds (bs : list byte) (l : Z) :
  zlen bs < 2 ^ 63 -> l < 2 ^ 63 ->
  (if decide (zlen bs <= 255) then exists out, PackBytes bs = Ok out /\ reads UnpackBytes out bs
   else PackBytes bs = Err (ErrBytesTooLong (zlen bs))) /\
  (if decide (zlen bs <= 65535) then exists out, PackBlob bs = Ok out /\ reads UnpackBlob out bs
   else PackBlob bs = Err (ErrBlobTooLong (zlen bs))) /\
  (if decide (zlen bs <= 4294967295) then exists out, PackBlob32 bs = Ok out /\ reads UnpackBlob32 out bs
   else PackBlob32 bs = Err (ErrLengthRange (zlen bs))) /\
  (if decide (0 <= l <= 65535) then exists out, PackLength l = Ok out /\ reads UnpackLength out l
   else PackLength l = Err (ErrLengthRange l)) /\
  (if decide (0 <= l <= 4294967295) then exists out, PackLength32 l = Ok out /\ reads UnpackLength32 out l
   else PackLength32 l = Err (ErrLengthRange l)).
Proof.
  intros Hb Hl. pose proof (zlen_nonneg bs) as H0.
  assert (forall z, 0 <= z < 2 ^ 63 -> wrap64 z = z) as Hw by (intros; apply Z.mod_small; lia).
  split_and!; case_decide as Hd.
  - eexists. split; [unfold PackBytes; rewrite decide_False by (unfold MaxUint8; lia); done|].
    apply reads_bytes. unfold PackBytes. by rewrite decide_False by (unfold MaxUint8; lia).
  - unfold PackBytes. by rewrite decide_True by (unfold MaxUint8; lia).
  - eexists. split; [unfold PackBlob; rewrite decide_False by (unfold MaxUint16; lia); done|].
    apply reads_blob. unfold PackBlob. by rewrite decide_False by (unfold MaxUint16; lia).
  - unfold PackBlob. by rewrite decide_True by (unfold MaxUint16; lia).
  - assert (exists out, PackBlob32 bs = Ok out) as [out Ho].
    { unfold PackBlob32, PackLength32. rewrite Hw by lia.
      rewrite decide_False by (unfold MaxUint32; lia). by eexists. }
    exists out. eauto using reads_blob32.
  - unfold PackBlob32, PackLength32. rewrite Hw by lia.
    by rewrite decide_True by (unfold MaxUint32; lia).
  - eexists. split; [unfold PackLength; rewrite decide_False by (unfold MaxUint16; lia); done|].
    apply reads_length. unfold PackLength. by rewrite decide_False by (unfold MaxUint16; lia).
  - unfold PackLength. by rewrite decide_True by (unfold MaxUint16; lia).
  - assert (exists out, PackLength32 l = Ok out) as [out Ho].
    { unfold PackLength32. rewrite Hw by lia.
      rewrite decide_False by (unfold MaxUint32; lia). by eexists. }
    exists out. eauto using reads_length32.
  - unfold PackLength32. destruct (decide (l < 0)); [by rewrite decide_True by lia|].
    rewrite Hw by lia. by rewrite decide_True by (unfold MaxUint32; lia).
Qed.

Lemma length_prefix_bounds_witness :
  (exists out, PackBytes [Byte.x41; Byte.x42] = Ok out /\ reads UnpackBytes out [Byte.x41; Byte.x42]) /\
  PackLength 65536 = Err (ErrLengthRange 65536).
Proof.
  destruct (length_prefix_bounds [Byte.x41; Byte.x42] 65536) as (H1 & _ & _ & H4 & _);
    [vm_compute; reflexivity | lia | split; [exact H1 | exact H4]].
Defined.
