(* ===== verification/Messages.v ===== *)
(** Protocol messages and their wire format: the message types of
    src/go/msgs/msgs.go and their generated [Pack] and [Unpack] methods in
    src/go/msgs/msgs_bincode.go.

    The messages modelled are the directory listing exchange (edges, cursors,
    FULL_READ_DIR), the directory policies, the fetched spans with their
    storage-class union, and the block write and erase requests. Each is a
    [LawfulCodec]: what [Pack] writes, [Unpack] reads back. A Go string is its
    list of bytes. *)

From Stdlib Require Import ZArith Lia.
From stdpp Require Import base numbers option list.
From S2P Require Import Prelude Bincode.

(** ** Message types *)

Record Edge := mkEdge {
  Edge_Current : bool;
  Edge_TargetId : Z; (* InodeIdExtra *)
  Edge_NameHash : Z;
  Edge_Name : list byte;
  Edge_CreationTime : Z; (* TernTime *)
}.

Record FullReadDirReq := mkFullReadDirReq {
  FullReadDirReq_DirId : Z;
  FullReadDirReq_Flags : Z;
  FullReadDirReq_StartName : list byte;
  FullReadDirReq_StartTime : Z;
  FullReadDirReq_Limit : Z;
  FullReadDirReq_Mtu : Z;
}.

Record FullReadDirCursor := mkFullReadDirCursor {
  FullReadDirCursor_Current : bool;
  FullReadDirCursor_StartName : list byte;
  FullReadDirCursor_StartTime : Z;
}.

Record FullReadDirResp := mkFullReadDirResp {
  FullReadDirResp_Next : FullReadDirCursor;
  FullReadDirResp_Results : list Edge;
}.

Record SnapshotPolicy := mkSnapshotPolicy {
  SnapshotPolicy_DeleteAfterTime : Z;
  SnapshotPolicy_DeleteAfterVersions : Z;
}.

Record BlockPolicyEntry := mkBlockPolicyEntry {
  BlockPolicyEntry_StorageClass : Z;
  BlockPolicyEntry_MinSize : Z;
}.

Record SpanPolicyEntry := mkSpanPolicyEntry {
  SpanPolicyEntry_MaxSize : Z;
  SpanPolicyEntry_Parity : Z;
}.

Record BlockPolicy := mkBlockPolicy { BlockPolicy_Entries : list BlockPolicyEntry }.
Record SpanPolicy := mkSpanPolicy { SpanPolicy_Entries : list SpanPolicyEntry }.
Record StripePolicy := mkStripePolicy { StripePolicy_TargetStripeSize : Z }.

Record DirectoryInfoEntry := mkDirectoryInfoEntry {
  DirectoryInfoEntry_Tag : Z;
  DirectoryInfoEntry_Body : list byte;
}.
Record DirectoryInfo := mkDirectoryInfo { DirectoryInfo_Entries : list DirectoryInfoEntry }.

Record FetchedBlock := mkFetchedBlock {
  FetchedBlock_BlockServiceIx : Z;
  FetchedBlock_BlockId : Z;
  FetchedBlock_Crc : Z;
}.

Record FetchedInlineSpan := mkFetchedInlineSpan { FetchedInlineSpan_Body : list byte }.

Record FetchedBlocksSpan := mkFetchedBlocksSpan {
  FetchedBlocksSpan_Parity : Z;
  FetchedBlocksSpan_Stripes : Z;
  FetchedBlocksSpan_CellSize : Z;
  FetchedBlocksSpan_Blocks : list FetchedBlock;
  FetchedBlocksSpan_StripesCrc : list Z;
}.

Record FetchedSpanHeader := mkFetchedSpanHeader {
  FetchedSpanHeader_ByteOffset : Z;
  FetchedSpanHeader_Size : Z;
  FetchedSpanHeader_Crc : Z;
  FetchedSpanHeader_StorageClass : Z;
}.

(** The dynamic type of [IsFetchedSpanBody] in a [FetchedSpan]. *)
Inductive FetchedSpanBody :=
| BlocksBody (b : FetchedBlocksSpan)
| InlineBody (b : FetchedInlineSpan).

Record FetchedSpan := mkFetchedSpan {
  FetchedSpan_Header : FetchedSpanHeader;
  FetchedSpan_Body : option FetchedSpanBody; (* None: a nil interface *)
}.

Record WriteBlockReq := mkWriteBlockReq {
  WriteBlockReq_BlockId : Z;
  WriteBlockReq_Crc : Z;
  WriteBlockReq_Size : Z;
  WriteBlockReq_Certificate : list byte; (* [8]byte *)
}.

Record EraseBlockReq := mkEraseBlockReq {
  EraseBlockReq_BlockId : Z;
  EraseBlockReq_Certificate : list byte; (* [8]byte *)
}.

Definition EMPTY_STORAGE : Z := 0.
Definition INLINE_STORAGE : Z := 1.
Definition HDD_STORAGE : Z := 2.
Definition FLASH_STORAGE : Z := 3.

(** ** Values the Go field types allow *)

Definition Edge_wf (v : Edge) : Prop :=
  is_u64 (Edge_TargetId v) /\ is_u64 (Edge_NameHash v) /\ is_u64 (Edge_CreationTime v).
Definition FullReadDirReq_wf (v : FullReadDirReq) : Prop :=
  is_u64 (FullReadDirReq_DirId v) /\ is_u8 (FullReadDirReq_Flags v) /\
  is_u64 (FullReadDirReq_StartTime v) /\ is_u16 (FullReadDirReq_Limit v) /\
  is_u16 (FullReadDirReq_Mtu v).
Definition FullReadDirCursor_wf (v : FullReadDirCursor) : Prop :=
  is_u64 (FullReadDirCursor_StartTime v).
Definition FullReadDirResp_wf (v : FullReadDirResp) : Prop :=
  FullReadDirCursor_wf (FullReadDirResp_Next v) /\ Forall Edge_wf (FullReadDirResp_Results v).
Definition SnapshotPolicy_wf (v : SnapshotPolicy) : Prop :=
  is_u64 (SnapshotPolicy_DeleteAfterTime v) /\ is_u16 (SnapshotPolicy_DeleteAfterVersions v).
Definition BlockPolicyEntry_wf (v : BlockPolicyEntry) : Prop :=
  is_u8 (BlockPolicyEntry_StorageClass v) /\ is_u32 (BlockPolicyEntry_MinSize v).
Definition SpanPolicyEntry_wf (v : SpanPolicyEntry) : Prop :=
  is_u32 (SpanPolicyEntry_MaxSize v) /\ is_u8 (SpanPolicyEntry_Parity v).
Definition BlockPolicy_wf (v : BlockPolicy) : Prop := Forall BlockPolicyEntry_wf (BlockPolicy_Entries v).
Definition SpanPolicy_wf (v : SpanPolicy) : Prop := Forall SpanPolicyEntry_wf (SpanPolicy_Entries v).
Definition StripePolicy_wf (v : StripePolicy) : Prop := is_u32 (StripePolicy_TargetStripeSize v).
Definition DirectoryInfoEntry_wf (v : DirectoryInfoEntry) : Prop := is_u8 (DirectoryInfoEntry_Tag v).
Definition DirectoryInfo_wf (v : DirectoryInfo) : Prop :=
  Forall DirectoryInfoEntry_wf (DirectoryInfo_Entries v).
Definition FetchedBlock_wf (v : FetchedBlock) : Prop :=
  is_u8 (FetchedBlock_BlockServiceIx v) /\ is_u64 (FetchedBlock_BlockId v) /\ is_u32 (FetchedBlock_Crc v).
Definition FetchedBlocksSpan_wf (v : FetchedBlocksSpan) : Prop :=
  is_u8 (FetchedBlocksSpan_Parity v) /\ is_u8 (FetchedBlocksSpan_Stripes v) /\
  is_u32 (FetchedBlocksSpan_CellSize v) /\ Forall FetchedBlock_wf (FetchedBlocksSpan_Blocks v) /\
  Forall is_u32 (FetchedBlocksSpan_StripesCrc v).
Definition FetchedSpanHeader_wf (v : FetchedSpanHeader) : Prop :=
  is_u64 (FetchedSpanHeader_ByteOffset v) /\ is_u32 (FetchedSpanHeader_Size v) /\
  is_u32 (FetchedSpanHeader_Crc v) /\ is_u8 (FetchedSpanHeader_StorageClass v).
Definition FetchedSpan_wf (v : FetchedSpan) : Prop :=
  FetchedSpanHeader_wf (FetchedSpan_Header v) /\
  match FetchedSpan_Body v with
  | Some (BlocksBody b) => FetchedBlocksSpan_wf b
  | _ => True
  end.
Definition WriteBlockReq_wf (v : WriteBlockReq) : Prop :=
  is_u64 (WriteBlockReq_BlockId v) /\ is_u32 (WriteBlockReq_Crc v) /\
  is_u32 (WriteBlockReq_Size v) /\ length (WriteBlockReq_Certificate v) = 8%nat.
Definition EraseBlockReq_wf (v : EraseBlockReq) : Prop :=
  is_u64 (EraseBlockReq_BlockId v) /\ length (EraseBlockReq_Certificate v) = 8%nat.

(** ** Pack and Unpack *)

(** A [[8]byte] field of a fresh message. *)
Definition zero8 : list byte := replicate 8 Byte.x00.

Definition pack_Edge (v : Edge) : writer :=
  let! a := PackScalar KBool (Edge_Current v) in
  let! b := PackScalar KU64 (Edge_TargetId v) in
  let! c := PackScalar KU64 (Edge_NameHash v) in
  let! d := PackBytes (Edge_Name v) in
  let! e := PackScalar KU64 (Edge_CreationTime v) in
  Ok (a ++ b ++ c ++ d ++ e).

Definition unpack_Edge : reader Edge := fun r =>
  let! (a, r) := UnpackScalar KBool r in
  let! (b, r) := UnpackScalar KU64 r in
  let! (c, r) := UnpackScalar KU64 r in
  let! (d, r) := UnpackString r in
  let! (e, r) := UnpackScalar KU64 r in
  Ok (mkEdge a b c d e, r).

Definition pack_FullReadDirReq (v : FullReadDirReq) : writer :=
  let! a := PackScalar KU64 (FullReadDirReq_DirId v) in
  let! b := PackScalar KU8 (FullReadDirReq_Flags v) in
  let! c := PackBytes (FullReadDirReq_StartName v) in
  let! d := PackScalar KU64 (FullReadDirReq_StartTime v) in
  let! e := PackScalar KU16 (FullReadDirReq_Limit v) in
  let! f := PackScalar KU16 (FullReadDirReq_Mtu v) in
  Ok (a ++ b ++ c ++ d ++ e ++ f).

Definition unpack_FullReadDirReq : reader FullReadDirReq := fun r =>
  let! (a, r) := UnpackScalar KU64 r in
  let! (b, r) := UnpackScalar KU8 r in
  let! (c, r) := UnpackString r in
  let! (d, r) := UnpackScalar KU64 r in
  let! (e, r) := UnpackScalar KU16 r in
  let! (f, r) := UnpackScalar KU16 r in
  Ok (mkFullReadDirReq a b c d e f, r).

Definition pack_FullReadDirCursor (v : FullReadDirCursor) : writer :=
  let! a := PackScalar KBool (FullReadDirCursor_Current v) in
  let! b := PackBytes (FullReadDirCursor_StartName v) in
  let! c := PackScalar KU64 (FullReadDirCursor_StartTime v) in
  Ok (a ++ b ++ c).

Definition unpack_FullReadDirCursor : reader FullReadDirCursor := fun r =>
  let! (a, r) := UnpackScalar KBool r in
  let! (b, r) := UnpackString r in
  let! (c, r) := UnpackScalar KU64 r in
  Ok (mkFullReadDirCursor a b c, r).

Definition pack_FullReadDirResp (v : FullReadDirResp) : writer :=
  let! a := pack_FullReadDirCursor (FullReadDirResp_Next v) in
  let! b := pack_slice pack_Edge (FullReadDirResp_Results v) in
  Ok (a ++ b).

Definition unpack_FullReadDirResp : reader FullReadDirResp := fun r =>
  let! (a, r) := unpack_FullReadDirCursor r in
  let! (b, r) := unpack_slice unpack_Edge r in
  Ok (mkFullReadDirResp a b, r).

Definition pack_SnapshotPolicy (v : SnapshotPolicy) : writer :=
  let! a := PackScalar KU64 (SnapshotPolicy_DeleteAfterTime v) in
  let! b := PackScalar KU16 (SnapshotPolicy_DeleteAfterVersions v) in
  Ok (a ++ b).

Definition unpack_SnapshotPolicy : reader SnapshotPolicy := fun r =>
  let! (a, r) := UnpackScalar KU64 r in
  let! (b, r) := UnpackScalar KU16 r in
  Ok (mkSnapshotPolicy a b, r).

Definition pack_BlockPolicyEntry (v : BlockPolicyEntry) : writer :=
  let! a := PackScalar KU8 (BlockPolicyEntry_StorageClass v) in
  let! b := PackScalar KU32 (BlockPolicyEntry_MinSize v) in
  Ok (a ++ b).

Definition unpack_BlockPolicyEntry : reader BlockPolicyEntry := fun r =>
  let! (a, r) := UnpackScalar KU8 r in
  let! (b, r) := UnpackScalar KU32 r in
  Ok (mkBlockPolicyEntry a b, r).

Definition pack_SpanPolicyEntry (v : SpanPolicyEntry) : writer :=
  let! a := PackScalar KU32 (SpanPolicyEntry_MaxSize v) in
  let! b := PackScalar KU8 (SpanPolicyEntry_Parity v) in
  Ok (a ++ b).

Definition unpack_SpanPolicyEntry : reader SpanPolicyEntry := fun r =>
  let! (a, r) := UnpackScalar KU32 r in
  let! (b, r) := UnpackScalar KU8 r in
  Ok (mkSpanPolicyEntry a b, r).

Definition pack_StripePolicy (v : StripePolicy) : writer :=
  PackScalar KU32 (StripePolicy_TargetStripeSize v).

Definition unpack_StripePolicy : reader StripePolicy := fun r =>
  let! (a, r) := UnpackScalar KU32 r in
  Ok (mkStripePolicy a, r).

Definition pack_BlockPolicy (v : BlockPolicy) : writer :=
  pack_slice pack_BlockPolicyEntry (BlockPolicy_Entries v).

Definition unpack_BlockPolicy : reader BlockPolicy := fun r =>
  let! (a, r) := unpack_slice unpack_BlockPolicyEntry r in
  Ok (mkBlockPolicy a, r).

Definition pack_SpanPolicy (v : SpanPolicy) : writer :=
  pack_slice pack_SpanPolicyEntry (SpanPolicy_Entries v).

Definition unpack_SpanPolicy : reader SpanPolicy := fun r =>
  let! (a, r) := unpack_slice unpack_SpanPolicyEntry r in
  Ok (mkSpanPolicy a, r).

Definition pack_DirectoryInfoEntry (v : DirectoryInfoEntry) : writer :=
  let! a := PackScalar KU8 (DirectoryInfoEntry_Tag v) in
  let! b := PackBytes (DirectoryInfoEntry_Body v) in
  Ok (a ++ b).

Definition unpack_DirectoryInfoEntry : reader DirectoryInfoEntry := fun r =>
  let! (a, r) := UnpackScalar KU8 r in
  let! (b, r) := UnpackBytes r in
  Ok (mkDirectoryInfoEntry a b, r).

Definition pack_DirectoryInfo (v : DirectoryInfo) : writer :=
  pack_slice pack_DirectoryInfoEntry (DirectoryInfo_Entries v).

Definition unpack_DirectoryInfo : reader DirectoryInfo := fun r =>
  let! (a, r) := unpack_slice unpack_DirectoryInfoEntry r in
  Ok (mkDirectoryInfo a, r).

Definition pack_FetchedBlock (v : FetchedBlock) : writer :=
  let! a := PackScalar KU8 (FetchedBlock_BlockServiceIx v) in
  let! b := PackScalar KU64 (FetchedBlock_BlockId v) in
  let! c := PackScalar KU32 (FetchedBlock_Crc v) in
  Ok (a ++ b ++ c).

Definition unpack_FetchedBlock : reader FetchedBlock := fun r =>
  let! (a, r) := UnpackScalar KU8 r in
  let! (b, r) := UnpackScalar KU64 r in
  let! (c, r) := UnpackScalar KU32 r in
  Ok (mkFetchedBlock a b c, r).

Definition pack_FetchedSpanHeader (v : FetchedSpanHeader) : writer :=
  let! a := PackScalar KU64 (FetchedSpanHeader_ByteOffset v) in
  let! b := PackScalar KU32 (FetchedSpanHeader_Size v) in
  let! c := PackScalar KU32 (FetchedSpanHeader_Crc v) in
  let! d := PackScalar KU8 (FetchedSpanHeader_StorageClass v) in
  Ok (a ++ b ++ c ++ d).

Definition unpack_FetchedSpanHeader : reader FetchedSpanHeader := fun r =>
  let! (a, r) := UnpackScalar KU64 r in
  let! (b, r) := UnpackScalar KU32 r in
  let! (c, r) := UnpackScalar KU32 r in
  let! (d, r) := UnpackScalar KU8 r in
  Ok (mkFetchedSpanHeader a b c d, r).

Definition pack_FetchedInlineSpan (v : FetchedInlineSpan) : writer :=
  PackBytes (FetchedInlineSpan_Body v).

Definition unpack_FetchedInlineSpan : reader FetchedInlineSpan := fun r =>
  let! (a, r) := UnpackBytes r in
  Ok (mkFetchedInlineSpan a, r).

Definition pack_FetchedBlocksSpan (v : FetchedBlocksSpan) : writer :=
  let! a := PackScalar KU8 (FetchedBlocksSpan_Parity v) in
  let! b := PackScalar KU8 (FetchedBlocksSpan_Stripes v) in
  let! c := PackScalar KU32 (FetchedBlocksSpan_CellSize v) in
  let! d := pack_slice pack_FetchedBlock (FetchedBlocksSpan_Blocks v) in
  let! e := pack_slice (PackScalar KU32) (FetchedBlocksSpan_StripesCrc v) in
  Ok (a ++ b ++ c ++ d ++ e).

Definition unpack_FetchedBlocksSpan : reader FetchedBlocksSpan := fun r =>
  let! (a, r) := UnpackScalar KU8 r in
  let! (b, r) := UnpackScalar KU8 r in
  let! (c, r) := UnpackScalar KU32 r in
  let! (d, r) := unpack_slice unpack_FetchedBlock r in
  let! (e, r) := unpack_slice (UnpackScalar KU32) r in
  Ok (mkFetchedBlocksSpan a b c d e, r).

(** The storage class in the header says which body follows. *)
Definition pack_FetchedSpan (v : FetchedSpan) : writer :=
  let class := FetchedSpanHeader_StorageClass (FetchedSpan_Header v) in
  if decide (class = EMPTY_STORAGE) then Err ErrMessage
  else
    let! h := pack_FetchedSpanHeader (FetchedSpan_Header v) in
    match FetchedSpan_Body v with
    | Some (BlocksBody b) =>
        if decide (class = INLINE_STORAGE) then Err ErrMessage
        else let! body := pack_FetchedBlocksSpan b in Ok (h ++ body)
    | Some (InlineBody b) =>
        if decide (class <> INLINE_STORAGE) then Err ErrMessage
        else let! body := pack_FetchedInlineSpan b in Ok (h ++ body)
    | None => Err ErrMessage
    end.

Definition unpack_FetchedSpan : reader FetchedSpan := fun r =>
  let! (h, r) := unpack_FetchedSpanHeader r in
  if decide (FetchedSpanHeader_StorageClass h = EMPTY_STORAGE) then Err ErrMessage
  else if decide (FetchedSpanHeader_StorageClass h = INLINE_STORAGE) then
    let! (b, r) := unpack_FetchedInlineSpan r in
    Ok (mkFetchedSpan h (Some (InlineBody b)), r)
  else
    let! (b, r) := unpack_FetchedBlocksSpan r in
    Ok (mkFetchedSpan h (Some (BlocksBody b)), r).

Definition pack_WriteBlockReq (v : WriteBlockReq) : writer :=
  let! a := PackScalar KU64 (WriteBlockReq_BlockId v) in
  let! b := PackScalar KU32 (WriteBlockReq_Crc v) in
  let! c := PackScalar KU32 (WriteBlockReq_Size v) in
  let! d := PackFixedBytes 8 (WriteBlockReq_Certificate v) in
  Ok (a ++ b ++ c ++ d).

Definition unpack_WriteBlockReq : reader WriteBlockReq := fun r =>
  let! (a, r) := UnpackScalar KU64 r in
  let! (b, r) := UnpackScalar KU32 r in
  let! (c, r) := UnpackScalar KU32 r in
  let! (d, r) := UnpackFixedBytes 8 zero8 r in
  Ok (mkWriteBlockReq a b c d, r).

Definition pack_EraseBlockReq (v : EraseBlockReq) : writer :=
  let! a := PackScalar KU64 (EraseBlockReq_BlockId v) in
  let! b := PackFixedBytes 8 (EraseBlockReq_Certificate v) in
  Ok (a ++ b).

Definition unpack_EraseBlockReq : reader EraseBlockReq := fun r =>
  let! (a, r) := UnpackScalar KU64 r in
  let! (b, r) := UnpackFixedBytes 8 zero8 r in
  Ok (mkEraseBlockReq a b, r).

#[export] Instance Edge_pack : Packable Edge := pack_Edge.
#[export] Instance Edge_unpack : Unpackable Edge := unpack_Edge.
#[export] Instance FullReadDirReq_pack : Packable FullReadDirReq := pack_FullReadDirReq.
#[export] Instance FullReadDirReq_unpack : Unpackable FullReadDirReq := unpack_FullReadDirReq.
#[export] Instance FullReadDirCursor_pack : Packable FullReadDirCursor := pack_FullReadDirCursor.
#[export] Instance FullReadDirCursor_unpack : Unpackable FullReadDirCursor := unpack_FullReadDirCursor.
#[export] Instance FullReadDirResp_pack : Packable FullReadDirResp := pack_FullReadDirResp.
#[export] Instance FullReadDirResp_unpack : Unpackable FullReadDirResp := unpack_FullReadDirResp.
#[export] Instance SnapshotPolicy_pack : Packable SnapshotPolicy := pack_SnapshotPolicy.
#[export] Instance SnapshotPolicy_unpack : Unpackable SnapshotPolicy := unpack_SnapshotPolicy.
#[export] Instance BlockPolicyEntry_pack : Packable BlockPolicyEntry := pack_BlockPolicyEntry.
#[export] Instance BlockPolicyEntry_unpack : Unpackable BlockPolicyEntry := unpack_BlockPolicyEntry.
#[export] Instance SpanPolicyEntry_pack : Packable SpanPolicyEntry := pack_SpanPolicyEntry.
#[export] Instance SpanPolicyEntry_unpack : Unpackable SpanPolicyEntry := unpack_SpanPolicyEntry.
#[export] Instance BlockPolicy_pack : Packable BlockPolicy := pack_BlockPolicy.
#[export] Instance BlockPolicy_unpack : Unpackable BlockPolicy := unpack_BlockPolicy.
#[export] Instance SpanPolicy_pack : Packable SpanPolicy := pack_SpanPolicy.
#[export] Instance SpanPolicy_unpack : Unpackable SpanPolicy := unpack_SpanPolicy.
#[export] Instance StripePolicy_pack : Packable StripePolicy := pack_StripePolicy.
#[export] Instance StripePolicy_unpack : Unpackable StripePolicy := unpack_StripePolicy.
#[export] Instance DirectoryInfoEntry_pack : Packable DirectoryInfoEntry := pack_DirectoryInfoEntry.
#[export] Instance DirectoryInfoEntry_unpack : Unpackable DirectoryInfoEntry := unpack_DirectoryInfoEntry.
#[export] Instance DirectoryInfo_pack : Packable DirectoryInfo := pack_DirectoryInfo.
#[export] Instance DirectoryInfo_unpack : Unpackable DirectoryInfo := unpack_DirectoryInfo.
#[export] Instance FetchedBlock_pack : Packable FetchedBlock := pack_FetchedBlock.
#[export] Instance FetchedBlock_unpack : Unpackable FetchedBlock := unpack_FetchedBlock.
#[export] Instance FetchedSpanHeader_pack : Packable FetchedSpanHeader := pack_FetchedSpanHeader.
#[export] Instance FetchedSpanHeader_unpack : Unpackable FetchedSpanHeader := unpack_FetchedSpanHeader.
#[export] Instance FetchedInlineSpan_pack : Packable FetchedInlineSpan := pack_FetchedInlineSpan.
#[export] Instance FetchedInlineSpan_unpack : Unpackable FetchedInlineSpan := unpack_FetchedInlineSpan.
#[export] Instance FetchedBlocksSpan_pack : Packable FetchedBlocksSpan := pack_FetchedBlocksSpan.
#[export] Instance FetchedBlocksSpan_unpack : Unpackable FetchedBlocksSpan := unpack_FetchedBlocksSpan.
#[export] Instance FetchedSpan_pack : Packable FetchedSpan := pack_FetchedSpan.
#[export] Instance FetchedSpan_unpack : Unpackable FetchedSpan := unpack_FetchedSpan.
#[export] Instance WriteBlockReq_pack : Packable WriteBlockReq := pack_WriteBlockReq.
#[export] Instance WriteBlockReq_unpack : Unpackable WriteBlockReq := unpack_WriteBlockReq.
#[export] Instance EraseBlockReq_pack : Packable EraseBlockReq := pack_EraseBlockReq.
#[export] Instance EraseBlockReq_unpack : Unpackable EraseBlockReq := unpack_EraseBlockReq.

(** ** Automation for message codecs *)

(** Takes the packing equation [H] of a message apart into the equations of
    its fields. *)
Ltac inv_pack H :=
  repeat match type of H with
  | mbind _ ?m = Ok _ =>
      let E := fresh "E" in
      destruct m as [?| |] eqn:E; cbn [mbind outcome_bind] in H; [|discriminate H|discriminate H]
  end;
  try match type of H with Ok _ = Ok _ => apply Ok_inj in H as <- end.

(** Turns the packing equation of each scalar and string field into what its
    reader gives; [learn_with] does so for a nested message. *)
Ltac learn_reads :=
  repeat match goal with
  | E : PackScalar _ _ = Ok _ |- _ => apply reads_scalar in E; [|cbn; assumption || done]
  | E : PackBytes _ = Ok _ |- _ => apply reads_bytes in E
  | E : PackFixedBytes 8 _ = Ok _ |- _ => apply (reads_fixed 8 zero8) in E; [|done|unfold zlen; lia]
  end.

Ltac learn_with lem :=
  match goal with
  | E : _ = Ok _ |- _ => apply lem in E; [|assumption..]
  | E : pack_slice _ _ = Ok _ |- _ => eapply (reads_slice _ _ _ _ _ lem) in E; [|assumption]
  end.

(** Runs a reader over the fields it has been told the values of. *)
Ltac replay_reads :=
  rewrite <-?app_assoc;
  repeat match goal with
  | E : reads ?u ?bs _ |- context [?u (?bs ++ ?r)] =>
      rewrite (E r); cbn [mbind outcome_bind]; clear E
  end.

Ltac close_codec :=
  replay_reads; match goal with |- _ = Ok (?v, _) => by destruct v end.

(** [open_codec wf p u]: from the packing of a message to the packings of its
    fields, with the reader unfolded. *)
Ltac open_codec wf p u :=
  let v := fresh "v" in let bs := fresh "bs" in let r := fresh "r" in
  let Hwf := fresh "Hwf" in let H := fresh "H" in
  intros v bs Hwf H r; unfold wf in Hwf; destruct_and?; unfold p in H; inv_pack H;
  unfold u, UnpackString; learn_reads.

(** ** The codecs *)

Lemma reads_Edge v bs : Edge_wf v -> pack_Edge v = Ok bs -> reads unpack_Edge bs v.
Proof. revert v bs. open_codec Edge_wf pack_Edge unpack_Edge. close_codec. Qed.
Lemma framed_Edge : framed unpack_Edge.
Proof. unfold unpack_Edge. solve_framed. Qed.
#[export] Hint Resolve framed_Edge : codec.
Lemma reads_FullReadDirReq v bs : FullReadDirReq_wf v -> pack_FullReadDirReq v = Ok bs -> reads unpack_FullReadDirReq bs v.
Proof. revert v bs. open_codec FullReadDirReq_wf pack_FullReadDirReq unpack_FullReadDirReq. close_codec. Qed.
Lemma framed_FullReadDirReq : framed unpack_FullReadDirReq.
Proof. unfold unpack_FullReadDirReq. solve_framed. Qed.
#[export] Hint Resolve framed_FullReadDirReq : codec.
Lemma reads_FullReadDirCursor v bs : FullReadDirCursor_wf v -> pack_FullReadDirCursor v = Ok bs -> reads unpack_FullReadDirCursor bs v.
Proof. revert v bs. open_codec FullReadDirCursor_wf pack_FullReadDirCursor unpack_FullReadDirCursor. close_codec. Qed.
Lemma framed_FullReadDirCursor : framed unpack_FullReadDirCursor.
Proof. unfold unpack_FullReadDirCursor. solve_framed. Qed.
#[export] Hint Resolve framed_FullReadDirCursor : codec.
Lemma reads_FullReadDirResp v bs : FullReadDirResp_wf v -> pack_FullReadDirResp v = Ok bs -> reads unpack_FullReadDirResp bs v.
Proof. revert v bs. open_codec FullReadDirResp_wf pack_FullReadDirResp unpack_FullReadDirResp. learn_with reads_FullReadDirCursor. learn_with reads_Edge. close_codec. Qed.
Lemma framed_FullReadDirResp : framed unpack_FullReadDirResp.
Proof. unfold unpack_FullReadDirResp. solve_framed. Qed.
#[export] Hint Resolve framed_FullReadDirResp : codec.
Lemma reads_SnapshotPolicy v bs : SnapshotPolicy_wf v -> pack_SnapshotPolicy v = Ok bs -> reads unpack_SnapshotPolicy bs v.
Proof. revert v bs. open_codec SnapshotPolicy_wf pack_SnapshotPolicy unpack_SnapshotPolicy. close_codec. Qed.
Lemma framed_SnapshotPolicy : framed unpack_SnapshotPolicy.
Proof. unfold unpack_SnapshotPolicy. solve_framed. Qed.
#[export] Hint Resolve framed_SnapshotPolicy : codec.
Lemma reads_BlockPolicyEntry v bs : BlockPolicyEntry_wf v -> pack_BlockPolicyEntry v = Ok bs -> reads unpack_BlockPolicyEntry bs v.
Proof. revert v bs. open_codec BlockPolicyEntry_wf pack_BlockPolicyEntry unpack_BlockPolicyEntry. close_codec. Qed.
Lemma framed_BlockPolicyEntry : framed unpack_BlockPolicyEntry.
Proof. unfold unpack_BlockPolicyEntry. solve_framed. Qed.
#[export] Hint Resolve framed_BlockPolicyEntry : codec.
Lemma reads_SpanPolicyEntry v bs : SpanPolicyEntry_wf v -> pack_SpanPolicyEntry v = Ok bs -> reads unpack_SpanPolicyEntry bs v.
Proof. revert v bs. open_codec SpanPolicyEntry_wf pack_SpanPolicyEntry unpack_SpanPolicyEntry. close_codec. Qed.
Lemma framed_SpanPolicyEntry : framed unpack_SpanPolicyEntry.
Proof. unfold unpack_SpanPolicyEntry. solve_framed. Qed.
#[export] Hint Resolve framed_SpanPolicyEntry : codec.
Lemma reads_BlockPolicy v bs : BlockPolicy_wf v -> pack_BlockPolicy v = Ok bs -> reads unpack_BlockPolicy bs v.
Proof. revert v bs. open_codec BlockPolicy_wf pack_BlockPolicy unpack_BlockPolicy. learn_with reads_BlockPolicyEntry. close_codec. Qed.
Lemma framed_BlockPolicy : framed unpack_BlockPolicy.
Proof. unfold unpack_BlockPolicy. solve_framed. Qed.
#[export] Hint Resolve framed_BlockPolicy : codec.
Lemma reads_SpanPolicy v bs : SpanPolicy_wf v -> pack_SpanPolicy v = Ok bs -> reads unpack_SpanPolicy bs v.
Proof. revert v bs. open_codec SpanPolicy_wf pack_SpanPolicy unpack_SpanPolicy. learn_with reads_SpanPolicyEntry. close_codec. Qed.
Lemma framed_SpanPolicy : framed unpack_SpanPolicy.
Proof. unfold unpack_SpanPolicy. solve_framed. Qed.
#[export] Hint Resolve framed_SpanPolicy : codec.
Lemma reads_StripePolicy v bs : StripePolicy_wf v -> pack_StripePolicy v = Ok bs -> reads unpack_StripePolicy bs v.
Proof. revert v bs. open_codec StripePolicy_wf pack_StripePolicy unpack_StripePolicy. close_codec. Qed.
Lemma framed_StripePolicy : framed unpack_StripePolicy.
Proof. unfold unpack_StripePolicy. solve_framed. Qed.
#[export] Hint Resolve framed_StripePolicy : codec.
Lemma reads_DirectoryInfoEntry v bs : DirectoryInfoEntry_wf v -> pack_DirectoryInfoEntry v = Ok bs -> reads unpack_DirectoryInfoEntry bs v.
Proof. revert v bs. open_codec DirectoryInfoEntry_wf pack_DirectoryInfoEntry unpack_DirectoryInfoEntry. close_codec. Qed.
Lemma framed_DirectoryInfoEntry : framed unpack_DirectoryInfoEntry.
Proof. unfold unpack_DirectoryInfoEntry. solve_framed. Qed.
#[export] Hint Resolve framed_DirectoryInfoEntry : codec.
Lemma reads_DirectoryInfo v bs : DirectoryInfo_wf v -> pack_DirectoryInfo v = Ok bs -> reads unpack_DirectoryInfo bs v.
Proof. revert v bs. open_codec DirectoryInfo_wf pack_DirectoryInfo unpack_DirectoryInfo. learn_with reads_DirectoryInfoEntry. close_codec. Qed.
Lemma framed_DirectoryInfo : framed unpack_DirectoryInfo.
Proof. unfold unpack_DirectoryInfo. solve_framed. Qed.
#[export] Hint Resolve framed_DirectoryInfo : codec.
Lemma reads_FetchedBlock v bs : FetchedBlock_wf v -> pack_FetchedBlock v = Ok bs -> reads unpack_FetchedBlock bs v.
Proof. revert v bs. open_codec FetchedBlock_wf pack_FetchedBlock unpack_FetchedBlock. close_codec. Qed.
Lemma framed_FetchedBlock : framed unpack_FetchedBlock.
Proof. unfold unpack_FetchedBlock. solve_framed. Qed.
#[export] Hint Resolve framed_FetchedBlock : codec.
Lemma reads_FetchedSpanHeader v bs : FetchedSpanHeader_wf v -> pack_FetchedSpanHeader v = Ok bs -> reads unpack_FetchedSpanHeader bs v.
Proof. revert v bs. open_codec FetchedSpanHeader_wf pack_FetchedSpanHeader unpack_FetchedSpanHeader. close_codec. Qed.
Lemma framed_FetchedSpanHeader : framed unpack_FetchedSpanHeader.
Proof. unfold unpack_FetchedSpanHeader. solve_framed. Qed.
#[export] Hint Resolve framed_FetchedSpanHeader : codec.
Lemma reads_FetchedBlocksSpan v bs : FetchedBlocksSpan_wf v -> pack_FetchedBlocksSpan v = Ok bs -> reads unpack_FetchedBlocksSpan bs v.
Proof. revert v bs. open_codec FetchedBlocksSpan_wf pack_FetchedBlocksSpan unpack_FetchedBlocksSpan. learn_with reads_FetchedBlock. learn_with (reads_scalar KU32). close_codec. Qed.
Lemma framed_FetchedBlocksSpan : framed unpack_FetchedBlocksSpan.
Proof. unfold unpack_FetchedBlocksSpan. solve_framed. Qed.
#[export] Hint Resolve framed_FetchedBlocksSpan : codec.
Lemma reads_WriteBlockReq v bs : WriteBlockReq_wf v -> pack_WriteBlockReq v = Ok bs -> reads unpack_WriteBlockReq bs v.
Proof. revert v bs. open_codec WriteBlockReq_wf pack_WriteBlockReq unpack_WriteBlockReq. close_codec. Qed.
Lemma framed_WriteBlockReq : framed unpack_WriteBlockReq.
Proof. unfold unpack_WriteBlockReq. solve_framed. Qed.
#[export] Hint Resolve framed_WriteBlockReq : codec.
Lemma reads_EraseBlockReq v bs : EraseBlockReq_wf v -> pack_EraseBlockReq v = Ok bs -> reads unpack_EraseBlockReq bs v.
Proof. revert v bs. open_codec EraseBlockReq_wf pack_EraseBlockReq unpack_EraseBlockReq. close_codec. Qed.
Lemma framed_EraseBlockReq : framed unpack_EraseBlockReq.
Proof. unfold unpack_EraseBlockReq. solve_framed. Qed.
#[export] Hint Resolve framed_EraseBlockReq : codec.
Lemma reads_FetchedInlineSpan v bs : pack_FetchedInlineSpan v = Ok bs -> reads unpack_FetchedInlineSpan bs v.
Proof. intros H r. apply reads_bytes in H. unfold unpack_FetchedInlineSpan. close_codec. Qed.
Lemma framed_FetchedInlineSpan : framed unpack_FetchedInlineSpan.
Proof. unfold unpack_FetchedInlineSpan. solve_framed. Qed.
#[export] Hint Resolve framed_FetchedInlineSpan : codec.

Lemma reads_FetchedSpan v bs : FetchedSpan_wf v -> pack_FetchedSpan v = Ok bs -> reads unpack_FetchedSpan bs v.
Proof.
  intros [Hh Hb] H r. unfold pack_FetchedSpan in H. case_decide as Hempty; [done|].
  destruct v as [h [[b|b]|]]; cbn [FetchedSpan_Header FetchedSpan_Body] in *; inv_pack H; try done.
  - case_decide as Hin; [done|]. inv_pack H.
    learn_with reads_FetchedSpanHeader. learn_with reads_FetchedBlocksSpan.
    unfold unpack_FetchedSpan. replay_reads. rewrite !decide_False by done. by replay_reads.
  - case_decide as Hin; [done|]. inv_pack H.
    learn_with reads_FetchedSpanHeader. learn_with reads_FetchedInlineSpan.
    unfold unpack_FetchedSpan. replay_reads.
    rewrite decide_False, decide_True by tauto. by replay_reads.
Qed.
Lemma framed_FetchedSpan : framed unpack_FetchedSpan.
Proof.
  apply (framed_bind _ (fun h r => if decide (FetchedSpanHeader_StorageClass h = EMPTY_STORAGE) then _ else _));
    [solve_framed|].
  intros h. case_decide; [solve_framed|]. case_decide; solve_framed.
Qed.
#[export] Hint Resolve framed_FetchedSpan : codec.

#[export] Instance Edge_codec : LawfulCodec Edge Edge_wf.
Proof. exact (Build_LawfulCodec _ _ _ _ reads_Edge framed_Edge). Qed.
#[export] Instance FullReadDirReq_codec : LawfulCodec FullReadDirReq FullReadDirReq_wf.
Proof. exact (Build_LawfulCodec _ _ _ _ reads_FullReadDirReq framed_FullReadDirReq). Qed.
#[export] Instance FullReadDirCursor_codec : LawfulCodec FullReadDirCursor FullReadDirCursor_wf.
Proof. exact (Build_LawfulCodec _ _ _ _ reads_FullReadDirCursor framed_FullReadDirCursor). Qed.
#[export] Instance FullReadDirResp_codec : LawfulCodec FullReadDirResp FullReadDirResp_wf.
Proof. exact (Build_LawfulCodec _ _ _ _ reads_FullReadDirResp framed_FullReadDirResp). Qed.
#[export] Instance SnapshotPolicy_codec : LawfulCodec SnapshotPolicy SnapshotPolicy_wf.
Proof. exact (Build_LawfulCodec _ _ _ _ reads_SnapshotPolicy framed_SnapshotPolicy). Qed.
#[export] Instance BlockPolicyEntry_codec : LawfulCodec BlockPolicyEntry BlockPolicyEntry_wf.
Proof. exact (Build_LawfulCodec _ _ _ _ reads_BlockPolicyEntry framed_BlockPolicyEntry). Qed.
#[export] Instance SpanPolicyEntry_codec : LawfulCodec SpanPolicyEntry SpanPolicyEntry_wf.
Proof. exact (Build_LawfulCodec _ _ _ _ reads_SpanPolicyEntry framed_SpanPolicyEntry). Qed.
#[export] Instance BlockPolicy_codec : LawfulCodec BlockPolicy BlockPolicy_wf.
Proof. exact (Build_LawfulCodec _ _ _ _ reads_BlockPolicy framed_BlockPolicy). Qed.
#[export] Instance SpanPolicy_codec : LawfulCodec SpanPolicy SpanPolicy_wf.
Proof. exact (Build_LawfulCodec _ _ _ _ reads_SpanPolicy framed_SpanPolicy). Qed.
#[export] Instance StripePolicy_codec : LawfulCodec StripePolicy StripePolicy_wf.
Proof. exact (Build_LawfulCodec _ _ _ _ reads_StripePolicy framed_StripePolicy). Qed.
#[export] Instance DirectoryInfoEntry_codec : LawfulCodec DirectoryInfoEntry DirectoryInfoEntry_wf.
Proof. exact (Build_LawfulCodec _ _ _ _ reads_DirectoryInfoEntry framed_DirectoryInfoEntry). Qed.
#[export] Instance DirectoryInfo_codec : LawfulCodec DirectoryInfo DirectoryInfo_wf.
Proof. exact (Build_LawfulCodec _ _ _ _ reads_DirectoryInfo framed_DirectoryInfo). Qed.
#[export] Instance FetchedBlock_codec : LawfulCodec FetchedBlock FetchedBlock_wf.
Proof. exact (Build_LawfulCodec _ _ _ _ reads_FetchedBlock framed_FetchedBlock). Qed.
#[export] Instance FetchedSpanHeader_codec : LawfulCodec FetchedSpanHeader FetchedSpanHeader_wf.
Proof. exact (Build_LawfulCodec _ _ _ _ reads_FetchedSpanHeader framed_FetchedSpanHeader). Qed.
#[export] Instance FetchedBlocksSpan_codec : LawfulCodec FetchedBlocksSpan FetchedBlocksSpan_wf.
Proof. exact (Build_LawfulCodec _ _ _ _ reads_FetchedBlocksSpan framed_FetchedBlocksSpan). Qed.
#[export] Instance FetchedSpan_codec : LawfulCodec FetchedSpan FetchedSpan_wf.
Proof. exact (Build_LawfulCodec _ _ _ _ reads_FetchedSpan framed_FetchedSpan). Qed.
#[export] Instance WriteBlockReq_codec : LawfulCodec WriteBlockReq WriteBlockReq_wf.
Proof. exact (Build_LawfulCodec _ _ _ _ reads_WriteBlockReq framed_WriteBlockReq). Qed.
#[export] Instance EraseBlockReq_codec : LawfulCodec EraseBlockReq EraseBlockReq_wf.
Proof. exact (Build_LawfulCodec _ _ _ _ reads_EraseBlockReq framed_EraseBlockReq). Qed.

(** ** Properties *)

(** The directory-listing, policy, span and block messages are all lawful:
    for each type, [Unpack] reads back the very message [Pack] wrote, field by
    field, and looks at no byte after it. *)
Theorem messages_lawful :
  LawfulCodec Edge Edge_wf /\
  LawfulCodec FullReadDirReq FullReadDirReq_wf /\
  LawfulCodec FullReadDirCursor FullReadDirCursor_wf /\
  LawfulCodec FullReadDirResp FullReadDirResp_wf /\
  LawfulCodec SnapshotPolicy SnapshotPolicy_wf /\
  LawfulCodec BlockPolicyEntry BlockPolicyEntry_wf /\
  LawfulCodec SpanPolicyEntry SpanPolicyEntry_wf /\
  LawfulCodec BlockPolicy BlockPolicy_wf /\
  LawfulCodec SpanPolicy SpanPolicy_wf /\
  LawfulCodec StripePolicy StripePolicy_wf /\
  LawfulCodec DirectoryInfoEntry DirectoryInfoEntry_wf /\
  LawfulCodec DirectoryInfo DirectoryInfo_wf /\
  LawfulCodec FetchedBlock FetchedBlock_wf /\
  LawfulCodec FetchedSpanHeader FetchedSpanHeader_wf /\
  LawfulCodec FetchedBlocksSpan FetchedBlocksSpan_wf /\
  LawfulCodec FetchedSpan FetchedSpan_wf /\
  LawfulCodec WriteBlockReq WriteBlockReq_wf /\
  LawfulCodec EraseBlockReq EraseBlockReq_wf.
Proof. split_and!; exact _. Qed.

(** A span with an inline body, whose encoding is short enough to write out. *)
Definition sample_span : FetchedSpan :=
  mkFetchedSpan (mkFetchedSpanHeader 0 2 7 INLINE_STORAGE)
    (Some (InlineBody (mkFetchedInlineSpan [Byte.x68; Byte.x69]))).


(** The storage class of a fetched span decides its body. A span is packed
    only with a class other than EMPTY and a body of the kind the class names,
    any other span is an error, and every span that is unpacked has that form. *)
Theorem fetched_span_union :
  let agrees v :=
    FetchedSpanHeader_StorageClass (FetchedSpan_Header v) <> EMPTY_STORAGE /\
    match FetchedSpan_Body v with
    | Some (InlineBody _) => FetchedSpanHeader_StorageClass (FetchedSpan_Header v) = INLINE_STORAGE
    | Some (BlocksBody _) => FetchedSpanHeader_StorageClass (FetchedSpan_Header v) <> INLINE_STORAGE
    | None => False
    end in
  (forall v bs, pack_FetchedSpan v = Ok bs -> agrees v) /\
  (forall v, ~ agrees v -> pack_FetchedSpan v = Err ErrMessage) /\
  (forall r v r', unpack_FetchedSpan r = Ok (v, r') -> agrees v).
Proof.
  split_and!.
  - intros v bs H. unfold pack_FetchedSpan in H. case_decide; [done|]. split; [done|].
    destruct (FetchedSpan_Body v) as [[b|b]|]; inv_pack H; [..|done]; case_decide; tauto || done.
  - intros v Hn. unfold pack_FetchedSpan. case_decide; [done|].
    assert (exists h, pack_FetchedSpanHeader (FetchedSpan_Header v) = Ok h) as [h ->] by (by eexists).
    cbn [mbind outcome_bind]. destruct (FetchedSpan_Body v) as [[b|b]|]; [..|done];
      (case_decide; [done|]); exfalso; apply Hn; split; tauto.
  - intros r v r' H. unfold unpack_FetchedSpan in H.
    destruct (unpack_FetchedSpanHeader r) as [[h r1]| |]; cbn in H; try done.
    case_decide; [done|]. case_decide.
    + destruct (unpack_FetchedInlineSpan r1) as [[b r2]| |]; cbn in H; simplify_eq. done.
    + destruct (unpack_FetchedBlocksSpan r1) as [[b r2]| |]; cbn in H; simplify_eq. done.
Qed.
