(* ===== verification/MessageTypes.v ===== *)
(** What comes off the wire has the types of the fields: the [Unpack] methods of
    src/go/msgs/msgs_bincode.go over the readers of src/go/core/bincode/bincode.go.

    A reader is [typed] by a property when, on any bytes at all, it does not panic
    and gives only values with the property. The readers of the messages are
    typed by the ranges of their fields and by having an encoding again. *)

From Stdlib Require Import ZArith Lia.
From stdpp Require Import base numbers option list.
From S2P Require Import Prelude Bincode Messages.

Definition typed {A} (P : A -> Prop) (u : reader A) : Prop :=
  forall r, match u r with Ok (v, _) => P v | Err _ => True | Panic => False end.

(** ** Readers *)

Create HintDb typed_readers.

Lemma typed_bind {A B} (P : A -> Prop) (Q : B -> Prop) (u : reader A) (k : A -> reader B) : typed P u -> (forall a, P a -> typed Q (k a)) -> typed Q (fun r => let! (x, r) := u r in k x r).
Proof. intros Hu Hk r. specialize (Hu r). destruct (u r) as [[a r']| |]; cbn [mbind outcome_bind]; [by apply Hk | done | done]. Qed.

Lemma typed_ret {A} (P : A -> Prop) (v : A) : P v -> typed P (fun r => Ok (v, r)).
Proof. by intros Hv r. Qed.

Lemma typed_err {A} (P : A -> Prop) e : typed P (fun _ => Err e).
Proof. done. Qed.

Lemma typed_weaken {A} (P Q : A -> Prop) u : (forall v, P v -> Q v) -> typed P u -> typed Q u.
Proof. intros H Hu r. specialize (Hu r). destruct (u r) as [[v r']| |]; [by apply H | done | done]. Qed.

Lemma typed_io n : typed (fun bs => length bs = n) (io_read n).
Proof.
  intros r. unfold io_read. destruct (read_full n r) as [[bs r']|e|] eqn:E; [by apply read_full_Ok in E as [_ ?] | done|]. unfold read_full in E. by repeat case_decide.
Qed.

Lemma typed_scalar k : typed (scalar_wf k) (UnpackScalar k).
Proof.
  apply (typed_bind (fun bs => length bs = scalar_size k)); [apply typed_io|]. intros bs Hl. apply typed_ret. pose proof (le_val_bound bs) as Hb. rewrite Hl in Hb. by destruct k.
Qed.

Lemma typed_bytes : typed (fun bs => zlen bs <= MaxUint8) UnpackBytes.
Proof.
  apply (typed_bind (scalar_wf KU8)); [apply typed_scalar|]. intros l Hl. eapply typed_weaken; [|apply typed_io]. intros bs Hbs. unfold zlen, MaxUint8. cbn [scalar_type scalar_wf] in l, Hl. unfold is_u8 in Hl. cbv beta in Hbs. lia.
Qed.

Lemma typed_string : typed (fun bs => zlen bs <= MaxUint8) UnpackString.
Proof. apply (typed_bind _ _ _ _ typed_bytes). intros bs Hbs. by apply typed_ret. Qed.

Lemma typed_fixed l data : zlen data = l -> typed (fun bs => zlen bs = l) (UnpackFixedBytes l data).
Proof. intros Hl r. unfold UnpackFixedBytes. rewrite decide_True by done. pose proof (typed_io (length data) r) as H. destruct (io_read (length data) r) as [[bs r']| |]; [|done|done]. unfold zlen in *. lia. Qed.

Lemma typed_elems {A} (P : A -> Prop) (u : reader A) : typed P u -> forall n, typed (fun l => length l = n /\ Forall P l) (unpack_elems u n).
Proof.
  intros Hu. induction n as [|n IH]; cbn [unpack_elems]; [by apply typed_ret|]. apply (typed_bind P); [done|]. intros x Hx. apply (typed_bind _ _ _ _ IH). intros l [Hl Hf]. apply typed_ret. split; [cbn [length]; lia | by constructor].
Qed.

Lemma typed_slice {A} (P : A -> Prop) (u : reader A) : typed P u -> typed (fun l => zlen l <= MaxUint16 /\ Forall P l) (unpack_slice u).
Proof.
  intros Hu. apply (typed_bind is_u16).
  - apply (typed_bind _ _ _ _ (typed_scalar KU16)). intros n Hn. by apply typed_ret.
  - intros n Hn. eapply typed_weaken; [|by apply typed_elems]. intros l [Hl Hf]. split; [|done]. unfold zlen, MaxUint16, is_u16 in *. lia.
Qed.

(** ** Encodings *)

(** The value can be packed. *)
Definition encodes {A} (p : A -> writer) (v : A) : Prop := exists bs, p v = Ok bs.

Lemma encodes_scalar k x : encodes (PackScalar k) x.
Proof. eexists. apply PackScalar_Ok. Qed.

Lemma encodes_bytes bs : zlen bs <= MaxUint8 -> encodes PackBytes bs.
Proof. intros Hl. unfold encodes, PackBytes. rewrite decide_False by lia. by eexists. Qed.

Lemma encodes_fixed l bs : zlen bs = l -> encodes (PackFixedBytes l) bs.
Proof. intros Hl. unfold encodes, PackFixedBytes. rewrite decide_True by done. by eexists. Qed.

Lemma encodes_elems {A} (p : A -> writer) l : Forall (encodes p) l -> encodes (pack_elems p) l.
Proof.
  induction 1 as [|x l [bs Hx] _ IH]; [by eexists|]. destruct IH as [es IH]. exists (bs ++ es). cbn [pack_elems]. rewrite Hx. cbn [mbind outcome_bind]. by rewrite IH.
Qed.

Lemma encodes_slice {A} (p : A -> writer) l : zlen l <= MaxUint16 -> Forall (encodes p) l -> encodes (pack_slice p) l.
Proof.
  intros Hl Hf. unfold encodes, pack_slice, PackLength. pose proof (zlen_nonneg l). rewrite decide_False by lia. cbn [mbind outcome_bind PackScalar]. destruct (encodes_elems p l Hf) as [es ->]. by eexists.
Qed.

Lemma encodes_bind {A C} (p : A -> writer) (q : list byte -> outcome bincode_error C) v : encodes p v -> (forall bs, exists c, q bs = Ok c) -> exists c, (let! bs := p v in q bs) = Ok c.
Proof. intros [bs ->] Hq. apply Hq. Qed.

(** ** Message types *)

#[export] Hint Resolve typed_bytes typed_string : typed_readers.
#[export] Hint Extern 1 (typed _ (UnpackScalar ?k)) => exact (typed_scalar k) : typed_readers.
#[export] Hint Extern 1 (typed _ (UnpackFixedBytes _ _)) => eapply typed_fixed; reflexivity : typed_readers.
#[export] Hint Extern 2 (typed _ (unpack_slice _)) => eapply typed_slice : typed_readers.
#[export] Hint Extern 1 (encodes (PackScalar ?k) _) => apply (encodes_scalar k) : typed_readers.
#[export] Hint Resolve encodes_bytes encodes_fixed encodes_slice : typed_readers.

(** Goes through the fields of a message, in the order they are read. *)
Ltac type_fields := repeat (eapply typed_bind; [solve [eauto with typed_readers] | intros ? ?]).

(** Packs the fields of a message again. *)
Ltac encode_field := solve [eauto with typed_readers | apply encodes_slice; [assumption|]; eapply Forall_impl; [eassumption|]; cbv beta; intros; first [match goal with |- encodes (PackScalar ?k) ?x => exact (encodes_scalar k x) end | tauto]].
Ltac encode_fields :=
  repeat (apply encodes_bind; [encode_field | intros ?]);
  first [by eexists | match goal with |- exists bs, ?p ?v = Ok bs => change (encodes p v); encode_field end].

Ltac solve_typed u wf p :=
  change (typed (fun v => wf v /\ encodes p v) u); unfold u; type_fields; cbn beta in *; destruct_and?; apply typed_ret; cbv beta; split;
  [unfold wf; cbn; split_and?; try first [assumption | eapply Forall_impl; [eassumption|]; cbv beta; tauto | unfold zlen in *; lia] | unfold encodes, p; cbn -[PackScalar PackBytes PackFixedBytes pack_slice]; encode_fields].

Lemma typed_Edge : typed (fun v => Edge_wf v /\ encodes pack_Edge v) unpack_Edge.
Proof. solve_typed unpack_Edge Edge_wf pack_Edge. Qed.
#[export] Hint Resolve typed_Edge : typed_readers.
Lemma typed_FullReadDirReq : typed (fun v => FullReadDirReq_wf v /\ encodes pack_FullReadDirReq v) unpack_FullReadDirReq.
Proof. solve_typed unpack_FullReadDirReq FullReadDirReq_wf pack_FullReadDirReq. Qed.
#[export] Hint Resolve typed_FullReadDirReq : typed_readers.
Lemma typed_FullReadDirCursor : typed (fun v => FullReadDirCursor_wf v /\ encodes pack_FullReadDirCursor v) unpack_FullReadDirCursor.
Proof. solve_typed unpack_FullReadDirCursor FullReadDirCursor_wf pack_FullReadDirCursor. Qed.
#[export] Hint Resolve typed_FullReadDirCursor : typed_readers.
Lemma typed_FullReadDirResp : typed (fun v => FullReadDirResp_wf v /\ encodes pack_FullReadDirResp v) unpack_FullReadDirResp.
Proof. solve_typed unpack_FullReadDirResp FullReadDirResp_wf pack_FullReadDirResp. Qed.
#[export] Hint Resolve typed_FullReadDirResp : typed_readers.
Lemma typed_SnapshotPolicy : typed (fun v => SnapshotPolicy_wf v /\ encodes pack_SnapshotPolicy v) unpack_SnapshotPolicy.
Proof. solve_typed unpack_SnapshotPolicy SnapshotPolicy_wf pack_SnapshotPolicy. Qed.
#[export] Hint Resolve typed_SnapshotPolicy : typed_readers.
Lemma typed_BlockPolicyEntry : typed (fun v => BlockPolicyEntry_wf v /\ encodes pack_BlockPolicyEntry v) unpack_BlockPolicyEntry.
Proof. solve_typed unpack_BlockPolicyEntry BlockPolicyEntry_wf pack_BlockPolicyEntry. Qed.
#[export] Hint Resolve typed_BlockPolicyEntry : typed_readers.
Lemma typed_SpanPolicyEntry : typed (fun v => SpanPolicyEntry_wf v /\ encodes pack_SpanPolicyEntry v) unpack_SpanPolicyEntry.
Proof. solve_typed unpack_SpanPolicyEntry SpanPolicyEntry_wf pack_SpanPolicyEntry. Qed.
#[export] Hint Resolve typed_SpanPolicyEntry : typed_readers.
Lemma typed_BlockPolicy : typed (fun v => BlockPolicy_wf v /\ encodes pack_BlockPolicy v) unpack_BlockPolicy.
Proof. solve_typed unpack_BlockPolicy BlockPolicy_wf pack_BlockPolicy. Qed.
#[export] Hint Resolve typed_BlockPolicy : typed_readers.
Lemma typed_SpanPolicy : typed (fun v => SpanPolicy_wf v /\ encodes pack_SpanPolicy v) unpack_SpanPolicy.
Proof. solve_typed unpack_SpanPolicy SpanPolicy_wf pack_SpanPolicy. Qed.
#[export] Hint Resolve typed_SpanPolicy : typed_readers.
Lemma typed_StripePolicy : typed (fun v => StripePolicy_wf v /\ encodes pack_StripePolicy v) unpack_StripePolicy.
Proof. solve_typed unpack_StripePolicy StripePolicy_wf pack_StripePolicy. Qed.
#[export] Hint Resolve typed_StripePolicy : typed_readers.
Lemma typed_DirectoryInfoEntry : typed (fun v => DirectoryInfoEntry_wf v /\ encodes pack_DirectoryInfoEntry v) unpack_DirectoryInfoEntry.
Proof. solve_typed unpack_DirectoryInfoEntry DirectoryInfoEntry_wf pack_DirectoryInfoEntry. Qed.
#[export] Hint Resolve typed_DirectoryInfoEntry : typed_readers.
Lemma typed_DirectoryInfo : typed (fun v => DirectoryInfo_wf v /\ encodes pack_DirectoryInfo v) unpack_DirectoryInfo.
Proof. solve_typed unpack_DirectoryInfo DirectoryInfo_wf pack_DirectoryInfo. Qed.
#[export] Hint Resolve typed_DirectoryInfo : typed_readers.
Lemma typed_FetchedBlock : typed (fun v => FetchedBlock_wf v /\ encodes pack_FetchedBlock v) unpack_FetchedBlock.
Proof. solve_typed unpack_FetchedBlock FetchedBlock_wf pack_FetchedBlock. Qed.
#[export] Hint Resolve typed_FetchedBlock : typed_readers.
Lemma typed_FetchedSpanHeader : typed (fun v => FetchedSpanHeader_wf v /\ encodes pack_FetchedSpanHeader v) unpack_FetchedSpanHeader.
Proof. solve_typed unpack_FetchedSpanHeader FetchedSpanHeader_wf pack_FetchedSpanHeader. Qed.
#[export] Hint Resolve typed_FetchedSpanHeader : typed_readers.
Lemma typed_FetchedBlocksSpan : typed (fun v => FetchedBlocksSpan_wf v /\ encodes pack_FetchedBlocksSpan v) unpack_FetchedBlocksSpan.
Proof. solve_typed unpack_FetchedBlocksSpan FetchedBlocksSpan_wf pack_FetchedBlocksSpan. Qed.
#[export] Hint Resolve typed_FetchedBlocksSpan : typed_readers.
Lemma typed_WriteBlockReq : typed (fun v => WriteBlockReq_wf v /\ encodes pack_WriteBlockReq v) unpack_WriteBlockReq.
Proof. solve_typed unpack_WriteBlockReq WriteBlockReq_wf pack_WriteBlockReq. Qed.
#[export] Hint Resolve typed_WriteBlockReq : typed_readers.
Lemma typed_EraseBlockReq : typed (fun v => EraseBlockReq_wf v /\ encodes pack_EraseBlockReq v) unpack_EraseBlockReq.
Proof. solve_typed unpack_EraseBlockReq EraseBlockReq_wf pack_EraseBlockReq. Qed.
#[export] Hint Resolve typed_EraseBlockReq : typed_readers.

Lemma typed_FetchedInlineSpan : typed (encodes pack_FetchedInlineSpan) unpack_FetchedInlineSpan.
Proof. unfold unpack_FetchedInlineSpan. type_fields. apply typed_ret. unfold encodes, pack_FetchedInlineSpan. cbn [FetchedInlineSpan_Body]. encode_fields. Qed.

(** The storage class in the header decides which body is read, and that body can
    be packed under it. *)
Lemma typed_FetchedSpan : typed (fun v => FetchedSpan_wf v /\ encodes pack_FetchedSpan v) unpack_FetchedSpan.
Proof.
  apply (typed_bind _ _ _ (fun h r => if decide (FetchedSpanHeader_StorageClass h = EMPTY_STORAGE) then _ else _) typed_FetchedSpanHeader). intros h [Hh [bs Hp]]. case_decide as He; [apply typed_err|].
  case_decide as Hi.
  - apply (typed_bind _ _ _ _ typed_FetchedInlineSpan). intros b [bs' Hb]. apply typed_ret. split; [by split|]. exists (bs ++ bs'). unfold pack_FetchedSpan. cbn [FetchedSpan_Header FetchedSpan_Body]. rewrite decide_False, Hp by done. cbn [mbind outcome_bind].
    rewrite decide_False by tauto. by rewrite Hb.
  - apply (typed_bind _ _ _ _ typed_FetchedBlocksSpan). intros b [Hwf [bs' Hb]]. apply typed_ret. split; [by split|]. exists (bs ++ bs'). unfold pack_FetchedSpan. cbn [FetchedSpan_Header FetchedSpan_Body]. rewrite decide_False, Hp by done. cbn [mbind outcome_bind].
    rewrite decide_False by done. by rewrite Hb.
Qed.

(** ** Claims *)

(** On every byte string, [Unpack] gives an error or a value whose fields are in
    range, that packs again, and whose encoding unpacks to it. *)
Definition well_typed (A : Type) `{Packable A, Unpackable A} (wf : A -> Prop) : Prop :=
  forall data, match Unpack (A := A) data with Ok v => wf v /\ exists bs, Pack v = Ok bs /\ Unpack bs = Ok v | Err _ => True | Panic => False end.

Lemma typed_well_typed (A : Type) `{Packable A, Unpackable A} (wf : A -> Prop) : LawfulCodec A wf -> typed (fun v => wf v /\ encodes pack v) unpack -> well_typed A wf.
Proof.
  intros Hc Ht data. unfold Unpack. specialize (Ht data). destruct (unpack data) as [[v r]| |]; cbn [mbind outcome_bind]; [|done|done]. destruct Ht as [Hwf [bs Hbs]]. case_decide; [|done]. split; [done|]. exists bs. split; [exact Hbs|].
  pose proof (pack_reads v bs Hwf Hbs []) as Hr. rewrite app_nil_r in Hr. by rewrite Hr.
Qed.

(** C37: what comes off the wire is well typed. Whatever bytes arrive, unpacking
    a directory, policy, span or block message never panics; and a value it
    accepts has every field in the range of its Go type, lengths included, can be
    packed - an encoding exists, with the body its storage class names - and that
    encoding unpacks to the same value. *)
Theorem messages_well_typed :
  well_typed Edge Edge_wf /\ well_typed FullReadDirReq FullReadDirReq_wf /\ well_typed FullReadDirCursor FullReadDirCursor_wf /\ well_typed FullReadDirResp FullReadDirResp_wf /\
  well_typed SnapshotPolicy SnapshotPolicy_wf /\ well_typed BlockPolicyEntry BlockPolicyEntry_wf /\ well_typed SpanPolicyEntry SpanPolicyEntry_wf /\ well_typed BlockPolicy BlockPolicy_wf /\
  well_typed SpanPolicy SpanPolicy_wf /\ well_typed StripePolicy StripePolicy_wf /\ well_typed DirectoryInfoEntry DirectoryInfoEntry_wf /\ well_typed DirectoryInfo DirectoryInfo_wf /\
  well_typed FetchedBlock FetchedBlock_wf /\ well_typed FetchedSpanHeader FetchedSpanHeader_wf /\ well_typed FetchedBlocksSpan FetchedBlocksSpan_wf /\ well_typed FetchedSpan FetchedSpan_wf /\
  well_typed WriteBlockReq WriteBlockReq_wf /\ well_typed EraseBlockReq EraseBlockReq_wf.
Proof.
  split_and!; apply typed_well_typed; try exact _;
    [exact typed_Edge | exact typed_FullReadDirReq | exact typed_FullReadDirCursor | exact typed_FullReadDirResp | exact typed_SnapshotPolicy | exact typed_BlockPolicyEntry | exact typed_SpanPolicyEntry | exact typed_BlockPolicy
    | exact typed_SpanPolicy | exact typed_StripePolicy | exact typed_DirectoryInfoEntry | exact typed_DirectoryInfo | exact typed_FetchedBlock | exact typed_FetchedSpanHeader | exact typed_FetchedBlocksSpan | exact typed_FetchedSpan
    | exact typed_WriteBlockReq | exact typed_EraseBlockReq].
Qed.
