(* ===== verification/ByteRange.v ===== *)
(** Sets of byte ranges: src/go/nfsd/internal/byterange/set.go.

    [Set] is the Go slice of ranges as a list. Its meaning is the set of byte
    offsets it covers ([covers]); its invariant ([normal]) is that the ranges
    are sorted, not empty, and neither overlap nor touch. Every operation is
    shown to keep the invariant and to compute the set operation it is named
    for. [sort.Search] is the standard library's binary search. *)

From Stdlib Require Import ZArith Lia.
From stdpp Require Import base numbers option list.
From S2P Require Import Prelude.

Record Range := mkRange { Start : Z; End : Z }.

#[export] Instance Range_eq_dec : EqDecision Range.
Proof. solve_decision. Defined.

Abbreviation Set_ := (list Range).

(** ** sort.Search *)

(** The loop [for i < j { h := (i+j)/2; if !f(h) { i = h+1 } else { j = h } }]. *)
Fixpoint search_loop (fuel : nat) (f : nat -> bool) (i j : nat) : nat :=
  match fuel with
  | O => i
  | S fuel =>
      if decide (i < j)%nat then
        let h := ((i + j) / 2)%nat in
        if f h then search_loop fuel f i h else search_loop fuel f (h + 1) j
      else i
  end.

(** The interval at least halves, so [n] rounds are enough for [n] indices. *)
Definition sort_Search (n : nat) (f : nat -> bool) : nat := search_loop n f 0 n.

(** ** Operations *)

(** The loop that absorbs the ranges touching [start, end): it returns the
    merged bounds and the ranges that are left. *)
Fixpoint absorb (start end_ : Z) (ranges : Set_) : Z * Z * Set_ :=
  match ranges with
  | [] => (start, end_, [])
  | r :: rest =>
      if Start r <=? end_ then
        absorb (if Start r <? start then Start r else start)
               (if end_ <? End r then End r else end_) rest
      else (start, end_, r :: rest)
  end.

(** [last - first] is what [absorb] consumed. Inserting at [first] when nothing
    was absorbed, and overwriting [first] and closing up after [last]
    otherwise, both leave the ranges before [first], the merged one, and the
    ranges from [last] on. *)
Definition Add (rs : Set_) (start end_ : Z) : Set_ :=
  if end_ <=? start then rs
  else
    let first := sort_Search (length rs)
                   (fun i => match rs !! i with Some r => start <=? End r | None => true end) in
    let '(s, e, rest) := absorb start end_ (drop first rs) in
    take first rs ++ mkRange s e :: rest.

(** [appendRange] of Union, on the slice built so far, newest range first. *)
Definition append_range (merged : Set_) (r : Range) : Set_ :=
  match merged with
  | [] => [r]
  | l :: rest =>
      if Start r <=? End l then
        if End l <? End r then mkRange (Start l) (End r) :: rest else merged
      else r :: merged
  end.

Fixpoint union_loop (rs : Set_) : Set_ -> Set_ -> Set_ :=
  match rs with
  | [] => fun other merged => fold_left append_range other merged
  | r :: rs' =>
      fix go (other merged : Set_) : Set_ :=
        match other with
        | [] => fold_left append_range (r :: rs') merged
        | o :: other' =>
            if Start r <=? Start o then union_loop rs' (o :: other') (append_range merged r)
            else go other' (append_range merged o)
        end
  end.

Definition Union (rs other : Set_) : Set_ := reverse (union_loop rs other []).

(** Splits every range equal to [r] around [start, end). *)
Definition split_range (r : Range) (start end_ : Z) (split : Range) : Set_ :=
  if decide (split = r) then [mkRange (Start r) start; mkRange end_ (End r)] else [split].

Definition trim_range (start end_ : Z) (r : Range) : Set_ :=
  if (End r <=? start) || (end_ <=? Start r) then [r]
  else
    (if Start r <? start then [mkRange (Start r) start] else []) ++
    (if end_ <? End r then [mkRange end_ (End r)] else []).

Definition Remove (rs : Set_) (start end_ : Z) : Set_ :=
  if end_ <=? start then rs
  else
    match List.find (fun r => (Start r <? start) && (end_ <? End r)) rs with
    | Some r => flat_map (split_range r start end_) rs
    | None => flat_map (trim_range start end_) rs
    end.

Fixpoint gaps_loop (rs : Set_) (pos end_ : Z) : Set_ :=
  match rs with
  | [] => if pos <? end_ then [mkRange pos end_] else []
  | r :: rest =>
      if End r <=? pos then gaps_loop rest pos end_
      else if end_ <=? Start r then if pos <? end_ then [mkRange pos end_] else []
      else
        let gap := if pos <? Start r then [mkRange pos (Z.min (Start r) end_)] else [] in
        let pos' := if pos <? End r then End r else pos in
        if end_ <=? pos' then gap else gap ++ gaps_loop rest pos' end_
  end.

Definition Gaps (rs : Set_) (start end_ : Z) : Set_ :=
  if end_ <=? start then [] else gaps_loop rs start end_.

(** ** Meaning and invariant *)

Definition in_range (x : Z) (r : Range) : Prop := Start r <= x < End r.
Definition covers (rs : Set_) (x : Z) : Prop := Exists (in_range x) rs.

#[export] Instance in_range_dec x r : Decision (in_range x r).
Proof. unfold in_range. apply _. Defined.
#[export] Instance covers_dec rs x : Decision (covers rs x).
Proof. unfold covers. apply _. Defined.

(** Sorted, not empty, and with a gap before each range: the first one starts
    after [lo]. *)
Fixpoint normal_from (lo : Z) (rs : Set_) : Prop :=
  match rs with
  | [] => True
  | r :: rest => lo < Start r /\ Start r < End r /\ normal_from (End r) rest
  end.

(** Offsets are not negative, so nothing has to separate the first range from 0. *)
Definition normal (rs : Set_) : Prop := normal_from (-1) rs.

(** The bounds of a range set over [uint64] offsets. *)
Definition bounded (hi : Z) (rs : Set_) : Prop := Forall (fun r => End r <= hi) rs.

(** ** sort.Search is the first index of a monotone predicate *)

Lemma search_loop_spec fuel f i j :
  (j - i <= fuel)%nat -> (i <= j)%nat ->
  (forall a b, (a <= b < j)%nat -> f a = true -> f b = true) ->
  (i <= search_loop fuel f i j <= j)%nat /\
  (forall a, (i <= a < search_loop fuel f i j)%nat -> f a = false) /\
  (forall a, (search_loop fuel f i j <= a < j)%nat -> f a = true).
Proof.
  revert i j. induction fuel as [|fuel IH]; intros i j Hf Hij Hmono; cbn [search_loop].
  - assert (i = j) as -> by lia. split_and!; intros; lia.
  - case_decide as Hlt; [|split_and!; intros; lia].
    assert (i <= (i + j) / 2 < j)%nat as Hh
      by (split; [apply Nat.div_le_lower_bound | apply Nat.Div0.div_lt_upper_bound]; lia).
    revert Hh. generalize ((i + j) / 2)%nat as h. intros h Hh.
    destruct (f h) eqn:E.
    + destruct (IH i h) as (H1 & H2 & H3); [lia..| |split; [lia|split; [done|]]].
      { intros a b Hab. apply Hmono. lia. }
      intros a Ha. destruct (decide (a < h)%nat); [apply H3; lia|].
      apply (Hmono h); [lia|done].
    + destruct (IH (h + 1)%nat j) as (H1 & H2 & H3); [lia..|done|split; [lia|split; [|done]]].
      intros a Ha. destruct (decide (h < a)%nat); [apply H2; lia|].
      destruct (f a) eqn:Ea; [|done]. rewrite (Hmono a h) in E; [done|lia|done].
Qed.

Lemma sort_Search_spec n f :
  (forall a b, (a <= b < n)%nat -> f a = true -> f b = true) ->
  (sort_Search n f <= n)%nat /\
  (forall a, (a < sort_Search n f)%nat -> f a = false) /\
  (forall a, (sort_Search n f <= a < n)%nat -> f a = true).
Proof.
  intros H. destruct (search_loop_spec n f 0 n) as (H1 & H2 & H3); [lia..|done|].
  unfold sort_Search. split_and!; [lia| |done]. intros; apply H2; lia.
Qed.

(** ** Facts on normal sets *)

Lemma covers_nil x : covers [] x <-> False.
Proof. unfold covers. by rewrite Exists_nil. Qed.
Lemma covers_cons r rs x : covers (r :: rs) x <-> in_range x r \/ covers rs x.
Proof. unfold covers. by rewrite Exists_cons. Qed.
Lemma covers_app rs rs' x : covers (rs ++ rs') x <-> covers rs x \/ covers rs' x.
Proof. unfold covers. by rewrite Exists_app. Qed.
Lemma covers_reverse rs x : covers (reverse rs) x <-> covers rs x.
Proof. unfold covers. rewrite !Exists_exists. by setoid_rewrite elem_of_reverse. Qed.

Lemma normal_from_weaken lo lo' rs : lo' <= lo -> normal_from lo rs -> normal_from lo' rs.
Proof. destruct rs; cbn; [done|]. intuition lia. Qed.

Lemma normal_from_covers lo rs x : normal_from lo rs -> covers rs x -> lo < x.
Proof.
  revert lo. induction rs as [|r rs IH]; intros lo; [by rewrite covers_nil|].
  cbn. intros (H1 & H2 & H3). rewrite covers_cons. intros [[??]|Hc]; [lia|].
  specialize (IH _ H3 Hc). lia.
Qed.

(** Where a list of ranges ends: [lo] when there are none. *)
Fixpoint last_end (lo : Z) (rs : Set_) : Z :=
  match rs with [] => lo | r :: rest => last_end (End r) rest end.

Lemma normal_from_app lo rs rs' :
  normal_from lo (rs ++ rs') <-> normal_from lo rs /\ normal_from (last_end lo rs) rs'.
Proof. revert lo. induction rs as [|r rs IH]; intros lo; cbn; [tauto|]. rewrite IH. tauto. Qed.

Lemma last_end_bounds lo rs :
  normal_from lo rs -> lo <= last_end lo rs /\ forall r, r ∈ rs -> End r <= last_end lo rs.
Proof.
  revert lo. induction rs as [|r rs IH]; intros lo; cbn.
  - intros _. split; [lia|]. intros r Hr. by apply not_elem_of_nil in Hr.
  - intros (H1 & H2 & H3). destruct (IH _ H3) as [H4 H5]. split; [lia|].
    intros r' [->|Hr']%elem_of_cons; [done|auto].
Qed.

Lemma last_end_spec lo rs :
  last_end lo rs = lo \/ exists i r, rs !! i = Some r /\ last_end lo rs = End r.
Proof.
  revert lo. induction rs as [|r rs IH]; intros lo; cbn; [by left|].
  right. destruct (IH (End r)) as [->|(i & q & ? & ?)]; [by exists 0%nat, r|by exists (S i), q].
Qed.

Lemma last_end_covers lo rs x : normal_from lo rs -> covers rs x -> x < last_end lo rs.
Proof.
  intros H. unfold covers. rewrite Exists_exists. intros (r & Hr & ? & ?).
  pose proof (proj2 (last_end_bounds _ _ H) r Hr). lia.
Qed.

Lemma normal_from_ends lo rs i j r r' :
  normal_from lo rs -> (i <= j)%nat -> rs !! i = Some r -> rs !! j = Some r' -> End r <= End r'.
Proof.
  revert lo i j. induction rs as [|q rs IH]; intros lo i j; [done|].
  cbn [normal_from]. intros (H1 & H2 & H3) Hij Hi Hj.
  destruct i, j; cbn in *; simplify_eq; [done| |lia|].
  - apply list_elem_of_lookup_2 in Hj.
    clear IH Hij. revert Hj. clear -H3. revert H3. generalize (End r) as e.
    induction rs as [|p rs IH]; intros e H3 Hj; [by apply not_elem_of_nil in Hj|].
    cbn in H3. destruct H3 as (H4 & H5 & H6).
    apply elem_of_cons in Hj as [->|Hj]; [lia|]. specialize (IH _ H6 Hj). lia.
  - eapply (IH _ i j); [done|lia|done|done].
Qed.

(** ** Add *)

Lemma absorb_spec lo s e rs s' e' rest :
  s < e -> lo < s -> normal_from lo rs -> Forall (fun r => s <= End r) rs ->
  absorb s e rs = (s', e', rest) ->
  lo < s' /\ s' < e' /\ normal_from e' rest /\
  (forall x, covers (mkRange s' e' :: rest) x <-> s <= x < e \/ covers rs x).
Proof.
  revert lo s e. induction rs as [|r rs IH]; intros lo s e Hse Hlo Hn Hf Ha; cbn in Ha.
  - simplify_eq. split_and!; [done..|]. intros x. by rewrite covers_cons, covers_nil.
  - cbn in Hn. destruct Hn as (H1 & H2 & H3). apply Forall_cons in Hf as [Hr Hf].
    destruct (Start r <=? e) eqn:Hle; reflect_bools; simplify_eq.
    + apply (IH lo) in Ha as (G1 & G2 & G3 & G4).
      * split_and!; [done..|]. intros x. rewrite G4, covers_cons. unfold in_range.
        repeat case_match; reflect_bools; split; intros [?|?]; intuition lia.
      * repeat case_match; reflect_bools; lia.
      * repeat case_match; reflect_bools; lia.
      * eapply normal_from_weaken; [|done]. lia.
      * eapply Forall_impl; [done|]. cbn. intros q Hq. case_match; reflect_bools; lia.
    + split_and!; [done..|]. intros x. by rewrite covers_cons.
Qed.

Lemma Add_spec rs start end_ :
  0 <= start -> normal rs ->
  normal (Add rs start end_) /\
  forall x, covers (Add rs start end_) x <-> covers rs x \/ start <= x < end_.
Proof.
  intros H0 Hn. unfold Add. destruct (end_ <=? start) eqn:E; reflect_bools.
  { split; [done|]. intros x. split; [auto|]. intros [?|?]; [done|lia]. }
  set (f := fun i => match rs !! i with Some r => start <=? End r | None => true end).
  destruct (sort_Search_spec (length rs) f) as (Hlen & Hbefore & Hafter).
  { intros a b Hab. unfold f.
    destruct (rs !! a) eqn:Ea; [|apply lookup_ge_None in Ea; lia].
    destruct (rs !! b) eqn:Eb; [|done]. intros. reflect_bools.
    apply Z.leb_le. pose proof (normal_from_ends _ _ _ _ _ _ Hn (proj1 Hab) Ea Eb). lia. }
  generalize dependent (sort_Search (length rs) f). intros first Hlen Hbefore Hafter.
  destruct (absorb start end_ (drop first rs)) as [[s' e'] rest] eqn:Ha.
  assert (normal_from (-1) (take first rs ++ drop first rs)) as Hsplit by (by rewrite take_drop).
  apply normal_from_app in Hsplit as [Hpre Hpost].
  assert (last_end (-1) (take first rs) < start) as Hlast.
  { destruct (last_end_spec (-1) (take first rs)) as [->|(i & r & Hi & ->)]; [lia|].
    apply lookup_take_Some in Hi as [Hi Hif].
    specialize (Hbefore i Hif). unfold f in Hbefore. rewrite Hi in Hbefore. reflect_bools. lia. }
  apply (absorb_spec (last_end (-1) (take first rs))) in Ha as (G1 & G2 & G3 & G4); [|lia..|done|].
  - split.
    + apply normal_from_app. split; [done|]. cbn. split_and!; done.
    + intros x. rewrite covers_app, G4.
      rewrite <-(take_drop first rs) at 3. rewrite covers_app. tauto.
  - apply Forall_lookup_2. intros i r Hi. rewrite lookup_drop in Hi.
    assert (first + i < length rs)%nat by (by eapply lookup_lt_Some).
    specialize (Hafter (first + i)%nat ltac:(lia)). unfold f in Hafter.
    rewrite Hi in Hafter. by reflect_bools.
Qed.

(** ** Union *)

(** The order in which Union visits the ranges of the two sets. *)
Fixpoint merge_starts (rs : Set_) : Set_ -> Set_ :=
  match rs with
  | [] => fun other => other
  | r :: rs' =>
      fix go (other : Set_) : Set_ :=
        match other with
        | [] => r :: rs'
        | o :: other' =>
            if Start r <=? Start o then r :: merge_starts rs' (o :: other') else o :: go other'
        end
  end.

(** Ranges that are not empty and come in the order of their starts. *)
Fixpoint by_start (lo : Z) (rs : Set_) : Prop :=
  match rs with
  | [] => True
  | r :: rest => lo <= Start r /\ Start r < End r /\ by_start (Start r) rest
  end.

(** [normal] of a slice listed newest range first. *)
Fixpoint rnormal (rs : Set_) : Prop :=
  match rs with
  | [] => True
  | r :: rest => Start r < End r /\ match rest with [] => -1 < Start r | q :: _ => End q < Start r end /\ rnormal rest
  end.

Lemma union_loop_fold rs other merged :
  union_loop rs other merged = fold_left append_range (merge_starts rs other) merged.
Proof.
  revert other merged. induction rs as [|r rs IH]; intros other; [done|].
  induction other as [|o other IHo]; intros merged; [done|].
  cbn [union_loop merge_starts]. destruct (Start r <=? Start o); [apply IH|apply IHo].
Qed.

Lemma by_start_weaken lo lo' rs : lo' <= lo -> by_start lo rs -> by_start lo' rs.
Proof. destruct rs; cbn; [done|]. intuition lia. Qed.

Lemma normal_by_start lo rs : normal_from lo rs -> by_start (lo + 1) rs.
Proof.
  revert lo. induction rs as [|r rs IH]; intros lo; cbn; [done|]. intros (H1 & H2 & H3).
  split_and!; [lia|done|]. eapply by_start_weaken; [|apply IH, H3]. lia.
Qed.

Lemma merge_starts_by_start lo rs other :
  by_start lo rs -> by_start lo other -> by_start lo (merge_starts rs other).
Proof.
  revert lo other. induction rs as [|r rs IH]; intros lo other; [done|].
  revert lo. induction other as [|o other IHo]; intros lo Hr Ho; [done|].
  cbn [merge_starts]. cbn [by_start] in Hr, Ho.
  destruct Hr as (Hr1 & Hr2 & Hr3), Ho as (Ho1 & Ho2 & Ho3).
  destruct (Start r <=? Start o) eqn:E; reflect_bools; cbn [by_start]; split_and!; [done..| |done|done|].
  - apply IH; [done|]. cbn. split_and!; [lia|done..].
  - apply IHo; [|done]. cbn. split_and!; [lia|done..].
Qed.

Lemma covers_merge_starts rs other x :
  covers (merge_starts rs other) x <-> covers rs x \/ covers other x.
Proof.
  revert other. induction rs as [|r rs IH]; intros other; [cbn; rewrite covers_nil; tauto|].
  induction other as [|o other IHo]; [rewrite covers_nil; cbn; tauto|].
  cbn [merge_starts]. destruct (Start r <=? Start o).
  - rewrite !covers_cons, IH, covers_cons. tauto.
  - rewrite covers_cons, IHo, !covers_cons. tauto.
Qed.

Definition head_le (rs : Set_) (z : Z) : Prop := match rs with [] => True | r :: _ => Start r <= z end.

Lemma append_range_spec rs r :
  rnormal rs -> 0 <= Start r -> Start r < End r -> head_le rs (Start r) ->
  rnormal (append_range rs r) /\ head_le (append_range rs r) (Start r) /\
  (forall x, covers (append_range rs r) x <-> covers rs x \/ in_range x r).
Proof.
  intros Hn H0 Hr Hh. destruct rs as [|l rest]; cbn in *.
  - split_and!; [lia..|done|lia|]. intros x. rewrite covers_cons. tauto.
  - destruct Hn as (H1 & H2 & H3). destruct (Start r <=? End l) eqn:E; [destruct (End l <? End r) eqn:E'|]; reflect_bools; cbn.
    + split; [split; [lia|split; [by destruct rest|done]]|]. split; [lia|].
      intros x. rewrite !covers_cons. unfold in_range. cbn. intuition lia.
    + split; [done|]. split; [done|].
      intros x. rewrite covers_cons. unfold in_range. intuition lia.
    + split; [done|]. split; [lia|]. intros x. rewrite !covers_cons. tauto.
Qed.

Lemma fold_append_spec seq acc lo :
  0 <= lo -> by_start lo seq -> rnormal acc -> head_le acc lo ->
  rnormal (fold_left append_range seq acc) /\
  (forall x, covers (fold_left append_range seq acc) x <-> covers acc x \/ covers seq x).
Proof.
  revert acc lo. induction seq as [|r seq IH]; intros acc lo H0 Hs Hn Hh; cbn.
  - split; [done|]. intros x. rewrite covers_nil. tauto.
  - cbn in Hs. destruct Hs as (H1 & H2 & H3).
    destruct (append_range_spec acc r) as (G1 & G2 & G3); [done|lia|done| |].
    { destruct acc; cbn in *; lia || done. }
    destruct (IH (append_range acc r) (Start r)) as (G4 & G5); [lia|done..|].
    split; [done|]. intros x. rewrite G5, G3, covers_cons. tauto.
Qed.

Lemma rnormal_reverse rs : rnormal rs -> normal (reverse rs).
Proof.
  unfold normal. induction rs as [|r rs IH]; cbn [rnormal]; [done|]. intros (H1 & H2 & H3).
  rewrite reverse_cons. apply normal_from_app. split; [auto|]. cbn. split_and!; [|done|done].
  destruct rs as [|q rs]; [done|]. rewrite reverse_cons.
  assert (forall lo l, last_end lo (l ++ [q]) = End q) as ->; [|done].
  intros lo l. revert lo. induction l; intros; cbn; auto.
Qed.

Lemma Union_spec rs other :
  normal rs -> normal other ->
  normal (Union rs other) /\
  forall x, covers (Union rs other) x <-> covers rs x \/ covers other x.
Proof.
  intros H1 H2. unfold Union. rewrite union_loop_fold.
  destruct (fold_append_spec (merge_starts rs other) [] 0) as [G1 G2]; [done| |done..|].
  - apply merge_starts_by_start; by apply normal_by_start in H1, H2.
  - split; [by apply rnormal_reverse|]. intros x.
    rewrite covers_reverse, G2, covers_nil, covers_merge_starts. tauto.
Qed.

(** ** Remove *)

Lemma trim_range_spec start end_ lo r :
  start < end_ -> lo < Start r -> Start r < End r ->
  normal_from lo (trim_range start end_ r) /\ last_end lo (trim_range start end_ r) <= End r /\
  forall x, covers (trim_range start end_ r) x <-> in_range x r /\ ~ start <= x < end_.
Proof.
  intros H1 H2 H3. unfold trim_range.
  destruct (End r <=? start) eqn:E1, (end_ <=? Start r) eqn:E2; cbn [orb]; reflect_bools;
    [..|destruct (Start r <? start) eqn:E3, (end_ <? End r) eqn:E4; reflect_bools];
    cbn; (split; [intuition lia|split; [lia|]]); intros x;
    rewrite ?covers_cons, ?covers_nil; unfold in_range; cbn; intuition lia.
Qed.

Lemma Remove_trim start end_ lo rs :
  start < end_ -> normal_from lo rs ->
  normal_from lo (flat_map (trim_range start end_) rs) /\
  forall x, covers (flat_map (trim_range start end_) rs) x <-> covers rs x /\ ~ start <= x < end_.
Proof.
  intros Hse. revert lo. induction rs as [|r rs IH]; intros lo Hn; cbn [flat_map].
  - split; [done|]. intros x. rewrite covers_nil. tauto.
  - destruct Hn as (H1 & H2 & H3). destruct (IH _ H3) as [G1 G2].
    destruct (trim_range_spec start end_ lo r) as (T1 & T2 & T3); [done..|]. split.
    + apply normal_from_app. split; [done|]. by eapply normal_from_weaken.
    + intros x. rewrite covers_app, T3, G2, covers_cons. tauto.
Qed.

Lemma normal_from_bounds lo rs r : normal_from lo rs -> r ∈ rs -> lo < Start r < End r.
Proof.
  revert lo. induction rs as [|q rs IH]; intros lo Hn Hr; [by apply not_elem_of_nil in Hr|].
  destruct Hn as (H1 & H2 & H3). apply elem_of_cons in Hr as [->|Hr]; [lia|].
  specialize (IH _ H3 Hr). lia.
Qed.

(** Two ranges of a normal set are the same or lie apart. *)
Lemma normal_from_apart lo rs q r :
  normal_from lo rs -> q ∈ rs -> r ∈ rs -> q = r \/ End q < Start r \/ End r < Start q.
Proof.
  revert lo. induction rs as [|p rs IH]; intros lo Hn Hq Hr; [by apply not_elem_of_nil in Hq|].
  destruct Hn as (H1 & H2 & H3).
  apply elem_of_cons in Hq as [->|Hq], Hr as [->|Hr]; [by left| | |by eapply IH].
  - right; left. by apply (normal_from_bounds _ _ _ H3).
  - right; right. by apply (normal_from_bounds _ _ _ H3).
Qed.

(** A range strictly around the removed one is the only one that changes. *)
Lemma split_trim start end_ lo rs r :
  start < end_ -> normal_from lo rs -> r ∈ rs -> Start r < start -> end_ < End r ->
  flat_map (split_range r start end_) rs = flat_map (trim_range start end_) rs.
Proof.
  intros Hse Hn Hr H1 H2.
  assert (forall q, q ∈ rs -> split_range r start end_ q = trim_range start end_ q) as Heq.
  { intros q Hq. unfold split_range, trim_range. destruct (normal_from_apart _ _ _ _ Hn Hq Hr) as [->|Hap].
    - rewrite decide_True by done. rewrite (proj2 (Z.leb_gt _ _)), (proj2 (Z.leb_gt _ _)) by lia.
      cbn [orb]. by rewrite (proj2 (Z.ltb_lt _ _) H1), (proj2 (Z.ltb_lt _ _) H2).
    - rewrite decide_False by (intros ->; lia).
      destruct (End q <=? start) eqn:E1, (end_ <=? Start q) eqn:E2; try done; reflect_bools; lia. }
  clear Hn Hr. induction rs as [|q rs IH]; [done|]. cbn [flat_map].
  rewrite Heq, IH; [done| |by left]. intros; apply Heq. by right.
Qed.

Lemma Remove_spec rs start end_ :
  normal rs ->
  normal (Remove rs start end_) /\
  forall x, covers (Remove rs start end_) x <-> covers rs x /\ ~ start <= x < end_.
Proof.
  intros Hn. unfold Remove. destruct (end_ <=? start) eqn:E; reflect_bools.
  { split; [done|]. intros x. intuition lia. }
  destruct (find _ rs) as [r|] eqn:F; [|by apply Remove_trim].
  apply find_some in F as [F1%list_elem_of_In F2]. reflect_bools.
  rewrite (split_trim _ _ (-1)) by done. by apply Remove_trim.
Qed.

(** ** Gaps *)

Lemma gaps_loop_spec lo rs pos end_ :
  normal_from lo rs ->
  normal_from (pos - 1) (gaps_loop rs pos end_) /\
  forall x, covers (gaps_loop rs pos end_) x <-> pos <= x < end_ /\ ~ covers rs x.
Proof.
  revert lo pos. induction rs as [|r rs IH]; intros lo pos Hn; cbn [gaps_loop].
  - destruct (pos <? end_) eqn:E; reflect_bools; cbn; (split; [split_and?; lia || done|]); intros x;
      rewrite ?covers_cons, covers_nil; unfold in_range; cbn; intuition lia.
  - destruct Hn as (H1 & H2 & H3).
    assert (forall x, covers rs x -> End r < x) as Hgt by (intros x; by apply normal_from_covers).
    destruct (End r <=? pos) eqn:E1; reflect_bools.
    { destruct (IH _ pos H3) as [G1 G2]. split; [done|]. intros x.
      rewrite G2, covers_cons. unfold in_range. intuition lia. }
    destruct (end_ <=? Start r) eqn:E2; reflect_bools.
    { destruct (pos <? end_) eqn:E3; reflect_bools; cbn; (split; [split_and?; lia || done|]); intros x;
        rewrite ?covers_cons, ?covers_nil; unfold in_range; cbn;
        (split; [intros ?; destruct_or?; split; try lia; intros [?|?%Hgt]; lia|intuition lia]). }
    rewrite (proj2 (Z.ltb_lt pos (End r))), Z.min_l by lia. destruct (IH _ (End r) H3) as [G1 G2].
    destruct (pos <? Start r) eqn:E3, (end_ <=? End r) eqn:E4; reflect_bools; cbn [app normal_from];
      (split; [split_and?; cbn; first [lia|done|eapply normal_from_weaken; [|exact G1]; cbn; lia]|]);
      intros x; rewrite ?covers_cons, ?G2, ?covers_nil; unfold in_range; cbn;
      (destruct (decide (covers rs x)) as [Hc|Hc]; [pose proof (Hgt _ Hc)|];
       destruct (decide (Start r <= x)), (decide (x < End r)); intuition lia).
Qed.

Lemma Gaps_spec rs start end_ :
  0 <= start -> normal rs ->
  normal (Gaps rs start end_) /\
  forall x, covers (Gaps rs start end_) x <-> start <= x < end_ /\ ~ covers rs x.
Proof.
  intros H0 Hn. unfold Gaps. destruct (end_ <=? start) eqn:E; reflect_bools.
  - split; [done|]. intros x. rewrite covers_nil. lia.
  - destruct (gaps_loop_spec (-1) rs start end_ Hn) as [G1 G2]. split; [|done].
    eapply normal_from_weaken; [|exact G1]. lia.
Qed.

Lemma Gaps_bounds rs start end_ :
  0 <= start -> normal rs ->
  Forall (fun g => start <= Start g < End g /\ End g <= end_ /\ forall x, in_range x g -> ~ covers rs x)
    (Gaps rs start end_).
Proof.
  intros H0 Hn. destruct (Gaps_spec rs start end_ H0 Hn) as [G1 G2]. apply Forall_forall. intros g Hg.
  assert (forall x, in_range x g -> covers (Gaps rs start end_) x) as Hx by (intros; apply Exists_exists; eauto).
  pose proof (normal_from_bounds _ _ _ G1 Hg). unfold in_range in *.
  destruct (proj1 (G2 _) (Hx (Start g) ltac:(lia))), (proj1 (G2 _) (Hx (End g - 1) ltac:(lia))).
  split_and!; [lia..|]. intros x Hg'. by apply G2, Hx.
Qed.

(** ** A normal set is determined by what it covers *)

Lemma normal_from_ext lo rs rs' :
  normal_from lo rs -> normal_from lo rs' -> (forall x, covers rs x <-> covers rs' x) -> rs = rs'.
Proof.
  revert lo rs'. induction rs as [|r rs IH]; intros lo [|r' rs'] Hn Hn' Hext; [done|..].
  - destruct Hn' as (H1 & H2 & H3). exfalso. apply (covers_nil (Start r')), Hext, covers_cons.
    left. unfold in_range. lia.
  - destruct Hn as (H1 & H2 & H3). exfalso. apply (covers_nil (Start r)), Hext, covers_cons.
    left. unfold in_range. lia.
  - destruct Hn as (H1 & H2 & H3), Hn' as (H1' & H2' & H3').
    assert (forall x, covers rs x -> End r < x) as Hgt by (intros x; by apply normal_from_covers).
    assert (forall x, covers rs' x -> End r' < x) as Hgt' by (intros x; by apply normal_from_covers).
    setoid_rewrite covers_cons in Hext. unfold in_range in Hext.
    assert (Start r = Start r') as HS.
    { destruct (proj1 (Hext (Start r))) as [?|?%Hgt']; [left; lia|..];
        destruct (proj2 (Hext (Start r'))) as [?|?%Hgt]; try (left; lia); lia. }
    assert (End r = End r') as HE.
    { destruct (Z.lt_trichotomy (End r) (End r')) as [Hlt|[?|Hlt]]; [|done|].
      - destruct (proj2 (Hext (End r))) as [?|?%Hgt]; [left|..]; lia.
      - destruct (proj1 (Hext (End r'))) as [?|?%Hgt']; [left|..]; lia. }
    f_equal; [destruct r, r'; cbn in *; congruence|]. apply (IH (End r)); [done|by rewrite HE|].
    intros x. specialize (Hext x). specialize (Hgt x). specialize (Hgt' x). intuition lia.
Qed.

Lemma normal_ext rs rs' :
  normal rs -> normal rs' -> (forall x, covers rs x <-> covers rs' x) -> rs = rs'.
Proof. apply normal_from_ext. Qed.

Lemma covers_add rs start end_ x :
  0 <= start -> normal rs -> covers (Add rs start end_) x <-> covers rs x \/ start <= x < end_.
Proof. intros H1 H2. by apply Add_spec. Qed.

Lemma bounded_covers lo hi rs : normal_from lo rs -> (forall x, covers rs x -> x < hi) -> bounded hi rs.
Proof.
  intros Hn Hc. apply Forall_forall. intros r Hr.
  pose proof (normal_from_bounds _ _ _ Hn Hr).
  enough (End r - 1 < hi) by lia. apply Hc, Exists_exists. exists r. split; [done|].
  unfold in_range. lia.
Qed.

Lemma bounded_lt hi rs x : bounded hi rs -> covers rs x -> x < hi.
Proof.
  unfold bounded, covers. rewrite Forall_forall, Exists_exists.
  intros Hb (r & Hr & H1 & H2). specialize (Hb r Hr). lia.
Qed.

(** C35: on normalized sets of uint64 offsets the four operations compute the
    set operations they are named for: Add the union with [start, end), Union
    the union, Remove the difference with [start, end), and Gaps the part of
    [start, end) that is not covered. Each result is again normalized, with
    every end at most [hi], so no offset leaves the width of the machine
    integers. *)
Theorem range_set_operations (hi start end_ : Z) (rs other : Set_) :
  normal rs -> normal other -> bounded hi rs -> bounded hi other -> 0 <= start -> end_ <= hi ->
  (normal (Add rs start end_) /\ bounded hi (Add rs start end_) /\
   forall x, covers (Add rs start end_) x <-> covers rs x \/ start <= x < end_) /\
  (normal (Union rs other) /\ bounded hi (Union rs other) /\
   forall x, covers (Union rs other) x <-> covers rs x \/ covers other x) /\
  (normal (Remove rs start end_) /\ bounded hi (Remove rs start end_) /\
   forall x, covers (Remove rs start end_) x <-> covers rs x /\ ~ start <= x < end_) /\
  (normal (Gaps rs start end_) /\ bounded hi (Gaps rs start end_) /\
   forall x, covers (Gaps rs start end_) x <-> start <= x < end_ /\ ~ covers rs x).
Proof.
  intros Hn Ho Hb Hbo H0 He.
  destruct (Add_spec rs start end_) as [A1 A2]; [done..|].
  destruct (Union_spec rs other) as [U1 U2]; [done..|].
  destruct (Remove_spec rs start end_) as [R1 R2]; [done|].
  destruct (Gaps_spec rs start end_) as [G1 G2]; [done..|].
  repeat match goal with |- _ /\ _ => split end; try done;
    (eapply bounded_covers; [eassumption|]; intros x);
    rewrite ?A2, ?U2, ?R2, ?G2; intros; destruct_or?; destruct_and?; eauto using bounded_lt; lia.
Qed.

Lemma range_set_operations_witness :
  covers (Remove [mkRange 0 10; mkRange 20 30] 4 6) 3 /\
  Gaps [mkRange 2 4; mkRange 6 8] 0 10 = [mkRange 0 2; mkRange 4 6; mkRange 8 10].
Proof.
  split; [|reflexivity].
  pose proof (range_set_operations 100 4 6 [mkRange 0 10; mkRange 20 30] []) as H.
  destruct H as (_ & _ & (_ & _ & H) & _);
    [cbn; lia|done|apply Forall_cons; split; [cbn; lia|apply Forall_cons; split; [cbn; lia|apply Forall_nil; done]]|apply Forall_nil; done|lia|lia|].
  apply H. split; [|lia]. apply covers_cons. left. unfold in_range. cbn. lia.
Defined.

(** Two normalized sets that cover the same offsets are the same slice, so
    the order in which ranges are recorded does not show: Add commutes with
    Add and with Union, Union is commutative, associative and idempotent,
    adding then removing a range is removing it, and filling the gaps of a
    range covers exactly what Add would. *)
Theorem range_set_algebra (rs a b : Set_) (s e s' e' : Z) :
  normal rs -> normal a -> normal b -> 0 <= s -> 0 <= s' ->
  Add (Add rs s e) s' e' = Add (Add rs s' e') s e /\
  Union (Add a s e) b = Add (Union a b) s e /\
  Union a b = Union b a /\
  Union (Union rs a) b = Union rs (Union a b) /\
  Union a a = a /\
  Remove (Add rs s e) s e = Remove rs s e /\
  Union rs (Gaps rs s e) = Add rs s e.
Proof.
  intros Hr Ha Hb H0 H0'.
  assert (forall q x y, 0 <= x -> normal q -> normal (Add q x y)) as NA by (intros; by apply Add_spec).
  assert (forall p q, normal p -> normal q -> normal (Union p q)) as NU by (intros; by apply Union_spec).
  assert (forall q x y, normal q -> normal (Remove q x y)) as NR by (intros; by apply Remove_spec).
  assert (forall q x y, 0 <= x -> normal q -> normal (Gaps q x y)) as NG by (intros; by apply Gaps_spec).
  repeat match goal with |- _ /\ _ => split end; apply normal_ext; auto; intros x;
    rewrite ?(fun q q' H H' => proj2 (Union_spec q q' H H')) by auto;
    rewrite ?(fun q u v H => proj2 (Remove_spec q u v H)) by auto;
    rewrite ?covers_add by auto;
    rewrite ?(fun q q' H H' => proj2 (Union_spec q q' H H')) by auto;
    rewrite ?(fun q u v H H' => proj2 (Gaps_spec q u v H H')) by auto;
    rewrite ?covers_add by auto;
    destruct (decide (covers rs x)); tauto.
Qed.

Lemma range_set_algebra_witness :
  Union (Union [mkRange 0 3] [mkRange 2 5]) [mkRange 8 9] =
  Union [mkRange 0 3] (Union [mkRange 2 5] [mkRange 8 9]).
Proof.
  pose proof (range_set_algebra [mkRange 0 3] [mkRange 2 5] [mkRange 8 9] 0 1 0 1) as H.
  apply H; cbn; lia.
Defined.
