(* ===== verification/Sidecar.v ===== *)
(** The sidecar of a staged file: src/go/nfsd/internal/staging/sidecar.go.

    [encode_meta] is the buffer SaveMeta fills, [LoadMeta] the parser of what
    ReadFile returned. A [time.Time] is its Unix time in nanoseconds, without
    bound; [UnixNano] wraps it to an int64 and the zero Time is
    [zero_time]. The sizes of the Go arrays are part of [Meta_wf]. A slice
    expression outside the data is a [Panic]. *)

From Stdlib Require Import ZArith Lia.
From stdpp Require Import base numbers option list.
From S2P Require Import Prelude ByteRange.

(** * Data *)

Abbreviation time := Z.

(** The first instant of year 1, in nanoseconds from 1970. *)
Definition zero_time : time := -62135596800 * 1000000000.
Definition IsZero (t : time) : bool := t =? zero_time.
Definition UnixNano (t : time) : Z := to_signed 64 t.

Record NodeInfo := mkNodeInfo {
  NodeInfo_Size : Z;
  NodeInfo_Mtime : time;
  NodeInfo_Atime : time;
  NodeInfo_Ctime : time;
  NodeInfo_Change : Z }.

Record Candidate := mkCandidate {
  Candidate_ID : Z;
  Candidate_Cookie : list byte;
  Candidate_Version : Z }.

Record Meta := mkMeta {
  Meta_DirID : Z;
  Meta_FileName : list byte;
  Meta_TernCookie : list byte;
  Meta_NFSStateID : list byte;
  Meta_ClientID : Z;
  Meta_OpenOwner : list byte;
  Meta_OwnerKnown : bool;
  Meta_RecoveryKey : list byte;
  Meta_Unlinked : bool;
  Meta_Guarded : bool;
  Meta_Retired : bool;
  Meta_ReadOnly : bool;
  Meta_Exclusive : bool;
  Meta_Verifier : list byte;
  Meta_BaseID : Z;
  Meta_BaseSize : Z;
  Meta_Size : Z;
  Meta_Dirty : Set_;
  Meta_MetadataChanged : bool;
  Meta_Attrs : NodeInfo;
  Meta_DataVersion : Z;
  Meta_Candidate : Candidate;
  Meta_Version : Z }.

#[export] Instance NodeInfo_eq_dec : EqDecision NodeInfo.
Proof. solve_decision. Defined.
#[export] Instance Candidate_eq_dec : EqDecision Candidate.
Proof. solve_decision. Defined.
#[export] Instance Meta_eq_dec : EqDecision Meta.
Proof. solve_decision. Defined.

(** "NFS9" *)
Definition formatMagic : list byte := [Byte.x4e; Byte.x46; Byte.x53; Byte.x39].
Definition MetaVersion : Z := 9.
Definition MaxInt64 : Z := 2 ^ 63 - 1.

Inductive meta_error :=
| MetaTooShort
| MetaTruncated
| MetaFormat (magic : list byte)
| MetaUnknownExtension
| MetaRangeCount
| MetaRange
| MetaNotNormalized
| MetaAttrsTruncated
| MetaChangeFlag
| MetaOwnerLength
| MetaTrailing
| MetaSizeRange.

(** * SaveMeta *)

Definition encode_range (r : Range) : list byte := be_bytes 8 (Start r) ++ be_bytes 8 (End r).

Definition flag (b : bool) (bit : Z) : Z := if b then bit else 0.

Definition encode_flags (metadataChanged ownerKnown readOnly retired exclusive unlinked guarded : bool) : Z :=
  let f := flag metadataChanged 1 in
  let f := Z.lor f (flag ownerKnown 2) in
  let f := Z.lor f (flag readOnly 4) in
  let f := Z.lor f (flag retired 8) in
  let f := Z.lor f (flag exclusive 16) in
  let f := Z.lor f (flag unlinked 32) in
  Z.lor f (flag guarded 64).

Definition encode_attrs (a : NodeInfo) : list byte :=
  be_bytes 8 (NodeInfo_Change a) ++
  be_bytes 8 (UnixNano (NodeInfo_Mtime a)) ++
  be_bytes 8 (UnixNano (NodeInfo_Atime a)) ++
  be_bytes 8 (UnixNano (NodeInfo_Ctime a)).

(** The buffer SaveMeta writes, part by part. The conversions uint16 and uint32
    of the lengths keep the low bytes. *)
Definition encode_meta (meta : Meta) : list byte :=
  be_bytes 8 (Meta_DirID meta) ++
  Meta_TernCookie meta ++
  Meta_NFSStateID meta ++
  be_bytes 2 (Z.of_nat (length (Meta_FileName meta))) ++
  Meta_FileName meta ++
  be_bytes 8 (Meta_ClientID meta) ++
  formatMagic ++
  be_bytes 8 (Meta_BaseID meta) ++
  be_bytes 8 (Meta_BaseSize meta) ++
  be_bytes 8 (Meta_Size meta) ++
  be_bytes 4 (Z.of_nat (length (Meta_Dirty meta))) ++
  flat_map encode_range (Meta_Dirty meta) ++
  encode_attrs (Meta_Attrs meta) ++
  [byte_of (encode_flags (Meta_MetadataChanged meta) (Meta_OwnerKnown meta) (Meta_ReadOnly meta)
              (Meta_Retired meta) (Meta_Exclusive meta) (Meta_Unlinked meta) (Meta_Guarded meta))] ++
  be_bytes 8 (Meta_DataVersion meta) ++
  be_bytes 8 (Candidate_ID (Meta_Candidate meta)) ++
  Candidate_Cookie (Meta_Candidate meta) ++
  be_bytes 8 (Candidate_Version (Meta_Candidate meta)) ++
  be_bytes 4 (Z.of_nat (length (Meta_OpenOwner meta))) ++
  Meta_OpenOwner meta ++
  Meta_RecoveryKey meta ++
  Meta_Verifier meta.

(** * LoadMeta *)

(** The loop over the dirty ranges, from [off] with [dirty] read so far. *)
Fixpoint load_ranges (count : nat) (data : list byte) (off : nat) (dirty : Set_) :
    outcome meta_error (Set_ * nat) :=
  match count with
  | O => Ok (dirty, off)
  | S count =>
      let! start := be_at 8 data off in
      let! end_ := be_at 8 data (off + 8) in
      let! _ := check (start <? end_) MetaRange in
      let! _ := check (match last dirty with Some r => End r <? start | None => true end) MetaNotNormalized in
      load_ranges count data (off + 16) (dirty ++ [mkRange start end_])
  end.

(** The attributes at [off]; without a change value the times stay zero. *)
Definition load_attrs (data : list byte) (off : nat) : outcome meta_error NodeInfo :=
  let! change := be_at 8 data off in
  if change =? 0 then Ok (mkNodeInfo 0 zero_time zero_time zero_time change)
  else
    let! mtime := be_at 8 data (off + 8) in
    let! atime := be_at 8 data (off + 16) in
    let! ctime := be_at 8 data (off + 24) in
    Ok (mkNodeInfo 0 (to_signed 64 mtime) (to_signed 64 atime) (to_signed 64 ctime) change).

Definition has_flag (b : Z) (bit : Z) : bool := negb (Z.land b bit =? 0).

Definition LoadMeta (data : list byte) : outcome meta_error Meta :=
  let! _ := check (30 <=? length data)%nat MetaTooShort in
  let! dirID := be_at 8 data 0 in
  let! ternCookie := sub data 8 (8 + 8) in
  let! nfsStateID := sub data 16 (16 + 12) in
  let! nameLen := be_at 2 data 28 in
  let nameEnd := (30 + Z.to_nat nameLen)%nat in
  let! _ := check (nameEnd <=? length data)%nat MetaTruncated in
  let! fileName := sub data 30 nameEnd in
  let! _ := check (nameEnd + 12 <=? length data)%nat MetaTruncated in
  let! clientID := be_at 8 data nameEnd in
  let off := (nameEnd + 8)%nat in
  let! magic := sub data off (off + 4) in
  let! _ :=
    if decide (magic = formatMagic) then Ok tt
    else if decide (take 3 magic = take 3 formatMagic) then Err (MetaFormat magic)
    else Err MetaUnknownExtension in
  let off := (off + 4)%nat in
  let! _ := check (off + 20 <=? length data)%nat MetaTruncated in
  let! baseID := be_at 8 data off in
  let off := (off + 8)%nat in
  let! baseSize := be_at 8 data off in
  let off := (off + 8)%nat in
  let! _ := check (off + 8 <=? length data)%nat MetaTruncated in
  let! size := be_at 8 data off in
  let off := (off + 8)%nat in
  let! _ := check (off + 4 <=? length data)%nat MetaTruncated in
  let! count := be_at 4 data off in
  let off := (off + 4)%nat in
  let! _ := check (count <=? Z.of_nat ((length data - off) / 16)) MetaRangeCount in
  let! (dirty, off) := load_ranges (Z.to_nat count) data off [] in
  let! _ := check (69 <=? length data - off)%nat MetaAttrsTruncated in
  let! attrs := load_attrs data off in
  let off := (off + 32)%nat in
  let! fb := index data off in
  let f := byte_val fb in
  let! _ := check (Z.ldiff f 127 =? 0) MetaChangeFlag in
  let off := (off + 1)%nat in
  let! dataVersion := be_at 8 data off in
  let! candidateID := be_at 8 data (off + 8) in
  let! candidateCookie := sub data (off + 16) (off + 16 + 8) in
  let! candidateVersion := be_at 8 data (off + 24) in
  let off := (off + 32)%nat in
  let! ownerLen := be_at 4 data off in
  let off := (off + 4)%nat in
  let! _ := check (Z.of_nat (length data - off) =? ownerLen + 40) MetaOwnerLength in
  let! openOwner := sub data off (off + Z.to_nat ownerLen) in
  let off := (off + Z.to_nat ownerLen)%nat in
  let! recoveryKey := sub data off (off + 32) in
  let off := (off + 32)%nat in
  let! verifier := sub data off (off + 8) in
  let off := (off + 8)%nat in
  let! _ := check (off =? length data)%nat MetaTrailing in
  let! _ := check ((size <=? MaxInt64) && (baseSize <=? MaxInt64)) MetaSizeRange in
  Ok {| Meta_DirID := dirID; Meta_FileName := fileName; Meta_TernCookie := ternCookie;
        Meta_NFSStateID := nfsStateID; Meta_ClientID := clientID; Meta_OpenOwner := openOwner;
        Meta_OwnerKnown := has_flag f 2; Meta_RecoveryKey := recoveryKey;
        Meta_Unlinked := has_flag f 32; Meta_Guarded := has_flag f 64;
        Meta_Retired := has_flag f 8; Meta_ReadOnly := has_flag f 4;
        Meta_Exclusive := has_flag f 16; Meta_Verifier := verifier; Meta_BaseID := baseID;
        Meta_BaseSize := baseSize; Meta_Size := size; Meta_Dirty := dirty;
        Meta_MetadataChanged := has_flag f 1; Meta_Attrs := attrs;
        Meta_DataVersion := dataVersion;
        Meta_Candidate := mkCandidate candidateID candidateCookie candidateVersion;
        Meta_Version := MetaVersion |}.

(** * Well-formed metadata *)

Definition is_i64 (z : Z) : Prop := - 2 ^ 63 <= z < 2 ^ 63.

(** The times a sidecar can hold: int64 nanoseconds, and none of them without
    a change value. *)
Definition Attrs_wf (a : NodeInfo) : Prop :=
  NodeInfo_Size a = 0 /\ is_u64 (NodeInfo_Change a) /\
  if NodeInfo_Change a =? 0
  then NodeInfo_Mtime a = zero_time /\ NodeInfo_Atime a = zero_time /\ NodeInfo_Ctime a = zero_time
  else is_i64 (NodeInfo_Mtime a) /\ is_i64 (NodeInfo_Atime a) /\ is_i64 (NodeInfo_Ctime a).

Record Meta_wf (m : Meta) : Prop := {
  wf_DirID : is_u64 (Meta_DirID m);
  wf_FileName : (Z.of_nat (length (Meta_FileName m)) < 2 ^ 16)%Z;
  wf_TernCookie : length (Meta_TernCookie m) = 8%nat;
  wf_NFSStateID : length (Meta_NFSStateID m) = 12%nat;
  wf_ClientID : is_u64 (Meta_ClientID m);
  wf_OpenOwner : (Z.of_nat (length (Meta_OpenOwner m)) < 2 ^ 32)%Z;
  wf_RecoveryKey : length (Meta_RecoveryKey m) = 32%nat;
  wf_Verifier : length (Meta_Verifier m) = 8%nat;
  wf_BaseID : is_u64 (Meta_BaseID m);
  wf_BaseSize : 0 <= Meta_BaseSize m <= MaxInt64;
  wf_Size : 0 <= Meta_Size m <= MaxInt64;
  wf_Dirty : normal (Meta_Dirty m) /\ bounded (2 ^ 64 - 1) (Meta_Dirty m);
  wf_DirtyCount : (Z.of_nat (length (Meta_Dirty m)) < 2 ^ 32)%Z;
  wf_Attrs : Attrs_wf (Meta_Attrs m);
  wf_DataVersion : is_u64 (Meta_DataVersion m);
  wf_CandidateID : is_u64 (Candidate_ID (Meta_Candidate m));
  wf_CandidateCookie : length (Candidate_Cookie (Meta_Candidate m)) = 8%nat;
  wf_CandidateVersion : is_u64 (Candidate_Version (Meta_Candidate m));
  wf_Version : Meta_Version m = MetaVersion }.

(** * Lemmas *)

Lemma is_i64_to_signed z : is_i64 (to_signed 64 z).
Proof.
  unfold to_signed, is_i64. pose proof (Z.mod_pos_bound z (2 ^ 64)). case_decide; lia.
Qed.

Lemma to_signed_mod z : to_signed 64 z mod 2 ^ 64 = z mod 2 ^ 64.
Proof.
  unfold to_signed. case_decide; [by rewrite Z.mod_mod by lia|].
  rewrite <-(Z.mod_add _ 1) by lia. replace (z mod 2 ^ 64 - 2 ^ 64 + 1 * 2 ^ 64) with (z mod 2 ^ 64) by lia.
  by rewrite Z.mod_mod by lia.
Qed.

Lemma to_signed_small z : is_i64 z -> to_signed 64 (z mod 2 ^ 64) = z.
Proof.
  unfold to_signed, is_i64. intros H. rewrite Z.mod_mod by lia.
  destruct (Z.leb_spec 0 z).
  - rewrite Z.mod_small by lia. case_decide; lia.
  - rewrite <-(Z.mod_add _ 1), Z.mod_small by lia. case_decide; lia.
Qed.

Lemma to_signed_i64 z : is_i64 z -> to_signed 64 z = z.
Proof.
  intros H. rewrite <-(to_signed_small z H) at 2. unfold to_signed. by rewrite Z.mod_mod by lia.
Qed.

Lemma be_bytes_mod z z' : z mod 2 ^ 64 = z' mod 2 ^ 64 -> be_bytes 8 z = be_bytes 8 z'.
Proof.
  intros H. assert (be_val (be_bytes 8 z) = be_val (be_bytes 8 z')) as Hv by by rewrite !be_val_be_bytes.
  rewrite <-(be_bytes_be_val (be_bytes 8 z)), <-(be_bytes_be_val (be_bytes 8 z')), Hv.
  by rewrite !length_be_bytes.
Qed.

(** A time written and read back. *)
Lemma to_signed_be_val t : is_i64 t -> to_signed 64 (be_val (be_bytes 8 (UnixNano t))) = t.
Proof.
  intros H. unfold UnixNano. rewrite be_val_be_bytes. rewrite (to_signed_i64 t) by done.
  by apply to_signed_small.
Qed.

Lemma be_bytes_UnixNano bs : length bs = 8%nat -> be_bytes 8 (UnixNano (to_signed 64 (be_val bs))) = bs.
Proof.
  intros H. unfold UnixNano. rewrite (be_bytes_mod _ (be_val bs)) by (rewrite !to_signed_mod; done).
  rewrite <-H. apply be_bytes_be_val.
Qed.

Lemma be_bytes_of n bs : length bs = n -> be_bytes n (be_val bs) = bs.
Proof. intros <-. apply be_bytes_be_val. Qed.

Lemma be_val_u64 bs : length bs = 8%nat -> is_u64 (be_val bs).
Proof. intros H. pose proof (be_val_bound bs). by rewrite H in *. Qed.
Lemma be_val_u32 bs : length bs = 4%nat -> is_u32 (be_val bs).
Proof. intros H. pose proof (be_val_bound bs). by rewrite H in *. Qed.
Lemma be_val_u16 bs : length bs = 2%nat -> is_u16 (be_val bs).
Proof. intros H. pose proof (be_val_bound bs). by rewrite H in *. Qed.

Lemma flags_decode a b c d e f g :
  let z := byte_val (byte_of (encode_flags a b c d e f g)) in
  (Z.ldiff z 127 =? 0) = true /\
  has_flag z 1 = a /\ has_flag z 2 = b /\ has_flag z 4 = c /\ has_flag z 8 = d /\
  has_flag z 16 = e /\ has_flag z 32 = f /\ has_flag z 64 = g.
Proof. by destruct a, b, c, d, e, f, g. Qed.

Lemma flags_encode fb :
  let z := byte_val fb in
  (Z.ldiff z 127 =? 0) = true ->
  byte_of (encode_flags (has_flag z 1) (has_flag z 2) (has_flag z 4) (has_flag z 8)
             (has_flag z 16) (has_flag z 32) (has_flag z 64)) = fb.
Proof. destruct fb; vm_compute; done. Qed.

(** What is left of [data] from [off] on is [rest]. *)
Definition left_at (data : list byte) (off : nat) (rest : list byte) : Prop :=
  drop off data = rest /\ (off <= length data)%nat.

Lemma left_at_be {E} data off bs rest n :
  left_at data off (bs ++ rest) -> length bs = n ->
  @be_at E n data off = Ok (be_val bs) /\ left_at data (off + n) rest.
Proof. intros [H1 H2] H3. destruct (@be_at_drop E _ _ _ _ _ H1 H2 H3) as (? & ? & ?). done. Qed.

Lemma left_at_sub {E} data off bs rest n :
  left_at data off (bs ++ rest) -> length bs = n ->
  @sub E _ data off (off + n) = Ok bs /\ left_at data (off + n) rest.
Proof. intros [H1 H2] H3. destruct (@sub_drop E _ _ _ _ _ _ H1 H2 H3) as (? & ? & ?). done. Qed.

Lemma left_at_index {E} data off x rest :
  left_at data off (x :: rest) -> @index E _ data off = Ok x /\ left_at data (off + 1) rest.
Proof. intros [H1 H2]. destruct (@index_drop E _ _ _ _ _ H1) as (? & ? & ?). done. Qed.

Lemma left_at_length data off rest : left_at data off rest -> length data = (off + length rest)%nat.
Proof. intros [<- H]. rewrite length_drop. lia. Qed.

(** Reads the next field: [H] says what is left at the offset the goal reads. *)
Ltac next H :=
  lazymatch type of H with
  | left_at ?d ?off (?bs ++ _) =>
      let R := fresh in let N := fresh in
      match goal with
      | |- context [mbind _ (be_at ?n d ?o)] =>
          destruct (left_at_be (E:=meta_error) d off bs _ n H) as [R N]; [by rewrite ?length_be_bytes|];
          replace off with o in R by lia
      | |- context [mbind _ (sub d ?o ?o')] =>
          destruct (left_at_sub (E:=meta_error) d off bs _ _ H eq_refl) as [R N];
          replace (sub d off (off + length bs)) with (@sub meta_error _ d o o') in R by (f_equal; lia)
      end; rewrite R; clear R H; rename N into H; cbn [mbind outcome_bind]
  end.

Lemma last_end_last lo rs r : last rs = Some r -> last_end lo rs = End r.
Proof.
  revert lo. induction rs as [|q [|q' rs] IH]; intros lo; [done|by intros [= ->]|].
  intros H. exact (IH (End q) H).
Qed.

Lemma load_ranges_encode rs data off acc rest :
  left_at data off (flat_map encode_range rs ++ rest) ->
  normal (acc ++ rs) -> bounded (2 ^ 64 - 1) rs ->
  load_ranges (length rs) data off acc = Ok (acc ++ rs, (off + 16 * length rs)%nat) /\
  left_at data (off + 16 * length rs) rest.
Proof.
  revert off acc. induction rs as [|r rs IH]; intros off acc H Hn Hb.
  { cbn. by rewrite app_nil_r, Nat.add_0_r. }
  cbn [load_ranges length flat_map] in *. unfold encode_range in H. rewrite <-!app_assoc in H.
  apply Forall_cons in Hb as [Hb1 Hb2]. pose proof Hn as Hn'.
  apply normal_from_app in Hn' as [_ (H1 & H2 & _)].
  assert (-1 <= last_end (-1) acc) as H0 
    by (apply (proj1 (last_end_bounds (-1) acc ltac:(by apply normal_from_app in Hn as [? _])))).
  next H. rewrite be_val_bytes_u64 by (unfold is_u64; lia).
  next H. rewrite be_val_bytes_u64 by (unfold is_u64; lia).
  unfold check. rewrite (proj2 (Z.ltb_lt _ _) H2). cbn [mbind outcome_bind].
  assert (match last acc with Some q => End q <? Start r | None => true end = true) as ->.
  { destruct (last acc) as [q|] eqn:El; [|done]. rewrite (last_end_last _ _ _ El) in H1. by apply Z.ltb_lt. }
  cbn [mbind outcome_bind]. replace (off + 8 + 8)%nat with (off + 16)%nat in H by lia.
  destruct r as [s e]. cbn [Start End]. destruct (IH _ (acc ++ [mkRange s e]) H) as [G1 G2]; [by rewrite <-app_assoc|done|].
  rewrite G1, <-app_assoc. replace (off + 16 * S (length rs))%nat with (off + 16 + 16 * length rs)%nat by lia. done.
Qed.

Lemma load_attrs_encode a data off rest :
  left_at data off (encode_attrs a ++ rest) -> Attrs_wf a ->
  load_attrs data off = Ok a /\ left_at data (off + 32) rest.
Proof.
  unfold encode_attrs, load_attrs, Attrs_wf. rewrite <-!app_assoc. intros H (H1 & H2 & H3).
  next H. rewrite be_val_bytes_u64 by done. destruct a as [sz m a c ch]. cbn in *. subst sz.
  destruct (ch =? 0) eqn:E.
  - destruct H3 as (-> & -> & ->). split; [done|].
    do 3 (destruct (left_at_sub (E:=meta_error) _ _ _ _ 8 H) as [_ H']; [by rewrite length_be_bytes|];
          clear H; rename H' into H).
    by replace (off + 32)%nat with (off + 8 + 8 + 8 + 8)%nat by lia.
  - destruct H3 as (? & ? & ?). do 3 (next H; rewrite to_signed_be_val by done).
    by replace (off + 32)%nat with (off + 8 + 8 + 8 + 8)%nat by lia.
Qed.

Ltac pass_check :=
  match goal with
  | |- context [mbind _ (check ?b _)] => replace b with true; [cbn [check mbind outcome_bind]|symmetry]
  end.

Lemma length_encode_ranges rs : length (flat_map encode_range rs) = (16 * length rs)%nat.
Proof.
  induction rs as [|r rs IH]; [done|]. cbn [flat_map length].
  rewrite length_app, IH. unfold encode_range. rewrite length_app, !length_be_bytes. lia.
Qed.

Lemma length_encode_attrs a : length (encode_attrs a) = 32%nat.
Proof. unfold encode_attrs. by rewrite !length_app, !length_be_bytes. Qed.

(** A field that is an integer of its width, and a length check that holds. *)
Ltac field H :=
  next H;
  try first [rewrite be_val_bytes_u64 by (unfold is_u64, MaxInt64 in *; lia)
            |rewrite be_val_bytes_u32 by (unfold is_u32; lia)
            |rewrite be_val_bytes_u16 by (unfold is_u16; lia)];
  rewrite ?Nat2Z.id.
Ltac pass := pass_check; [|first [apply Nat.leb_le; lia|apply Z.eqb_eq; lia|apply Nat.eqb_eq; lia]].
Ltac skip H H' := clear H; rename H' into H; cbn [mbind outcome_bind app].

Lemma LoadMeta_encode m : Meta_wf m -> LoadMeta (encode_meta m) = Ok m.
Proof.
  intros []. assert (left_at (encode_meta m) 0 (encode_meta m)) as H by (split; [done|lia]).
  unfold encode_meta at 2 in H. unfold LoadMeta. revert H. generalize (encode_meta m) as data. intros data H.
  pose proof (left_at_length _ _ _ H) as Hl.
  rewrite !length_app, !length_be_bytes, length_encode_ranges, length_encode_attrs in Hl.
  assert (length formatMagic = 4)%nat as Hm by done. cbn [length] in Hl.
  pass. do 4 field H. pass. field H. pass. field H. field H. rewrite decide_True by done. cbn [mbind outcome_bind].
  pass. field H. field H. pass. field H. pass. field H.
  pass_check; [|apply Z.leb_le, inj_le, Nat.div_le_lower_bound; lia].
  match goal with |- context [load_ranges _ _ ?o _] =>
    match type of H with left_at _ ?o' _ => replace o' with o in H by lia end end.
  destruct (load_ranges_encode _ _ _ [] _ H) as [-> H']; [apply wf_Dirty0..|]. skip H H'. pass.
  destruct (load_attrs_encode _ _ _ _ H wf_Attrs0) as [-> H']. skip H H'.
  destruct (left_at_index (E:=meta_error) _ _ _ _ H) as [-> H']. skip H H'.
  match goal with |- context [byte_of (encode_flags ?a ?b ?c ?d ?e ?f ?g)] =>
    destruct (flags_decode a b c d e f g) as (-> & -> & -> & -> & -> & -> & -> & ->) end.
  cbn [check mbind outcome_bind].
  do 5 field H. pass. do 2 field H. rewrite <-(app_nil_r (Meta_Verifier m)) in H. field H. pass.
  pass_check; [|apply andb_true_iff; split; apply Z.leb_le; lia].
  f_equal. destruct m as [? ? ? ? ? ? ? ? ? ? ? ? ? ? ? ? ? ? ? ? ? [? ? ?] ?]. cbn in *. by subst.
Qed.

(** ** Every input: no slice expression is out of range *)

Lemma load_ranges_inv count data off acc :
  (off + 16 * count <= length data)%nat -> normal acc -> bounded (2 ^ 64 - 1) acc ->
  match load_ranges count data off acc with
  | Ok (rs, off') =>
      exists new, rs = acc ++ new /\ length new = count /\ off' = (off + 16 * count)%nat /\
        normal rs /\ bounded (2 ^ 64 - 1) rs /\ drop off data = flat_map encode_range new ++ drop off' data
  | Err _ => True
  | Panic => False
  end.
Proof.
  revert off acc. induction count as [|count IH]; intros off acc Hlen Hn Hb; cbn [load_ranges].
  { exists []. by rewrite app_nil_r, Nat.mul_0_r, Nat.add_0_r. }
  destruct (be_at_in_range (E:=meta_error) data off 8) as (b1 & -> & L1 & D1); [lia|]. cbn [mbind outcome_bind].
  destruct (be_at_in_range (E:=meta_error) data (off + 8) 8) as (b2 & -> & L2 & D2); [lia|]. cbn [mbind outcome_bind].
  destruct (be_val b1 <? be_val b2) eqn:E1; [|done]. cbn [check mbind outcome_bind].
  destruct (match last acc with Some r => End r <? be_val b1 | None => true end) eqn:E2; [|done].
  cbn [check mbind outcome_bind]. reflect_bools.
  pose proof (be_val_bound b1) as B1. pose proof (be_val_bound b2) as B2. rewrite L1 in B1. rewrite L2 in B2.
  change (256 ^ Z.of_nat 8) with (2 ^ 64) in *.
  assert (normal (acc ++ [mkRange (be_val b1) (be_val b2)])) as Hn'.
  { apply normal_from_app. split; [done|]. cbn. split_and!; [|done|done].
    destruct (last acc) as [q|] eqn:El; [rewrite (last_end_last _ _ _ El); by apply Z.ltb_lt|].
    apply last_None in El as ->. cbn. lia. }
  assert (bounded (2 ^ 64 - 1) (acc ++ [mkRange (be_val b1) (be_val b2)])) as Hb'.
  { apply Forall_app. split; [done|]. apply Forall_singleton. cbn. lia. }
  specialize (IH (off + 16)%nat _ ltac:(lia) Hn' Hb').
  destruct (load_ranges count _ _ _) as [[rs off']| |]; [|done|done].
  destruct IH as (new & -> & <- & -> & G1 & G2 & G3).
  exists (mkRange (be_val b1) (be_val b2) :: new). rewrite <-app_assoc in G1, G2 |- *.
  split_and!; [done|done|lia|done|done|]. rewrite D1, D2. cbn [flat_map]. unfold encode_range at 1. cbn [Start End].
  replace (off + 8 + 8)%nat with (off + 16)%nat by lia. rewrite G3.
  rewrite (be_bytes_of 8 b1), (be_bytes_of 8 b2) by done.
  replace (off + 16 * S (length new))%nat with (off + 16 + 16 * length new)%nat by lia.
  by rewrite <-!app_assoc.
Qed.

Lemma load_attrs_inv data off :
  (off + 32 <= length data)%nat ->
  match load_attrs data off with
  | Ok a => Attrs_wf a /\ (NodeInfo_Change a <> 0 -> drop off data = encode_attrs a ++ drop (off + 32) data)
  | Err _ => True
  | Panic => False
  end.
Proof.
  intros H. unfold load_attrs.
  destruct (be_at_in_range (E:=meta_error) data off 8) as (b & -> & L & D); [lia|]. cbn [mbind outcome_bind].
  pose proof (be_val_bound b) as B. rewrite L in B. unfold Attrs_wf.
  destruct (be_val b =? 0) eqn:E; cbn -[Z.eqb]; [rewrite E; reflect_bools; done|].
  destruct (be_at_in_range (E:=meta_error) data (off + 8) 8) as (b1 & -> & L1 & D1); [lia|]. cbn [mbind outcome_bind].
  destruct (be_at_in_range (E:=meta_error) data (off + 16) 8) as (b2 & -> & L2 & D2); [lia|]. cbn [mbind outcome_bind].
  destruct (be_at_in_range (E:=meta_error) data (off + 24) 8) as (b3 & -> & L3 & D3); [lia|]. cbn -[Z.eqb to_signed].
  rewrite E. split; [split_and!; try done; apply is_i64_to_signed|]. intros _.
  unfold encode_attrs. cbn -[to_signed]. rewrite !be_bytes_UnixNano, be_bytes_of by done.
  rewrite D, D1. replace (off + 8 + 8)%nat with (off + 16)%nat by lia.
  rewrite D2. replace (off + 16 + 8)%nat with (off + 24)%nat by lia.
  rewrite D3. replace (off + 24 + 8)%nat with (off + 32)%nat by lia. by rewrite <-!app_assoc.
Qed.

(** The next field of an input of unknown content, which a check has shown to be there. *)
Ltac fetch :=
  match goal with
  | |- context [mbind _ (be_at ?n ?d ?o)] =>
      let bs := fresh "bs" in let L := fresh "L" in let D := fresh "D" in let R := fresh in
      destruct (be_at_in_range (E:=meta_error) d o n) as (bs & R & L & D); [lia|];
      rewrite R; clear R; cbn [mbind outcome_bind]
  | |- context [mbind _ (sub ?d ?o (?o + ?n))] =>
      let bs := fresh "bs" in let L := fresh "L" in let D := fresh "D" in let R := fresh in
      destruct (sub_in_range (E:=meta_error) d o n) as (bs & R & L & D); [lia|];
      rewrite R; clear R; cbn [mbind outcome_bind]
  end.
Ltac demand :=
  match goal with
  | |- context [mbind _ (check ?b _)] =>
      let E := fresh "E" in destruct b eqn:E; [|done]; cbn [check mbind outcome_bind];
      try first [apply Nat.leb_le in E|apply Nat.eqb_eq in E]
  end.

(** The field [D] is the next part of the input. *)
Ltac chain D :=
  lazymatch type of D with drop ?o' _ = _ =>
    lazymatch goal with |- _ = drop ?o _ => replace o with o' by lia end end;
  rewrite D; f_equal.

Lemma LoadMeta_inv data :
  match LoadMeta data with
  | Ok m => Meta_wf m /\ (NodeInfo_Change (Meta_Attrs m) <> 0 -> encode_meta m = data)
  | Err _ => True
  | Panic => False
  end.
Proof.
  unfold LoadMeta. demand. do 4 fetch. demand. fetch. demand. fetch. fetch.
  case_decide as Hmagic; [|by case_decide]. cbn [mbind outcome_bind].
  demand. do 2 fetch. demand. fetch. demand. fetch. demand. reflect_bools.
  match goal with |- context [load_ranges ?c data ?o []] =>
    assert (o + 16 * c <= length data)%nat as HL
      by (pose proof (Nat.Div0.mul_div_le (length data - o) 16); lia);
    pose proof (load_ranges_inv c data o [] HL I ltac:(by apply Forall_nil)) as HR;
    destruct (load_ranges c data o []) as [[dirty off]| |]; [|done|done]
  end.
  cbn [mbind outcome_bind]. demand.
  destruct HR as (new & -> & Hcount & Hoff & HR1 & HR2 & HR3). cbn [app] in *.
  pose proof (load_attrs_inv data off ltac:(lia)) as HA.
  destruct (load_attrs data off) as [attrs| |]; [|done|done]. cbn [mbind outcome_bind].
  destruct (index_in_range (E:=meta_error) data (off + 32)) as (fb & -> & Dfb); [lia|]. cbn [mbind outcome_bind].
  demand. do 5 fetch. demand. reflect_bools.
  match goal with H : _ = be_val ?b + 40 |- _ => pose proof (be_val_bound b) end.
  do 3 fetch. demand. demand. reflect_bools.
  pose proof (be_val_u32 bs13 L13) as U13. pose proof (be_val_u16 bs0 L0) as U0. pose proof (be_val_u32 bs9 L9) as U9.
  split.
  { unfold is_u16, is_u32 in *. destruct HA as [HA _].
    pose proof (be_val_u64 bs7 L7). pose proof (be_val_u64 bs8 L8). unfold is_u64 in *.
    constructor; cbn; auto using be_val_u64; lia. }
  cbn [Meta_Attrs]. intros HC. destruct HA as [_ HA]. specialize (HA HC).
  unfold encode_meta. cbn -[app]. unfold is_u16, is_u32 in *. rewrite L3, L15, Hcount, !Z2Nat.id by lia.
  rewrite flags_encode by (by apply Z.eqb_eq). rewrite !be_bytes_of by done. subst bs5.
  transitivity (drop 0 data); [|done].
  chain D. chain D1. chain D2. chain D0. chain D3. chain D4. chain D5. chain D6. chain D7. chain D8. chain D9.
  chain HR3. chain HA. chain Dfb. chain D10. chain D11. chain D14. chain D12. chain D13. chain D15. chain D16.
  replace (off + 32 + 1 + 32 + 4 + Z.to_nat (be_val bs13) + 32)%nat with (length data - 8)%nat in * by lia.
  rewrite D17, drop_ge, app_nil_r by lia. done.
Qed.

(** * Properties *)

(** A sidecar written by SaveMeta is read back by LoadMeta as the metadata
    it was made from: every field, the flags, the dirty ranges and the
    publication candidate included. The hypothesis is that the metadata fits
    the format: fixed-size arrays, a name below 64 KiB, int64 sizes and times,
    normalized dirty ranges. *)
Theorem sidecar_roundtrip (m : Meta) : Meta_wf m -> LoadMeta (encode_meta m) = Ok m.
Proof. apply LoadMeta_encode. Qed.

Definition sample_meta : Meta :=
  {| Meta_DirID := 2 ^ 61; Meta_FileName := [Byte.x61; Byte.x62]; Meta_TernCookie := replicate 8 Byte.x01;
     Meta_NFSStateID := replicate 12 Byte.x02; Meta_ClientID := 77; Meta_OpenOwner := [Byte.x6f];
     Meta_OwnerKnown := true; Meta_RecoveryKey := replicate 32 Byte.x03; Meta_Unlinked := false;
     Meta_Guarded := true; Meta_Retired := false; Meta_ReadOnly := true; Meta_Exclusive := false;
     Meta_Verifier := replicate 8 Byte.x04; Meta_BaseID := 5; Meta_BaseSize := 100; Meta_Size := 80;
     Meta_Dirty := [mkRange 0 10; mkRange 80 100]; Meta_MetadataChanged := true;
     Meta_Attrs := mkNodeInfo 0 1700000000 (-5) 1700000001 9;
     Meta_DataVersion := 3; Meta_Candidate := mkCandidate 6 (replicate 8 Byte.x05) 3;
     Meta_Version := MetaVersion |}.

Lemma sample_meta_wf : Meta_wf sample_meta.
Proof.
  constructor; cbn; unfold is_u64, Attrs_wf, is_i64, MaxInt64; cbn; try done; try lia.
  - split; [|apply Forall_cons; split; [done|apply Forall_singleton; done]].
    unfold normal; cbn. lia.
Qed.

Lemma sidecar_roundtrip_witness :
  Meta_wf sample_meta /\ LoadMeta (encode_meta sample_meta) = Ok sample_meta.
Proof. split; [apply sample_meta_wf|apply (sidecar_roundtrip sample_meta), sample_meta_wf]. Defined.

(** Whatever bytes a sidecar file holds, LoadMeta returns: no slice
    expression of it is out of range. What it accepts is well formed, in
    particular the dirty ranges are a normalized set of uint64 offsets and the
    sizes are valid file offsets, and when it carries a change value the
    sidecar is exactly what SaveMeta writes for it: one metadata value has one
    accepted encoding. *)
Theorem sidecar_load_total (data : list byte) :
  match LoadMeta data with
  | Ok m => Meta_wf m /\ (NodeInfo_Change (Meta_Attrs m) = 0 \/ encode_meta m = data)
  | Err _ => True
  | Panic => False
  end.
Proof.
  pose proof (LoadMeta_inv data) as H. destruct (LoadMeta data) as [m| |]; [|done|done].
  destruct H as [H1 H2]. split; [done|].
  destruct (decide (NodeInfo_Change (Meta_Attrs m) = 0)); [by left|right; auto].
Qed.
