(* ===== verification/LocalFile.v ===== *)
(** A locally staged file: src/go/nfsd/internal/staging/local_file.go.

    [LocalFile] is the Go struct. [sf_f] is the content of its disk file and
    [sf_closed] says that the descriptor is closed; [sf_sidecar] is what the
    sidecar file on disk holds. Every method is a critical section of [sf.mu]:
    a function from the file to the file and what the method returns. [Read]
    has two of them ([read_begin] and [read_finish]), between which any other
    method can run. The results of the operating system (a failing truncate, a
    partial write, a failing sync, a save that fails before or after the new
    sidecar is installed) are arguments, and so is the clock. *)

From Stdlib Require Import ZArith Lia.
From stdpp Require Import base numbers option list.
From S2P Require Import Prelude ByteRange Sidecar.

(** * Data *)

Record LocalFile := mkLocalFile {
  sf_f : list byte;
  sf_closed : bool;
  sf_size : Z;
  sf_meta : Meta;
  sf_dirty : Set_;
  sf_attrs : NodeInfo;
  sf_metadataChanged : bool;
  sf_dataVersion : Z;
  sf_candidate : Candidate;
  sf_hydrated : Set_;
  sf_checkpointDirty : bool;
  sf_sealed : bool;
  sf_removed : bool;
  sf_hydrateDone : bool;
  sf_hydrateCancel : bool;
  sf_hydrateRemoved : bool;
  sf_sidecar : Meta }.

Definition set_f (v : list byte) (s : LocalFile) : LocalFile :=
  mkLocalFile v (sf_closed s) (sf_size s) (sf_meta s) (sf_dirty s) (sf_attrs s) (sf_metadataChanged s)
     (sf_dataVersion s) (sf_candidate s) (sf_hydrated s) (sf_checkpointDirty s) (sf_sealed s) (sf_removed
     s) (sf_hydrateDone s) (sf_hydrateCancel s) (sf_hydrateRemoved s) (sf_sidecar s).
Definition set_closed (v : bool) (s : LocalFile) : LocalFile :=
  mkLocalFile (sf_f s) v (sf_size s) (sf_meta s) (sf_dirty s) (sf_attrs s) (sf_metadataChanged s)
     (sf_dataVersion s) (sf_candidate s) (sf_hydrated s) (sf_checkpointDirty s) (sf_sealed s) (sf_removed
     s) (sf_hydrateDone s) (sf_hydrateCancel s) (sf_hydrateRemoved s) (sf_sidecar s).
Definition set_size (v : Z) (s : LocalFile) : LocalFile :=
  mkLocalFile (sf_f s) (sf_closed s) v (sf_meta s) (sf_dirty s) (sf_attrs s) (sf_metadataChanged s)
     (sf_dataVersion s) (sf_candidate s) (sf_hydrated s) (sf_checkpointDirty s) (sf_sealed s) (sf_removed
     s) (sf_hydrateDone s) (sf_hydrateCancel s) (sf_hydrateRemoved s) (sf_sidecar s).
Definition set_meta (v : Meta) (s : LocalFile) : LocalFile :=
  mkLocalFile (sf_f s) (sf_closed s) (sf_size s) v (sf_dirty s) (sf_attrs s) (sf_metadataChanged s)
     (sf_dataVersion s) (sf_candidate s) (sf_hydrated s) (sf_checkpointDirty s) (sf_sealed s) (sf_removed
     s) (sf_hydrateDone s) (sf_hydrateCancel s) (sf_hydrateRemoved s) (sf_sidecar s).
Definition set_dirty (v : Set_) (s : LocalFile) : LocalFile :=
  mkLocalFile (sf_f s) (sf_closed s) (sf_size s) (sf_meta s) v (sf_attrs s) (sf_metadataChanged s)
     (sf_dataVersion s) (sf_candidate s) (sf_hydrated s) (sf_checkpointDirty s) (sf_sealed s) (sf_removed
     s) (sf_hydrateDone s) (sf_hydrateCancel s) (sf_hydrateRemoved s) (sf_sidecar s).
Definition set_attrs (v : NodeInfo) (s : LocalFile) : LocalFile :=
  mkLocalFile (sf_f s) (sf_closed s) (sf_size s) (sf_meta s) (sf_dirty s) v (sf_metadataChanged s)
     (sf_dataVersion s) (sf_candidate s) (sf_hydrated s) (sf_checkpointDirty s) (sf_sealed s) (sf_removed
     s) (sf_hydrateDone s) (sf_hydrateCancel s) (sf_hydrateRemoved s) (sf_sidecar s).
Definition set_metadataChanged (v : bool) (s : LocalFile) : LocalFile :=
  mkLocalFile (sf_f s) (sf_closed s) (sf_size s) (sf_meta s) (sf_dirty s) (sf_attrs s) v
     (sf_dataVersion s) (sf_candidate s) (sf_hydrated s) (sf_checkpointDirty s) (sf_sealed s) (sf_removed
     s) (sf_hydrateDone s) (sf_hydrateCancel s) (sf_hydrateRemoved s) (sf_sidecar s).
Definition set_dataVersion (v : Z) (s : LocalFile) : LocalFile :=
  mkLocalFile (sf_f s) (sf_closed s) (sf_size s) (sf_meta s) (sf_dirty s) (sf_attrs s)
     (sf_metadataChanged s) v (sf_candidate s) (sf_hydrated s) (sf_checkpointDirty s) (sf_sealed s)
     (sf_removed s) (sf_hydrateDone s) (sf_hydrateCancel s) (sf_hydrateRemoved s) (sf_sidecar s).
Definition set_candidate (v : Candidate) (s : LocalFile) : LocalFile :=
  mkLocalFile (sf_f s) (sf_closed s) (sf_size s) (sf_meta s) (sf_dirty s) (sf_attrs s)
     (sf_metadataChanged s) (sf_dataVersion s) v (sf_hydrated s) (sf_checkpointDirty s) (sf_sealed s)
     (sf_removed s) (sf_hydrateDone s) (sf_hydrateCancel s) (sf_hydrateRemoved s) (sf_sidecar s).
Definition set_hydrated (v : Set_) (s : LocalFile) : LocalFile :=
  mkLocalFile (sf_f s) (sf_closed s) (sf_size s) (sf_meta s) (sf_dirty s) (sf_attrs s)
     (sf_metadataChanged s) (sf_dataVersion s) (sf_candidate s) v (sf_checkpointDirty s) (sf_sealed s)
     (sf_removed s) (sf_hydrateDone s) (sf_hydrateCancel s) (sf_hydrateRemoved s) (sf_sidecar s).
Definition set_checkpointDirty (v : bool) (s : LocalFile) : LocalFile :=
  mkLocalFile (sf_f s) (sf_closed s) (sf_size s) (sf_meta s) (sf_dirty s) (sf_attrs s)
     (sf_metadataChanged s) (sf_dataVersion s) (sf_candidate s) (sf_hydrated s) v (sf_sealed s)
     (sf_removed s) (sf_hydrateDone s) (sf_hydrateCancel s) (sf_hydrateRemoved s) (sf_sidecar s).
Definition set_sealed (v : bool) (s : LocalFile) : LocalFile :=
  mkLocalFile (sf_f s) (sf_closed s) (sf_size s) (sf_meta s) (sf_dirty s) (sf_attrs s)
     (sf_metadataChanged s) (sf_dataVersion s) (sf_candidate s) (sf_hydrated s) (sf_checkpointDirty s) v
     (sf_removed s) (sf_hydrateDone s) (sf_hydrateCancel s) (sf_hydrateRemoved s) (sf_sidecar s).
Definition set_removed (v : bool) (s : LocalFile) : LocalFile :=
  mkLocalFile (sf_f s) (sf_closed s) (sf_size s) (sf_meta s) (sf_dirty s) (sf_attrs s)
     (sf_metadataChanged s) (sf_dataVersion s) (sf_candidate s) (sf_hydrated s) (sf_checkpointDirty s)
     (sf_sealed s) v (sf_hydrateDone s) (sf_hydrateCancel s) (sf_hydrateRemoved s) (sf_sidecar s).
Definition set_hydrateDone (v : bool) (s : LocalFile) : LocalFile :=
  mkLocalFile (sf_f s) (sf_closed s) (sf_size s) (sf_meta s) (sf_dirty s) (sf_attrs s)
     (sf_metadataChanged s) (sf_dataVersion s) (sf_candidate s) (sf_hydrated s) (sf_checkpointDirty s)
     (sf_sealed s) (sf_removed s) v (sf_hydrateCancel s) (sf_hydrateRemoved s) (sf_sidecar s).
Definition set_hydrateCancel (v : bool) (s : LocalFile) : LocalFile :=
  mkLocalFile (sf_f s) (sf_closed s) (sf_size s) (sf_meta s) (sf_dirty s) (sf_attrs s)
     (sf_metadataChanged s) (sf_dataVersion s) (sf_candidate s) (sf_hydrated s) (sf_checkpointDirty s)
     (sf_sealed s) (sf_removed s) (sf_hydrateDone s) v (sf_hydrateRemoved s) (sf_sidecar s).
Definition set_hydrateRemoved (v : bool) (s : LocalFile) : LocalFile :=
  mkLocalFile (sf_f s) (sf_closed s) (sf_size s) (sf_meta s) (sf_dirty s) (sf_attrs s)
     (sf_metadataChanged s) (sf_dataVersion s) (sf_candidate s) (sf_hydrated s) (sf_checkpointDirty s)
     (sf_sealed s) (sf_removed s) (sf_hydrateDone s) (sf_hydrateCancel s) v (sf_sidecar s).
Definition set_sidecar (v : Meta) (s : LocalFile) : LocalFile :=
  mkLocalFile (sf_f s) (sf_closed s) (sf_size s) (sf_meta s) (sf_dirty s) (sf_attrs s)
     (sf_metadataChanged s) (sf_dataVersion s) (sf_candidate s) (sf_hydrated s) (sf_checkpointDirty s)
     (sf_sealed s) (sf_removed s) (sf_hydrateDone s) (sf_hydrateCancel s) (sf_hydrateRemoved s) v.

(** What the operating system answers to a system call. *)
Inductive os_result := OsOk | OsFail.

(** WriteAt: everything, or an error after a number of bytes. *)
Inductive write_result := WriteOk | WriteFailed (n : nat).

(** SaveMeta: done, failed with the old sidecar in place, or failed (on the
    directory sync) with the new one already renamed into place. *)
Inductive save_result := SaveOk | SaveFailedBefore | SaveFailedAfter.

Inductive sf_error :=
| ErrRemoved
| ErrIO
| ErrOffsetOverflow
| ErrShortRead (* io.ErrUnexpectedEOF *)
| ErrBadCount
| ErrNoBaseReader
| ErrBase
| ErrSave.

Abbreviation result A := (LocalFile * outcome sf_error A)%type.

(** * The disk file *)

(** [sf.f.Truncate(int64(size))]: a size from 2^63 on is negative. *)
Definition os_truncate (sf : LocalFile) (size : Z) (r : os_result) : option LocalFile :=
  match r with
  | OsOk =>
      if sf_closed sf || (MaxInt64 <? size) then None
      else Some (set_f (f_truncate (sf_f sf) (Z.to_nat size)) sf)
  | OsFail => None
  end.

(** [sf.f.WriteAt(data, int64(offset))] and whether it wrote everything. *)
Definition os_write_at (sf : LocalFile) (data : list byte) (offset : Z) (r : write_result) : LocalFile * bool :=
  if sf_closed sf || (MaxInt64 <? offset) then (sf, false)
  else
    match r with
    | WriteOk => (set_f (f_write (sf_f sf) (Z.to_nat offset) data) sf, true)
    | WriteFailed n => (set_f (f_write (sf_f sf) (Z.to_nat offset) (take n data)) sf, false)
    end.

(** SaveMeta on the file's sidecar. *)
Definition os_save (sf : LocalFile) (meta : Meta) (r : save_result) : LocalFile * bool :=
  match r with
  | SaveOk => (set_sidecar meta sf, true)
  | SaveFailedBefore => (sf, false)
  | SaveFailedAfter => (set_sidecar meta sf, false)
  end.

(** * Attributes *)

Definition stagingAttributes (info : NodeInfo) (fallback : time) : NodeInfo :=
  let mtime := if IsZero (NodeInfo_Mtime info) then fallback else NodeInfo_Mtime info in
  let atime := if IsZero (NodeInfo_Atime info) then mtime else NodeInfo_Atime info in
  let ctime := if IsZero (NodeInfo_Ctime info) then mtime else NodeInfo_Ctime info in
  let change := if NodeInfo_Change info =? 0 then wrap64 (UnixNano mtime) else NodeInfo_Change info in
  mkNodeInfo 0 mtime atime ctime change.

Definition Stat (sf : LocalFile) : NodeInfo :=
  let a := sf_attrs sf in
  mkNodeInfo (sf_size sf) (NodeInfo_Mtime a) (NodeInfo_Atime a) (NodeInfo_Ctime a) (NodeInfo_Change a).

Definition changedLocked (now : time) (sf : LocalFile) : LocalFile :=
  let a := sf_attrs sf in
  set_attrs (mkNodeInfo (NodeInfo_Size a) (NodeInfo_Mtime a) (NodeInfo_Atime a) now
               (Z.max (wrap64 (NodeInfo_Change a + 1)) (wrap64 (UnixNano now)))) sf.

(** [sf.attrs.Mtime = sf.attrs.Ctime] *)
Definition mtime_from_ctime (sf : LocalFile) : LocalFile :=
  let a := sf_attrs sf in
  set_attrs (mkNodeInfo (NodeInfo_Size a) (NodeInfo_Ctime a) (NodeInfo_Atime a) (NodeInfo_Ctime a) (NodeInfo_Change a)) sf.

Definition SetTime (sf : LocalFile) (mtime atime : option time) (now : time) : result unit :=
  if sf_removed sf || sf_sealed sf then (sf, Err ErrRemoved)
  else
    let a := sf_attrs sf in
    let sf := set_attrs (mkNodeInfo (NodeInfo_Size a) (default (NodeInfo_Mtime a) mtime)
                           (default (NodeInfo_Atime a) atime) (NodeInfo_Ctime a) (NodeInfo_Change a)) sf in
    (set_metadataChanged true (changedLocked now sf), Ok tt).

(** * Versions and candidates *)

Definition Dirty (sf : LocalFile) : bool :=
  sf_metadataChanged sf || negb (length (sf_dirty sf) =? 0)%nat || negb (sf_size sf =? Meta_BaseSize (sf_meta sf)).

Definition DataChanged (sf : LocalFile) : bool :=
  negb (length (sf_dirty sf) =? 0)%nat || negb (sf_size sf =? Meta_BaseSize (sf_meta sf)).

Definition Seal (sf : LocalFile) (version : Z) : LocalFile * bool :=
  if sf_removed sf || negb (sf_dataVersion sf =? version) then (sf, false) else (set_sealed true sf, true).

(** * Data *)

(** The version count, the change and modification times of a data change. *)
Definition data_changed (now : time) (sf : LocalFile) : LocalFile :=
  mtime_from_ctime (changedLocked now (set_dataVersion (wrap64 (sf_dataVersion sf + 1)) sf)).

Definition SetSize (sf : LocalFile) (size : Z) (now : time) (r : os_result) : result unit :=
  if sf_removed sf || sf_sealed sf then (sf, Err ErrRemoved)
  else
    let oldSize := sf_size sf in
    if size =? oldSize then (sf, Ok tt)
    else
      match os_truncate sf size r with
      | None => (sf, Err ErrIO)
      | Some sf =>
          let sf := data_changed now (set_size size sf) in
          if Meta_BaseID (sf_meta sf) =? 0 then (sf, Ok tt)
          else if size <? oldSize then
            (set_hydrated (Remove (sf_hydrated sf) size oldSize)
               (set_dirty (Add (sf_dirty sf) size oldSize) sf), Ok tt)
          else (set_dirty (Add (sf_dirty sf) oldSize size) sf, Ok tt)
      end.

(** The part of Write after the file is large enough. *)
Definition write_data (sf : LocalFile) (offset end_ : Z) (data : list byte) (now : time) (w : write_result) : result unit :=
  let '(sf, ok) := os_write_at sf data offset w in
  if negb ok then (sf, Err ErrIO)
  else
    let sf := data_changed now sf in
    if Meta_BaseID (sf_meta sf) =? 0 then (sf, Ok tt)
    else
      (set_hydrated (Remove (sf_hydrated sf) offset end_)
         (set_dirty (Add (sf_dirty sf) offset end_) sf), Ok tt).

Definition Write (sf : LocalFile) (offset : Z) (data : list byte) (now : time) (t : os_result) (w : write_result) : result unit :=
  if sf_removed sf || sf_sealed sf then (sf, Err ErrRemoved)
  else if (length data =? 0)%nat then (sf, Ok tt)
  else
    let end_ := wrap64 (offset + Z.of_nat (length data)) in
    if end_ <? offset then (sf, Err ErrOffsetOverflow)
    else if sf_size sf <? end_ then
      match os_truncate sf end_ t with
      | None => (sf, Err ErrIO)
      | Some sf => write_data (set_size end_ sf) offset end_ data now w
      end
    else write_data sf offset end_ data now w.

(** * The base *)

(** A base reader's answer for an offset and a length: the count it returns,
    whether it reached the end, and the bytes it stored. *)
Definition BaseReader := Z -> nat -> outcome unit (Z * bool * list byte).

(** The loop of readStagingBase; each round that goes on takes at least one
    byte, so [S n] rounds are enough for [n] bytes. *)
Fixpoint read_base_loop (fuel : nat) (readBase : BaseReader) (offset : Z) (n : nat) (acc : list byte) : outcome sf_error (list byte) :=
  match fuel with
  | O => Err ErrShortRead
  | S fuel =>
      if (n =? 0)%nat then Ok acc
      else
        match readBase offset n with
        | Ok (count, eof, bs) =>
            if (count <? 0) || (Z.of_nat n <? count) then Err ErrBadCount
            else
              let k := Z.to_nat count in
              let acc := acc ++ take k bs in
              if (n - k =? 0)%nat then Ok acc
              else if eof || (count =? 0) then Err ErrShortRead
              else read_base_loop fuel readBase (wrap64 (offset + count)) (n - k) acc
        | Err _ => Err ErrBase
        | Panic => Panic
        end
  end.

Definition readStagingBase (readBase : option BaseReader) (offset : Z) (n : nat) : outcome sf_error (list byte) :=
  match readBase with
  | None => Err ErrNoBaseReader
  | Some readBase => read_base_loop (S n) readBase offset n []
  end.

Definition localCoverageLocked (sf : LocalFile) : Set_ := Union (sf_dirty sf) (sf_hydrated sf).

(** The loop of cacheLocked over the clean ranges; [ws] are the results of the
    writes, all successful when the list ends. *)
Fixpoint cache_ranges (sf : LocalFile) (offset : Z) (data : list byte) (clean : list Range) (ws : list write_result) : result unit :=
  match clean with
  | [] => (sf, Ok tt)
  | c :: clean =>
      match sub (E:=sf_error) data (Z.to_nat (Start c - offset)) (Z.to_nat (End c - offset)) with
      | Ok part =>
          let '(sf, ok) := os_write_at sf part (Start c) (default WriteOk (head ws)) in
          if negb ok then (sf, Err ErrIO)
          else cache_ranges (set_hydrated (Add (sf_hydrated sf) (Start c) (End c)) sf) offset data clean (tail ws)
      | _ => (sf, Panic)
      end
  end.

Definition cacheLocked (sf : LocalFile) (offset : Z) (data : list byte) (ws : list write_result) : result unit :=
  let m := sf_meta sf in
  if (Meta_BaseID m =? 0) || (sf_size sf <=? offset) || (Meta_BaseSize m <=? offset) then (sf, Ok tt)
  else
    let end_ := wrap64 (offset + Z.of_nat (length data)) in
    if end_ <? offset then (sf, Err ErrOffsetOverflow)
    else
      let end_ := Z.min (Z.min end_ (sf_size sf)) (Meta_BaseSize m) in
      cache_ranges sf offset data (Gaps (sf_dirty sf) offset end_) ws.

Definition Cache (sf : LocalFile) (offset : Z) (data : list byte) (ws : list write_result) : result unit :=
  if sf_removed sf then (sf, Err ErrRemoved) else cacheLocked sf offset data ws.

(** * Read *)

(** What the first critical section of Read leaves to do. *)
Inductive read_plan :=
| ReadDone (data : list byte) (eof : bool)
| ReadMissing (n : nat) (missing : list Range).

Definition read_begin (sf : LocalFile) (offset : Z) (n : nat) (r : os_result) : outcome sf_error read_plan :=
  if sf_removed sf then Err ErrRemoved
  else if sf_size sf <=? offset then Ok (ReadDone [] true)
  else
    let avail := sf_size sf - offset in
    let n := if avail <? Z.of_nat n then Z.to_nat avail else n in
    let end_ := wrap64 (offset + Z.of_nat n) in
    if Meta_BaseID (sf_meta sf) =? 0 then
      match r with
      | OsOk =>
          if sf_closed sf then Err ErrIO
          else
            let data := f_read (sf_f sf) (Z.to_nat offset) n in
            Ok (ReadDone data (sf_size sf <=? offset + Z.of_nat (length data)))
      | OsFail => Err ErrIO
      end
    else Ok (ReadMissing n (Gaps (localCoverageLocked sf) offset (Z.min end_ (Meta_BaseSize (sf_meta sf))))).

(** The base reads between the two critical sections. *)
Fixpoint read_gaps (readBase : option BaseReader) (missing : list Range) : outcome sf_error (list (Range * list byte)) :=
  match missing with
  | [] => Ok []
  | gap :: missing =>
      let! part := readStagingBase readBase (Start gap) (Z.to_nat (End gap - Start gap)) in
      let! parts := read_gaps readBase missing in
      Ok ((gap, part) :: parts)
  end.

(** The loop that caches what the base reads returned. *)
Fixpoint cache_parts (sf : LocalFile) (parts : list (Range * list byte)) (ws : list (list write_result)) : result unit :=
  match parts with
  | [] => (sf, Ok tt)
  | (gap, part) :: parts =>
      match cacheLocked sf (Start gap) part (default [] (head ws)) with
      | (sf, Ok _) => cache_parts sf parts (tail ws)
      | (sf, e) => (sf, e)
      end
  end.

Definition readLocalLocked (sf : LocalFile) (offset : Z) (n : nat) (r : os_result) : outcome sf_error (list byte) :=
  if (n =? 0)%nat then Ok []
  else
    match r with
    | OsOk =>
        if sf_closed sf then Err ErrIO
        else
          let data := f_read (sf_f sf) (Z.to_nat offset) n in
          if (length data =? n)%nat then Ok data else Err ErrShortRead
    | OsFail => Err ErrIO
    end.

(** The second critical section: [n] is the length of [dest]. *)
Definition read_finish (sf : LocalFile) (offset : Z) (n : nat) (parts : list (Range * list byte))
    (ws : list (list write_result)) (r : os_result) : result (list byte * bool) :=
  if sf_removed sf then (sf, Err ErrRemoved)
  else
    match cache_parts sf parts ws with
    | (sf, Ok _) =>
        if sf_size sf <=? offset then (sf, Ok ([], true))
        else
          let avail := sf_size sf - offset in
          let '(n, end_) :=
            if avail <? Z.of_nat n then (Z.to_nat avail, sf_size sf) else (n, wrap64 (offset + Z.of_nat n)) in
          match readLocalLocked sf offset n r with
          | Ok data => (sf, Ok (data, sf_size sf <=? end_))
          | Err e => (sf, Err e)
          | Panic => (sf, Panic)
          end
    | (sf, Err e) => (sf, Err e)
    | (sf, Panic) => (sf, Panic)
    end.

(** The whole call; [mid] is what other calls do to the file while the base is
    read without the lock, [r], [r'] and [ws] are the answers of the system. *)
Definition Read (sf : LocalFile) (offset : Z) (n : nat) (readBase : option BaseReader)
    (mid : LocalFile -> LocalFile) (r : os_result) (ws : list (list write_result)) (r' : os_result) : result (list byte * bool) :=
  match read_begin sf offset n r with
  | Ok (ReadDone data eof) => (sf, Ok (data, eof))
  | Ok (ReadMissing n missing) =>
      let parts := read_gaps readBase missing in
      let sf := mid sf in
      match parts with
      | Ok parts => read_finish sf offset n parts ws r'
      | Err e => (sf, Err e)
      | Panic => (sf, Panic)
      end
  | Err e => (sf, Err e)
  | Panic => (sf, Panic)
  end.

(** * Hydration *)

Definition stagingHydrationChunk : Z := 2 ^ 20.

Definition hydration_gaps (sf : LocalFile) : list Range :=
  Gaps (localCoverageLocked sf) 0 (Z.min (sf_size sf) (Meta_BaseSize (sf_meta sf))).

(** The loop of hydrate. [cancel] answers the poll of the cancel channel in
    each round; [None] is running out of rounds. *)
Fixpoint hydrate (rounds : nat) (sf : LocalFile) (readBase : option BaseReader) (cancel : nat -> bool) : option (result unit) :=
  match rounds with
  | O => None
  | S rounds =>
      if Meta_BaseID (sf_meta sf) =? 0 then Some (sf, Ok tt)
      else
        match hydration_gaps sf with
        | [] => Some (sf, Ok tt)
        | gap :: _ =>
            if cancel rounds then Some (sf, Ok tt)
            else
              let count := Z.min stagingHydrationChunk (End gap - Start gap) in
              match readStagingBase readBase (Start gap) (Z.to_nat count) with
              | Ok part =>
                  match Cache sf (Start gap) part [] with
                  | (sf, Ok _) => hydrate rounds sf readBase cancel
                  | (sf, e) => Some (sf, e)
                  end
              | Err e => Some (sf, Err e)
              | Panic => Some (sf, Panic)
              end
        end
  end.

(** The jobs finishHydration makes of a gap. *)
Fixpoint split_gap (fuel : nat) (start end_ : Z) : list Range :=
  match fuel with
  | O => []
  | S fuel =>
      if start <? end_ then
        let e := Z.min (wrap64 (start + stagingHydrationChunk)) end_ in
        mkRange start e :: split_gap fuel e end_
      else []
  end.

Definition gap_jobs (gap : Range) : list Range :=
  split_gap (Z.to_nat ((End gap - Start gap) / stagingHydrationChunk + 1)) (Start gap) (End gap).

(** The workers: the jobs in the order in which they are done, with the first error. *)
Fixpoint run_jobs (sf : LocalFile) (readBase : option BaseReader) (jobs : list Range) : result unit :=
  match jobs with
  | [] => (sf, Ok tt)
  | job :: jobs =>
      match readStagingBase readBase (Start job) (Z.to_nat (End job - Start job)) with
      | Ok part =>
          match Cache sf (Start job) part [] with
          | (sf, Ok _) => run_jobs sf readBase jobs
          | (sf, e) => (sf, e)
          end
      | Err e => (sf, Err e)
      | Panic => (sf, Panic)
      end
  end.

(** [sched] is the order in which the workers finish the jobs of a round. *)
Fixpoint finishHydration (rounds : nat) (sf : LocalFile) (readBase : option BaseReader)
    (sched : list Range -> list Range) : option (result unit) :=
  match rounds with
  | O => None
  | S rounds =>
      if Meta_BaseID (sf_meta sf) =? 0 then Some (sf, Ok tt)
      else
        match hydration_gaps sf with
        | [] => Some (sf, Ok tt)
        | gaps =>
            match run_jobs sf readBase (sched (flat_map gap_jobs gaps)) with
            | (sf, Ok _) => finishHydration rounds sf readBase sched
            | (sf, e) => Some (sf, e)
            end
        end
  end.

(** StartHydration: whether a goroutine is started. *)
Definition StartHydration (sf : LocalFile) : LocalFile * bool :=
  if sf_hydrateDone sf || sf_hydrateRemoved sf then (sf, false)
  else (set_hydrateCancel true (set_hydrateDone true sf), true).

(** Closing the cancel channel, once; whether there is a goroutine to wait for. *)
Definition cancelHydrationLocked (sf : LocalFile) : LocalFile * bool :=
  (set_hydrateCancel false sf, sf_hydrateDone sf).

Definition FinishHydration (rounds : nat) (sf : LocalFile) (readBase : option BaseReader)
    (sched : list Range -> list Range) : option (result unit) :=
  finishHydration rounds (cancelHydrationLocked sf).1 readBase sched.

Definition prepareRemove (sf : LocalFile) : LocalFile :=
  set_closed true (set_removed true (cancelHydrationLocked (set_hydrateRemoved true sf)).1).

(** * Checkpoints *)

Definition Meta_with_live (sf : LocalFile) : Meta :=
  let m := sf_meta sf in
  {| Meta_DirID := Meta_DirID m; Meta_FileName := Meta_FileName m; Meta_TernCookie := Meta_TernCookie m;
     Meta_NFSStateID := Meta_NFSStateID m; Meta_ClientID := Meta_ClientID m; Meta_OpenOwner := Meta_OpenOwner m;
     Meta_OwnerKnown := Meta_OwnerKnown m; Meta_RecoveryKey := Meta_RecoveryKey m;
     Meta_Unlinked := Meta_Unlinked m; Meta_Guarded := Meta_Guarded m; Meta_Retired := Meta_Retired m;
     Meta_ReadOnly := Meta_ReadOnly m; Meta_Exclusive := Meta_Exclusive m; Meta_Verifier := Meta_Verifier m;
     Meta_BaseID := Meta_BaseID m; Meta_BaseSize := Meta_BaseSize m; Meta_Size := sf_size sf;
     Meta_Dirty := sf_dirty sf; Meta_MetadataChanged := sf_metadataChanged sf; Meta_Attrs := sf_attrs sf;
     Meta_DataVersion := sf_dataVersion sf; Meta_Candidate := sf_candidate sf; Meta_Version := MetaVersion |}.

Definition saveMetaLocked (sf : LocalFile) (s : save_result) : result unit :=
  let meta := Meta_with_live sf in
  let '(sf, ok) := os_save sf meta s in
  if ok then (set_checkpointDirty false (set_meta meta sf), Ok tt) else (sf, Err ErrSave).

Definition checkpointChangedLocked (sf : LocalFile) : bool :=
  let m := sf_meta sf in
  sf_checkpointDirty sf ||
  bool_decide (Meta_MetadataChanged m <> sf_metadataChanged sf) ||
  bool_decide (Meta_Attrs m <> sf_attrs sf) ||
  negb (Meta_Size m =? sf_size sf) ||
  negb (Meta_DataVersion m =? sf_dataVersion sf) ||
  bool_decide (Meta_Candidate m <> sf_candidate sf) ||
  bool_decide (Meta_Dirty m <> sf_dirty sf).

Definition Meta_with_candidate (m : Meta) (c : Candidate) : Meta :=
  {| Meta_DirID := Meta_DirID m; Meta_FileName := Meta_FileName m; Meta_TernCookie := Meta_TernCookie m;
     Meta_NFSStateID := Meta_NFSStateID m; Meta_ClientID := Meta_ClientID m; Meta_OpenOwner := Meta_OpenOwner m;
     Meta_OwnerKnown := Meta_OwnerKnown m; Meta_RecoveryKey := Meta_RecoveryKey m;
     Meta_Unlinked := Meta_Unlinked m; Meta_Guarded := Meta_Guarded m; Meta_Retired := Meta_Retired m;
     Meta_ReadOnly := Meta_ReadOnly m; Meta_Exclusive := Meta_Exclusive m; Meta_Verifier := Meta_Verifier m;
     Meta_BaseID := Meta_BaseID m; Meta_BaseSize := Meta_BaseSize m; Meta_Size := Meta_Size m;
     Meta_Dirty := Meta_Dirty m; Meta_MetadataChanged := Meta_MetadataChanged m; Meta_Attrs := Meta_Attrs m;
     Meta_DataVersion := Meta_DataVersion m; Meta_Candidate := c; Meta_Version := Meta_Version m |}.

(** [s] is the result of the save and [s'] that of restoring the previous sidecar. *)
Definition updateMetaLocked (sf : LocalFile) (meta : Meta) (s s' : save_result) : result unit :=
  if sf_removed sf then (sf, Err ErrRemoved)
  else
    let previous := Meta_with_candidate (sf_meta sf) (sf_candidate sf) in
    let meta := Meta_with_candidate meta (sf_candidate sf) in
    let '(sf, ok) := os_save sf meta s in
    if ok then (set_checkpointDirty false (set_meta meta sf), Ok tt)
    else
      let '(sf, restored) := os_save sf previous s' in
      (set_checkpointDirty (negb restored) sf, Err ErrSave).

(** The metadata of a binding to a client and its stateid. *)
Definition Meta_bound (m : Meta) (clientID : Z) (stateID : list byte) : Meta :=
  {| Meta_DirID := Meta_DirID m; Meta_FileName := Meta_FileName m; Meta_TernCookie := Meta_TernCookie m;
     Meta_NFSStateID := stateID; Meta_ClientID := clientID; Meta_OpenOwner := Meta_OpenOwner m;
     Meta_OwnerKnown := Meta_OwnerKnown m; Meta_RecoveryKey := Meta_RecoveryKey m;
     Meta_Unlinked := Meta_Unlinked m; Meta_Guarded := Meta_Guarded m; Meta_Retired := false;
     Meta_ReadOnly := Meta_ReadOnly m; Meta_Exclusive := Meta_Exclusive m; Meta_Verifier := Meta_Verifier m;
     Meta_BaseID := Meta_BaseID m; Meta_BaseSize := Meta_BaseSize m; Meta_Size := Meta_Size m;
     Meta_Dirty := Meta_Dirty m; Meta_MetadataChanged := Meta_MetadataChanged m; Meta_Attrs := Meta_Attrs m;
     Meta_DataVersion := Meta_DataVersion m; Meta_Candidate := Meta_Candidate m; Meta_Version := Meta_Version m |}.

(** A retired file is reopened first, and closed again if the save fails. *)
Definition bind_file (sf : LocalFile) (clientID : Z) (stateID : list byte) (update : Meta -> Meta)
    (o : os_result) (s s' : save_result) : result unit :=
  if sf_removed sf then (sf, Err ErrRemoved)
  else
    let oldMeta := sf_meta sf in
    let opened :=
      if Meta_Retired oldMeta then
        match o with OsOk => Some (set_closed false sf) | OsFail => None end
      else Some sf in
    match opened with
    | None => (sf, Err ErrIO)
    | Some sf =>
        match updateMetaLocked sf (update (Meta_bound oldMeta clientID stateID)) s s' with
        | (sf, Ok _) => (sf, Ok tt)
        | (sf, e) => (if Meta_Retired oldMeta then set_closed true sf else sf, e)
        end
    end.

(** The update function of Bind in local_store.go. *)
Definition bind_owner (openOwner : list byte) (readOnly : bool) (m : Meta) : Meta :=
  {| Meta_DirID := Meta_DirID m; Meta_FileName := Meta_FileName m; Meta_TernCookie := Meta_TernCookie m;
     Meta_NFSStateID := Meta_NFSStateID m; Meta_ClientID := Meta_ClientID m; Meta_OpenOwner := openOwner;
     Meta_OwnerKnown := true; Meta_RecoveryKey := Meta_RecoveryKey m;
     Meta_Unlinked := Meta_Unlinked m; Meta_Guarded := Meta_Guarded m; Meta_Retired := Meta_Retired m;
     Meta_ReadOnly := readOnly; Meta_Exclusive := Meta_Exclusive m; Meta_Verifier := Meta_Verifier m;
     Meta_BaseID := Meta_BaseID m; Meta_BaseSize := Meta_BaseSize m; Meta_Size := Meta_Size m;
     Meta_Dirty := Meta_Dirty m; Meta_MetadataChanged := Meta_MetadataChanged m; Meta_Attrs := Meta_Attrs m;
     Meta_DataVersion := Meta_DataVersion m; Meta_Candidate := Meta_Candidate m; Meta_Version := Meta_Version m |}.

Definition syncLocked (sf : LocalFile) (o : os_result) (s : save_result) : result unit :=
  match o with
  | OsFail => (sf, Err ErrIO)
  | OsOk =>
      if sf_closed sf then (sf, Err ErrIO)
      else if checkpointChangedLocked sf then saveMetaLocked sf s
      else (sf, Ok tt)
  end.

Definition Sync (sf : LocalFile) (o : os_result) (s : save_result) : result unit :=
  if sf_removed sf then (sf, Err ErrRemoved) else syncLocked sf o s.

Definition SetCandidate (sf : LocalFile) (c : Candidate) (persist : bool) (o : os_result) (s : save_result) : result unit :=
  if sf_removed sf then (sf, Err ErrRemoved)
  else
    let sf := set_candidate c sf in
    if persist then syncLocked sf o s else (sf, Ok tt).

Definition Meta_retired (m : Meta) : Meta :=
  {| Meta_DirID := Meta_DirID m; Meta_FileName := Meta_FileName m; Meta_TernCookie := Meta_TernCookie m;
     Meta_NFSStateID := Meta_NFSStateID m; Meta_ClientID := Meta_ClientID m; Meta_OpenOwner := Meta_OpenOwner m;
     Meta_OwnerKnown := Meta_OwnerKnown m; Meta_RecoveryKey := Meta_RecoveryKey m;
     Meta_Unlinked := Meta_Unlinked m; Meta_Guarded := Meta_Guarded m; Meta_Retired := true;
     Meta_ReadOnly := Meta_ReadOnly m; Meta_Exclusive := Meta_Exclusive m; Meta_Verifier := Meta_Verifier m;
     Meta_BaseID := Meta_BaseID m; Meta_BaseSize := Meta_BaseSize m; Meta_Size := Meta_Size m;
     Meta_Dirty := Meta_Dirty m; Meta_MetadataChanged := Meta_MetadataChanged m; Meta_Attrs := Meta_Attrs m;
     Meta_DataVersion := Meta_DataVersion m; Meta_Candidate := Meta_Candidate m; Meta_Version := Meta_Version m |}.

Definition Retire (sf : LocalFile) (clientID : Z) (stateID : list byte) (o : os_result) (s : save_result) (c : os_result) : result unit :=
  let sf := (cancelHydrationLocked sf).1 in
  if sf_removed sf then (sf, Err ErrRemoved)
  else
    let m := sf_meta sf in
    if negb (Meta_ClientID m =? clientID) || bool_decide (Meta_NFSStateID m <> stateID) || Meta_Retired m then (sf, Ok tt)
    else
      match o with
      | OsFail => (sf, Err ErrIO)
      | OsOk =>
          if sf_closed sf then (sf, Err ErrIO)
          else
            match saveMetaLocked (set_meta (Meta_retired m) sf) s with
            | (sf, Ok _) => (set_closed true sf, match c with OsOk => Ok tt | OsFail => Err ErrIO end)
            | (sf, e) => (set_meta m sf, e)
            end
      end.

(** * A file the store makes: creation and recovery *)

(** Create of local_store.go: the file of a new staging, with an empty disk
    file extended to the size of its base. *)
Definition new_meta (meta : Meta) (now : time) : Meta :=
  {| Meta_DirID := Meta_DirID meta; Meta_FileName := Meta_FileName meta; Meta_TernCookie := Meta_TernCookie meta;
     Meta_NFSStateID := Meta_NFSStateID meta; Meta_ClientID := Meta_ClientID meta; Meta_OpenOwner := Meta_OpenOwner meta;
     Meta_OwnerKnown := Meta_OwnerKnown meta; Meta_RecoveryKey := Meta_RecoveryKey meta;
     Meta_Unlinked := Meta_Unlinked meta; Meta_Guarded := Meta_Guarded meta; Meta_Retired := Meta_Retired meta;
     Meta_ReadOnly := Meta_ReadOnly meta; Meta_Exclusive := Meta_Exclusive meta; Meta_Verifier := Meta_Verifier meta;
     Meta_BaseID := Meta_BaseID meta; Meta_BaseSize := Meta_BaseSize meta; Meta_Size := Meta_BaseSize meta;
     Meta_Dirty := Meta_Dirty meta; Meta_MetadataChanged := Meta_MetadataChanged meta;
     Meta_Attrs := stagingAttributes (Meta_Attrs meta) now;
     Meta_DataVersion := 0; Meta_Candidate := mkCandidate 0 (replicate 8 zero_byte) 0; Meta_Version := MetaVersion |}.

Definition create_file (meta : Meta) (now : time) : LocalFile :=
  let meta := new_meta meta now in
  {| sf_f := if Meta_BaseID meta =? 0 then [] else f_truncate [] (Z.to_nat (Meta_BaseSize meta));
     sf_closed := false; sf_size := Meta_BaseSize meta; sf_meta := meta; sf_dirty := Meta_Dirty meta;
     sf_attrs := Meta_Attrs meta; sf_metadataChanged := false; sf_dataVersion := 0;
     sf_candidate := mkCandidate 0 (replicate 8 zero_byte) 0; sf_hydrated := []; sf_checkpointDirty := false;
     sf_sealed := false; sf_removed := false; sf_hydrateDone := false; sf_hydrateCancel := false;
     sf_hydrateRemoved := false; sf_sidecar := meta |}.

(** The entry NewLocalStore makes of a disk file [f], last modified at
    [modTime], and of the sidecar it loaded. *)
Definition recover_file (id : Z) (f : list byte) (modTime : time) (meta : Meta) : LocalFile :=
  let size := if Meta_BaseID meta =? 0 then Z.of_nat (length f) else Meta_Size meta in
  let f := if Meta_BaseID meta =? 0 then f else f_truncate f (Z.to_nat size) in
  let version := Meta_DataVersion meta in
  let candidate :=
    if Candidate_ID (Meta_Candidate meta) =? 0 then mkCandidate id (Meta_TernCookie meta) version
    else Meta_Candidate meta in
  let version := if version <? Candidate_Version candidate then wrap64 (Candidate_Version candidate + 1) else version in
  {| sf_f := f; sf_closed := Meta_Retired meta; sf_size := size; sf_meta := meta; sf_dirty := Meta_Dirty meta;
     sf_attrs := stagingAttributes (Meta_Attrs meta) modTime; sf_metadataChanged := Meta_MetadataChanged meta;
     sf_dataVersion := version; sf_candidate := candidate; sf_hydrated := []; sf_checkpointDirty := false;
     sf_sealed := false; sf_removed := false; sf_hydrateDone := false; sf_hydrateCancel := false;
     sf_hydrateRemoved := false; sf_sidecar := meta |}.
