(* ===== verification/StagedContent.v ===== *)
(** What a staged file contains: the overlay of local data over an immutable
    base (src/go/nfsd/internal/staging/local_file.go).

    The content of a staged file is a byte string: the disk file where it is
    authoritative (dirty), cached (hydrated) or past the base, and the base
    elsewhere. [Inv] is the invariant under which this reading is right, and
    the theorems show that every method acts on the content as on a plain
    file: Write and SetSize are the write and the truncation of a byte string,
    and caching, hydration, checkpoints and bindings do not change it. *)

From Stdlib Require Import ZArith Lia.
From stdpp Require Import base numbers option list.
From S2P Require Import Prelude ByteRange Sidecar LocalFile.

(** * Content and invariant *)

Section content.
Context (base : list byte).

Definition covered (sf : LocalFile) (x : Z) : Prop :=
  covers (sf_dirty sf) x \/ covers (sf_hydrated sf) x.

#[export] Instance covered_dec sf x : Decision (covered sf x).
Proof. unfold covered. apply _. Defined.

(** The disk file answers for the offset. *)
Definition local_at (sf : LocalFile) (x : Z) : Prop :=
  Meta_BaseID (sf_meta sf) = 0 \/ Meta_BaseSize (sf_meta sf) <= x \/ covered sf x.

#[export] Instance local_at_dec sf x : Decision (local_at sf x).
Proof. unfold local_at. apply _. Defined.

Definition content_at (sf : LocalFile) (i : nat) : byte :=
  default zero_byte (if decide (local_at sf (Z.of_nat i)) then sf_f sf !! i else base !! i).

Definition content (sf : LocalFile) : list byte := content_at sf <$> seq 0 (Z.to_nat (sf_size sf)).

(** A replacement of [base]: the bytes the file has lost are dirty, and the
    hydrated ones are clean and equal to the base. *)
Record Overlay (sf : LocalFile) : Prop := {
  ov_size : Meta_BaseSize (sf_meta sf) = Z.of_nat (length base);
  ov_max : Meta_BaseSize (sf_meta sf) <= MaxInt64;
  ov_lost : forall x, sf_size sf <= x < Meta_BaseSize (sf_meta sf) -> covers (sf_dirty sf) x;
  ov_hydrated : forall x, covers (sf_hydrated sf) x ->
    x < sf_size sf /\ x < Meta_BaseSize (sf_meta sf) /\ ~ covers (sf_dirty sf) x /\
    sf_f sf !! Z.to_nat x = base !! Z.to_nat x }.

Record Inv (sf : LocalFile) : Prop := {
  inv_size : 0 <= sf_size sf <= MaxInt64;
  inv_len : length (sf_f sf) = Z.to_nat (sf_size sf);
  inv_dirty : normal (sf_dirty sf);
  inv_hydrated : normal (sf_hydrated sf);
  inv_overlay : Meta_BaseID (sf_meta sf) <> 0 -> Overlay sf }.

(** ** Facts on contents *)

Lemma length_content sf : length (content sf) = Z.to_nat (sf_size sf).
Proof. unfold content. by rewrite length_fmap, length_seq. Qed.

Lemma lookup_content sf i :
  content sf !! i = if decide (i < Z.to_nat (sf_size sf))%nat then Some (content_at sf i) else None.
Proof.
  unfold content. rewrite list_lookup_fmap. case_decide.
  - by rewrite lookup_seq_lt.
  - by rewrite lookup_seq_ge by lia.
Qed.

Lemma content_lookup_eq sf c :
  length c = Z.to_nat (sf_size sf) ->
  (forall i, (i < Z.to_nat (sf_size sf))%nat -> c !! i = Some (content_at sf i)) -> content sf = c.
Proof.
  intros Hl H. apply list_eq. intros i. rewrite lookup_content. case_decide as Hi; [by rewrite H|].
  symmetry. apply lookup_ge_None_2. lia.
Qed.

(** Two files with the same size whose contents agree pointwise. *)
Lemma content_eq sf sf' :
  sf_size sf' = sf_size sf -> (forall i, (i < Z.to_nat (sf_size sf))%nat -> content_at sf' i = content_at sf i) ->
  content sf' = content sf.
Proof.
  intros Hs H. symmetry. apply content_lookup_eq; [by rewrite length_content, Hs|].
  intros i Hi. rewrite lookup_content, Hs. rewrite decide_True by done. by rewrite H.
Qed.

Lemma content_at_local sf i : local_at sf (Z.of_nat i) -> content_at sf i = default zero_byte (sf_f sf !! i).
Proof. intros H. unfold content_at. by rewrite decide_True. Qed.
Lemma content_at_base sf i : ~ local_at sf (Z.of_nat i) -> content_at sf i = default zero_byte (base !! i).
Proof. intros H. unfold content_at. by rewrite decide_False. Qed.

Lemma content_at_ext sf sf' i :
  (local_at sf' (Z.of_nat i) <-> local_at sf (Z.of_nat i)) -> sf_f sf' !! i = sf_f sf !! i ->
  content_at sf' i = content_at sf i.
Proof.
  intros H Hf. destruct (decide (local_at sf (Z.of_nat i))) as [Hl|Hl].
  - rewrite !content_at_local by tauto. by rewrite Hf.
  - by rewrite !content_at_base by tauto.
Qed.

(** ** Changing a range of a file *)

(** The ranges after a change of [lo, hi): recorded for a replacement, and not
    kept at all for a new file. *)
Definition marked (sf sf' : LocalFile) (lo hi : Z) : Prop :=
  normal (sf_dirty sf') /\ normal (sf_hydrated sf') /\
  (Meta_BaseID (sf_meta sf) <> 0 ->
   (forall x, covers (sf_dirty sf') x <-> covers (sf_dirty sf) x \/ lo <= x < hi) /\
   (forall x, covers (sf_hydrated sf') x <-> covers (sf_hydrated sf) x /\ ~ lo <= x < hi)).

(** The disk file after the change: the same outside the range where the file
    had a byte, and zero where it had none. *)
Record disk_changed (sf sf' : LocalFile) (lo hi : Z) : Prop := {
  dc_meta : sf_meta sf' = sf_meta sf;
  dc_size : 0 <= sf_size sf' <= MaxInt64;
  dc_len : length (sf_f sf') = Z.to_nat (sf_size sf');
  dc_lo : 0 <= lo;
  dc_same : forall i, (Z.of_nat i < sf_size sf) -> (Z.of_nat i < sf_size sf') -> ~ lo <= Z.of_nat i < hi ->
    sf_f sf' !! i = sf_f sf !! i;
  dc_new : forall i, sf_size sf <= Z.of_nat i < sf_size sf' -> ~ lo <= Z.of_nat i < hi ->
    sf_f sf' !! i = Some zero_byte;
  dc_lost : forall x, sf_size sf' <= x < sf_size sf -> lo <= x < hi }.

Lemma change_inv sf sf' lo hi :
  Inv sf -> disk_changed sf sf' lo hi -> marked sf sf' lo hi -> Inv sf'.
Proof.
  intros [] [] (M1 & M2 & M3). constructor; [done..|]. rewrite dc_meta0. intros Hb.
  destruct (M3 Hb) as [M4 M5]. destruct (inv_overlay0 Hb). constructor; rewrite ?dc_meta0; [done|done|..].
  - intros x Hx. apply M4. destruct (decide (sf_size sf <= x)); [left; apply ov_lost0; lia|].
    right. apply dc_lost0. lia.
  - intros x Hx. pose proof (normal_from_covers _ _ _ M2 Hx). apply M5 in Hx as [Hx Hr].
    destruct (ov_hydrated0 x Hx) as (H1 & H2 & H3 & H4).
    assert (x < sf_size sf') by (destruct (decide (x < sf_size sf')); [done|]; exfalso; apply Hr, dc_lost0; lia).
    split_and!; [done|done|rewrite M4; tauto|]. rewrite <-H4. apply dc_same0; rewrite ?Z2Nat.id by lia; done.
Qed.

Lemma change_content sf sf' lo hi i :
  Inv sf -> disk_changed sf sf' lo hi -> marked sf sf' lo hi -> Z.of_nat i < sf_size sf' ->
  content_at sf' i =
  if decide (lo <= Z.of_nat i < hi) then default zero_byte (sf_f sf' !! i)
  else if decide (Z.of_nat i < sf_size sf) then content_at sf i else zero_byte.
Proof.
  intros [] [] (_ & _ & M3) Hi.
  assert (forall x, ~ lo <= x < hi -> local_at sf' x <-> local_at sf x) as Hloc.
  { intros x Hr. unfold local_at, covered. rewrite dc_meta0.
    destruct (decide (Meta_BaseID (sf_meta sf) = 0)) as [Hb|Hb]; [tauto|].
    destruct (M3 Hb) as [-> ->]. tauto. }
  destruct (decide (lo <= Z.of_nat i < hi)) as [Hr|Hr].
  - apply content_at_local. unfold local_at, covered. rewrite dc_meta0.
    destruct (decide (Meta_BaseID (sf_meta sf) = 0)) as [Hb|Hb]; [tauto|]. destruct (M3 Hb) as [-> _]. tauto.
  - destruct (decide (Z.of_nat i < sf_size sf)) as [Hs|Hs].
    + apply content_at_ext; auto.
    + rewrite content_at_local; [by rewrite dc_new0 by lia|]. apply Hloc; [done|].
      destruct (decide (Meta_BaseID (sf_meta sf) = 0)) as [Hb|Hb]; [by left|].
      destruct (decide (Meta_BaseSize (sf_meta sf) <= Z.of_nat i)); [by right; left|].
      right; right; left. destruct (inv_overlay0 Hb). apply ov_lost0. lia.
Qed.

(** ** Write and SetSize *)

(** The disk file after it is extended to [size] and written at [offset]. *)
Lemma f_write_extended f size offset (data : list byte) i :
  (length f <= size)%nat -> (i < size)%nat -> ~ (offset <= i < offset + length data)%nat ->
  (offset + length data <= size)%nat ->
  f_write (f_truncate f size) offset data !! i = Some (default zero_byte (f !! i)).
Proof.
  intros H1 H2 H3 H4. rewrite lookup_f_write, decide_False by done. rewrite lookup_f_truncate.
  repeat case_decide; done || lia.
Qed.

(** A write of [data] at [offset] inside a disk file that is large enough. *)
Lemma write_data_changed sf0 sf offset hi data now sf' :
  Inv sf0 -> 0 <= offset -> hi = offset + Z.of_nat (length data) -> offset < hi <= sf_size sf -> sf_size sf <= MaxInt64 ->
  sf_size sf = Z.max (sf_size sf0) hi -> sf_meta sf = sf_meta sf0 ->
  sf_dirty sf = sf_dirty sf0 -> sf_hydrated sf = sf_hydrated sf0 ->
  sf_f sf = f_truncate (sf_f sf0) (Z.to_nat (sf_size sf)) ->
  write_data sf offset hi data now WriteOk = (sf', Ok tt) ->
  disk_changed sf0 sf' offset hi /\ marked sf0 sf' offset hi /\ sf_size sf' = sf_size sf /\
  sf_f sf' = f_write (sf_f sf) (Z.to_nat offset) data.
Proof.
  intros [] H0 Hhi Hr Hmax Hs Hm Hd Hh Hf. unfold write_data, os_write_at.
  destruct (sf_closed sf || (MaxInt64 <? offset)); [done|]. cbn -[f_write].
  intros Heq%(f_equal fst).
  assert (sf_meta sf' = sf_meta sf /\ sf_size sf' = sf_size sf /\ sf_f sf' = f_write (sf_f sf) (Z.to_nat offset) data)
    as (E1 & E2 & E3) by (by destruct (Meta_BaseID (sf_meta sf) =? 0); cbn -[f_write] in Heq; subst sf').
  split; [|split; [|done]].
  - constructor; rewrite ?E1, ?E2, ?E3, ?length_f_write; [done|lia|rewrite Hf, length_f_truncate; lia|done|..].
    + intros i H1 H2 H3. rewrite Hf, f_write_extended by lia.
      by destruct (lookup_lt_is_Some_2 (sf_f sf0) i) as [? ->]; [lia|].
    + intros i H1 H2. rewrite Hf, f_write_extended by lia. by rewrite lookup_ge_None_2 by lia.
    + intros x. lia.
  - unfold marked. rewrite <-Hm, <-Hd, <-Hh in *. destruct (Meta_BaseID (sf_meta sf) =? 0) eqn:Eb; cbn in Heq; subst sf'; cbn.
    + reflect_bools. by split_and!.
    + destruct (Add_spec (sf_dirty sf) offset hi) as [A1 A2]; [done..|].
      destruct (Remove_spec (sf_hydrated sf) offset hi) as [R1 R2]; [done..|]. done.
Qed.

Lemma u64_no_overflow offset n :
  is_u64 offset -> 0 <= n < 2 ^ 64 -> (wrap64 (offset + n) <? offset) = false -> wrap64 (offset + n) = offset + n.
Proof.
  unfold wrap64, is_u64. intros H1 H2 H3. reflect_bools.
  destruct (decide (offset + n < 2 ^ 64)); [by apply Z.mod_small; lia|].
  rewrite <-(Z.mod_add _ (-1)), Z.mod_small in H3 by lia. lia.
Qed.

Lemma f_truncate_same f n : length f = n -> f_truncate f n = f.
Proof.
  intros H. apply list_eq. intros i. rewrite lookup_f_truncate. case_decide as Hi.
  - by destruct (lookup_lt_is_Some_2 f i) as [? ->]; [lia|].
  - symmetry. apply lookup_ge_None_2. lia.
Qed.

Lemma Write_changed sf offset data now t sf' :
  Inv sf -> is_u64 offset -> data <> [] -> Z.of_nat (length data) <= MaxInt64 ->
  Write sf offset data now t WriteOk = (sf', Ok tt) ->
  let hi := offset + Z.of_nat (length data) in
  disk_changed sf sf' offset hi /\ marked sf sf' offset hi /\ sf_size sf' = Z.max (sf_size sf) hi /\
  sf_f sf' = f_write (f_truncate (sf_f sf) (Z.to_nat (sf_size sf'))) (Z.to_nat offset) data.
Proof.
  intros HI Hoff Hne Hlen. unfold Write, is_u64, MaxInt64 in *.
  assert (0 < length data)%nat by (destruct data; [done|cbn; lia]).
  destruct (sf_removed sf || sf_sealed sf); [done|]. destruct (length data =? 0)%nat eqn:El; [by apply Nat.eqb_eq in El; lia|].
  destruct (_ <? offset) eqn:Eo; [done|]. apply u64_no_overflow in Eo; [|done|lia]. rewrite Eo.
  pose proof HI as []. destruct (sf_size sf <? _) eqn:Es; reflect_bools.
  - unfold os_truncate. destruct t; [|done]. destruct (sf_closed sf || _) eqn:Ec; [done|]. reflect_bools.
    intros HW. eapply (write_data_changed sf) in HW as (G1 & G2 & G3 & G4);
      cbn -[f_truncate]; unfold MaxInt64 in *; try done; try lia.
    split_and!; [done|done|rewrite G3; cbn; lia|]. by rewrite G4, G3.
  - intros HW. eapply (write_data_changed sf) in HW as (G1 & G2 & G3 & G4);
      unfold MaxInt64 in *; try done; try lia; try (by rewrite f_truncate_same).
    split_and!; [done|done|lia|]. by rewrite G4, G3, f_truncate_same.
Qed.

Lemma Write_content sf offset data now t sf' :
  Inv sf -> is_u64 offset -> data <> [] -> Z.of_nat (length data) <= MaxInt64 ->
  Write sf offset data now t WriteOk = (sf', Ok tt) ->
  Inv sf' /\ content sf' = f_write (content sf) (Z.to_nat offset) data.
Proof.
  intros HI Hoff Hne Hlen HW. destruct (Write_changed _ _ _ _ _ _ HI Hoff Hne Hlen HW) as (D & M & Hs & Hf).
  split; [by eapply change_inv|]. unfold is_u64 in *. pose proof (inv_size _ HI).
  apply content_lookup_eq; [rewrite length_f_write, length_content; lia|]. intros i Hi.
  rewrite (change_content _ _ _ _ i HI D M), lookup_f_write by lia.
  destruct (decide (offset <= Z.of_nat i < offset + Z.of_nat (length data))) as [Hr|Hr].
  - rewrite decide_True by lia. rewrite Hf, lookup_f_write, decide_True by lia.
    by destruct (lookup_lt_is_Some_2 data (i - Z.to_nat offset)) as [? ->]; [lia|].
  - rewrite decide_False by lia. rewrite lookup_content. repeat case_decide; done || lia.
Qed.

Lemma SetSize_changed sf size now r sf' :
  Inv sf -> 0 <= size -> SetSize sf size now r = (sf', Ok tt) ->
  let lo := Z.min size (sf_size sf) in let hi := Z.max size (sf_size sf) in
  sf' = sf /\ size = sf_size sf \/
  disk_changed sf sf' lo hi /\ marked sf sf' lo hi /\ sf_size sf' = size /\
  sf_f sf' = f_truncate (sf_f sf) (Z.to_nat size).
Proof.
  intros HI H0. unfold SetSize. destruct (sf_removed sf || sf_sealed sf); [done|].
  destruct (size =? sf_size sf) eqn:E; reflect_bools.
  { intros [= <-]. by left. }
  unfold os_truncate. destruct r; [|done]. destruct (sf_closed sf || _) eqn:Ec; [done|]. reflect_bools.
  intros Heq%(f_equal fst). cbn -[f_truncate] in Heq. pose proof (inv_size _ HI). pose proof (inv_len _ HI).
  set (lo := Z.min size (sf_size sf)). set (hi := Z.max size (sf_size sf)). right.
  assert (sf_meta sf' = sf_meta sf /\ sf_size sf' = size /\ sf_f sf' = f_truncate (sf_f sf) (Z.to_nat size))
    as (E1 & E2 & E3)
    by (by destruct (Meta_BaseID (sf_meta sf) =? 0), (size <? sf_size sf); cbn -[f_truncate] in Heq; subst sf').
  assert (disk_changed sf sf' lo hi) as D.
  { constructor; rewrite ?E1, ?E2, ?E3, ?length_f_truncate; try done; try lia.
    - intros i ? ? ?. rewrite lookup_f_truncate, decide_True by lia.
      by destruct (lookup_lt_is_Some_2 (sf_f sf) i) as [? ->]; [lia|]. }
  assert (marked sf sf' lo hi) as M.
  { pose proof (inv_dirty _ HI) as Nd. pose proof (inv_hydrated _ HI) as Nh.
    unfold marked. destruct (Meta_BaseID (sf_meta sf) =? 0) eqn:Eb; [|destruct (size <? sf_size sf) eqn:Es];
      cbn -[f_truncate] in Heq; subst sf'; cbn; reflect_bools; [by split_and!|..].
    - replace lo with size by lia. replace hi with (sf_size sf) by lia.
      destruct (Add_spec (sf_dirty sf) size (sf_size sf)) as [A1 A2]; [done..|].
      destruct (Remove_spec (sf_hydrated sf) size (sf_size sf)) as [R1 R2]; [done..|]. done.
    - replace lo with (sf_size sf) by lia. replace hi with size by lia.
      destruct (Add_spec (sf_dirty sf) (sf_size sf) size) as [A1 A2]; [lia|done|]. split_and!; [done|done|].
      intros Hb. split; [done|]. intros x. destruct (inv_overlay _ HI Hb).
      split; [|tauto]. intros Hx. split; [done|]. destruct (ov_hydrated0 x Hx). lia. }
  done.
Qed.

Lemma SetSize_content sf size now r sf' :
  Inv sf -> 0 <= size -> SetSize sf size now r = (sf', Ok tt) ->
  Inv sf' /\ content sf' = f_truncate (content sf) (Z.to_nat size).
Proof.
  intros HI H0 HS. destruct (SetSize_changed _ _ _ _ _ HI H0 HS) as [[-> ->]|(D & M & E2 & E3)].
  { split; [done|]. by rewrite f_truncate_same by apply length_content. }
  pose proof (inv_size _ HI). pose proof (inv_len _ HI).
  split; [by eapply change_inv|]. apply content_lookup_eq; [rewrite length_f_truncate; lia|]. intros i Hi.
  rewrite (change_content _ _ _ _ i HI D M), lookup_f_truncate, decide_True by lia.
  rewrite lookup_content, E3, lookup_f_truncate. repeat case_decide; try done; try lia.
  by rewrite lookup_ge_None_2 by lia.
Qed.

(** ** Caching bytes of the base *)

(** [data] is what the base holds at [offset]. *)
Definition base_slice (offset : Z) (data : list byte) : Prop :=
  0 <= offset /\ offset + Z.of_nat (length data) <= Z.of_nat (length base) /\
  forall k, (k < length data)%nat -> data !! k = base !! (Z.to_nat offset + k)%nat.

Lemma base_slice_take offset data n : base_slice offset data -> base_slice offset (take n data).
Proof.
  intros (H1 & H2 & H3). split; [done|]. rewrite length_take. split; [lia|]. intros k Hk.
  rewrite lookup_take_lt by lia. apply H3. lia.
Qed.

Lemma base_slice_sub offset data a b part :
  base_slice offset data -> sub (E:=sf_error) data a b = Ok part ->
  base_slice (offset + Z.of_nat a) part /\ length part = (b - a)%nat.
Proof.
  intros (H1 & H2 & H3). unfold sub. case_decide as Hab; [|done]. intros Hp%Ok_inj. subst part.
  assert (length (take (b - a) (drop a data)) = (b - a)%nat) as Hl by (rewrite length_take, length_drop; lia).
  split; [|done]. split; [lia|]. rewrite Hl. split; [lia|]. intros k Hk.
  rewrite lookup_take_lt, lookup_drop, H3 by lia. f_equal. lia.
Qed.

(** A range that caching may fill: inside the file and the base, and clean. *)
Definition clean_range (sf : LocalFile) (lo hi : Z) : Prop :=
  0 <= lo /\ hi <= sf_size sf /\ hi <= Meta_BaseSize (sf_meta sf) /\
  forall x, lo <= x < hi -> ~ covers (sf_dirty sf) x.

Lemma cache_write sf s part :
  Inv sf -> Meta_BaseID (sf_meta sf) <> 0 -> base_slice s part -> clean_range sf s (s + Z.of_nat (length part)) ->
  let sf' := set_f (f_write (sf_f sf) (Z.to_nat s) part) sf in
  Inv sf' /\ content sf' = content sf /\
  (forall i, s <= Z.of_nat i < s + Z.of_nat (length part) -> sf_f sf' !! i = base !! i).
Proof.
  intros [] Hb (P1 & P2 & P3) (C1 & C2 & C3 & C4). cbn -[f_write].
  assert (forall i, s <= Z.of_nat i < s + Z.of_nat (length part) ->
    f_write (sf_f sf) (Z.to_nat s) part !! i = base !! i) as Hin.
  { intros i Hi. rewrite lookup_f_write, decide_True, P3 by lia. f_equal. lia. }
  assert (forall i, (i < length (sf_f sf))%nat -> ~ s <= Z.of_nat i < s + Z.of_nat (length part) ->
    f_write (sf_f sf) (Z.to_nat s) part !! i = sf_f sf !! i) as Hout.
  { intros i Hi Hr. rewrite lookup_f_write, decide_False by lia. case_decide; [|done].
    by destruct (lookup_lt_is_Some_2 (sf_f sf) i) as [? ->]; [lia|]. }
  destruct (inv_overlay0 Hb). split_and!; [|..|done].
  - constructor; cbn -[f_write]; try done; [rewrite length_f_write; lia|]. intros _.
    constructor; cbn -[f_write]; try done. intros x Hx. pose proof (normal_from_covers _ _ _ inv_hydrated0 Hx).
    destruct (ov_hydrated0 x Hx) as (H1 & H2 & H3 & H4). split_and!; try done.
    destruct (decide (s <= x < s + Z.of_nat (length part))).
    + apply Hin. lia.
    + rewrite Hout; [done|lia|lia].
  - apply content_eq; [done|]. intros i Hi.
    destruct (decide (s <= Z.of_nat i < s + Z.of_nat (length part))) as [Hr|Hr].
    2:{ apply content_at_ext; [done|]. cbn -[f_write]. apply Hout; [lia|done]. }
    destruct (decide (local_at sf (Z.of_nat i))) as [Hl|Hl].
    2:{ by rewrite !content_at_base by exact Hl. }
    rewrite !content_at_local by exact Hl. cbn -[f_write]. rewrite Hin by done.
    destruct Hl as [?|[?|[Hd|Hh]]]; [done|lia|by apply C4 in Hd|].
    destruct (ov_hydrated0 _ Hh) as (_ & _ & _ & H4). rewrite Nat2Z.id in H4. by rewrite H4.
Qed.

Lemma cache_mark sf s e :
  Inv sf -> Meta_BaseID (sf_meta sf) <> 0 -> clean_range sf s e ->
  (forall i, s <= Z.of_nat i < e -> sf_f sf !! i = base !! i) ->
  let sf' := set_hydrated (Add (sf_hydrated sf) s e) sf in
  Inv sf' /\ content sf' = content sf /\
  (forall x, covers (sf_hydrated sf') x <-> covers (sf_hydrated sf) x \/ s <= x < e).
Proof.
  intros [] Hb (C1 & C2 & C3 & C4) Hf. destruct (inv_overlay0 Hb). cbn.
  destruct (Add_spec (sf_hydrated sf) s e) as [A1 A2]; [done..|]. split_and!; [|..|done].
  - constructor; cbn; try done. intros _. constructor; cbn; try done. intros x [Hx|Hx]%A2; [auto|].
    split_and!; [lia|lia|by apply C4|]. apply Hf. lia.
  - apply content_eq; [done|]. intros i Hi.
    destruct (decide (local_at sf (Z.of_nat i))) as [Hl|Hl].
    { apply content_at_ext; [|done]. unfold local_at, covered in *. cbn. rewrite A2. tauto. }
    rewrite (content_at_base sf) by done. destruct (decide (s <= Z.of_nat i < e)) as [Hr|Hr].
    + rewrite content_at_local; [cbn; by rewrite Hf|]. unfold local_at, covered. cbn. rewrite A2. tauto.
    + rewrite content_at_base; [done|]. unfold local_at, covered in *. cbn. rewrite A2. tauto.
Qed.

(** [sf'] is [sf] with more of the base cached. *)
Record cached (sf sf' : LocalFile) : Prop := {
  ca_frame : sf' = set_hydrated (sf_hydrated sf') (set_f (sf_f sf') sf);
  ca_inv : Inv sf';
  ca_content : content sf' = content sf;
  ca_more : forall x, covers (sf_hydrated sf) x -> covers (sf_hydrated sf') x }.

Lemma cached_refl sf : Inv sf -> cached sf sf.
Proof. intros. constructor; try done. by destruct sf. Qed.

Lemma cached_trans sf sf' sf'' : cached sf sf' -> cached sf' sf'' -> cached sf sf''.
Proof.
  intros [F1 I1 C1 M1] [F2 I2 C2 M2]. constructor; [|done|congruence|auto].
  rewrite F2. rewrite F1. by destruct sf''.
Qed.

Lemma cache_ranges_spec clean sf offset data ws :
  Inv sf -> Meta_BaseID (sf_meta sf) <> 0 -> base_slice offset data ->
  Forall (fun c => offset <= Start c < End c /\ End c <= offset + Z.of_nat (length data) /\
                   clean_range sf (Start c) (End c)) clean ->
  let '(sf', r) := cache_ranges sf offset data clean ws in
  cached sf sf' /\
  match r with
  | Ok _ => forall x, covers clean x -> covers (sf_hydrated sf') x
  | Err e => e = ErrIO
  | Panic => False
  end.
Proof.
  revert sf ws. induction clean as [|c clean IH]; intros sf ws HI Hb Hs Hc; cbn [cache_ranges].
  { split; [by apply cached_refl|]. intros x. by rewrite covers_nil. }
  apply Forall_cons in Hc as [(H1 & H2 & H3) Hc]. pose proof Hs as (P1 & P2 & P3).
  destruct (sub data _ _) as [part| |] eqn:Ep; cycle 1.
  { unfold sub in Ep. by case_decide. }
  { unfold sub in Ep. case_decide; [done|]. lia. }
  destruct (base_slice_sub _ _ _ _ _ Hs Ep) as [Hp Hpl].
  replace (offset + Z.of_nat (Z.to_nat (Start c - offset))) with (Start c) in Hp by lia.
  unfold os_write_at. destruct (sf_closed sf || _); [split; [by apply cached_refl|done]|].
  pose proof H3 as (C1 & C2 & C3 & C4).
  destruct (default WriteOk (head ws)) as [|n]; cbn [negb].
  - destruct (cache_write sf (Start c) part) as (W1 & W2 & W3); try done.
    { by replace (Start c + Z.of_nat (length part)) with (End c) by lia. }
    set (sf1 := set_f _ sf) in *.
    destruct (cache_mark sf1 (Start c) (End c)) as (M1 & M2 & M3); try done.
    { intros i Hi. apply W3. lia. }
    set (sf2 := set_hydrated _ sf1) in *.
    specialize (IH sf2 (tail ws) M1 Hb Hs). destruct (cache_ranges sf2 _ _ _ _) as [sf' r].
    destruct IH as [IH1 IH2]; [exact Hc|].
    assert (cached sf sf2) as Hcc.
    { constructor; [done|done|by rewrite M2, W2|]. intros x Hx. apply M3. by left. }
    split; [by eapply cached_trans|]. destruct r; [|done|done].
    intros x [Hx|Hx]%covers_cons; [|by apply IH2]. apply (ca_more _ _ IH1), M3. right. by destruct Hx.
  - destruct (cache_write sf (Start c) (take n part)) as (W1 & W2 & W3); try done.
    { by apply base_slice_take. }
    { split_and!; [done|rewrite length_take; lia..|]. intros x. rewrite length_take. intros. apply C4. lia. }
Qed.

Lemma cacheLocked_spec sf offset data ws :
  Inv sf -> base_slice offset data ->
  let '(sf', r) := cacheLocked sf offset data ws in
  cached sf sf' /\
  match r with
  | Ok _ => forall x, offset <= x < offset + Z.of_nat (length data) -> x < sf_size sf -> local_at sf' x
  | Err e => e = ErrIO
  | Panic => False
  end.
Proof.
  intros HI Hs. unfold cacheLocked.
  destruct (_ || (Meta_BaseSize (sf_meta sf) <=? offset)) eqn:E.
  { split; [by apply cached_refl|]. intros x H1 H2. unfold local_at.
    destruct (Meta_BaseID (sf_meta sf) =? 0) eqn:E1; reflect_bools; [tauto|].
    destruct (sf_size sf <=? offset) eqn:E2; reflect_bools; [lia|]. cbn in E. reflect_bools. lia. }
  reflect_bools. pose proof HI as []. destruct (inv_overlay0 ltac:(done)). pose proof Hs as (P1 & P2 & P3).
  rewrite ov_size0 in *. unfold MaxInt64 in *. unfold wrap64. rewrite Z.mod_small by lia.
  rewrite (proj2 (Z.ltb_ge _ _)) by lia. set (e := Z.min _ _).
  destruct (Gaps_spec (sf_dirty sf) offset e) as [G1 G2]; [done..|].
  pose proof (cache_ranges_spec (Gaps (sf_dirty sf) offset e) sf offset data ws HI ltac:(done) Hs) as HR.
  destruct (cache_ranges _ _ _ _ _) as [sf' r]. destruct HR as [HR1 HR2].
  - eapply Forall_impl; [by apply Gaps_bounds|]. intros c Hc.
    by destruct Hc as (B1 & B2 & B3); split_and!; [lia..|]; split_and!; [lia..|].
  - split; [done|]. destruct r; [|done|done]. intros x Hx1 Hx2. unfold local_at, covered.
    rewrite (ca_frame _ _ HR1). cbn. rewrite ov_size0.
    destruct (decide (Z.of_nat (length base) <= x)); [tauto|]. destruct (decide (covers (sf_dirty sf) x)); [tauto|].
    right; right; right. apply HR2, G2. split; [lia|done].
Qed.

(** ** Reading the base *)

(** A reader of an immutable base: the bytes it counts are those of the base. *)
Definition honest (readBase : BaseReader) : Prop :=
  forall offset n count eof bs, 0 <= offset <= Z.of_nat (length base) ->
    readBase offset n = Ok (count, eof, bs) -> 0 <= count <= Z.of_nat n ->
    base_slice offset (take (Z.to_nat count) bs) /\ length (take (Z.to_nat count) bs) = Z.to_nat count.

Lemma base_slice_app offset a b :
  base_slice offset a -> base_slice (offset + Z.of_nat (length a)) b -> base_slice offset (a ++ b).
Proof.
  intros (A1 & A2 & A3) (B1 & B2 & B3). split; [done|]. rewrite length_app. split; [lia|].
  intros k Hk. destruct (decide (k < length a)%nat).
  - by rewrite lookup_app_l, A3 by lia.
  - rewrite lookup_app_r, B3 by lia. f_equal. lia.
Qed.

Lemma read_base_loop_spec readBase fuel start n acc data :
  honest readBase -> Z.of_nat (length base) <= MaxInt64 -> base_slice start acc ->
  read_base_loop fuel readBase (start + Z.of_nat (length acc)) n acc = Ok data ->
  base_slice start data /\ length data = (length acc + n)%nat.
Proof.
  intros Hh Hmax. revert n acc. induction fuel as [|fuel IH]; intros n acc Ha; cbn [read_base_loop]; [done|].
  destruct (n =? 0)%nat eqn:En; [apply Nat.eqb_eq in En; intros <-%Ok_inj; split; [done|lia]|]. apply Nat.eqb_neq in En.
  destruct (readBase _ n) as [[[count eof] bs]| |] eqn:Er; [|done|done].
  destruct ((count <? 0) || _) eqn:Ec; [done|]. reflect_bools.
  pose proof Ha as (A1 & A2 & A3).
  destruct (Hh (start + Z.of_nat (length acc)) n count eof bs ltac:(lia) Er ltac:(lia)) as [S1 S2].
  pose proof (base_slice_app _ _ _ Ha S1) as Hs. pose proof Hs as (_ & B & _). rewrite length_app in B.
  destruct (n - Z.to_nat count =? 0)%nat eqn:Ez.
  { apply Nat.eqb_eq in Ez. intros <-%Ok_inj. split; [done|]. rewrite length_app. lia. }
  destruct (eof || (count =? 0)); [done|]. unfold wrap64, MaxInt64 in *.
  rewrite Z.mod_small by lia.
  replace (start + Z.of_nat (length acc) + count) with (start + Z.of_nat (length (acc ++ take (Z.to_nat count) bs)))
    by (rewrite length_app; lia).
  intros HR. apply IH in HR as [R1 R2]; [|done]. split; [done|]. rewrite R2, length_app. apply Nat.eqb_neq in Ez. lia.
Qed.

Lemma readStagingBase_spec readBase offset n data :
  (forall r, readBase = Some r -> honest r) -> Z.of_nat (length base) <= MaxInt64 -> 0 <= offset <= Z.of_nat (length base) ->
  readStagingBase readBase offset n = Ok data -> base_slice offset data /\ length data = n.
Proof.
  intros Hh Hm Ho. destruct readBase as [r|]; [|done]. cbn [readStagingBase]. intros HR.
  apply (read_base_loop_spec r (S n) offset n [] data); [auto|done|..].
  - split; [lia|]. split; [cbn; lia|]. intros k Hk. cbn in Hk. lia.
  - by rewrite Z.add_0_r.
Qed.

(** ** Histories *)

(** A method call with the answers of the operating system and the clock.
    [OpCache] is the caching of [n] bytes of the base, by a read or by hydration. *)
Inductive op :=
| OpWrite (offset : Z) (data : list byte) (now : time) (t : os_result)
| OpSetSize (size : Z) (now : time) (r : os_result)
| OpSetTime (mtime atime : option time) (now : time)
| OpCache (offset : Z) (n : nat) (ws : list write_result)
| OpSeal (version : Z)
| OpSetCandidate (c : Candidate) (persist : bool) (o : os_result) (s : save_result)
| OpSync (o : os_result) (s : save_result)
| OpRetire (clientID : Z) (stateID : list byte) (o : os_result) (s : save_result) (c : os_result)
| OpBind (clientID : Z) (stateID openOwner : list byte) (readOnly : bool) (o : os_result) (s s' : save_result)
| OpRemove.

Definition exec (o : op) (sf : LocalFile) : result unit :=
  match o with
  | OpWrite offset data now t => Write sf offset data now t WriteOk
  | OpSetSize size now r => SetSize sf size now r
  | OpSetTime mtime atime now => SetTime sf mtime atime now
  | OpCache offset n ws => Cache sf offset (f_read base (Z.to_nat offset) n) ws
  | OpSeal version => ((Seal sf version).1, Ok tt)
  | OpSetCandidate c persist o s => SetCandidate sf c persist o s
  | OpSync o s => Sync sf o s
  | OpRetire clientID stateID o s c => Retire sf clientID stateID o s c
  | OpBind clientID stateID owner ro o s s' => bind_file sf clientID stateID (bind_owner owner ro) o s s'
  | OpRemove => (prepareRemove sf, Ok tt)
  end.

(** The arguments are of their Go types. *)
Definition op_ok (o : op) : Prop :=
  match o with
  | OpWrite offset data _ _ => is_u64 offset /\ Z.of_nat (length data) <= MaxInt64
  | OpSetSize size _ _ => is_u64 size
  | OpCache offset n _ => 0 <= offset <= Z.of_nat (length base) /\ (Z.to_nat offset + n <= length base)%nat
  | _ => True
  end.

(** What the call does to a plain byte string. *)
Definition effect (o : op) (r : outcome sf_error unit) (c : list byte) : list byte :=
  match o, r with
  | OpWrite offset data _ _, Ok _ => if decide (data = []) then c else f_write c (Z.to_nat offset) data
  | OpSetSize size _ _, Ok _ => f_truncate c (Z.to_nat size)
  | _, _ => c
  end.

(** The fields the content depends on are the same. *)
Definition same_data (sf sf' : LocalFile) : Prop :=
  sf_f sf' = sf_f sf /\ sf_size sf' = sf_size sf /\ sf_dirty sf' = sf_dirty sf /\
  sf_hydrated sf' = sf_hydrated sf /\ Meta_BaseID (sf_meta sf') = Meta_BaseID (sf_meta sf) /\
  Meta_BaseSize (sf_meta sf') = Meta_BaseSize (sf_meta sf).

(** From one state of the file to a later one: the base is the same and what
    the disk file answers for it keeps answering for. *)
Definition later (sf sf' : LocalFile) : Prop :=
  Meta_BaseID (sf_meta sf') = Meta_BaseID (sf_meta sf) /\
  Meta_BaseSize (sf_meta sf') = Meta_BaseSize (sf_meta sf) /\
  forall x, local_at sf x -> local_at sf' x.

Lemma same_data_inv sf sf' : same_data sf sf' -> Inv sf -> Inv sf' /\ content sf' = content sf /\ later sf sf'.
Proof.
  intros (H1 & H2 & H3 & H4 & H5 & H6) [].
  assert (forall x, local_at sf' x <-> local_at sf x) as Hl by (intros x; unfold local_at, covered; by rewrite H3, H4, H5, H6).
  split_and!.
  - constructor; rewrite ?H1, ?H2, ?H3, ?H4, ?H5; try done. intros Hb. destruct (inv_overlay0 Hb).
    constructor; rewrite ?H1, ?H2, ?H3, ?H4, ?H6; done.
  - apply content_eq; [done|]. intros i Hi. apply content_at_ext; [apply Hl|by rewrite H1].
  - split_and!; [done..|]. intros x. apply Hl.
Qed.

Lemma os_save_same sf m s : same_data sf (os_save sf m s).1.
Proof. by destruct s. Qed.

Lemma saveMetaLocked_same sf s : same_data sf (saveMetaLocked sf s).1.
Proof. by destruct s. Qed.

Lemma syncLocked_same sf o s : same_data sf (syncLocked sf o s).1.
Proof.
  unfold syncLocked. destruct o; [|done]. destruct (sf_closed sf); [done|].
  destruct (checkpointChangedLocked sf); [apply saveMetaLocked_same|done].
Qed.

(** Every other method leaves the data alone, whatever it returns. *)
Lemma exec_same_data o sf :
  match o with OpWrite _ _ _ _ | OpSetSize _ _ _ | OpCache _ _ _ => True | _ => same_data sf (exec o sf).1 end.
Proof.
  destruct o as [| |mtime atime now| |v|c p o s|o s|c st o s cl|c st ow ro o s s'|]; cbn [exec fst]; try done.
  - unfold SetTime. by destruct (sf_removed sf || sf_sealed sf).
  - unfold Seal. by destruct (sf_removed sf || _).
  - unfold SetCandidate. destruct (sf_removed sf); [done|]. destruct p; [|done].
    apply (syncLocked_same (set_candidate c sf)).
  - unfold Sync. destruct (sf_removed sf); [done|]. apply syncLocked_same.
  - unfold Retire. cbn -[saveMetaLocked]. destruct (sf_removed sf); [done|].
    destruct (negb _ || _ || _); [done|]. destruct o; [|done]. destruct (sf_closed sf); [done|]. by destruct s.
  - unfold bind_file. destruct (sf_removed sf) eqn:Er; [done|].
    destruct (Meta_Retired (sf_meta sf)) eqn:Em; [destruct o; [|done]|];
      unfold updateMetaLocked; cbn; rewrite Er; by destruct s, s'.
Qed.

Lemma f_read_base_slice offset n :
  0 <= offset -> (Z.to_nat offset + n <= length base)%nat ->
  base_slice offset (f_read base (Z.to_nat offset) n) /\ length (f_read base (Z.to_nat offset) n) = n.
Proof.
  intros H1 H2. unfold f_read. assert (length (take n (drop (Z.to_nat offset) base)) = n) as Hl
    by (rewrite length_take, length_drop; lia).
  split; [|done]. split; [done|]. rewrite Hl. split; [lia|]. intros k Hk. by rewrite lookup_take_lt, lookup_drop.
Qed.

Lemma change_later sf sf' lo hi : disk_changed sf sf' lo hi -> marked sf sf' lo hi -> later sf sf'.
Proof.
  intros [] (_ & _ & M). unfold later, local_at, covered. rewrite dc_meta0. split_and!; [done..|]. intros x.
  destruct (decide (Meta_BaseID (sf_meta sf) = 0)) as [Hb|Hb]; [tauto|]. destruct (M Hb) as [-> ->].
  destruct (decide (lo <= x < hi)); tauto.
Qed.

Lemma later_refl sf : later sf sf.
Proof. by split_and!. Qed.
Lemma later_trans sf sf' sf'' : later sf sf' -> later sf' sf'' -> later sf sf''.
Proof. intros (H1 & H2 & H3) (H4 & H5 & H6). split_and!; [congruence..|auto]. Qed.

Lemma cached_later sf sf' : cached sf sf' -> later sf sf'.
Proof.
  intros [F _ _ M]. unfold later, local_at, covered. rewrite F. cbn. split_and!; [done..|]. intros x.
  pose proof (M x). tauto.
Qed.

(** A write or a resize that reports an error has not changed the file. *)
Lemma Write_failed sf offset data now t sf' r :
  Inv sf -> Write sf offset data now t WriteOk = (sf', r) -> r <> Ok tt -> sf' = sf.
Proof.
  intros HI. unfold Write. destruct (_ || _); [congruence|]. destruct (length data =? 0)%nat; [congruence|].
  destruct (_ <? offset) eqn:E1; [congruence|]. destruct (sf_size sf <? _) eqn:E2.
  - unfold os_truncate. destruct t; [|congruence]. destruct (sf_closed sf || _) eqn:Ec; [congruence|].
    unfold write_data, os_write_at. cbn -[f_write f_truncate]. reflect_bools.
    destruct (sf_closed sf || _) eqn:Ec'.
    { exfalso. apply orb_true_iff in Ec' as [?|?]; [congruence|]. reflect_bools. lia. }
    cbn -[f_write f_truncate]. destruct (Meta_BaseID (sf_meta sf) =? 0); congruence.
  - unfold write_data, os_write_at. destruct (sf_closed sf || _); [cbn; congruence|].
    cbn -[f_write f_truncate]. destruct (Meta_BaseID (sf_meta sf) =? 0); congruence.
Qed.

Lemma SetSize_failed sf size now r sf' o : SetSize sf size now r = (sf', o) -> o <> Ok tt -> sf' = sf.
Proof.
  unfold SetSize. destruct (_ || _); [congruence|]. destruct (size =? sf_size sf); [congruence|].
  destruct (os_truncate sf size r) as [sf1|]; [|congruence]. cbn.
  destruct (Meta_BaseID _ =? 0); [congruence|]. destruct (size <? sf_size sf); congruence.
Qed.

Lemma outcome_unit_cases {E} (r : outcome E unit) : r = Ok tt \/ r <> Ok tt.
Proof. destruct r as [[]| |]; [by left|by right..]. Qed.

Lemma effect_failed o r c : r <> Ok tt -> effect o r c = c.
Proof. destruct o, r as [[]| |]; done. Qed.

Lemma exec_spec o sf :
  Inv sf -> op_ok o ->
  let '(sf', r) := exec o sf in
  Inv sf' /\ content sf' = effect o r (content sf) /\ later sf sf'.
Proof.
  intros HI Hok. pose proof (exec_same_data o sf) as Hsame.
  destruct (exec o sf) as [sf' r] eqn:E. destruct o; cbn [op_ok exec fst] in *;
    try (apply same_data_inv in Hsame; [by destruct r|done]).
  - destruct (outcome_unit_cases r) as [->|Hr].
    2:{ rewrite effect_failed by done. apply Write_failed in E as ->; [|done..]. auto using later_refl. }
    destruct Hok as [Ho Hl]. cbn [effect]. case_decide as Hd.
    { subst data. unfold Write in E. cbn in E. destruct (_ || _); simplify_eq. auto using later_refl. }
    destruct (Write_content _ _ _ _ _ _ HI Ho Hd Hl E) as [W1 W2].
    destruct (Write_changed _ _ _ _ _ _ HI Ho Hd Hl E) as (D & M & _). eauto using change_later.
  - destruct (outcome_unit_cases r) as [->|Hr].
    2:{ rewrite effect_failed by done. apply SetSize_failed in E as ->; [|done..]. auto using later_refl. }
    destruct Hok as [H0 _]. destruct (SetSize_content _ _ _ _ _ HI H0 E) as [W1 W2]. split_and!; [done..|].
    destruct (SetSize_changed _ _ _ _ _ HI H0 E) as [[-> _]|(D & M & _)]; eauto using change_later, later_refl.
  - destruct Hok as [H0 H1]. destruct (f_read_base_slice offset n) as [Hs _]; [lia|done|].
    unfold Cache in E. destruct (sf_removed sf); [by simplify_eq; auto using later_refl|].
    pose proof (cacheLocked_spec sf offset _ ws HI Hs) as HC. rewrite E in HC. destruct HC as [HC _].
    split_and!; [apply HC|rewrite (ca_content _ _ HC); by destruct r|by apply cached_later].
Qed.

(** The file after a sequence of calls, and the byte string after their effects. *)
Fixpoint run (ops : list op) (sf : LocalFile) : LocalFile :=
  match ops with
  | [] => sf
  | o :: ops => run ops (exec o sf).1
  end.

Fixpoint run_effects (ops : list op) (sf : LocalFile) (c : list byte) : list byte :=
  match ops with
  | [] => c
  | o :: ops => run_effects ops (exec o sf).1 (effect o (exec o sf).2 c)
  end.

Lemma run_spec ops sf :
  Inv sf -> Forall op_ok ops ->
  Inv (run ops sf) /\ content (run ops sf) = run_effects ops sf (content sf) /\ later sf (run ops sf).
Proof.
  revert sf. induction ops as [|o ops IH]; intros sf HI Hok; cbn [run run_effects]; [auto using later_refl|].
  apply Forall_cons in Hok as [Ho Hok]. pose proof (exec_spec o sf HI Ho) as HE.
  destruct (exec o sf) as [sf' r]. destruct HE as (E1 & E2 & E3). cbn [fst snd].
  destruct (IH sf' E1 Hok) as (I1 & I2 & I3). rewrite E2 in I2. eauto using later_trans.
Qed.

(** ** Read *)

Definition part_ok (p : Range * list byte) : Prop :=
  base_slice (Start p.1) p.2 /\ Z.of_nat (length p.2) = End p.1 - Start p.1.

Lemma read_gaps_spec readBase missing parts :
  (forall r, readBase = Some r -> honest r) -> Z.of_nat (length base) <= MaxInt64 ->
  Forall (fun g => 0 <= Start g < End g /\ End g <= Z.of_nat (length base)) missing ->
  read_gaps readBase missing = Ok parts -> Forall part_ok parts /\ map fst parts = missing.
Proof.
  intros Hh Hm. revert parts. induction missing as [|g missing IH]; intros parts Hg; cbn [read_gaps].
  { intros <-%Ok_inj. by split; [apply Forall_nil|]. }
  apply Forall_cons in Hg as [Hg1 Hg].
  destruct (readStagingBase _ _ _) as [part| |] eqn:Ep; [|done|done]. cbn [mbind outcome_bind].
  destruct (read_gaps readBase missing) as [ps| |] eqn:Er; [|done|done]. cbn [mbind outcome_bind]. intros <-%Ok_inj.
  destruct (IH ps Hg eq_refl) as [I1 <-].
  destruct (readStagingBase_spec readBase (Start g) _ part Hh Hm ltac:(lia) Ep) as [R1 R2].
  split; [|done]. apply Forall_cons. split; [|done]. split; [done|]. cbn. lia.
Qed.

Lemma cache_parts_spec parts sf ws :
  Inv sf -> Forall part_ok parts ->
  let '(sf', r) := cache_parts sf parts ws in
  cached sf sf' /\
  match r with
  | Ok _ => forall x, covers (map fst parts) x -> x < sf_size sf -> local_at sf' x
  | Err e => e = ErrIO
  | Panic => False
  end.
Proof.
  revert sf ws. induction parts as [|[g part] parts IH]; intros sf ws HI Hp; cbn [cache_parts map].
  { split; [by apply cached_refl|]. intros x. by rewrite covers_nil. }
  apply Forall_cons in Hp as [[Hp1 Hp2] Hp]. cbn [fst snd] in *.
  pose proof (cacheLocked_spec sf (Start g) part (default [] (head ws)) HI Hp1) as HC.
  destruct (cacheLocked _ _ _ _) as [sf1 [u|e|]]; [|done|tauto]. destruct HC as [C1 C2].
  specialize (IH sf1 (tail ws) (ca_inv _ _ C1) Hp). destruct (cache_parts sf1 parts (tail ws)) as [sf' r].
  destruct IH as [I1 I2]. split; [by eapply cached_trans|]. destruct r; [|done|done].
  assert (sf_size sf1 = sf_size sf) as Hs by (rewrite (ca_frame _ _ C1); done).
  intros x [[Hx1 Hx2]|Hx]%covers_cons Hx'; [|apply I2; [done|lia]].
  apply (cached_later _ _ I1), C2; [lia|done].
Qed.

(** Where the disk file answers, reading it is reading the content. *)
Lemma f_read_content sf off n :
  Inv sf -> (forall i, (off <= i < off + n)%nat -> Z.of_nat i < sf_size sf -> local_at sf (Z.of_nat i)) ->
  f_read (sf_f sf) off n = f_read (content sf) off n.
Proof.
  intros [] Hl. unfold f_read. apply list_eq. intros i. destruct (decide (i < n)%nat) as [Hi|Hi].
  - rewrite !lookup_take_lt, !lookup_drop, lookup_content by done. case_decide as Hs.
    + rewrite content_at_local by (apply Hl; lia).
      by destruct (lookup_lt_is_Some_2 (sf_f sf) (off + i)) as [? ->]; [lia|].
    + apply lookup_ge_None_2. lia.
  - rewrite !lookup_ge_None_2 by (rewrite length_take; lia). done.
Qed.

Lemma read_finish_spec sf offset n parts ws r data eof sf' :
  Inv sf -> 0 <= offset -> offset + Z.of_nat n <= MaxInt64 -> Forall part_ok parts ->
  (forall x, offset <= x < offset + Z.of_nat n -> x < sf_size sf -> local_at sf x \/ covers (map fst parts) x) ->
  read_finish sf offset n parts ws r = (sf', Ok (data, eof)) ->
  Inv sf' /\ content sf' = content sf /\ sf_size sf' = sf_size sf /\
  data = f_read (content sf') (Z.to_nat offset) (length data) /\
  eof = (sf_size sf' <=? offset + Z.of_nat (length data)) /\
  Z.of_nat (length data) = Z.max 0 (Z.min (Z.of_nat n) (sf_size sf' - offset)).
Proof.
  intros HI H0 Hmax Hp Hcov. unfold read_finish. destruct (sf_removed sf); [done|].
  pose proof (cache_parts_spec parts sf ws HI Hp) as HC.
  destruct (cache_parts sf parts ws) as [sf1 [u|e|]]; [|done|done]. destruct HC as [C1 C2].
  assert (sf_size sf1 = sf_size sf) as Hs by (rewrite (ca_frame _ _ C1); done).
  destruct (sf_size sf1 <=? offset) eqn:E1; reflect_bools.
  { intros [= <- <- <-]. split_and!; [apply C1|apply C1|done|done| |cbn; lia]. symmetry. apply Z.leb_le. cbn. lia. }
  destruct (if sf_size sf1 - offset <? Z.of_nat n then _ else _) as [n' e'] eqn:E2.
  assert (Z.of_nat n' = Z.min (Z.of_nat n) (sf_size sf1 - offset) /\ e' = offset + Z.of_nat n') as [Hn He].
  { destruct (_ <? Z.of_nat n) eqn:E3; reflect_bools; simplify_eq; [lia|]. split; [lia|].
    unfold wrap64, MaxInt64 in *. apply Z.mod_small. lia. }
  clear E2. unfold readLocalLocked. pose proof (ca_inv _ _ C1) as HI1. pose proof HI1 as [].
  assert (f_read (sf_f sf1) (Z.to_nat offset) n' = f_read (content sf1) (Z.to_nat offset) n') as HR.
  { apply f_read_content; [done|]. intros i Hi Hi'.
    destruct (Hcov (Z.of_nat i) ltac:(lia) ltac:(lia)) as [Hl|Hl]; [by apply (cached_later _ _ C1)|].
    apply C2; [done|lia]. }
  destruct (n' =? 0)%nat eqn:E4.
  { apply Nat.eqb_eq in E4. intros [= <- <- <-]. cbn [length]. split_and!; [done|apply C1|done|done|f_equal; lia|lia]. }
  destruct r; [|done]. destruct (sf_closed sf1); [done|]. destruct (length _ =? n')%nat eqn:E5; [|done].
  apply Nat.eqb_eq in E5. intros [= <- Hdata <-]. rewrite HR in Hdata, E5. rewrite <-Hdata, E5.
  split_and!; [done|apply C1|done|done|f_equal; lia|lia].
Qed.

Lemma Read_spec sf offset n readBase mid r ws r' data eof sf' :
  Inv sf -> 0 <= offset -> (forall rd, readBase = Some rd -> honest rd) -> Forall op_ok mid ->
  Read sf offset n readBase (run mid) r ws r' = (sf', Ok (data, eof)) ->
  Inv sf' /\ (content sf' = content sf \/ content sf' = content (run mid sf)) /\
  data = f_read (content sf') (Z.to_nat offset) (length data) /\
  eof = (sf_size sf' <=? offset + Z.of_nat (length data)) /\ (length data <= n)%nat /\
  (length data = n \/ sf_size sf <= offset + Z.of_nat (length data) \/ sf_size sf' <= offset + Z.of_nat (length data)).
Proof.
  intros HI H0 Hh Hmid. unfold Read, read_begin. pose proof HI as [].
  destruct (sf_removed sf); [done|]. destruct (sf_size sf <=? offset) eqn:E1; reflect_bools.
  { intros [= <- <- <-]. cbn. split_and!; [done|by left|done| |lia|lia]. symmetry. apply Z.leb_le. lia. }
  set (n' := if _ <? Z.of_nat n then _ else n).
  assert (Z.of_nat n' = Z.min (Z.of_nat n) (sf_size sf - offset)) as Hn
    by (unfold n'; destruct (_ <? Z.of_nat n) eqn:E2; reflect_bools; lia).
  clearbody n'. unfold MaxInt64 in *. unfold wrap64. rewrite Z.mod_small by lia.
  destruct (Meta_BaseID (sf_meta sf) =? 0) eqn:Eb; reflect_bools.
  - destruct r; [|done]. destruct (sf_closed sf); [done|]. intros [= <- <- <-].
    assert (length (f_read (sf_f sf) (Z.to_nat offset) n') = n') as Hl
      by (unfold f_read; rewrite length_take, length_drop; lia).
    rewrite Hl. split_and!; [done|by left|apply f_read_content; [done|]|done|lia|lia]. intros; by left.
  - destruct (inv_overlay0 Eb). destruct (Union_spec (sf_dirty sf) (sf_hydrated sf)) as [U1 U2]; [done..|].
    set (hi := Z.min (offset + Z.of_nat n') _).
    destruct (Gaps_spec (localCoverageLocked sf) offset hi) as [G1 G2]; [done..|].
    destruct (read_gaps readBase _) as [parts| |] eqn:Eg; [|done|done].
    eapply read_gaps_spec in Eg as [P1 P2]; [|done|by rewrite <-ov_size0|].
    2:{ eapply Forall_impl; [by apply Gaps_bounds|]. cbn. intros g. lia. }
    destruct (run_spec mid sf HI Hmid) as (R1 & R2 & R3). intros HF.
    apply read_finish_spec in HF as (F1 & F2 & F3 & F4 & F5 & F6); [|done|done|unfold MaxInt64; lia|done|].
    { split_and!; [done|by right|done|done|lia|lia]. }
    intros x Hx1 Hx2. rewrite P2. destruct (decide (local_at sf x)) as [Hl|Hl]; [left; by apply R3|right].
    unfold local_at, covered in Hl. apply G2. unfold localCoverageLocked. rewrite U2. split; [lia|tauto].
Qed.

(** ** Hydration *)

(** A reader that answers inside the base: some bytes each time, and the end
    only with the last of them. *)
Definition answers (readBase : BaseReader) : Prop :=
  forall offset n, 0 <= offset -> (0 < n)%nat -> offset + Z.of_nat n <= Z.of_nat (length base) ->
    exists count eof bs, readBase offset n = Ok (count, eof, bs) /\ 0 < count <= Z.of_nat n /\
      (eof = true -> count = Z.of_nat n).

Lemma read_base_loop_total readBase fuel start n acc :
  honest readBase -> answers readBase -> Z.of_nat (length base) <= MaxInt64 -> base_slice start acc ->
  start + Z.of_nat (length acc) + Z.of_nat n <= Z.of_nat (length base) -> (n < fuel)%nat ->
  exists data, read_base_loop fuel readBase (start + Z.of_nat (length acc)) n acc = Ok data.
Proof.
  intros Hh Ha Hmax. revert n acc. induction fuel as [|fuel IH]; intros n acc Hacc Hn Hf; [lia|]. cbn [read_base_loop].
  destruct (n =? 0)%nat eqn:En; [eauto|]. apply Nat.eqb_neq in En. pose proof Hacc as (A1 & A2 & A3).
  destruct (Ha (start + Z.of_nat (length acc)) n ltac:(lia) ltac:(lia) ltac:(lia)) as (count & eof & bs & Hr & Hc & He).
  rewrite Hr. destruct ((count <? 0) || _) eqn:Ec.
  { apply orb_true_iff in Ec as [?|?]; reflect_bools; lia. }
  destruct (Hh (start + Z.of_nat (length acc)) n count eof bs ltac:(lia) Hr ltac:(lia)) as [S1 S2].
  destruct (n - Z.to_nat count =? 0)%nat eqn:Ez; [eauto|]. apply Nat.eqb_neq in Ez.
  destruct (eof || (count =? 0)) eqn:Ee.
  { apply orb_true_iff in Ee as [Ee|Ee]; [specialize (He Ee); lia|]. reflect_bools. lia. }
  unfold wrap64, MaxInt64 in *. rewrite Z.mod_small by lia.
  replace (start + Z.of_nat (length acc) + count) with (start + Z.of_nat (length (acc ++ take (Z.to_nat count) bs)))
    by (rewrite length_app; lia).
  apply IH; [by apply base_slice_app|rewrite length_app; lia|lia].
Qed.

Lemma readStagingBase_total readBase offset n :
  honest readBase -> answers readBase -> Z.of_nat (length base) <= MaxInt64 ->
  0 <= offset -> offset + Z.of_nat n <= Z.of_nat (length base) ->
  exists data, readStagingBase (Some readBase) offset n = Ok data /\ base_slice offset data /\ length data = n.
Proof.
  intros Hh Ha Hm H0 Hn. destruct (read_base_loop_total readBase (S n) offset n []) as [data Hd];
    [done..| |cbn; lia|lia|].
  { split; [lia|]. split; [cbn; lia|]. intros k Hk. cbn in Hk. lia. }
  cbn [length] in Hd. rewrite Z.add_0_r in Hd. exists data. split; [done|].
  apply (readStagingBase_spec (Some readBase) offset n data); [by intros ? [= ->]|done|lia|done].
Qed.

(** Caching in an open file that is not removed always works. *)
Lemma cache_ranges_ok clean sf offset data :
  sf_closed sf = false -> (forall c, c ∈ clean -> Start c <= MaxInt64) ->
  match cache_ranges sf offset data clean [] with (_, Err _) => False | _ => True end.
Proof.
  revert sf. induction clean as [|c clean IH]; intros sf Hc Hs; cbn [cache_ranges]; [done|].
  destruct (sub _ _ _) as [part| |]; [|done|done]. unfold os_write_at. rewrite Hc.
  rewrite (proj2 (Z.ltb_ge _ _)) by (apply Hs; by left). cbn [orb default head negb].
  apply IH; [done|]. intros c' H'. apply Hs. by right.
Qed.

Lemma Cache_total sf offset data :
  Inv sf -> base_slice offset data -> sf_closed sf = false -> sf_removed sf = false ->
  exists sf', Cache sf offset data [] = (sf', Ok tt) /\ cached sf sf' /\
    forall x, offset <= x < offset + Z.of_nat (length data) -> x < sf_size sf -> local_at sf' x.
Proof.
  intros HI Hs Hc Hr. unfold Cache. rewrite Hr. pose proof (cacheLocked_spec sf offset data [] HI Hs) as HC.
  assert (match cacheLocked sf offset data [] with (_, Err _) => False | _ => True end) as Hok.
  { unfold cacheLocked in *. destruct (_ || (Meta_BaseSize _ <=? offset)) eqn:E; [done|]. destruct (_ <? offset) eqn:Eo.
    - destruct HC as [_ HC]. done.
    - apply cache_ranges_ok; [done|]. intros c Hin. destruct Hs as [H0 _]. pose proof HI as [].
      eapply Forall_forall in Hin; [|by apply Gaps_bounds]. cbn in Hin. reflect_bools. lia. }
  destruct (cacheLocked sf offset data []) as [sf' [[]| |]]; [|done|tauto]. destruct HC as [C1 C2]. eauto.
Qed.

(** The gaps of hydration are the offsets for which the disk file does not answer. *)
Lemma hydration_gaps_spec sf :
  Inv sf -> Meta_BaseID (sf_meta sf) <> 0 ->
  normal (hydration_gaps sf) /\
  Forall (fun g => 0 <= Start g < End g /\ End g <= sf_size sf /\ End g <= Z.of_nat (length base)) (hydration_gaps sf) /\
  forall x, covers (hydration_gaps sf) x <-> 0 <= x < sf_size sf /\ ~ local_at sf x.
Proof.
  intros [] Hb. destruct (inv_overlay0 Hb). destruct (Union_spec (sf_dirty sf) (sf_hydrated sf)) as [U1 U2]; [done..|].
  unfold hydration_gaps, localCoverageLocked. split_and!.
  - by apply Gaps_spec.
  - eapply Forall_impl; [by apply Gaps_bounds|]. cbn. intros g. lia.
  - intros x. rewrite (proj2 (Gaps_spec _ _ _ ltac:(done) U1)), U2. unfold local_at, covered.
    destruct (decide (Meta_BaseSize (sf_meta sf) <= x)); split; intros; destruct_and?; split; try lia; tauto.
Qed.

(** When nothing is missing the disk file is the content. *)
Lemma hydrated_content sf :
  Inv sf -> (Meta_BaseID (sf_meta sf) = 0 \/ hydration_gaps sf = []) -> sf_f sf = content sf.
Proof.
  intros HI H. assert (forall i, Z.of_nat i < sf_size sf -> local_at sf (Z.of_nat i)) as Hl.
  { intros i Hi. destruct H as [H|H]; [by left|]. destruct (decide (local_at sf (Z.of_nat i))) as [|Hn]; [done|].
    destruct (decide (Meta_BaseID (sf_meta sf) = 0)) as [Hb|Hb]; [by left|].
    exfalso. apply (covers_nil (Z.of_nat i)). rewrite <-H. apply hydration_gaps_spec; [done|done|split; [lia|done]]. }
  pose proof HI as []. pose proof (f_read_content sf 0 (Z.to_nat (sf_size sf)) HI ltac:(auto)) as HR.
  unfold f_read in HR. rewrite !drop_0, !take_ge in HR; [done|rewrite length_content; lia|lia].
Qed.

(** How many offsets of the file are still only in the base. *)
Definition missing_count (sf : LocalFile) : nat :=
  length (filter (fun i => ~ local_at sf (Z.of_nat i)) (seq 0 (Z.to_nat (sf_size sf)))).

Lemma missing_decreases sf sf' x :
  cached sf sf' -> 0 <= x < sf_size sf -> ~ local_at sf x -> local_at sf' x ->
  (missing_count sf' < missing_count sf)%nat.
Proof.
  intros HC Hx Hn Hl. unfold missing_count. replace (sf_size sf') with (sf_size sf) by (rewrite (ca_frame _ _ HC); done).
  apply (filter_length_lt _ _ _ (Z.to_nat x)).
  - intros i Hi Hi'. apply Hi. by apply (cached_later _ _ HC).
  - apply elem_of_seq. lia.
  - by rewrite Z2Nat.id by lia.
  - rewrite Z2Nat.id by lia. tauto.
Qed.

Lemma cached_frame sf sf' : cached sf sf' ->
  sf_meta sf' = sf_meta sf /\ sf_closed sf' = sf_closed sf /\ sf_removed sf' = sf_removed sf /\ sf_size sf' = sf_size sf.
Proof. intros [F _ _ _]. rewrite F. done. Qed.

Section complete.
Context (readBase : BaseReader) (Hh : honest readBase) (Ha : answers readBase).

Lemma hydrate_spec rounds sf :
  Inv sf -> sf_closed sf = false -> sf_removed sf = false -> (missing_count sf < rounds)%nat ->
  exists sf', hydrate rounds sf (Some readBase) (fun _ => false) = Some (sf', Ok tt) /\ cached sf sf' /\
    sf_f sf' = content sf'.
Proof.
  revert sf. induction rounds as [|rounds IH]; intros sf HI Hc Hr Hm; [lia|]. cbn [hydrate].
  destruct (Meta_BaseID (sf_meta sf) =? 0) eqn:Eb; reflect_bools.
  { exists sf. split_and!; [done|by apply cached_refl|]. apply hydrated_content; auto. }
  destruct (hydration_gaps_spec sf HI Eb) as (G1 & G2 & G3).
  destruct (hydration_gaps sf) as [|gap gaps] eqn:Eg.
  { exists sf. split_and!; [done|by apply cached_refl|]. apply hydrated_content; auto. }
  apply Forall_cons in G2 as [G2 _]. destruct (inv_overlay _ HI Eb). rewrite ov_size0 in ov_max0.
  set (count := Z.min stagingHydrationChunk (End gap - Start gap)).
  assert (0 < count <= End gap - Start gap) by (unfold count, stagingHydrationChunk; lia). clearbody count.
  destruct (readStagingBase_total readBase (Start gap) (Z.to_nat count)) as (part & -> & P1 & P2); [done|done|done|lia|lia|].
  destruct (Cache_total sf (Start gap) part HI P1 Hc Hr) as (sf1 & -> & C1 & C2).
  destruct (cached_frame _ _ C1) as (F1 & F2 & F3 & F4).
  destruct (IH sf1) as (sf' & -> & I1 & I2); [apply C1|congruence..| |].
  { enough (missing_count sf1 < missing_count sf)%nat by lia.
    assert (covers (gap :: gaps) (Start gap)) as Hcov by (apply covers_cons; left; unfold in_range; lia).
    apply G3 in Hcov as [Hcov1 Hcov2]. apply (missing_decreases _ _ (Start gap)); [done..|]. apply C2; lia. }
  exists sf'. split_and!; [done|by eapply cached_trans|done].
Qed.

(** ** Finishing hydration with several workers *)

Lemma split_gap_spec fuel start end_ :
  0 <= start -> end_ <= MaxInt64 -> end_ - start <= Z.of_nat fuel * stagingHydrationChunk ->
  Forall (fun j => start <= Start j < End j /\ End j <= end_) (split_gap fuel start end_) /\
  forall x, covers (split_gap fuel start end_) x <-> start <= x < end_.
Proof.
  unfold stagingHydrationChunk, MaxInt64. revert start. induction fuel as [|fuel IH]; intros start H0 Hm Hf; cbn [split_gap].
  { split; [by apply Forall_nil|]. intros x. rewrite covers_nil. lia. }
  destruct (start <? end_) eqn:E; reflect_bools.
  - unfold stagingHydrationChunk, wrap64. rewrite Z.mod_small by lia. set (e := Z.min _ _).
    destruct (IH e) as [I1 I2]; [lia|lia|lia|]. split.
    + apply Forall_cons. cbn. split; [lia|]. eapply Forall_impl; [exact I1|]. cbn. intros j. lia.
    + intros x. rewrite covers_cons, I2. unfold in_range. cbn. lia.
  - split; [by apply Forall_nil|]. intros x. rewrite covers_nil. lia.
Qed.

Lemma gap_jobs_spec gap :
  0 <= Start gap <= End gap -> End gap <= MaxInt64 ->
  Forall (fun j => Start gap <= Start j < End j /\ End j <= End gap) (gap_jobs gap) /\
  forall x, covers (gap_jobs gap) x <-> in_range x gap.
Proof.
  intros H1 H2. apply split_gap_spec; [lia|done|]. unfold stagingHydrationChunk.
  pose proof (Z.div_mod (End gap - Start gap) (2 ^ 20) ltac:(lia)).
  pose proof (Z.mod_pos_bound (End gap - Start gap) (2 ^ 20) ltac:(lia)).
  pose proof (Z.div_pos (End gap - Start gap) (2 ^ 20) ltac:(lia) ltac:(lia)). lia.
Qed.

Lemma run_jobs_spec jobs sf :
  Inv sf -> Meta_BaseID (sf_meta sf) <> 0 -> sf_closed sf = false -> sf_removed sf = false ->
  Forall (fun j => 0 <= Start j < End j /\ End j <= Z.of_nat (length base)) jobs ->
  exists sf', run_jobs sf (Some readBase) jobs = (sf', Ok tt) /\ cached sf sf' /\
    forall x, covers jobs x -> x < sf_size sf -> local_at sf' x.
Proof.
  revert sf. induction jobs as [|j jobs IH]; intros sf HI Hb Hc Hr Hj; cbn [run_jobs].
  { exists sf. split_and!; [done|by apply cached_refl|]. intros x. by rewrite covers_nil. }
  apply Forall_cons in Hj as [Hj1 Hj]. destruct (inv_overlay _ HI Hb). rewrite ov_size0 in ov_max0.
  destruct (readStagingBase_total readBase (Start j) (Z.to_nat (End j - Start j))) as (part & -> & P1 & P2); [done|done|done|lia|lia|].
  destruct (Cache_total sf (Start j) part HI P1 Hc Hr) as (sf1 & -> & C1 & C2).
  destruct (cached_frame _ _ C1) as (F1 & F2 & F3 & F4).
  destruct (IH sf1) as (sf' & -> & I1 & I2); [apply C1|congruence..|done|].
  exists sf'. split_and!; [done|by eapply cached_trans|]. rewrite F4 in I2.
  intros x [[Hx1 Hx2]|Hx]%covers_cons Hs; [|by apply I2]. apply (cached_later _ _ I1), C2; [lia|done].
Qed.

Lemma finishHydration_spec sched sf :
  Inv sf -> sf_closed sf = false -> sf_removed sf = false -> (forall jobs, sched jobs ≡ₚ jobs) ->
  exists sf', finishHydration 2 sf (Some readBase) sched = Some (sf', Ok tt) /\ cached sf sf' /\
    sf_f sf' = content sf'.
Proof.
  intros HI Hc Hr Hp. unfold finishHydration.
  destruct (Meta_BaseID (sf_meta sf) =? 0) eqn:Eb; reflect_bools.
  { exists sf. split_and!; [done|by apply cached_refl|]. apply hydrated_content; auto. }
  destruct (hydration_gaps_spec sf HI Eb) as (G1 & G2 & G3). destruct (inv_overlay _ HI Eb).
  rewrite ov_size0 in ov_max0.
  assert (Forall (fun j => 0 <= Start j < End j /\ End j <= Z.of_nat (length base)) (flat_map gap_jobs (hydration_gaps sf)) /\
          forall x, covers (hydration_gaps sf) x -> covers (flat_map gap_jobs (hydration_gaps sf)) x) as [J1 J2].
  { clear G1 G3. induction G2 as [|g gs Hg _ [IH1 IH2]]; cbn [flat_map]; [by split; [apply Forall_nil|]|].
    destruct (gap_jobs_spec g) as [K1 K2]; [lia|unfold MaxInt64 in *; lia|]. split.
    - apply Forall_app. split; [|done]. eapply Forall_impl; [exact K1|]. cbn. intros j. lia.
    - intros x. rewrite covers_cons, covers_app, K2. intros [?|?]; auto. }
  destruct (hydration_gaps sf) as [|gap gaps] eqn:Eg.
  { exists sf. split_and!; [done|by apply cached_refl|]. apply hydrated_content; auto. }
  destruct (run_jobs_spec (sched (flat_map gap_jobs (gap :: gaps))) sf) as (sf1 & -> & C1 & C2); [done..| |].
  { by rewrite Hp. }
  destruct (cached_frame _ _ C1) as (F1 & F2 & F3 & F4). rewrite F1. rewrite (proj2 (Z.eqb_neq _ _) Eb).
  assert (hydration_gaps sf1 = []) as Hno.
  { destruct (hydration_gaps_spec sf1) as (N1 & N2 & N3); [apply C1|congruence|].
    destruct (hydration_gaps sf1) as [|g gs]; [done|]. exfalso. apply Forall_cons in N2 as [N2 _].
    destruct (proj1 (N3 (Start g))) as [Nx Nl]; [apply covers_cons; left; unfold in_range; lia|].
    apply Nl. rewrite F4 in *. destruct (decide (local_at sf (Start g))) as [Hl|Hl]; [by apply (cached_later _ _ C1)|].
    apply C2; [|lia]. unfold covers. rewrite Hp. apply J2, G3. done. }
  rewrite Hno. exists sf1. split_and!; [done|done|]. apply hydrated_content; [apply C1|by right].
Qed.

End complete.

End content.

(** * Creation and recovery *)

Lemma created_inv base meta now :
  (Meta_BaseID meta = 0 -> Meta_BaseSize meta = 0 /\ base = []) ->
  Meta_BaseSize meta = Z.of_nat (length base) -> Z.of_nat (length base) <= MaxInt64 -> Meta_Dirty meta = [] ->
  Inv base (create_file meta now) /\ content base (create_file meta now) = base.
Proof.
  intros H0 Hs Hm Hd. unfold create_file. destruct (Meta_BaseID (new_meta meta now) =? 0) eqn:Eb; cbn in Eb; reflect_bools.
  - destruct (H0 Eb) as [Hz ->]. split; [constructor; cbn; rewrite ?Hz, ?Hd; done|]. unfold content. cbn. by rewrite Hz.
  - split.
    + constructor; cbn; rewrite ?Hd, ?length_f_truncate; try done; [lia|]. intros _.
      constructor; cbn; rewrite ?Hd; try done; try lia. intros x. by rewrite covers_nil.
    + apply content_lookup_eq; cbn; rewrite Hs, Nat2Z.id; [done|]. intros i Hi.
      rewrite content_at_base.
      * by destruct (lookup_lt_is_Some_2 base i Hi) as [? ->].
      * unfold local_at, covered. cbn. rewrite Hd, !covers_nil. lia.
Qed.

(** The offset is not written and stays inside the file during the calls. *)
Definition untouched (ops : list op) (i : nat) : Prop :=
  Forall (fun o => match o with
    | OpWrite offset data _ _ => ~ offset <= Z.of_nat i < offset + Z.of_nat (length data)
    | OpSetSize size _ _ => Z.of_nat i < size
    | _ => True
    end) ops.

Lemma untouched_effect o r (c : list byte) i :
  match o with
  | OpWrite offset data _ _ => is_u64 offset /\ ~ offset <= Z.of_nat i < offset + Z.of_nat (length data)
  | OpSetSize size _ _ => Z.of_nat i < size
  | _ => True
  end -> (i < length c)%nat -> effect o r c !! i = c !! i.
Proof.
  unfold is_u64. destruct o; try done; intros Ho Hi; destruct r; try done; cbn [effect].
  - case_decide; [done|]. rewrite lookup_f_write, decide_False by lia. case_decide; [|done].
    by destruct (lookup_lt_is_Some_2 c i Hi) as [? ->].
  - rewrite lookup_f_truncate, decide_True by lia. by destruct (lookup_lt_is_Some_2 c i Hi) as [? ->].
Qed.

Lemma untouched_content base ops sf i :
  Inv base sf -> Forall (op_ok base) ops -> untouched ops i -> (i < length (content base sf))%nat ->
  content base (run base ops sf) !! i = content base sf !! i.
Proof.
  intros HI Hok Hu Hi. destruct (run_spec base ops sf HI Hok) as (_ & -> & _).
  revert sf HI Hi. induction ops as [|o ops IH]; intros sf HI Hi; [done|]. cbn [run_effects].
  apply Forall_cons in Hok as [Ho Hok]. apply Forall_cons in Hu as [Hu1 Hu].
  pose proof (exec_spec base o sf HI Ho) as HE. destruct (exec base o sf) as [sf1 r]. destruct HE as (E1 & E2 & _).
  cbn [fst snd].
  assert (effect o r (content base sf) !! i = content base sf !! i) as He.
  { apply untouched_effect; [|done]. destruct o; try done. split; [apply Ho|done]. }
  rewrite <-E2 in *. rewrite <-He. apply IH; [done|done|done|].
  apply lookup_lt_is_Some. rewrite He. by apply lookup_lt_is_Some.
Qed.

(** The disk bytes of a file where they answer for its content. *)
Lemma local_disk base sf i :
  Inv base sf -> local_at sf (Z.of_nat i) -> (i < length (content base sf))%nat ->
  sf_f sf !! i = content base sf !! i.
Proof.
  intros [] Hl Hi. rewrite length_content in Hi. rewrite lookup_content, decide_True, content_at_local by done.
  by destruct (lookup_lt_is_Some_2 (sf_f sf) i) as [? ->]; [lia|].
Qed.

(** The sidecar [m] holds the data checkpoint of [sf]. *)
Definition checkpoint_of (m : Meta) (sf : LocalFile) : Prop :=
  Meta_Size m = sf_size sf /\ Meta_Dirty m = sf_dirty sf /\
  Meta_BaseID m = Meta_BaseID (sf_meta sf) /\ Meta_BaseSize m = Meta_BaseSize (sf_meta sf).

Lemma recovered_inv base sf m id f modTime :
  Inv base sf -> checkpoint_of m sf -> Z.of_nat (length f) <= MaxInt64 ->
  Inv base (recover_file id f modTime m).
Proof.
  intros [] (M1 & M2 & M3 & M4) Hlen. unfold recover_file.
  destruct (Meta_BaseID m =? 0) eqn:Eb; reflect_bools; constructor; cbn; rewrite ?M2, ?length_f_truncate; try done; try lia.
  intros Hb. rewrite M3 in Hb. destruct (inv_overlay0 Hb). constructor; cbn; rewrite ?M1, ?M2, ?M4; try done.
  intros x. by rewrite covers_nil.
Qed.

Lemma recovered_content base sf m id f modTime i :
  Inv base sf -> checkpoint_of m sf -> (i < length (content base sf))%nat ->
  (local_at sf (Z.of_nat i) -> f !! i = sf_f sf !! i) ->
  content base (recover_file id f modTime m) !! i = content base sf !! i.
Proof.
  intros HI (M1 & M2 & M3 & M4) Hi Hf. pose proof HI as []. rewrite length_content in Hi.
  destruct (lookup_lt_is_Some_2 (sf_f sf) i) as [b Hb]; [lia|].
  rewrite !lookup_content. rewrite (decide_True (P:=(i < Z.to_nat (sf_size sf))%nat)) by done.
  set (rf := recover_file id f modTime m).
  assert (forall x, local_at rf x <-> Meta_BaseID (sf_meta sf) = 0 \/ Meta_BaseSize (sf_meta sf) <= x \/ covers (sf_dirty sf) x) as Hrl.
  { intros x. unfold local_at, covered. cbn. rewrite M2, M3, M4, covers_nil. tauto. }
  assert (local_at sf (Z.of_nat i) -> default zero_byte (sf_f rf !! i) = b /\ (i < Z.to_nat (sf_size rf))%nat) as Hd.
  { intros Hl. specialize (Hf Hl). rewrite Hb in Hf. unfold rf. cbn. destruct (Meta_BaseID m =? 0).
    - rewrite Hf, Nat2Z.id. split; [done|]. by apply lookup_lt_Some in Hf.
    - rewrite M1, lookup_f_truncate, decide_True by done. by rewrite Hf. }
  assert ((i < Z.to_nat (sf_size rf))%nat) as Hsz.
  { unfold rf in *. cbn in *. destruct (Meta_BaseID m =? 0) eqn:E0; reflect_bools; [|by rewrite M1].
    apply Hd. left. congruence. }
  rewrite decide_True by done. f_equal.
  destruct (decide (local_at rf (Z.of_nat i))) as [Hl|Hl].
  - assert (local_at sf (Z.of_nat i)) as Hl' by (apply Hrl in Hl; unfold local_at, covered; tauto).
    rewrite (content_at_local _ rf), (content_at_local _ sf) by done. destruct (Hd Hl') as [-> _]. by rewrite Hb.
  - rewrite content_at_base by done. destruct (decide (local_at sf (Z.of_nat i))) as [Hl'|Hl'].
    + rewrite content_at_local by done. rewrite Hrl in Hl. unfold local_at, covered in Hl'.
      destruct Hl' as [?|[?|[?|Hh]]]; [tauto..|]. assert (Meta_BaseID (sf_meta sf) <> 0) as Hbz by tauto.
      destruct (inv_overlay0 Hbz). destruct (ov_hydrated0 _ Hh) as (_ & _ & _ & H4). rewrite Nat2Z.id in H4. by rewrite H4.
    + by rewrite content_at_base.
Qed.

(** * Readers of a base *)

(** A reader that returns what the base holds. *)
Definition plain_reader (base : list byte) : BaseReader := fun offset n =>
  let bs := f_read base (Z.to_nat offset) n in
  Ok (Z.of_nat (length bs), (length base <=? Z.to_nat offset + length bs)%nat, bs).

Lemma plain_reader_honest base : honest base (plain_reader base).
Proof.
  intros offset n count eof bs H0 [= <- <- <-] Hc. rewrite Nat2Z.id, take_ge by lia. split; [|done].
  unfold f_read. split; [lia|]. rewrite length_take, length_drop. split; [lia|]. intros k Hk.
  by rewrite lookup_take_lt, lookup_drop by lia.
Qed.

Lemma plain_reader_answers base : answers base (plain_reader base).
Proof.
  intros offset n H0 Hn Hl. eexists _, _, _. split; [done|].
  assert (length (f_read base (Z.to_nat offset) n) = n) as Hlen by (unfold f_read; rewrite length_take, length_drop; lia).
  rewrite Hlen. split; [lia|done].
Qed.

(** * Properties *)


Definition sample_base : list byte := [Byte.x01; Byte.x02; Byte.x03; Byte.x04].

(** A replacement of [sample_base] as the server creates it. *)
Definition sample_replacement : Meta :=
  {| Meta_DirID := 7; Meta_FileName := [Byte.x61]; Meta_TernCookie := replicate 8 Byte.x01;
     Meta_NFSStateID := replicate 12 Byte.x02; Meta_ClientID := 77; Meta_OpenOwner := [];
     Meta_OwnerKnown := false; Meta_RecoveryKey := replicate 32 Byte.x03; Meta_Unlinked := false;
     Meta_Guarded := false; Meta_Retired := false; Meta_ReadOnly := false; Meta_Exclusive := false;
     Meta_Verifier := replicate 8 Byte.x00; Meta_BaseID := 5; Meta_BaseSize := 4; Meta_Size := 4;
     Meta_Dirty := []; Meta_MetadataChanged := false; Meta_Attrs := mkNodeInfo 0 10 10 10 10;
     Meta_DataVersion := 0; Meta_Candidate := mkCandidate 0 (replicate 8 Byte.x00) 0; Meta_Version := MetaVersion |}.

Definition sample_file : LocalFile := create_file sample_replacement 100.

Lemma sample_file_inv : Inv sample_base sample_file /\ content sample_base sample_file = sample_base.
Proof. by apply created_inv. Qed.

(** Write two bytes past the end, shrink below the first write, grow again. *)
Definition sample_ops : list op :=
  [OpWrite 6 [Byte.x61; Byte.x62] 200 OsOk; OpCache 1 2 []; OpSetSize 3 300 OsOk; OpSetSize 5 400 OsOk].

Lemma sample_ops_ok : Forall (op_ok sample_base) sample_ops.
Proof.
  unfold sample_ops.
  repeat (apply Forall_cons; split; [cbn; unfold is_u64, MaxInt64; lia|]). by apply Forall_nil.
Qed.


(** A new staging starts as its base: a replacement reads as the file it
    replaces before anything is cached, and a new file is empty. *)
Theorem created_file_content (base : list byte) (meta : Meta) (now : time) :
  (Meta_BaseID meta = 0 -> Meta_BaseSize meta = 0 /\ base = []) ->
  Meta_BaseSize meta = Z.of_nat (length base) -> Z.of_nat (length base) <= MaxInt64 -> Meta_Dirty meta = [] ->
  Inv base (create_file meta now) /\ content base (create_file meta now) = base.
Proof. apply created_inv. Qed.

Lemma created_file_content_witness :
  content sample_base (create_file sample_replacement 100) = sample_base.
Proof. apply (created_file_content sample_base sample_replacement 100); done. Defined.

(** C10: a read is atomic although it reads the base without the lock: whatever
    calls run in between, what it returns is a segment of the content of the
    file at one moment of the call, the eof flag says whether that segment
    reaches the end at that moment, it never returns more than was asked for,
    and it is shorter only where the file ended. A reader that is honest about
    the immutable base is all it needs of the backend. *)
Theorem staged_read_linearizable (base : list byte) (sf sf' : LocalFile) (offset : Z) (n : nat)
    (readBase : option BaseReader) (mid : list op) (r r' : os_result) (ws : list (list write_result))
    (data : list byte) (eof : bool) :
  Inv base sf -> 0 <= offset -> (forall rd, readBase = Some rd -> honest base rd) -> Forall (op_ok base) mid ->
  Read sf offset n readBase (run base mid) r ws r' = (sf', Ok (data, eof)) ->
  Inv base sf' /\ (content base sf' = content base sf \/ content base sf' = content base (run base mid sf)) /\
  data = f_read (content base sf') (Z.to_nat offset) (length data) /\
  eof = (sf_size sf' <=? offset + Z.of_nat (length data)) /\ (length data <= n)%nat /\
  (length data = n \/ sf_size sf <= offset + Z.of_nat (length data) \/ sf_size sf' <= offset + Z.of_nat (length data)).
Proof. apply Read_spec. Qed.

Lemma staged_read_linearizable_witness :
  exists sf' data eof,
    Read sample_file 1 10 (Some (plain_reader sample_base)) (run sample_base sample_ops) OsOk [] OsOk = (sf', Ok (data, eof)) /\
    data = f_read (content sample_base sf') 1 (length data).
Proof.
  eexists _, _, _. split; [vm_compute; reflexivity|].
  apply (staged_read_linearizable sample_base sample_file _ 1 10 (Some (plain_reader sample_base)) sample_ops OsOk OsOk [] _ false).
  - apply sample_file_inv.
  - lia.
  - intros rd [= <-]. apply plain_reader_honest.
  - apply sample_ops_ok.
  - vm_compute. reflexivity.
Defined.

(** C33: background hydration terminates and finishes its work: from any state
    of an open file, with a base that answers, one round more than there are
    bytes missing is enough; afterwards the disk file holds the whole content,
    and the content has not changed. *)
Theorem hydration_terminates (base : list byte) (readBase : BaseReader) (sf : LocalFile) (rounds : nat) :
  honest base readBase -> answers base readBase ->
  Inv base sf -> sf_closed sf = false -> sf_removed sf = false -> (missing_count sf < rounds)%nat ->
  exists sf', hydrate rounds sf (Some readBase) (fun _ => false) = Some (sf', Ok tt) /\
    Inv base sf' /\ content base sf' = content base sf /\ sf_f sf' = content base sf.
Proof.
  intros Hh Ha HI Hc Hr Hm. destruct (hydrate_spec base readBase Hh Ha rounds sf HI Hc Hr Hm) as (sf' & H1 & H2 & H3).
  exists sf'. destruct H2. split_and!; [done..|congruence].
Qed.

Lemma hydration_terminates_witness :
  exists sf', hydrate 10 sample_file (Some (plain_reader sample_base)) (fun _ => false) = Some (sf', Ok tt) /\
    Inv sample_base sf' /\ content sample_base sf' = content sample_base sample_file /\
    sf_f sf' = content sample_base sample_file.
Proof.
  apply (hydration_terminates sample_base (plain_reader sample_base) sample_file 10);
    [apply plain_reader_honest|apply plain_reader_answers|apply sample_file_inv|done|done|vm_compute; lia].
Defined.

(** C32: finishing hydration before a publication makes the disk file equal to
    the content, in whatever order the workers complete their chunks; after
    one round over all gaps the second finds none. What CLOSE then publishes
    from the disk file is the staged content. *)
Theorem finish_hydration_complete (base : list byte) (readBase : BaseReader) (sf : LocalFile)
    (sched : list Range -> list Range) :
  honest base readBase -> answers base readBase ->
  Inv base sf -> sf_closed sf = false -> sf_removed sf = false -> (forall jobs, sched jobs ≡ₚ jobs) ->
  exists sf', FinishHydration 2 sf (Some readBase) sched = Some (sf', Ok tt) /\
    content base sf' = content base sf /\ sf_f sf' = content base sf.
Proof.
  intros Hh Ha HI Hc Hr Hp. unfold FinishHydration.
  assert (same_data sf (cancelHydrationLocked sf).1) as Hs by done.
  destruct (same_data_inv base _ _ Hs HI) as (I1 & I2 & _).
  destruct (finishHydration_spec base readBase Hh Ha sched _ I1 Hc Hr Hp) as (sf' & H1 & H2 & H3).
  exists sf'. destruct H2. split_and!; [done|congruence|congruence].
Qed.

Lemma finish_hydration_complete_witness :
  exists sf', FinishHydration 2 sample_file (Some (plain_reader sample_base)) (@reverse Range) = Some (sf', Ok tt) /\
    content sample_base sf' = content sample_base sample_file /\ sf_f sf' = content sample_base sample_file.
Proof.
  apply (finish_hydration_complete sample_base (plain_reader sample_base) sample_file (@reverse Range));
    [apply plain_reader_honest|apply plain_reader_answers|apply sample_file_inv|done|done|].
  intros jobs. apply reverse_Permutation.
Defined.

(** A restart keeps what was checkpointed. The bytes of the disk file that
    answer for the content at a checkpoint are not modified by later calls
    unless a write covers them or the file is cut below them, so a sync makes
    them permanent; and whatever the disk file holds elsewhere, the file
    recovered from the checkpoint's sidecar has, at every offset untouched
    since, the content of the checkpoint. *)
Theorem checkpoint_survives_restart (base : list byte) (sf : LocalFile) (ops : list op) (m : Meta) (id : Z)
    (f : list byte) (modTime : time) (i : nat) :
  Inv base sf -> Forall (op_ok base) ops -> checkpoint_of m sf -> untouched ops i -> (i < length (content base sf))%nat ->
  Z.of_nat (length f) <= MaxInt64 ->
  (local_at sf (Z.of_nat i) -> f !! i = sf_f (run base ops sf) !! i) ->
  (local_at sf (Z.of_nat i) -> sf_f (run base ops sf) !! i = sf_f sf !! i) /\
  Inv base (recover_file id f modTime m) /\
  content base (recover_file id f modTime m) !! i = content base sf !! i.
Proof.
  intros HI Hok Hm Hu Hi Hlen Hf. destruct (run_spec base ops sf HI Hok) as (R1 & _ & R3).
  pose proof (untouched_content base ops sf i HI Hok Hu Hi) as Hc.
  assert (local_at sf (Z.of_nat i) -> sf_f (run base ops sf) !! i = sf_f sf !! i) as Hd.
  { intros Hl. rewrite (local_disk base sf), <-Hc by done. apply local_disk; [done|by apply R3|].
    apply lookup_lt_is_Some. rewrite Hc. by apply lookup_lt_is_Some. }
  split_and!; [done|by apply (recovered_inv base sf)|]. apply recovered_content; [done..|]. intros Hl. rewrite Hf, Hd by done. done.
Qed.

Lemma checkpoint_survives_restart_witness :
  content sample_base (recover_file 9 (sf_f (run sample_base sample_ops sample_file)) 50 (sf_sidecar sample_file)) !! 1%nat
  = Some Byte.x02.
Proof.
  destruct (checkpoint_survives_restart sample_base sample_file sample_ops (sf_sidecar sample_file) 9
    (sf_f (run sample_base sample_ops sample_file)) 50 1) as (_ & _ & ->).
  - apply sample_file_inv.
  - apply sample_ops_ok.
  - done.
  - unfold untouched, sample_ops. repeat (apply Forall_cons; split; [cbn; lia|]). by apply Forall_nil.
  - vm_compute. lia.
  - vm_compute. intros H; discriminate H.
  - done.
  - reflexivity.
Defined.

(** A staged replacement that reports no data change reads exactly as its
    base, so dropping it on CLOSE loses nothing. *)
Theorem unchanged_is_base (base : list byte) (sf : LocalFile) :
  Inv base sf -> Meta_BaseID (sf_meta sf) <> 0 -> DataChanged sf = false -> content base sf = base.
Proof.
  intros HI Hb. unfold DataChanged. intros Hd. apply orb_false_iff in Hd as [Hd Hs].
  apply negb_false_iff, Nat.eqb_eq, nil_length_inv in Hd. reflect_bools.
  pose proof HI as []. destruct (inv_overlay0 Hb).
  apply content_lookup_eq; [lia|]. intros i Hi. destruct (lookup_lt_is_Some_2 base i) as [b Hbi]; [lia|]. rewrite Hbi.
  destruct (decide (local_at sf (Z.of_nat i))) as [Hl|Hl].
  - rewrite content_at_local by done. destruct Hl as [?|[?|[Hc|Hc]]]; [done|lia|by rewrite Hd, covers_nil in Hc|].
    destruct (ov_hydrated0 _ Hc) as (_ & _ & _ & H4). rewrite Nat2Z.id in H4. by rewrite H4, Hbi.
  - by rewrite content_at_base, Hbi.
Qed.

Lemma unchanged_is_base_witness : content sample_base sample_file = sample_base.
Proof. apply (unchanged_is_base sample_base sample_file); [apply sample_file_inv|done|done]. Defined.

(** The data version does not count every size change. A write that
    extends the file and then fails to write its bytes has already changed the
    size: the version stays the same, and Seal accepts it as unchanged. *)
Theorem failed_write_keeps_version :
  exists (sf sf' : LocalFile),
    Write sample_file 6 [Byte.x61] 200 OsOk (WriteFailed 0) = (sf, Err ErrIO) /\
    sf_size sf <> sf_size sample_file /\ sf_dataVersion sf = sf_dataVersion sample_file /\
    Seal sf (sf_dataVersion sample_file) = (sf', true) /\ DataChanged sf <> DataChanged sample_file.
Proof. eexists _, _. split; [vm_compute; reflexivity|]. vm_compute. repeat split; congruence. Qed.
