(* ===== verification/OpenState.v ===== *)
(** NFSv4.1 open state: src/go/nfsd/internal/openstate/state.go and store.go.

    The store keeps each open as a shared [State] object reached from two
    maps, by stateid and by owner and file. The model keeps the sharing: a
    heap of states, with pointers in both maps. A stateid is its 12 bytes as
    the big-endian words the code reads and writes, the epoch and the counter.
    Where Go iterates over a map, the order is an argument. *)

From Stdlib Require Import ZArith Lia.
From stdpp Require Import base numbers option strings gmap list.
From S2P Require Import Prelude.

(** * State *)

Definition StateID := (Z * Z)%type.
Definition zero_id : StateID := (0, 0).

Record OwnerKey := mkOwnerKey { ok_ClientID : Z; ok_Owner : string }.

#[export] Instance OwnerKey_eq_dec : EqDecision OwnerKey.
Proof. solve_decision. Defined.
#[export] Instance OwnerKey_countable : Countable OwnerKey.
Proof. by apply (inj_countable' (fun k => (ok_ClientID k, ok_Owner k)) (fun p => mkOwnerKey p.1 p.2)); intros []. Defined.

Definition NFS4_OK : Z := 0.
Definition NFS4ERR_INVAL : Z := 22.
Definition NFS4ERR_EXPIRED : Z := 10011.
Definition NFS4ERR_OLD_STATEID : Z := 10024.
Definition NFS4ERR_BAD_STATEID : Z := 10025.
Definition OPEN4_SHARE_ACCESS_WRITE : Z := 2.

Record State := mkState {
  st_ID : StateID;
  st_FileID : Z;
  st_DataID : Z;
  st_Owner : OwnerKey;
  st_Access : Z;
  st_modes : Z;
  st_denyModes : Z;
  st_Generation : Z;
  st_Recovered : bool;
  st_closing : bool;
  st_learnGeneration : bool;
  st_seq : Z }.

Record Grant := mkGrant { g_Access : Z; g_Deny : Z }.

Definition Writes (s : State) : bool := negb (Z.land (st_Access s) OPEN4_SHARE_ACCESS_WRITE =? 0).

(** The bit of a share value in a uint8 set: a shift from 8 on gives none. *)
Definition mode_bit (v : Z) : Z := wrap8 (Z.shiftl 1 v).

(** The union of the values of [set] that lie inside [within]. *)
Definition union_within (set within : Z) : Z :=
  fold_left (fun u v => if negb (Z.land set (Z.shiftl 1 v) =? 0) && (Z.ldiff v within =? 0) then Z.lor u v else u)
    [0; 1; 2; 3] 0.

#[global] Arguments mode_bit : simpl never.
#[global] Arguments union_within : simpl never.

Definition DowngradeStatus (s : State) (g : Grant) (recovered : bool) : Z :=
  if negb (Z.ldiff (g_Access g) (st_Access s) =? 0) || negb (Z.ldiff (g_Deny g) (union_within (st_denyModes s) 3) =? 0)
  then NFS4ERR_INVAL
  else if recovered then NFS4_OK
  else if negb (union_within (st_modes s) (g_Access g) =? g_Access g) || negb (union_within (st_denyModes s) (g_Deny g) =? g_Deny g)
  then NFS4ERR_INVAL
  else NFS4_OK.

(** The values of [set] outside [within] dropped. *)
Definition narrow_set (set within : Z) : Z :=
  fold_left (fun m v => if negb (Z.ldiff v within =? 0) then Z.ldiff m (Z.shiftl 1 v) else m) [0; 1; 2; 3] set.

#[global] Arguments narrow_set : simpl never.

Definition narrowLocked (g : Grant) (s : State) : State :=
  mkState (st_ID s) (st_FileID s) (st_DataID s) (st_Owner s) (g_Access g)
    (Z.lor (narrow_set (st_modes s) (g_Access g)) (mode_bit (g_Access g)))
    (Z.lor (narrow_set (st_denyModes s) (g_Deny g)) (mode_bit (g_Deny g)))
    (st_Generation s) (st_Recovered s) (st_closing s) (st_learnGeneration s) (st_seq s).

Definition NextGeneration (generation : Z) : Z :=
  let generation := wrap32 (generation + 1) in
  if generation =? 0 then 1 else generation.

#[global] Arguments NextGeneration : simpl never.

Definition learnGenerationLocked (generation : Z) (s : State) : State :=
  if st_learnGeneration s && negb (generation =? 0) then
    mkState (st_ID s) (st_FileID s) (st_DataID s) (st_Owner s) (st_Access s) (st_modes s) (st_denyModes s)
      generation (st_Recovered s) (st_closing s) false (st_seq s)
  else s.

Definition set_DataID (dataID : Z) (s : State) : State :=
  mkState (st_ID s) (st_FileID s) dataID (st_Owner s) (st_Access s) (st_modes s) (st_denyModes s)
    (st_Generation s) (st_Recovered s) (st_closing s) (st_learnGeneration s) (st_seq s).

Definition set_Generation (generation : Z) (s : State) : State :=
  mkState (st_ID s) (st_FileID s) (st_DataID s) (st_Owner s) (st_Access s) (st_modes s) (st_denyModes s)
    generation (st_Recovered s) (st_closing s) (st_learnGeneration s) (st_seq s).

Definition set_closing (s : State) : State :=
  mkState (st_ID s) (st_FileID s) (st_DataID s) (st_Owner s) (st_Access s) (st_modes s) (st_denyModes s)
    (st_Generation s) (st_Recovered s) true (st_learnGeneration s) (st_seq s).

(** * The store *)

Definition maxTombstones : nat := 1024.

Abbreviation openFileKey := (OwnerKey * Z)%type.
Abbreviation pointer := nat.

Record Store := mkStore {
  os_Epoch : Z;
  os_nextID : Z;
  os_nextSeq : Z;
  os_heap : gmap pointer State;
  os_fresh : pointer;
  os_states : gmap StateID pointer;
  os_byFile : gmap openFileKey pointer;
  os_expired : gmap StateID Z;
  os_expiredIDs : list StateID }.

(** NewStore for an epoch the random source gave; epochs 0 and 1 are drawn again. *)
Definition NewStore (epoch : Z) : Store := mkStore epoch 0 0 ∅ 0 ∅ ∅ ∅ [].

Definition set_heap (h : gmap pointer State) (os : Store) : Store :=
  mkStore (os_Epoch os) (os_nextID os) (os_nextSeq os) h (os_fresh os) (os_states os) (os_byFile os) (os_expired os) (os_expiredIDs os).
Definition set_nextSeq (n : Z) (os : Store) : Store :=
  mkStore (os_Epoch os) (os_nextID os) n (os_heap os) (os_fresh os) (os_states os) (os_byFile os) (os_expired os) (os_expiredIDs os).

(** Writing through a pointer. *)
Definition update (l : pointer) (f : State -> State) (os : Store) : Store := set_heap (alter f l (os_heap os)) os.

(** [os.states[id]], the pointer with what it points to. *)
Definition state_at (os : Store) (id : StateID) : option (pointer * State) :=
  l ← os_states os !! id; s ← os_heap os !! l; Some (l, s).

Definition file_at (os : Store) (key : openFileKey) : option (pointer * State) :=
  l ← os_byFile os !! key; s ← os_heap os !! l; Some (l, s).

Definition key_of (s : State) : openFileKey := (st_Owner s, st_FileID s).
#[global] Arguments key_of : simpl never.

Definition newStateIDLocked (os : Store) : Store * StateID :=
  let n := wrap64 (os_nextID os + 1) in
  (mkStore (os_Epoch os) n (os_nextSeq os) (os_heap os) (os_fresh os) (os_states os) (os_byFile os) (os_expired os) (os_expiredIDs os),
   (os_Epoch os, n)).

Definition markExpiredLocked (id : StateID) (owner : Z) (os : Store) : Store :=
  match os_expired os !! id with
  | Some _ => os
  | None =>
      let expired := <[id := owner]> (os_expired os) in
      let ids := os_expiredIDs os ++ [id] in
      let '(expired, ids) :=
        match ids with
        | oldest :: rest => if (maxTombstones <? length ids)%nat then (delete oldest expired, rest) else (expired, ids)
        | [] => (expired, ids)
        end in
      mkStore (os_Epoch os) (os_nextID os) (os_nextSeq os) (os_heap os) (os_fresh os) (os_states os) (os_byFile os) expired ids
  end.

Definition ExistingOpen (os : Store) (owner : OwnerKey) (fileID : Z) : option State := snd <$> file_at os (owner, fileID).

(** A new state object, in both maps. *)
Definition install (s : State) (os : Store) : Store :=
  mkStore (os_Epoch os) (os_nextID os) (os_nextSeq os) (<[os_fresh os := s]> (os_heap os)) (S (os_fresh os))
    (<[st_ID s := os_fresh os]> (os_states os)) (<[key_of s := os_fresh os]> (os_byFile os)) (os_expired os) (os_expiredIDs os).

(** What a repeated OPEN does to the open. *)
Definition reopen (dataID : Z) (g : Grant) (seq : Z) (s : State) : State :=
  let data := if negb (Z.land (g_Access g) OPEN4_SHARE_ACCESS_WRITE =? 0) && negb (Writes s) then dataID else st_DataID s in
  mkState (st_ID s) (st_FileID s) data (st_Owner s) (Z.lor (st_Access s) (g_Access g))
    (Z.lor (st_modes s) (mode_bit (g_Access g))) (Z.lor (st_denyModes s) (mode_bit (g_Deny g)))
    (NextGeneration (st_Generation s)) (st_Recovered s) false (st_learnGeneration s) seq.

Inductive open_error := ErrSlotOccupied.

Definition Open (os : Store) (owner : OwnerKey) (fileID dataID : Z) (g : Grant) (id : StateID) : Store * outcome open_error State :=
  let os := set_nextSeq (wrap64 (os_nextSeq os + 1)) os in
  match file_at os (owner, fileID) with
  | Some (l, s) =>
      let s := reopen dataID g (os_nextSeq os) s in
      (update l (fun _ => s) os, Ok s)
  | None =>
      let '(os, id) := if decide (id = zero_id) then newStateIDLocked os else (os, id) in
      match os_states os !! id with
      | Some _ => (os, Err ErrSlotOccupied)
      | None =>
          let s := mkState id fileID dataID owner (g_Access g) (mode_bit (g_Access g)) (mode_bit (g_Deny g)) 1 false false false (os_nextSeq os) in
          (install s os, Ok s)
      end
  end.

Definition OwnerOf (os : Store) (id : StateID) : option Z :=
  match state_at os id with
  | Some (_, s) => Some (ok_ClientID (st_Owner s))
  | None => os_expired os !! id
  end.

Definition Adoptable (os : Store) (owner : OwnerKey) (fileID : Z) (id : StateID) : bool :=
  bool_decide (os_states os !! id = None) && bool_decide (os_byFile os !! (owner, fileID) = None).

Definition Adopt (os : Store) (owner : OwnerKey) (fileID dataID : Z) (g : Grant) (id : StateID) (generation : Z) : Store * option State :=
  if negb (bool_decide (os_states os !! id = None)) || negb (bool_decide (os_byFile os !! (owner, fileID) = None)) then (os, None)
  else
    let os := set_nextSeq (wrap64 (os_nextSeq os + 1)) os in
    let s := mkState id fileID dataID owner (g_Access g) (mode_bit (g_Access g)) (mode_bit (g_Deny g)) generation true false (generation =? 0) (os_nextSeq os) in
    (install s os, Some s).

Definition unknownStateStatusLocked (os : Store) (clientID : Z) (id : StateID) : Z :=
  match os_expired os !! id with
  | Some owner => if owner =? clientID then NFS4ERR_EXPIRED else NFS4ERR_BAD_STATEID
  | None => NFS4ERR_BAD_STATEID
  end.

(** The check of a presented seqid against an open's generation. *)
Definition generation_status (s : State) (generation : Z) : Z :=
  if negb (generation =? 0) && (generation <? st_Generation s) then NFS4ERR_OLD_STATEID
  else if st_Generation s <? generation then NFS4ERR_BAD_STATEID
  else NFS4_OK.

Definition Lookup (os : Store) (clientID : Z) (id : StateID) (generation fileID : Z) : Store * (option State * Z) :=
  match state_at os id with
  | None => (os, (None, unknownStateStatusLocked os clientID id))
  | Some (l, s) =>
      if negb (ok_ClientID (st_Owner s) =? clientID) || negb (st_FileID s =? fileID) then (os, (None, NFS4ERR_BAD_STATEID))
      else
        let s := learnGenerationLocked generation s in
        let os := update l (fun _ => s) os in
        let status := generation_status s generation in
        (os, (if status =? NFS4_OK then Some s else None, status))
  end.

Definition Status (os : Store) (clientID : Z) (id : StateID) (generation : Z) : Store * Z :=
  match state_at os id with
  | None => (os, unknownStateStatusLocked os clientID id)
  | Some (l, s) =>
      if negb (ok_ClientID (st_Owner s) =? clientID) then (os, NFS4ERR_BAD_STATEID)
      else
        let s := learnGenerationLocked generation s in
        (update l (fun _ => s) os, generation_status s generation)
  end.

Definition Downgrade (os : Store) (id : StateID) (dataID : Z) (g : Grant) : Store * option State :=
  match state_at os id with
  | None => (os, None)
  | Some (l, s) =>
      let s := set_DataID dataID (narrowLocked g s) in
      let s := set_Generation (NextGeneration (st_Generation s)) s in
      (update l (fun _ => s) os, Some s)
  end.

Definition MarkClosing (os : Store) (id : StateID) : Store :=
  match os_states os !! id with
  | Some l => update l set_closing os
  | None => os
  end.

Definition Closing (os : Store) (id : StateID) : bool :=
  match state_at os id with Some (_, s) => st_closing s | None => false end.

Definition Live (os : Store) (id : StateID) : bool := bool_decide (is_Some (os_states os !! id)).

(** Removing an open from both maps; the second only if it is the same object. *)
Definition unlink (id : StateID) (l : pointer) (s : State) (os : Store) : Store :=
  mkStore (os_Epoch os) (os_nextID os) (os_nextSeq os) (os_heap os) (os_fresh os) (delete id (os_states os))
    (if decide (os_byFile os !! key_of s = Some l) then delete (key_of s) (os_byFile os) else os_byFile os)
    (os_expired os) (os_expiredIDs os).

Definition Close (os : Store) (id : StateID) : Store * option State :=
  match state_at os id with
  | None => (os, None)
  | Some (l, s) => (unlink id l s os, Some (set_Generation (NextGeneration (st_Generation s)) s))
  end.

Definition expireLocked (id : StateID) (os : Store) : Store :=
  match state_at os id with
  | None => os
  | Some (l, s) => markExpiredLocked id (ok_ClientID (st_Owner s)) (unlink id l s os)
  end.

Definition Expire (os : Store) (id : StateID) : Store := expireLocked id os.

(** The loops of ExpireWriters and ExpireClient: the opens with a property are
    expired, in the order [ids] of the map's entries, and returned. *)
Fixpoint expire_matching (os : Store) (p : StateID -> State -> bool) (ids : list StateID) : Store * list State :=
  match ids with
  | [] => (os, [])
  | id :: ids =>
      match state_at os id with
      | Some (_, s) =>
          if p id s then
            let '(os, expired) := expire_matching (expireLocked id os) p ids in (os, s :: expired)
          else expire_matching os p ids
      | None => expire_matching os p ids
      end
  end.

Definition ExpireWriters (os : Store) (dataID : Z) (id : StateID) (ids : list StateID) : Store * list State :=
  expire_matching os (fun other s => bool_decide (other <> id) && Writes s && (st_DataID s =? dataID)) ids.

(** Its loop body is that of expireLocked: the client is the open's owner. *)
Definition ExpireClient (os : Store) (clientID : Z) (ids : list StateID) : Store * list State :=
  if clientID =? 0 then (os, [])
  else expire_matching os (fun _ s => ok_ClientID (st_Owner s) =? clientID) ids.

Definition Forget (os : Store) (clientID : Z) (id : StateID) : Store * bool :=
  match os_expired os !! id with
  | Some owner =>
      if negb (owner =? clientID) then (os, false)
      else (mkStore (os_Epoch os) (os_nextID os) (os_nextSeq os) (os_heap os) (os_fresh os) (os_states os) (os_byFile os)
              (delete id (os_expired os)) (os_expiredIDs os), true)
  | None => (os, false)
  end.

Definition retarget (stagingID publishedID : Z) (s : State) : State :=
  if st_DataID s =? stagingID then set_DataID (if publishedID =? 0 then st_FileID s else publishedID) s else s.

Fixpoint Retarget (os : Store) (stagingID publishedID : Z) (ids : list StateID) : Store :=
  match ids with
  | [] => os
  | id :: ids =>
      match os_states os !! id with
      | Some l => Retarget (update l (retarget stagingID publishedID) os) stagingID publishedID ids
      | None => Retarget os stagingID publishedID ids
      end
  end.

(** The first open in the order [ids] with a property. *)
Fixpoint find_state (os : Store) (p : StateID -> State -> bool) (ids : list StateID) : option State :=
  match ids with
  | [] => None
  | id :: ids =>
      match state_at os id with
      | Some (_, s) => if p id s then Some s else find_state os p ids
      | None => find_state os p ids
      end
  end.

Fixpoint WriterOf (os : Store) (clientID fileID : Z) (keys : list openFileKey) : option State :=
  match keys with
  | [] => None
  | key :: keys =>
      match file_at os key with
      | Some (_, s) =>
          if (ok_ClientID key.1 =? clientID) && (key.2 =? fileID) && Writes s then Some s
          else WriterOf os clientID fileID keys
      | None => WriterOf os clientID fileID keys
      end
  end.

Definition OtherWriter (os : Store) (id : StateID) (dataID : Z) (ids : list StateID) : option State :=
  find_state os (fun other s => bool_decide (other <> id) && Writes s && (st_DataID s =? dataID) && negb (st_closing s)) ids.

Definition ReaderOf (os : Store) (dataID : Z) (id : StateID) (clientID : Z) (ids : list StateID) : option State :=
  find_state os (fun other s => bool_decide (other <> id) && (st_DataID s =? dataID) && negb (Writes s) && negb (st_closing s)
                                && (ok_ClientID (st_Owner s) =? clientID)) ids.

Definition Readers (os : Store) (dataID : Z) (id : StateID) (ids : list StateID) : bool :=
  match find_state os (fun other s => bool_decide (other <> id) && (st_DataID s =? dataID)) ids with Some _ => true | None => false end.

Definition CanRecover (os : Store) (id : StateID) : bool :=
  if bool_decide (is_Some (os_expired os !! id)) || bool_decide (is_Some (os_states os !! id)) then false
  else negb (id.1 =? os_Epoch os).

(** * Invariant *)

(** The share values an open was granted: they are in range, and the access is
    their union. *)
Definition state_wf (s : State) : Prop :=
  0 <= st_Access s <= 3 /\ 0 <= st_modes s < 16 /\ 0 <= st_denyModes s < 16 /\
  union_within (st_modes s) 3 = st_Access s /\
  is_u32 (st_Generation s) /\ (st_Generation s = 0 -> st_learnGeneration s = true).

Definition grant_ok (g : Grant) : Prop := 0 <= g_Access g <= 3 /\ 0 <= g_Deny g <= 3.

Record Inv (os : Store) : Prop := {
  inv_states : forall id l, os_states os !! id = Some l ->
    exists s, os_heap os !! l = Some s /\ st_ID s = id /\ os_byFile os !! key_of s = Some l /\ state_wf s;
  inv_files : forall k l, os_byFile os !! k = Some l ->
    exists s, os_heap os !! l = Some s /\ key_of s = k /\ os_states os !! st_ID s = Some l;
  inv_fresh : forall l, is_Some (os_heap os !! l) -> (l < os_fresh os)%nat;
  inv_bound : (length (os_expiredIDs os) <= maxTombstones)%nat;
  inv_expired : forall id, is_Some (os_expired os !! id) -> id ∈ os_expiredIDs os;
  inv_ids : forall id, is_Some (os_states os !! id) -> id.1 = os_Epoch os -> 0 <= id.2 <= os_nextID os;
  inv_next : 0 <= os_nextID os /\ os_Epoch os <> 0 }.

(** The opens by stateid, as values. *)
Definition view (os : Store) : gmap StateID State := omap (fun l => os_heap os !! l) (os_states os).

(** ** Facts on share values *)

Lemma mode_cases v : 0 <= v <= 3 -> v = 0 \/ v = 1 \/ v = 2 \/ v = 3.
Proof. lia. Qed.

Lemma set_cases m : 0 <= m < 16 -> In m (map Z.of_nat (seq 0 16)).
Proof. intros H. apply in_map_iff. exists (Z.to_nat m). rewrite in_seq. lia. Qed.

(** A finite check over a share value and a set of share values. *)
Definition all_sets (p : Z -> bool) : bool := forallb p (map Z.of_nat (seq 0 16)).
Definition all_values (p : Z -> bool) : bool := forallb p [0; 1; 2; 3].

Lemma all_sets_spec p m : all_sets p = true -> 0 <= m < 16 -> p m = true.
Proof. unfold all_sets. rewrite forallb_forall. intros H Hm. by apply H, set_cases. Qed.
Lemma all_values_spec p v : all_values p = true -> 0 <= v <= 3 -> p v = true.
Proof. unfold all_values. rewrite forallb_forall. intros H Hv. apply H.
  destruct (mode_cases v Hv) as [->|[->|[->| ->]]]; cbn; auto.
Qed.

Definition set_in_range (m : Z) : bool := (0 <=? m) && (m <? 16).

Lemma add_mode m v :
  0 <= m < 16 -> 0 <= v <= 3 ->
  0 <= Z.lor m (mode_bit v) < 16 /\ union_within (Z.lor m (mode_bit v)) 3 = Z.lor (union_within m 3) v.
Proof.
  intros Hm Hv.
  pose proof (all_values_spec _ _ (eq_refl : all_values (fun v => all_sets (fun m =>
    set_in_range (Z.lor m (mode_bit v)) && (union_within (Z.lor m (mode_bit v)) 3 =? Z.lor (union_within m 3) v))) = true) Hv) as H.
  apply (all_sets_spec _ _ H) in Hm. unfold set_in_range in Hm. reflect_bools. lia.
Qed.

Lemma union_bound m w : 0 <= m < 16 -> 0 <= w <= 3 -> 0 <= union_within m w <= 3.
Proof.
  intros Hm Hv.
  pose proof (all_values_spec _ _ (eq_refl : all_values (fun w => all_sets (fun m =>
    (0 <=? union_within m w) && (union_within m w <=? 3))) = true) Hv) as H.
  apply (all_sets_spec _ _ H) in Hm. reflect_bools. lia.
Qed.

Lemma lor_bound a b : 0 <= a <= 3 -> 0 <= b <= 3 -> 0 <= Z.lor a b <= 3.
Proof.
  intros Ha Hb. pose proof (mode_cases _ Ha). pose proof (mode_cases _ Hb). destruct_or!; subst; done.
Qed.

(** Narrowing a set to a value records the value and keeps what lies inside it. *)
Lemma narrow_mode m v :
  0 <= m < 16 -> 0 <= v <= 3 ->
  0 <= Z.lor (narrow_set m v) (mode_bit v) < 16 /\ union_within (Z.lor (narrow_set m v) (mode_bit v)) 3 = v /\
  (forall w, 0 <= w <= 3 -> Z.testbit (Z.lor (narrow_set m v) (mode_bit v)) w = true <->
     w = v \/ Z.testbit m w = true /\ Z.ldiff w v = 0).
Proof.
  intros Hm Hv.
  pose proof (all_values_spec _ _ (eq_refl : all_values (fun v => all_sets (fun m => all_values (fun w =>
    set_in_range (Z.lor (narrow_set m v) (mode_bit v)) && (union_within (Z.lor (narrow_set m v) (mode_bit v)) 3 =? v) &&
    Bool.eqb (Z.testbit (Z.lor (narrow_set m v) (mode_bit v)) w) ((w =? v) || Z.testbit m w && (Z.ldiff w v =? 0))))) = true) Hv) as H.
  pose proof (all_sets_spec _ _ H Hm) as H'. unfold set_in_range in H'.
  pose proof (all_values_spec _ 0 H' ltac:(lia)) as H0. cbv beta in H0. reflect_bools.
  split; [lia|]. split; [done|].
  intros w Hw. pose proof (all_values_spec _ w H' Hw) as Hw'. cbv beta in Hw'.
  apply andb_true_iff in Hw' as [_ ->%Bool.eqb_prop].
  rewrite orb_true_iff, andb_true_iff, !Z.eqb_eq. tauto.
Qed.

Lemma NextGeneration_spec g : is_u32 g -> is_u32 (NextGeneration g) /\ NextGeneration g <> 0.
Proof.
  unfold is_u32, NextGeneration, wrap32. intros H. pose proof (Z.mod_pos_bound (g + 1) (2 ^ 32) ltac:(lia)).
  destruct (_ =? 0) eqn:E; reflect_bools; lia.
Qed.

(** ** The two maps *)

Lemma view_lookup os id : view os !! id = snd <$> state_at os id.
Proof.
  unfold view, state_at. rewrite lookup_omap. destruct (os_states os !! id) as [l|]; cbn; [|done].
  by destruct (os_heap os !! l).
Qed.

Lemma state_at_Some os id l s :
  state_at os id = Some (l, s) <-> os_states os !! id = Some l /\ os_heap os !! l = Some s.
Proof.
  unfold state_at. destruct (os_states os !! id) as [l'|]; cbn; [|by split; [|intros []]].
  destruct (os_heap os !! l') eqn:E; cbn; (split; [by intros [= <- <-]|intros [[= <-] ?]; congruence]) ||
    (split; [done|intros [[= <-] ?]; congruence]).
Qed.

Lemma file_at_Some os k l s :
  file_at os k = Some (l, s) <-> os_byFile os !! k = Some l /\ os_heap os !! l = Some s.
Proof.
  unfold file_at. destruct (os_byFile os !! k) as [l'|]; cbn; [|by split; [|intros []]].
  destruct (os_heap os !! l') eqn:E; cbn; (split; [by intros [= <- <-]|intros [[= <-] ?]; congruence]) ||
    (split; [done|intros [[= <-] ?]; congruence]).
Qed.

Lemma state_at_None os id : Inv os -> state_at os id = None <-> os_states os !! id = None.
Proof.
  intros HI. unfold state_at. destruct (os_states os !! id) as [l|] eqn:E; cbn; [|done].
  destruct (inv_states _ HI _ _ E) as (s & -> & _). done.
Qed.

Lemma file_at_None os k : Inv os -> file_at os k = None <-> os_byFile os !! k = None.
Proof.
  intros HI. unfold file_at. destruct (os_byFile os !! k) as [l|] eqn:E; cbn; [|done].
  destruct (inv_files _ HI _ _ E) as (s & -> & _). done.
Qed.

(** A state is reached the same way from both maps. *)
Lemma file_at_state_at os k l s : Inv os -> file_at os k = Some (l, s) -> key_of s = k /\ state_at os (st_ID s) = Some (l, s).
Proof.
  intros HI [H1 H2]%file_at_Some. destruct (inv_files _ HI _ _ H1) as (s' & Hs & Hk & Hst). simplify_eq.
  split; [done|]. by apply state_at_Some.
Qed.

Lemma state_at_facts os id l s : Inv os -> state_at os id = Some (l, s) ->
  st_ID s = id /\ os_byFile os !! key_of s = Some l /\ state_wf s.
Proof.
  intros HI [H1 H2]%state_at_Some. destruct (inv_states _ HI _ _ H1) as (s' & ? & ? & ? & ?). by simplify_eq.
Qed.

(** Changing an open in place. *)
Lemma update_inv os id l s f :
  Inv os -> state_at os id = Some (l, s) -> st_ID (f s) = st_ID s -> key_of (f s) = key_of s -> state_wf (f s) ->
  Inv (update l f os) /\ view (update l f os) = <[id := f s]> (view os).
Proof.
  intros HI Hs Hid Hk Hwf. destruct (state_at_facts _ _ _ _ HI Hs) as (H1 & H2 & H3).
  apply state_at_Some in Hs as [Hs1 Hs2]. pose proof HI as [].
  assert (forall id' l', os_states os !! id' = Some l' -> l' = l -> id' = id) as Hinj.
  { intros id' l' Hl' ->. destruct (inv_states0 _ _ Hl') as (s' & ? & ? & _). by simplify_eq. }
  split.
  - constructor; cbn; try done.
    + intros id' l' Hl'. destruct (inv_states0 _ _ Hl') as (s' & E1 & E2 & E3 & E4).
      destruct (decide (l' = l)) as [->|Hne].
      * rewrite Hs2 in E1. injection E1 as <-. exists (f s). rewrite lookup_alter_eq, Hs2, Hk. split_and!; [done|congruence|done..].
      * exists s'. by rewrite lookup_alter_ne by done.
    + intros k l' Hl'. destruct (inv_files0 _ _ Hl') as (s' & E1 & E2 & E3).
      destruct (decide (l' = l)) as [->|Hne].
      * rewrite Hs2 in E1. injection E1 as <-. exists (f s). rewrite lookup_alter_eq, Hs2, Hk, Hid. done.
      * exists s'. by rewrite lookup_alter_ne by done.
    + intros l' Hl'. apply inv_fresh0. by rewrite lookup_alter_is_Some in Hl'.
  - apply map_eq. intros id'. unfold view. rewrite lookup_omap. cbn.
    destruct (decide (id' = id)) as [->|Hne].
    + rewrite lookup_insert_eq, Hs1. cbn. by rewrite lookup_alter_eq, Hs2.
    + rewrite lookup_insert_ne by done. rewrite lookup_omap. destruct (os_states os !! id') as [l'|] eqn:E; cbn; [|done].
      rewrite lookup_alter_ne; [done|]. intros <-. by destruct Hne; eapply Hinj.
Qed.

(** Adding an open. *)
Lemma install_inv os s :
  Inv os -> os_states os !! st_ID s = None -> os_byFile os !! key_of s = None -> state_wf s ->
  (st_ID s).1 <> os_Epoch os \/ 0 <= (st_ID s).2 <= os_nextID os ->
  Inv (install s os) /\ view (install s os) = <[st_ID s := s]> (view os).
Proof.
  intros HI H1 H2 Hwf Hid. pose proof HI as [].
  assert (os_heap os !! os_fresh os = None) as Hfresh.
  { destruct (os_heap os !! os_fresh os) eqn:E; [|done]. specialize (inv_fresh0 _ (ex_intro _ _ E)). lia. }
  split.
  - constructor; cbn; try done.
    + intros id l. destruct (decide (id = st_ID s)) as [->|Hne].
      * rewrite lookup_insert_eq. intros [= <-]. exists s. rewrite !lookup_insert_eq. done.
      * rewrite lookup_insert_ne by done. intros Hl. destruct (inv_states0 _ _ Hl) as (s' & E1 & E2 & E3 & E4).
        exists s'. rewrite lookup_insert_ne by congruence. rewrite lookup_insert_ne by congruence. done.
    + intros k l. destruct (decide (k = key_of s)) as [->|Hne].
      * rewrite lookup_insert_eq. intros [= <-]. exists s. rewrite !lookup_insert_eq. done.
      * rewrite lookup_insert_ne by done. intros Hl. destruct (inv_files0 _ _ Hl) as (s' & E1 & E2 & E3).
        exists s'. rewrite lookup_insert_ne by congruence. rewrite lookup_insert_ne by congruence. done.
    + intros l Hl. destruct (decide (l = os_fresh os)) as [->|Hne]; [lia|].
      rewrite lookup_insert_ne in Hl by done. specialize (inv_fresh0 _ Hl). lia.
    + intros id Hl He. destruct (decide (id = st_ID s)) as [->|Hne]; [destruct Hid; [done|lia]|].
      rewrite lookup_insert_ne in Hl by done. auto.
  - apply map_eq. intros id. unfold view. rewrite lookup_omap. cbn.
    destruct (decide (id = st_ID s)) as [->|Hne].
    + rewrite !lookup_insert_eq. cbn. by rewrite lookup_insert_eq.
    + rewrite !lookup_insert_ne by done. rewrite lookup_omap. destruct (os_states os !! id) as [l|] eqn:E; cbn; [|done].
      destruct (inv_states0 _ _ E) as (s' & E1 & _). rewrite lookup_insert_ne by congruence. done.
Qed.

(** Removing an open. *)
Lemma unlink_inv os id l s :
  Inv os -> state_at os id = Some (l, s) -> Inv (unlink id l s os) /\ view (unlink id l s os) = delete id (view os).
Proof.
  intros HI Hs. destruct (state_at_facts _ _ _ _ HI Hs) as (H1 & H2 & H3).
  apply state_at_Some in Hs as [Hs1 Hs2]. pose proof HI as []. unfold unlink. rewrite decide_True by done. split.
  - constructor; cbn; try done.
    + intros id' l' [Hne Hl']%lookup_delete_Some. destruct (inv_states0 _ _ Hl') as (s' & E1 & E2 & E3 & E4).
      exists s'. rewrite lookup_delete_ne; [done|]. intros Hk. rewrite Hk in H2. simplify_eq.
    + intros k l' [Hne Hl']%lookup_delete_Some. destruct (inv_files0 _ _ Hl') as (s' & E1 & E2 & E3).
      exists s'. rewrite lookup_delete_ne; [done|]. intros Hk. rewrite <-Hk in E3. simplify_eq.
    + intros id' [l' [Hne Hl']%lookup_delete_Some] He. eauto.
  - apply map_eq. intros id'. unfold view. rewrite lookup_omap. cbn.
    destruct (decide (id' = id)) as [->|Hne]; [by rewrite !lookup_delete_eq|].
    by rewrite !lookup_delete_ne, lookup_omap by done.
Qed.

Lemma markExpired_inv os id owner :
  Inv os -> Inv (markExpiredLocked id owner os) /\ view (markExpiredLocked id owner os) = view os /\
  os_states (markExpiredLocked id owner os) = os_states os /\ os_heap (markExpiredLocked id owner os) = os_heap os.
Proof.
  intros HI. unfold markExpiredLocked. destruct (os_expired os !! id) eqn:E; [done|]. pose proof HI as [].
  destruct (os_expiredIDs os ++ [id]) as [|oldest rest] eqn:Ei; [by destruct (os_expiredIDs os)|].
  assert (forall i, is_Some (<[id:=owner]> (os_expired os) !! i) -> i ∈ oldest :: rest) as Hin.
  { intros i. rewrite lookup_insert_is_Some, <-Ei, elem_of_app, list_elem_of_singleton. intros [->|[_ H]]; auto. }
  pose proof (f_equal length Ei) as Hl. rewrite length_app in Hl. cbn [length] in *.
  destruct (_ <? _)%nat eqn:El.
  - split; [|done]. constructor; cbn; try done; [lia|].
    intros i [o [Hne Ho]%lookup_delete_Some]. specialize (Hin i (ex_intro _ _ Ho)).
    apply elem_of_cons in Hin as [->|]; [congruence|done].
  - apply Nat.ltb_ge in El. split; [|done]. constructor; cbn; try done.
Qed.

(** ** Operations *)

Lemma set_nextSeq_inv os n : Inv os -> Inv (set_nextSeq n os).
Proof. intros []. by constructor. Qed.

Lemma newStateID_inv os :
  Inv os -> os_nextID os + 1 < 2 ^ 64 ->
  let '(os', id) := newStateIDLocked os in
  Inv os' /\ view os' = view os /\ os_states os !! id = None /\ id <> zero_id /\
  id = (os_Epoch os, os_nextID os + 1) /\ os_nextID os' = os_nextID os + 1.
Proof.
  intros [] Hn. cbn. unfold wrap64. destruct inv_next0 as [Hp He]. rewrite Z.mod_small by lia. split_and!; try done.
  - constructor; cbn; try done; [|split; [lia|done]]. intros id H1 H2. specialize (inv_ids0 id H1 H2). lia.
  - destruct (os_states os !! _) eqn:E; [|done]. specialize (inv_ids0 _ (ex_intro _ _ E) eq_refl). cbn in inv_ids0. lia.
  - intros [= ? ?]. done.
Qed.

Lemma mode_bit_wf v : 0 <= v <= 3 -> 0 <= mode_bit v < 16 /\ union_within (mode_bit v) 3 = v.
Proof. intros H. destruct (add_mode 0 v) as [H1 H2]; [lia|done|]. by rewrite Z.lor_0_l in H1, H2. Qed.

Lemma reopen_wf dataID g seq s : grant_ok g -> state_wf s -> state_wf (reopen dataID g seq s).
Proof.
  intros [G1 G2] (S1 & S2 & S3 & S4 & S5 & S6). unfold state_wf. cbn.
  destruct (add_mode (st_modes s) (g_Access g)) as [A1 A2]; [done..|].
  destruct (add_mode (st_denyModes s) (g_Deny g)) as [D1 D2]; [done..|].
  destruct (NextGeneration_spec (st_Generation s) S5) as [N1 N2].
  pose proof (lor_bound _ _ S1 G1). unfold is_u32 in *. split_and!; lia || (intros; congruence) || done.
Qed.

Lemma new_state_wf id fileID dataID owner g gen rec seq :
  grant_ok g -> is_u32 gen -> state_wf (mkState id fileID dataID owner (g_Access g) (mode_bit (g_Access g)) (mode_bit (g_Deny g)) gen rec false (gen =? 0) seq).
Proof.
  intros [G1 G2] Hg. destruct (mode_bit_wf (g_Access g) G1), (mode_bit_wf (g_Deny g) G2). unfold state_wf. cbn.
  split_and!; try lia; try done; try apply Hg.
Qed.

Definition id_known (os : Store) (id : StateID) : Prop := id.1 <> os_Epoch os \/ 0 <= id.2 <= os_nextID os.

Lemma Open_spec os owner fileID dataID g id :
  Inv os -> grant_ok g -> id_known os id -> os_nextID os + 1 < 2 ^ 64 ->
  let '(os', r) := Open os owner fileID dataID g id in
  Inv os' /\
  match ExistingOpen os owner fileID, r with
  | Some s, Ok s' => s' = reopen dataID g (wrap64 (os_nextSeq os + 1)) s /\ view os' = <[st_ID s := s']> (view os)
  | None, Ok s' => view os !! st_ID s' = None /\ view os' = <[st_ID s' := s']> (view os) /\
      key_of s' = (owner, fileID) /\ st_Generation s' = 1 /\ (id <> zero_id -> st_ID s' = id)
  | None, Err _ => id <> zero_id /\ is_Some (view os !! id) /\ view os' = view os
  | _, _ => False
  end.
Proof.
  intros HI Hg Hid Hn. unfold Open, ExistingOpen. cbv zeta.
  pose proof (set_nextSeq_inv os (wrap64 (os_nextSeq os + 1)) HI) as HI1. set (os1 := set_nextSeq _ os) in *.
  change (file_at os (owner, fileID)) with (file_at os1 (owner, fileID)).
  destruct (file_at os1 (owner, fileID)) as [[l s]|] eqn:Ef.
  - destruct (file_at_state_at _ _ _ _ HI1 Ef) as [Hk Hs]. destruct (state_at_facts _ _ _ _ HI1 Hs) as (F1 & F2 & F3).
    destruct (update_inv os1 _ _ _ (fun _ => reopen dataID g (os_nextSeq os1) s) HI1 Hs) as [U1 U2];
      [done|done|by apply reopen_wf|]. done.
  - apply file_at_None in Ef; [|done]. cbn.
    assert (forall os2 id2, Inv os2 -> view os2 = view os -> os_states os2 !! id2 = None -> os_byFile os2 = os_byFile os1 ->
      id_known os2 id2 -> (id <> zero_id -> id2 = id) ->
      let s := mkState id2 fileID dataID owner (g_Access g) (mode_bit (g_Access g)) (mode_bit (g_Deny g)) 1 false false false (os_nextSeq os2) in
      Inv (install s os2) /\ view os !! st_ID s = None /\ view (install s os2) = <[st_ID s := s]> (view os) /\
      key_of s = (owner, fileID) /\ st_Generation s = 1 /\ (id <> zero_id -> st_ID s = id)) as Hins.
    { intros os2 id2 I2 V2 N2 B2 K2 E2 s. destruct (install_inv os2 s) as [J1 J2]; [done|done|by rewrite B2| |done|].
      - apply (new_state_wf id2 fileID dataID owner g 1 false (os_nextSeq os2) Hg). done.
      - rewrite V2 in J2. split_and!; try done. change (st_ID s) with id2. rewrite <-V2, view_lookup. by rewrite (proj2 (state_at_None _ _ I2) N2). }
    case_decide as Hz.
    + pose proof (newStateID_inv os1 HI1 Hn) as HN. destruct (newStateIDLocked os1) as [os2 id2] eqn:E2.
      destruct HN as (N1 & N2 & N3 & N4 & N5 & N6).
      replace (os_states os2) with (os_states os1) by (unfold newStateIDLocked in E2; by simplify_eq).
      rewrite N3. destruct (Hins os2 id2) as (J1 & J2); try done.
      * unfold newStateIDLocked in E2. by simplify_eq.
      * unfold newStateIDLocked in E2. by simplify_eq.
      * right. subst id2. cbn. destruct (inv_next _ HI). cbn in N6. lia.
    + destruct (os_states os1 !! id) as [l|] eqn:El.
      * split; [done|]. split; [done|]. rewrite view_lookup. split; [|done]. change (os_states os1) with (os_states os) in El.
        destruct (inv_states _ HI _ _ El) as (s & Hs & _). exists s.
        by rewrite (proj2 (state_at_Some os id l s) (conj El Hs)).
      * by destruct (Hins os1 id) as (J1 & J2).
Qed.

Lemma Adopt_spec os owner fileID dataID g id generation :
  Inv os -> grant_ok g -> id_known os id -> is_u32 generation ->
  let '(os', r) := Adopt os owner fileID dataID g id generation in
  Inv os' /\
  match r with
  | Some s => Adoptable os owner fileID id = true /\ view os !! id = None /\ ExistingOpen os owner fileID = None /\
      st_ID s = id /\ key_of s = (owner, fileID) /\ st_Recovered s = true /\ view os' = <[id := s]> (view os)
  | None => Adoptable os owner fileID id = false /\ os' = os
  end.
Proof.
  intros HI Hg Hid Hgen. unfold Adopt, Adoptable.
  destruct (bool_decide_reflect (os_states os !! id = None)) as [H1|H1]; [|done].
  destruct (bool_decide_reflect (os_byFile os !! (owner, fileID) = None)) as [H2|H2]; [|done]. cbn [negb orb].
  match goal with |- context [install ?s ?o] => destruct (install_inv o s) as [J1 J2] end; try done.
  - by apply set_nextSeq_inv.
  - by apply new_state_wf.
  - split; [done|]. split_and!; try done.
    + rewrite view_lookup. by rewrite (proj2 (state_at_None _ _ HI) H1).
    + unfold ExistingOpen. by rewrite (proj2 (file_at_None _ _ HI) H2).
Qed.

Lemma learn_facts generation s :
  st_ID (learnGenerationLocked generation s) = st_ID s /\ key_of (learnGenerationLocked generation s) = key_of s.
Proof. unfold learnGenerationLocked. by destruct (_ && _). Qed.

Lemma learn_wf generation s : is_u32 generation -> state_wf s -> state_wf (learnGenerationLocked generation s).
Proof.
  intros Hg Hs. unfold learnGenerationLocked. destruct (_ && _) eqn:E; [|done]. reflect_bools.
  destruct Hs as (S1 & S2 & S3 & S4 & S5 & S6). unfold state_wf, is_u32 in *. cbn. split_and!; done || lia.
Qed.

Lemma Lookup_inv os clientID id generation fileID :
  Inv os -> is_u32 generation -> Inv (Lookup os clientID id generation fileID).1.
Proof.
  intros HI Hg. unfold Lookup. destruct (state_at os id) as [[l s]|] eqn:E; [|done].
  destruct (_ || _); [done|]. destruct (state_at_facts _ _ _ _ HI E) as (F1 & F2 & F3). destruct (learn_facts generation s).
  apply (update_inv os id l s (fun _ => learnGenerationLocked generation s)); [done..|by apply learn_wf].
Qed.

Lemma Status_inv os clientID id generation :
  Inv os -> is_u32 generation -> Inv (Status os clientID id generation).1.
Proof.
  intros HI Hg. unfold Status. destruct (state_at os id) as [[l s]|] eqn:E; [|done].
  destruct (negb _); [done|]. destruct (state_at_facts _ _ _ _ HI E) as (F1 & F2 & F3). destruct (learn_facts generation s).
  apply (update_inv os id l s (fun _ => learnGenerationLocked generation s)); [done..|by apply learn_wf].
Qed.

Lemma downgrade_wf dataID g s :
  grant_ok g -> state_wf s ->
  state_wf (set_Generation (NextGeneration (st_Generation s)) (set_DataID dataID (narrowLocked g s))).
Proof.
  intros [G1 G2] (S1 & S2 & S3 & S4 & S5 & S6). unfold state_wf. cbn.
  destruct (narrow_mode (st_modes s) (g_Access g)) as (A1 & A2 & _); [done..|].
  destruct (narrow_mode (st_denyModes s) (g_Deny g)) as (D1 & _); [done..|].
  destruct (NextGeneration_spec (st_Generation s) S5) as [N1 N2].
  unfold is_u32 in *. split_and!; lia || (intros; congruence) || done.
Qed.

Lemma Downgrade_spec os id dataID g :
  Inv os -> grant_ok g ->
  let '(os', r) := Downgrade os id dataID g in
  Inv os' /\
  match view os !! id, r with
  | Some s, Some s' => s' = set_Generation (NextGeneration (st_Generation s)) (set_DataID dataID (narrowLocked g s)) /\
      view os' = <[id := s']> (view os)
  | None, None => os' = os
  | _, _ => False
  end.
Proof.
  intros HI Hg. rewrite view_lookup. unfold Downgrade. destruct (state_at os id) as [[l s]|] eqn:E; [|done]. cbn [snd fmap option_fmap option_map].
  destruct (state_at_facts _ _ _ _ HI E) as (F1 & F2 & F3).
  match goal with |- context [update l ?f os] => destruct (update_inv os id l s f HI E) as [U1 U2] end;
    [done|done|exact (downgrade_wf dataID g s Hg F3)|]. done.
Qed.

Lemma MarkClosing_spec os id : Inv os -> Inv (MarkClosing os id) /\ view (MarkClosing os id) = alter set_closing id (view os).
Proof.
  intros HI. unfold MarkClosing. destruct (os_states os !! id) as [l|] eqn:E.
  - destruct (inv_states _ HI _ _ E) as (s & H1 & H2 & H3 & H4).
    assert (state_at os id = Some (l, s)) as Hs by by apply state_at_Some.
    destruct (update_inv os id l s set_closing HI Hs) as [U1 U2]; [done..|]. split; [done|]. rewrite U2.
    apply map_eq. intros id'. destruct (decide (id' = id)) as [->|Hne].
    + by rewrite lookup_insert_eq, lookup_alter_eq, view_lookup, Hs.
    + by rewrite lookup_insert_ne, lookup_alter_ne by done.
  - split; [done|]. apply map_eq. intros id'. destruct (decide (id' = id)) as [->|Hne].
    + rewrite lookup_alter_eq, view_lookup. by rewrite (proj2 (state_at_None _ _ HI) E).
    + by rewrite lookup_alter_ne by done.
Qed.

Lemma Close_spec os id :
  Inv os ->
  let '(os', r) := Close os id in
  Inv os' /\ view os' = delete id (view os) /\ os_expired os' = os_expired os /\
  r = (fun s => set_Generation (NextGeneration (st_Generation s)) s) <$> view os !! id.
Proof.
  intros HI. rewrite view_lookup. unfold Close. destruct (state_at os id) as [[l s]|] eqn:E.
  - destruct (unlink_inv os id l s HI E) as [U1 U2]. done.
  - split_and!; try done. symmetry. apply delete_id. by rewrite view_lookup, E.
Qed.

Lemma expireLocked_spec os id :
  Inv os -> Inv (expireLocked id os) /\ view (expireLocked id os) = delete id (view os).
Proof.
  intros HI. unfold expireLocked. destruct (state_at os id) as [[l s]|] eqn:E.
  - destruct (unlink_inv os id l s HI E) as [U1 U2]. destruct (markExpired_inv _ id (ok_ClientID (st_Owner s)) U1) as (M1 & M2 & _).
    by rewrite M2.
  - split; [done|]. symmetry. apply delete_id. by rewrite view_lookup, E.
Qed.

Lemma expire_matching_spec os p ids :
  Inv os ->
  let '(os', expired) := expire_matching os p ids in
  Inv os' /\ forall j, view os' !! j =
    match view os !! j with
    | Some s => if bool_decide (j ∈ ids) && p j s then None else Some s
    | None => None
    end.
Proof.
  revert os. induction ids as [|i ids IH]; intros os HI; cbn [expire_matching].
  { split; [done|]. intros j. by destruct (view os !! j). }
  pose proof (view_lookup os i) as Hv. destruct (state_at os i) as [[l s]|] eqn:E; cbn in Hv.
  - destruct (p i s) eqn:Ep.
    + destruct (expireLocked_spec os i HI) as [E1 E2]. specialize (IH _ E1).
      destruct (expire_matching (expireLocked i os) p ids) as [os' expired]. destruct IH as [I1 I2]. split; [done|].
      intros j. rewrite I2, E2. destruct (decide (j = i)) as [->|Hne].
      * rewrite lookup_delete_eq, Hv, Ep. rewrite bool_decide_eq_true_2 by (by left). done.
      * rewrite lookup_delete_ne by done. destruct (view os !! j); [|done].
        by rewrite (bool_decide_ext (j ∈ i :: ids) (j ∈ ids)) by (rewrite elem_of_cons; tauto).
    + specialize (IH _ HI). destruct (expire_matching os p ids) as [os' expired]. destruct IH as [I1 I2]. split; [done|].
      intros j. rewrite I2. destruct (decide (j = i)) as [->|Hne].
      * rewrite Hv, Ep. by rewrite !andb_false_r.
      * destruct (view os !! j); [|done].
        by rewrite (bool_decide_ext (j ∈ i :: ids) (j ∈ ids)) by (rewrite elem_of_cons; tauto).
  - specialize (IH _ HI). destruct (expire_matching os p ids) as [os' expired]. destruct IH as [I1 I2]. split; [done|].
    intros j. rewrite I2. destruct (decide (j = i)) as [->|Hne]; [by rewrite Hv|].
    destruct (view os !! j); [|done].
    by rewrite (bool_decide_ext (j ∈ i :: ids) (j ∈ ids)) by (rewrite elem_of_cons; tauto).
Qed.

Lemma retarget_facts st pub s : st_ID (retarget st pub s) = st_ID s /\ key_of (retarget st pub s) = key_of s /\
  (state_wf s -> state_wf (retarget st pub s)).
Proof. unfold retarget. by destruct (_ =? _). Qed.

Lemma retarget_idem st pub s : pub <> st -> st_FileID s <> st -> retarget st pub (retarget st pub s) = retarget st pub s.
Proof.
  intros H1 H2. unfold retarget. destruct (st_DataID s =? st) eqn:E; [|by rewrite E]. cbn.
  destruct (pub =? 0); by rewrite (proj2 (Z.eqb_neq _ _)).
Qed.

Lemma Retarget_spec os st pub ids :
  Inv os -> NoDup ids ->
  Inv (Retarget os st pub ids) /\ forall j, view (Retarget os st pub ids) !! j =
    (fun s => if bool_decide (j ∈ ids) then retarget st pub s else s) <$> view os !! j.
Proof.
  revert os. induction ids as [|i ids IH]; intros os HI Hnd; cbn [Retarget].
  { split; [done|]. intros j. by destruct (view os !! j). }
  apply NoDup_cons in Hnd as [Hni Hnd].
  assert (forall j, j <> i -> bool_decide (j ∈ i :: ids) = bool_decide (j ∈ ids)) as Hb
    by (intros j Hne; apply bool_decide_ext; rewrite elem_of_cons; tauto).
  destruct (os_states os !! i) as [l|] eqn:E.
  - destruct (inv_states _ HI _ _ E) as (s & H1 & H2 & H3 & H4).
    assert (state_at os i = Some (l, s)) as Hs by by apply state_at_Some. destruct (retarget_facts st pub s) as (R1 & R2 & R3).
    destruct (update_inv os i l s (retarget st pub) HI Hs) as [U1 U2]; [done|done|auto|].
    destruct (IH _ U1 Hnd) as [I1 I2]. split; [done|]. intros j. rewrite I2, U2. destruct (decide (j = i)) as [->|Hne].
    + rewrite lookup_insert_eq, view_lookup, Hs. cbn. rewrite bool_decide_eq_false_2 by done.
      by rewrite bool_decide_eq_true_2 by (by left).
    + rewrite lookup_insert_ne by done. by rewrite Hb.
  - destruct (IH _ HI Hnd) as [I1 I2]. split; [done|]. intros j. rewrite I2. destruct (decide (j = i)) as [->|Hne].
    + rewrite view_lookup. by rewrite (proj2 (state_at_None _ _ HI) E).
    + by rewrite Hb.
Qed.

Lemma Forget_inv os clientID id : Inv os -> Inv (Forget os clientID id).1 /\ view (Forget os clientID id).1 = view os.
Proof.
  intros HI. unfold Forget. destruct (os_expired os !! id) as [o|] eqn:E; [|done]. destruct (negb _); [done|].
  split; [|done]. destruct HI. constructor; cbn; try done. intros i [? [_ Hi]%lookup_delete_Some]. eauto.
Qed.

(** ** Share values as unions *)

(** A set of share values records a value. *)
Definition recorded (set v : Z) : Prop := 0 <= v <= 3 /\ Z.land set (mode_bit v) <> 0.

(** The union of a list of share values, and the set that records them. *)
Definition lor_all (vs : list Z) : Z := fold_right Z.lor 0 vs.
Definition set_of (vs : list Z) : Z := fold_right (fun v m => Z.lor m (mode_bit v)) 0 vs.

Lemma set_of_spec set vs :
  0 <= set < 16 -> Forall (recorded set) vs ->
  0 <= set_of vs < 16 /\ union_within (set_of vs) 3 = lor_all vs /\ Z.ldiff (set_of vs) set = 0.
Proof.
  intros Hset. induction vs as [|v vs IH]; intros Hr; cbn [set_of lor_all fold_right]; [done|].
  apply Forall_cons in Hr as [[Hv1 Hv2] Hr]. destruct (IH Hr) as (I1 & I2 & I3). fold (set_of vs) (lor_all vs) in *.
  destruct (add_mode (set_of vs) v I1 Hv1) as [A1 A2]. split; [done|]. split.
  - rewrite A2, I2. apply Z.lor_comm.
  - revert Hv1 Hv2 I3. revert I1 Hset. generalize (set_of vs) as m. intros m I1 Hset Hv1 Hv2 I3.
    pose proof (all_values_spec _ _ (eq_refl : all_values (fun v => all_sets (fun m => all_sets (fun set =>
      (Z.land set (mode_bit v) =? 0) || negb (Z.ldiff m set =? 0) || (Z.ldiff (Z.lor m (mode_bit v)) set =? 0)))) = true) Hv1) as H.
    apply (all_sets_spec _ _ H) in I1. apply (all_sets_spec _ _ I1) in Hset. cbv beta in Hset.
    rewrite I3 in Hset. cbn in Hset. apply orb_true_iff in Hset as [Hset|Hset]; [|by apply Z.eqb_eq].
    rewrite orb_false_r in Hset. by apply Z.eqb_eq in Hset.
Qed.

(** A value is its own union inside a set exactly when it is the union of
    values the set records. *)
Lemma union_within_iff set w :
  0 <= set < 16 -> 0 <= w <= 3 ->
  union_within set w = w <-> exists vs, Forall (recorded set) vs /\ lor_all vs = w.
Proof.
  intros Hset Hw. split.
  - intros Hu. exists (filter (fun v => Z.land set (mode_bit v) <> 0 /\ Z.ldiff v w = 0) [0; 1; 2; 3]). split.
    + apply Forall_forall. intros v [[H1 _] H2]%list_elem_of_filter. split; [|done].
      rewrite !elem_of_cons in H2. destruct H2 as [->|[->|[->|[->|H2]]]]; try lia. by apply not_elem_of_nil in H2.
    + etransitivity; [|exact Hu]. clear Hu.
      pose proof (all_values_spec _ _ (eq_refl : all_values (fun w => all_sets (fun set =>
        lor_all (filter (fun v => Z.land set (mode_bit v) <> 0 /\ Z.ldiff v w = 0) [0; 1; 2; 3]) =? union_within set w)) = true) Hw) as H.
      apply (all_sets_spec _ _ H) in Hset. by apply Z.eqb_eq in Hset.
  - intros (vs & Hr & <-). destruct (set_of_spec set vs Hset Hr) as (S1 & <- & S3).
    revert S1 S3. generalize (set_of vs) as m. intros m S1 S3.
    pose proof (all_sets_spec _ _ (eq_refl : all_sets (fun m => all_sets (fun set =>
      negb (Z.ldiff m set =? 0) || (union_within set (union_within m 3) =? union_within m 3))) = true) S1) as H.
    apply (all_sets_spec _ _ H) in Hset. rewrite S3 in Hset. by apply Z.eqb_eq in Hset.
Qed.

(** ** Steps of the store *)

Inductive step : Store -> Store -> Prop :=
| step_new_id os : os_nextID os + 1 < 2 ^ 64 -> step os (newStateIDLocked os).1
| step_open os owner fileID dataID g id :
    grant_ok g -> id_known os id -> os_nextID os + 1 < 2 ^ 64 -> step os (Open os owner fileID dataID g id).1
| step_adopt os owner fileID dataID g id generation :
    grant_ok g -> id_known os id -> is_u32 generation -> step os (Adopt os owner fileID dataID g id generation).1
| step_lookup os clientID id generation fileID : is_u32 generation -> step os (Lookup os clientID id generation fileID).1
| step_status os clientID id generation : is_u32 generation -> step os (Status os clientID id generation).1
| step_downgrade os id dataID g : grant_ok g -> step os (Downgrade os id dataID g).1
| step_closing os id : step os (MarkClosing os id)
| step_close os id : step os (Close os id).1
| step_expire os id : step os (Expire os id)
| step_expire_writers os dataID id ids : step os (ExpireWriters os dataID id ids).1
| step_expire_client os clientID ids : step os (ExpireClient os clientID ids).1
| step_forget os clientID id : step os (Forget os clientID id).1
| step_retarget os stagingID publishedID ids : NoDup ids -> step os (Retarget os stagingID publishedID ids).

Lemma step_inv os os' : step os os' -> Inv os -> Inv os'.
Proof.
  intros Hs HI. destruct Hs.
  - pose proof (newStateID_inv os HI H) as HN. destruct (newStateIDLocked os) as [os' id]. apply HN.
  - pose proof (Open_spec os owner fileID dataID g id HI H H0 H1) as HO. destruct (Open os owner fileID dataID g id). apply HO.
  - pose proof (Adopt_spec os owner fileID dataID g id generation HI H H0 H1) as HO. destruct (Adopt os owner fileID dataID g id generation). apply HO.
  - by apply Lookup_inv.
  - by apply Status_inv.
  - pose proof (Downgrade_spec os id dataID g HI H) as HO. destruct (Downgrade os id dataID g). apply HO.
  - by apply MarkClosing_spec.
  - pose proof (Close_spec os id HI) as HO. destruct (Close os id). apply HO.
  - by apply expireLocked_spec.
  - unfold ExpireWriters. pose proof (expire_matching_spec os (fun other s => bool_decide (other <> id) && Writes s && (st_DataID s =? dataID)) ids HI) as HO.
    destruct (expire_matching _ _ _). apply HO.
  - unfold ExpireClient. destruct (clientID =? 0); [done|].
    pose proof (expire_matching_spec os (fun _ s => ok_ClientID (st_Owner s) =? clientID) ids HI) as HO.
    destruct (expire_matching _ _ _). apply HO.
  - by apply Forget_inv.
  - by apply Retarget_spec.
Qed.

Lemma NewStore_inv epoch : epoch <> 0 -> Inv (NewStore epoch).
Proof.
  intros H. constructor; cbn.
  1, 2: by intros ? ? Hl; rewrite lookup_empty in Hl.
  1, 3, 4: by intros ? [? Hl]; rewrite lookup_empty in Hl.
  - unfold maxTombstones. lia.
  - done.
Qed.

Lemma reachable_inv epoch os : epoch <> 0 -> rtc step (NewStore epoch) os -> Inv os.
Proof.
  intros He Hr. pose proof (NewStore_inv epoch He) as HI. revert HI.
  induction Hr as [|os1 os2 os3 Hs _ IH]; [done|]. intros HI. by apply IH, (step_inv os1).
Qed.

Lemma tombstones_bounded os : Inv os -> (size (os_expired os) <= maxTombstones)%nat.
Proof.
  intros []. rewrite <-size_dom. transitivity (size (list_to_set (C:=gset StateID) (os_expiredIDs os))).
  - apply subseteq_size. intros id Hid. apply elem_of_dom in Hid. apply elem_of_list_to_set. auto.
  - etransitivity; [|exact inv_bound0]. clear.
    induction (os_expiredIDs os) as [|i l IH]; cbn [list_to_set length]; [by rewrite size_empty|].
    rewrite size_union_alt. etransitivity; [apply Nat.add_le_mono; [reflexivity|apply subseteq_size]|].
    + apply subseteq_difference_l. reflexivity.
    + rewrite size_singleton. lia.
Qed.

(** * Properties *)

(** C23: in every store reachable from a new one, through any sequence of OPEN,
    adoption, lookup, downgrade, close, expiry, FREE_STATEID and retargeting
    steps, the two maps index the same opens: an open is found under its own
    stateid and under its owner and file, an owner has at most one open of a
    file, its access is the union of the share values it was granted, its
    generation is never zero unless it is still to be learnt, and at most 1024
    tombstones are kept. *)
Theorem open_store_invariant (epoch : Z) (os : Store) :
  epoch <> 0 -> rtc step (NewStore epoch) os ->
  (forall id s, view os !! id = Some s -> st_ID s = id /\ ExistingOpen os (st_Owner s) (st_FileID s) = Some s /\ state_wf s) /\
  (forall owner fileID s, ExistingOpen os owner fileID = Some s -> view os !! st_ID s = Some s /\ key_of s = (owner, fileID)) /\
  (forall id id' s s', view os !! id = Some s -> view os !! id' = Some s' -> key_of s = key_of s' -> id = id') /\
  (size (os_expired os) <= maxTombstones)%nat.
Proof.
  intros He Hr. pose proof (reachable_inv epoch os He Hr) as HI.
  assert (forall id s, view os !! id = Some s -> exists l, state_at os id = Some (l, s)) as Hv.
  { intros id s. rewrite view_lookup. destruct (state_at os id) as [[l s']|]; [|done]. intros [= ->]. by exists l. }
  split_and!; [..|by apply tombstones_bounded].
  - intros id s [l Hs]%Hv. destruct (state_at_facts _ _ _ _ HI Hs) as (F1 & F2 & F3). split_and!; try done.
    unfold ExistingOpen. apply state_at_Some in Hs as [_ Hs].
    change (st_Owner s, st_FileID s) with (key_of s). by rewrite (proj2 (file_at_Some os (key_of s) l s) (conj F2 Hs)).
  - intros owner fileID s. unfold ExistingOpen. destruct (file_at os (owner, fileID)) as [[l s']|] eqn:E; [|done].
    intros [= ->]. destruct (file_at_state_at _ _ _ _ HI E) as [E1 E2]. rewrite view_lookup, E2. done.
  - intros id id' s s' [l Hs]%Hv [l' Hs']%Hv Hk.
    destruct (state_at_facts _ _ _ _ HI Hs) as (F1 & F2 & _), (state_at_facts _ _ _ _ HI Hs') as (F1' & F2' & _).
    apply state_at_Some in Hs as [_ Hs], Hs' as [_ Hs']. rewrite Hk, F2' in F2. congruence.
Qed.

Definition sample_owner : OwnerKey := mkOwnerKey 7 "owner".
Definition sample_id : StateID := (5, 1).
Definition sample_state : State := mkState sample_id 100 100 sample_owner 1 2 1 1 false false false 1.
Definition sample_store : Store := (Open (NewStore 5) sample_owner 100 100 (mkGrant 1 0) zero_id).1.

Lemma sample_store_reachable : rtc step (NewStore 5) sample_store.
Proof.
  apply rtc_once. apply step_open; [by split|left; done|done].
Qed.

Lemma open_store_invariant_witness :
  5 <> 0 /\ (size (os_expired sample_store) <= maxTombstones)%nat.
Proof.
  split; [done|]. apply (open_store_invariant 5 sample_store); [done|apply sample_store_reachable].
Defined.

(** C30: as a map of opens by stateid, OPEN updates the owner's open of the file
    in place when there is one (same stateid, next generation, access and
    share values added) and otherwise adds one open under a stateid no live
    open has; it fails only on an explicit stateid that is taken. Adopt adds a
    recovered open exactly when Adoptable says so, Downgrade and MarkClosing
    change one open, and Close and Expire remove one. *)
Theorem open_store_refines_map (os : Store) (owner : OwnerKey) (fileID dataID : Z) (g : Grant) (id : StateID) (generation : Z) :
  Inv os -> grant_ok g -> id_known os id -> is_u32 generation -> os_nextID os + 1 < 2 ^ 64 ->
  match ExistingOpen os owner fileID, Open os owner fileID dataID g id with
  | Some s, (os', Ok s') => s' = reopen dataID g (wrap64 (os_nextSeq os + 1)) s /\ view os' = <[st_ID s := s']> (view os)
  | None, (os', Ok s') => view os !! st_ID s' = None /\ view os' = <[st_ID s' := s']> (view os) /\
      key_of s' = (owner, fileID) /\ st_Generation s' = 1 /\ (id <> zero_id -> st_ID s' = id)
  | None, (os', Err _) => id <> zero_id /\ is_Some (view os !! id) /\ view os' = view os
  | _, _ => False
  end /\
  match Adopt os owner fileID dataID g id generation with
  | (os', Some s) => Adoptable os owner fileID id = true /\ view os !! id = None /\ st_ID s = id /\ view os' = <[id := s]> (view os)
  | (os', None) => Adoptable os owner fileID id = false /\ os' = os
  end /\
  match Downgrade os id dataID g, view os !! id with
  | (os', Some s'), Some s => s' = set_Generation (NextGeneration (st_Generation s)) (set_DataID dataID (narrowLocked g s)) /\
      view os' = <[id := s']> (view os)
  | (os', None), None => os' = os
  | _, _ => False
  end /\
  view (MarkClosing os id) = alter set_closing id (view os) /\
  view (Close os id).1 = delete id (view os) /\ view (Expire os id) = delete id (view os).
Proof.
  intros HI Hg Hid Hgen Hn.
  pose proof (Open_spec os owner fileID dataID g id HI Hg Hid Hn) as H1.
  pose proof (Adopt_spec os owner fileID dataID g id generation HI Hg Hid Hgen) as H2.
  pose proof (Downgrade_spec os id dataID g HI Hg) as H3. pose proof (Close_spec os id HI) as H4.
  destruct (Open os owner fileID dataID g id) as [o1 r1], (Adopt os owner fileID dataID g id generation) as [o2 r2],
    (Downgrade os id dataID g) as [o3 r3], (Close os id) as [o4 r4].
  destruct H1 as [_ H1], H2 as [_ H2], H3 as [_ H3], H4 as (_ & H4 & _). split_and!.
  - destruct (ExistingOpen os owner fileID), r1; done.
  - destruct r2; tauto.
  - destruct r3, (view os !! id); done.
  - by apply MarkClosing_spec.
  - done.
  - by apply expireLocked_spec.
Qed.

Lemma open_store_refines_map_witness :
  view (Close sample_store sample_id).1 = delete sample_id (view sample_store).
Proof.
  apply (open_store_refines_map sample_store sample_owner 100 200 (mkGrant 2 0) sample_id 1).
  - apply (reachable_inv 5); [done|apply sample_store_reachable].
  - by split.
  - right. done.
  - done.
  - done.
Defined.

(** The answer to a stateid. A stateid of another client, of another file
    or unknown is BAD_STATEID and changes nothing; an expired one is EXPIRED,
    to its owner only; a live one is accepted with seqid zero or its current
    generation, is OLD_STATEID before it and BAD_STATEID beyond it. Only an
    adopted open whose generation is unknown takes it from the first seqid
    presented. *)
Theorem lookup_answers (os : Store) (clientID : Z) (id : StateID) (generation fileID : Z) :
  Inv os -> is_u32 generation ->
  let '(os', (found, status)) := Lookup os clientID id generation fileID in
  match view os !! id with
  | None => os' = os /\ found = None /\
      status = if decide (os_expired os !! id = Some clientID) then NFS4ERR_EXPIRED else NFS4ERR_BAD_STATEID
  | Some s =>
      if decide (ok_ClientID (st_Owner s) = clientID /\ st_FileID s = fileID) then
        let current := if st_learnGeneration s then if generation =? 0 then st_Generation s else generation else st_Generation s in
        view os' = <[id := learnGenerationLocked generation s]> (view os) /\
        st_Generation (learnGenerationLocked generation s) = current /\
        (status = NFS4_OK <-> generation = 0 \/ generation = current) /\
        (status = NFS4ERR_OLD_STATEID <-> 0 < generation < current) /\
        (status = NFS4ERR_BAD_STATEID <-> current < generation) /\
        (found = if decide (status = NFS4_OK) then Some (learnGenerationLocked generation s) else None)
      else os' = os /\ found = None /\ status = NFS4ERR_BAD_STATEID
  end.
Proof.
  intros HI Hg. rewrite view_lookup. unfold Lookup. destruct (state_at os id) as [[l s]|] eqn:E; cbn [fmap option_fmap option_map snd].
  2:{ split_and!; try done. unfold unknownStateStatusLocked. destruct (os_expired os !! id) as [o|].
      - destruct (o =? clientID) eqn:Eo; reflect_bools; [subst|]; [by rewrite decide_True|rewrite decide_False; congruence].
      - by rewrite decide_False. }
  destruct (state_at_facts _ _ _ _ HI E) as (F1 & F2 & F3). destruct (learn_facts generation s) as [L1 L2].
  destruct (ok_ClientID (st_Owner s) =? clientID) eqn:E1; reflect_bools; cbn [negb orb]; [|by rewrite decide_False by tauto].
  destruct (st_FileID s =? fileID) eqn:E2; reflect_bools; cbn [negb]; [|by rewrite decide_False by tauto].
  rewrite decide_True by done.
  destruct (update_inv os id l s (fun _ => learnGenerationLocked generation s) HI E L1 L2) as [_ U2]; [by apply learn_wf|].
  set (s' := learnGenerationLocked generation s) in *.
  assert (st_Generation s' = if st_learnGeneration s then if generation =? 0 then st_Generation s else generation else st_Generation s) as Hcur.
  { unfold s', learnGenerationLocked. by destruct (st_learnGeneration s), (generation =? 0). }
  destruct (learn_wf generation s Hg F3) as (_ & _ & _ & _ & [Hge _] & _). fold s' in Hge.
  rewrite <-Hcur. clearbody s'. unfold generation_status, NFS4_OK, NFS4ERR_OLD_STATEID, NFS4ERR_BAD_STATEID, is_u32 in *.
  destruct (generation =? 0) eqn:E3, (generation <? st_Generation s') eqn:E4, (st_Generation s' <? generation) eqn:E5;
    reflect_bools; cbn; split_and!; try done; try lia.
Qed.

Lemma lookup_answers_witness :
  (Lookup sample_store 8 sample_id 1 100).2 = (None, NFS4ERR_BAD_STATEID).
Proof.
  assert (Inv sample_store) as HI by (apply (reachable_inv 5); [done|apply sample_store_reachable]).
  pose proof (lookup_answers sample_store 8 sample_id 1 100 HI ltac:(done)) as H.
  assert (view sample_store !! sample_id = Some sample_state) as Hv by reflexivity.
  destruct (Lookup sample_store 8 sample_id 1 100) as [os' [found status]]. rewrite Hv in H. cbn in H.
  destruct H as (_ & -> & ->). reflexivity.
Defined.

(** OPEN_DOWNGRADE follows the rule of the protocol: the target access and
    deny are accepted exactly when each is the union of some of the values the
    open was granted. A downgraded open has the target access, keeps the
    granted values inside the target, records the target itself, and is again
    the union of what it records. *)
Theorem downgrade_rule (s : State) (g : Grant) :
  state_wf s -> grant_ok g ->
  (DowngradeStatus s g false = NFS4_OK <->
   (exists vs, Forall (recorded (st_modes s)) vs /\ lor_all vs = g_Access g) /\
   (exists ds, Forall (recorded (st_denyModes s)) ds /\ lor_all ds = g_Deny g)) /\
  st_Access (narrowLocked g s) = g_Access g /\ union_within (st_modes (narrowLocked g s)) 3 = g_Access g /\
  (forall w, 0 <= w <= 3 -> Z.testbit (st_modes (narrowLocked g s)) w = true <->
     w = g_Access g \/ Z.testbit (st_modes s) w = true /\ Z.ldiff w (g_Access g) = 0).
Proof.
  intros (S1 & S2 & S3 & S4 & S5 & S6) [G1 G2].
  destruct (narrow_mode (st_modes s) (g_Access g) S2 G1) as (_ & N2 & N3). split; [|done].
  rewrite <-!union_within_iff by done. unfold DowngradeStatus. rewrite <-S4.
  assert (forall set w, 0 <= set < 16 -> 0 <= w <= 3 -> union_within set w = w -> Z.ldiff w (union_within set 3) = 0) as Hsub.
  { intros set w Hs Hw Hu. pose proof (all_values_spec _ _ (eq_refl : all_values (fun w => all_sets (fun set =>
      negb (union_within set w =? w) || (Z.ldiff w (union_within set 3) =? 0))) = true) Hw) as H.
    apply (all_sets_spec _ _ H) in Hs. rewrite Hu, Z.eqb_refl in Hs. by apply Z.eqb_eq in Hs. }
  pose proof (Hsub _ _ S2 G1) as HA. pose proof (Hsub _ _ S3 G2) as HD.
  destruct (union_within (st_modes s) (g_Access g) =? g_Access g) eqn:E1,
    (union_within (st_denyModes s) (g_Deny g) =? g_Deny g) eqn:E2; reflect_bools; cbn [negb orb].
  { by rewrite HA, HD by done. }
  all: split; [by destruct (_ || _)|tauto].
Qed.

Lemma downgrade_rule_witness :
  DowngradeStatus (mkState sample_id 100 100 sample_owner 3 (2 + 8) 1 1 false false false 1) (mkGrant 1 0) false = NFS4_OK.
Proof.
  apply (downgrade_rule (mkState sample_id 100 100 sample_owner 3 (2 + 8) 1 1 false false false 1) (mkGrant 1 0)).
  - unfold state_wf, is_u32; cbn. split_and!; done.
  - by split.
  - split; [exists [1]|exists [0]]; (split; [|done]); apply Forall_singleton; split; done.
Defined.

(** An expired open is gone and its stateid answers EXPIRED, to its owner
    only, and cannot be recovered; expiring a client removes its opens, all of
    them and no others. The hypothesis is that the stateid is not still listed
    from an earlier tombstone. *)
Theorem expiry_is_remembered (os : Store) (id : StateID) (s : State) (clientID : Z) (ids : list StateID) :
  Inv os -> view os !! id = Some s -> id ∉ os_expiredIDs os -> (forall i, is_Some (view os !! i) -> i ∈ ids) -> clientID <> 0 ->
  let os' := Expire os id in
  (forall c generation, Status os' c id generation =
     (os', if c =? ok_ClientID (st_Owner s) then NFS4ERR_EXPIRED else NFS4ERR_BAD_STATEID)) /\
  CanRecover os' id = false /\ OwnerOf os' id = Some (ok_ClientID (st_Owner s)) /\
  (forall i, view (ExpireClient os clientID ids).1 !! i =
     match view os !! i with Some s => if ok_ClientID (st_Owner s) =? clientID then None else Some s | None => None end).
Proof.
  intros HI Hv Hn Hids Hc os'. destruct (expireLocked_spec os id HI) as [I1 I2]. fold (Expire os id) os' in I1, I2.
  assert (state_at os' id = None) as Hgone.
  { pose proof (view_lookup os' id) as H. rewrite I2, lookup_delete_eq in H. by destruct (state_at os' id). }
  assert (os_expired os' !! id = Some (ok_ClientID (st_Owner s))) as Htomb.
  { rewrite view_lookup in Hv. destruct (state_at os id) as [[l s']|] eqn:E; [|done]. injection Hv as ->.
    unfold os', Expire, expireLocked. rewrite E. unfold markExpiredLocked. cbn [os_expired os_expiredIDs unlink].
    assert (os_expired os !! id = None) as ->.
    { destruct (os_expired os !! id) eqn:E'; [|done]. destruct Hn. apply (inv_expired _ HI). by rewrite E'. }
    destruct (os_expiredIDs os) as [|o rest] eqn:Eo; cbn [app].
    - cbn. by rewrite lookup_insert_eq.
    - destruct (_ <? _)%nat; cbn; [|by rewrite lookup_insert_eq].
      rewrite lookup_delete_ne, lookup_insert_eq; [done|]. intros ->. apply Hn. by left. }
  split_and!.
  - intros c generation. unfold Status, unknownStateStatusLocked. rewrite Hgone, Htomb. by rewrite Z.eqb_sym.
  - unfold CanRecover. by rewrite Htomb.
  - unfold OwnerOf. by rewrite Hgone, Htomb.
  - intros i. unfold ExpireClient. rewrite (proj2 (Z.eqb_neq _ _) Hc).
    pose proof (expire_matching_spec os (fun _ s => ok_ClientID (st_Owner s) =? clientID) ids HI) as HE.
    destruct (expire_matching _ _ _) as [o e]. destruct HE as [_ HE]. cbn. rewrite HE.
    destruct (view os !! i) eqn:Ei; [|done]. rewrite bool_decide_eq_true_2 by (apply Hids; by rewrite Ei). done.
Qed.

Lemma expiry_is_remembered_witness : CanRecover (Expire sample_store sample_id) sample_id = false.
Proof.
  apply (expiry_is_remembered sample_store sample_id sample_state 7 [sample_id]).
  - apply (reachable_inv 5); [done|apply sample_store_reachable].
  - reflexivity.
  - apply not_elem_of_nil.
  - intros i Hi. assert (view sample_store = {[ sample_id := sample_state ]}) as Hv by reflexivity.
    rewrite Hv in Hi. apply lookup_singleton_is_Some in Hi as <-. by left.
  - done.
Defined.

(** Opens adopted and expired, one stateid of an earlier process after another. *)
Fixpoint churn (n : nat) (os : Store) : Store :=
  match n with
  | O => os
  | S n =>
      let id := (9, Z.of_nat (S n)) in
      churn n (Expire (Adopt os sample_owner 100 100 (mkGrant 1 0) id 1).1 id)
  end.

Lemma markExpired_epoch os id owner : os_Epoch (markExpiredLocked id owner os) = os_Epoch os.
Proof.
  unfold markExpiredLocked. destruct (os_expired os !! id); [done|].
  destruct (os_expiredIDs os ++ [id]); [done|]. by destruct (_ <? _)%nat.
Qed.

Lemma churn_steps n os : os_Epoch os = 5 -> rtc step os (churn n os) /\ os_Epoch (churn n os) = 5.
Proof.
  revert os. induction n as [|n IH]; intros os He; cbn [churn]; [done|].
  set (id := (9, Z.of_nat (S n))). set (os1 := (Adopt os sample_owner 100 100 (mkGrant 1 0) id 1).1).
  assert (os_Epoch os1 = 5) as He1 by (unfold os1, Adopt; by destruct (_ || _)).
  assert (os_Epoch (Expire os1 id) = 5) as He2.
  { unfold Expire, expireLocked. destruct (state_at os1 id) as [[l s]|]; [|done]. by rewrite markExpired_epoch. }
  destruct (IH _ He2) as [I1 I2]. split; [|done].
  apply (rtc_l _ os os1); [apply step_adopt; [by split|left; by rewrite He|done]|].
  apply (rtc_l _ os1 (Expire os1 id)); [apply step_expire|done].
Qed.

Definition reused_id : StateID := (9, 5000).

(** The stateid [reused_id] adopted, expired and freed; then [n] other
    tombstones; then the stateid adopted again. *)
Definition reused_store (n : nat) : Store :=
  let os := (Adopt (NewStore 5) sample_owner 100 100 (mkGrant 1 0) reused_id 1).1 in
  let os := (Forget (Expire os reused_id) 7 reused_id).1 in
  (Adopt (churn n os) sample_owner 100 100 (mkGrant 1 0) reused_id 1).1.

Lemma reused_store_steps n : rtc step (NewStore 5) (reused_store n).
Proof.
  unfold reused_store. set (os1 := (Adopt (NewStore 5) _ _ _ _ _ _).1). set (os2 := (Forget (Expire os1 reused_id) 7 reused_id).1).
  destruct (churn_steps n os2) as [C1 C2]; [reflexivity|].
  apply (rtc_l _ _ os1); [apply step_adopt; [by split|by left|done]|].
  apply (rtc_l _ _ (Expire os1 reused_id)); [apply step_expire|]. apply (rtc_l _ _ os2); [apply step_forget|].
  etransitivity; [exact C1|]. apply rtc_once. apply step_adopt; [by split|left; by rewrite C2|done].
Qed.

