(* ===== verification/Counting.v ===== *)
(** Counting the entries of a finite map that satisfy a property, and summing a
    quantity over them: the threads, requests or holds that refer to a shared
    object, and what they are charged. *)

From Stdlib Require Import ZArith Lia.
From stdpp Require Import base numbers option gmap list.
From S2P Require Import Prelude.

Section counting.
Context {K V : Type} `{Countable K}.
Implicit Types (P : V -> bool) (ts : gmap K V).

Definition count P ts : nat := size (filter (fun q => P q.2 = true) ts).

Definition bit (b : bool) : nat := if b then 1 else 0.

Lemma count_delete P ts t p : ts !! t = Some p -> count P ts = (bit (P p) + count P (delete t ts))%nat.
Proof.
  intros Ht. unfold count. rewrite <-(insert_delete_id ts t p Ht) at 1.
  destruct (P p) eqn:E.
  - rewrite map_filter_insert_True by done. rewrite map_size_insert_None; [done|].
    apply map_lookup_filter_None. left. apply lookup_delete_eq.
  - rewrite map_filter_insert_False by (cbn; congruence). by rewrite delete_delete_eq.
Qed.

Lemma count_insert P ts t p : count P (<[t := p]> ts) = (bit (P p) + count P (delete t ts))%nat.
Proof. rewrite (count_delete P _ t p); [by rewrite delete_insert_eq|apply lookup_insert_eq]. Qed.

Lemma count_absent P ts t : ts !! t = None -> count P (delete t ts) = count P ts.
Proof. intros Ht. by rewrite delete_id. Qed.

Lemma count_zero P ts t p : count P ts = 0%nat -> ts !! t = Some p -> P p = false.
Proof. intros H0 Ht. rewrite (count_delete P ts t p Ht) in H0. by destruct (P p). Qed.

Lemma count_none P ts : (forall t p, ts !! t = Some p -> P p = false) -> count P ts = 0%nat.
Proof.
  intros Hn. unfold count. apply map_size_empty_iff, map_empty. intros t.
  apply map_lookup_filter_None. right. intros p Hp. cbn. by rewrite (Hn t p Hp).
Qed.

Lemma count_some P ts : (0 < count P ts)%nat -> exists t p, ts !! t = Some p /\ P p = true.
Proof.
  unfold count. intros Hc. destruct (map_choose (filter (fun q => P q.2 = true) ts)) as (t & p & Hp).
  - intros E. rewrite E, map_size_empty in Hc. lia.
  - apply map_lookup_filter_Some in Hp as [H1 H2]. eauto.
Qed.

(** At most one entry has a property counted once. *)
Lemma count_one P ts t t' p p' :
  (count P ts <= 1)%nat -> ts !! t = Some p -> ts !! t' = Some p' -> P p = true -> P p' = true -> t = t'.
Proof.
  intros H1 Ht Ht' HP HP'. destruct (decide (t = t')) as [|Hne]; [done|exfalso].
  rewrite (count_delete P ts t p Ht), HP in H1. rewrite (count_delete P (delete t ts) t' p') in H1; [rewrite HP' in H1; cbn in H1; lia|].
  by rewrite lookup_delete_ne.
Qed.

(** An entry changes from [p] to [p']. *)
Lemma count_update P ts t p p' : ts !! t = Some p ->
  (count P (<[t := p']> ts) + bit (P p) = count P ts + bit (P p'))%nat.
Proof. intros Ht. rewrite count_insert, (count_delete P ts t p Ht). lia. Qed.

Lemma count_add P ts t p : ts !! t = None -> count P (<[t := p]> ts) = (bit (P p) + count P ts)%nat.
Proof. intros Ht. by rewrite count_insert, count_absent. Qed.

Lemma count_remove P ts t p : ts !! t = Some p -> (count P (delete t ts) + bit (P p) = count P ts)%nat.
Proof. intros Ht. rewrite (count_delete P ts t p Ht). lia. Qed.

Lemma count_positive P ts t p : ts !! t = Some p -> P p = true -> (0 < count P ts)%nat.
Proof. intros Ht HP. rewrite (count_delete P ts t p Ht), HP. simpl. lia. Qed.

Lemma count_ext P P' ts : (forall t p, ts !! t = Some p -> P p = P' p) -> count P ts = count P' ts.
Proof.
  intros HP. unfold count. f_equal. apply map_filter_ext. intros t p Ht. simpl. by rewrite (HP t p Ht).
Qed.

Lemma count_mono P P' ts : (forall p, P p = true -> P' p = true) -> (count P ts <= count P' ts)%nat.
Proof.
  intros HP. induction ts as [|t p ts Ht IH] using map_ind; [by rewrite !count_none|].
  rewrite !count_add by done. specialize (HP p). destruct (P p); [rewrite HP by done|]; simpl; lia.
Qed.

Lemma fresh_key (ts : gmap nat V) : exists t, ts !! t = None.
Proof. exists (fresh (dom ts)). apply not_elem_of_dom, is_fresh. Qed.

(** ** Sums *)

Implicit Types (f : V -> Z).

Definition total f ts : Z := map_fold (fun _ v acc => f v + acc) 0 ts.

Lemma total_empty f : total f ∅ = 0.
Proof. apply map_fold_empty. Qed.

Lemma total_add f ts t v : ts !! t = None -> total f (<[t := v]> ts) = f v + total f ts.
Proof. intros Ht. unfold total. rewrite map_fold_insert_L; [done | intros; lia | done]. Qed.

Lemma total_remove f ts t v : ts !! t = Some v -> total f ts = f v + total f (delete t ts).
Proof. intros Ht. rewrite <- (insert_delete_id ts t v Ht) at 1. by rewrite total_add by apply lookup_delete_eq. Qed.

Lemma total_update f ts t v v' : ts !! t = Some v -> total f (<[t := v']> ts) = total f ts - f v + f v'.
Proof.
  intros Ht. rewrite <- insert_delete_eq, total_add by apply lookup_delete_eq. rewrite (total_remove f ts t v Ht). lia.
Qed.

Lemma total_nonneg f ts : (forall t v, ts !! t = Some v -> 0 <= f v) -> 0 <= total f ts.
Proof.
  induction ts as [|t v ts Ht IH] using map_ind; intros Hf; [by rewrite total_empty|].
  rewrite total_add by done. pose proof (Hf t v (lookup_insert_eq _ _ _)).
  assert (0 <= total f ts); [|lia]. apply IH. intros t' v' Ht'. apply (Hf t'). rewrite lookup_insert_ne; [done | congruence].
Qed.

Lemma total_zero f ts : (forall t v, ts !! t = Some v -> f v = 0) -> total f ts = 0.
Proof.
  induction ts as [|t v ts Ht IH] using map_ind; intros Hf; [apply total_empty|].
  rewrite total_add, (Hf t v (lookup_insert_eq _ _ _)), IH; [done | | done].
  intros t' v' Ht'. apply (Hf t'). rewrite lookup_insert_ne; [done | congruence].
Qed.

End counting.
