(* ===== verification/KeyedLock.v ===== *)
(** A mutex per key: src/go/nfsd/internal/keyedlock/locker.go.

    The entries are shared objects with a reference count. Each critical
    section of the locker's own mutex ([ref], [unref]) and each operation on an
    entry's mutex is one step of a thread, so that any interleaving of Lock,
    TryLock and unlock calls is a sequence of steps. *)

From Stdlib Require Import ZArith Lia.
From stdpp Require Import base numbers option gmap list.
From S2P Require Import Prelude Counting.

Section keyedlock.
Context {K : Type} `{Countable K}.

(** * The locker *)

Record lockEntry := mkEntry { le_locked : bool; le_refs : Z }.

(** [entries] holds pointers into [heap]. *)
Record Locker := mkLocker {
  lk_entries : gmap K nat;
  lk_heap : gmap nat lockEntry;
  lk_fresh : nat }.

Definition set_entry (e : nat) (x : lockEntry) (l : Locker) : Locker :=
  mkLocker (lk_entries l) (<[e := x]> (lk_heap l)) (lk_fresh l).

Definition ref (key : K) (l : Locker) : Locker * nat :=
  let '(l, e) :=
    match lk_entries l !! key with
    | Some e => (l, e)
    | None =>
        (mkLocker (<[key := lk_fresh l]> (lk_entries l)) (<[lk_fresh l := mkEntry false 0]> (lk_heap l)) (S (lk_fresh l)), lk_fresh l)
    end in
  match lk_heap l !! e with
  | Some x => (set_entry e (mkEntry (le_locked x) (le_refs x + 1)) l, e)
  | None => (l, e)
  end.

Definition unref (key : K) (e : nat) (l : Locker) : Locker :=
  match lk_heap l !! e with
  | Some x =>
      let l := set_entry e (mkEntry (le_locked x) (le_refs x - 1)) l in
      if le_refs x - 1 =? 0 then mkLocker (delete key (lk_entries l)) (lk_heap l) (lk_fresh l) else l
  | None => l
  end.

(** * Threads *)

(** Where a thread is in a call: it has the entry's reference and waits for
    its mutex or tries it, it holds the mutex, it has released the mutex, or
    its try failed; in the last two it still has to drop the reference. *)
Inductive pc :=
| Waiting (key : K) (e : nat) (try : bool)
| Holding (key : K) (e : nat)
| Releasing (key : K) (e : nat).

Definition pc_key (p : pc) : K := match p with Waiting k _ _ | Holding k _ | Releasing k _ => k end.
Definition pc_entry (p : pc) : nat := match p with Waiting _ e _ | Holding _ e | Releasing _ e => e end.
Definition holds (p : pc) : bool := match p with Holding _ _ => true | _ => false end.

(** A thread that is in no call has no entry in the map. *)
Record world := mkWorld { w_lock : Locker; w_threads : gmap nat pc }.

Inductive step : world -> world -> Prop :=
| step_ref l ts t key try l' e :
    ts !! t = None -> ref key l = (l', e) ->
    step (mkWorld l ts) (mkWorld l' (<[t := Waiting key e try]> ts))
| step_acquire l ts t key e try x :
    ts !! t = Some (Waiting key e try) -> lk_heap l !! e = Some x -> le_locked x = false ->
    step (mkWorld l ts) (mkWorld (set_entry e (mkEntry true (le_refs x)) l) (<[t := Holding key e]> ts))
| step_try_fails l ts t key e x :
    ts !! t = Some (Waiting key e true) -> lk_heap l !! e = Some x -> le_locked x = true ->
    step (mkWorld l ts) (mkWorld l (<[t := Releasing key e]> ts))
| step_unlock l ts t key e x :
    ts !! t = Some (Holding key e) -> lk_heap l !! e = Some x ->
    step (mkWorld l ts) (mkWorld (set_entry e (mkEntry false (le_refs x)) l) (<[t := Releasing key e]> ts))
| step_unref l ts t key e :
    ts !! t = Some (Releasing key e) ->
    step (mkWorld l ts) (mkWorld (unref key e l) (delete t ts)).

Definition initial : world := mkWorld (mkLocker ∅ ∅ 0) ∅.

(** * Invariant *)

Definition uses (e : nat) (p : pc) : bool := bool_decide (pc_entry p = e).
Definition holds_entry (e : nat) (p : pc) : bool := holds p && uses e p.

Record Inv (w : world) : Prop := {
  inv_thread : forall t p, w_threads w !! t = Some p -> lk_entries (w_lock w) !! pc_key p = Some (pc_entry p);
  inv_entry : forall key e, lk_entries (w_lock w) !! key = Some e ->
    exists x, lk_heap (w_lock w) !! e = Some x /\ (0 < le_refs x) /\ le_refs x = Z.of_nat (count (uses e) (w_threads w)) /\
      count (holds_entry e) (w_threads w) = if le_locked x then 1%nat else 0%nat;
  inv_distinct : forall key key' e, lk_entries (w_lock w) !! key = Some e -> lk_entries (w_lock w) !! key' = Some e -> key = key';
  inv_fresh : forall e, is_Some (lk_heap (w_lock w) !! e) -> (e < lk_fresh (w_lock w))%nat }.

Lemma uses_refl p : uses (pc_entry p) p = true.
Proof. unfold uses. by rewrite bool_decide_eq_true_2. Qed.
Lemma uses_other e p : e <> pc_entry p -> uses e p = false /\ holds_entry e p = false.
Proof. intros Hne. unfold holds_entry, uses. rewrite bool_decide_eq_false_2 by done. by rewrite andb_false_r. Qed.
Lemma holds_entry_refl p : holds_entry (pc_entry p) p = holds p.
Proof. unfold holds_entry. by rewrite uses_refl, andb_true_r. Qed.

(** ** A thread moves on inside its call *)

(** Thread [t] goes from [p] to [p'] on the same entry, whose mutex becomes
    [locked]: the counts of the entry change by the thread alone. *)
Lemma move_inv l ts t p p' x locked :
  Inv (mkWorld l ts) -> ts !! t = Some p -> pc_key p' = pc_key p -> pc_entry p' = pc_entry p ->
  lk_heap l !! pc_entry p = Some x ->
  (bit (le_locked x) + bit (holds p') = bit locked + bit (holds p))%nat ->
  Inv (mkWorld (set_entry (pc_entry p) (mkEntry locked (le_refs x)) l) (<[t := p']> ts)).
Proof.
  intros [It Ie Id If] Ht Hk He Hx Hbits. cbn in *. constructor; cbn.
  - intros t' q. destruct (decide (t' = t)) as [->|Hne].
    + rewrite lookup_insert_eq. intros [= <-]. rewrite Hk, He. by apply (It t).
    + rewrite lookup_insert_ne by done. apply It.
  - intros key e He'. destruct (Ie key e He') as (y & Y1 & Y2 & Y3 & Y4).
    rewrite !count_insert. rewrite (count_delete (uses e) ts t p Ht) in Y3. rewrite (count_delete (holds_entry e) ts t p Ht) in Y4.
    destruct (decide (e = pc_entry p)) as [->|Hne].
    + rewrite Hx in Y1. injection Y1 as <-. exists (mkEntry locked (le_refs x)). rewrite lookup_insert_eq. cbn.
      rewrite uses_refl in Y3. rewrite <-He, uses_refl, holds_entry_refl, He. rewrite holds_entry_refl in Y4.
      destruct (le_locked x), locked, (holds p), (holds p'); cbn in *; split_and!; done || lia.
    + destruct (uses_other e p Hne) as [U1 U2]. rewrite U1 in Y3. rewrite U2 in Y4.
      rewrite <-He in Hne. destruct (uses_other e p' Hne) as [U3 U4]. rewrite U3, U4.
      exists y. rewrite lookup_insert_ne by congruence. done.
  - apply Id.
  - intros e. destruct (decide (e = pc_entry p)) as [->|Hne].
    + intros _. apply If. by rewrite Hx.
    + rewrite lookup_insert_ne by done. apply If.
Qed.

Lemma ref_inv l ts t key try l' e :
  Inv (mkWorld l ts) -> ts !! t = None -> ref key l = (l', e) -> Inv (mkWorld l' (<[t := Waiting key e try]> ts)).
Proof.
  intros [It Ie Id If] Ht. cbn in *. unfold ref.
  assert (forall l1 e1 x, (forall k e0, lk_entries l1 !! k = Some e0 -> exists y, lk_heap l1 !! e0 = Some y /\
       (e0 = e1 -> y = x) /\ (e0 <> e1 -> 0 < le_refs y) /\ le_refs y = Z.of_nat (count (uses e0) ts) /\
       count (holds_entry e0) ts = bit (le_locked y)) ->
     lk_entries l1 !! key = Some e1 -> lk_heap l1 !! e1 = Some x -> 0 <= le_refs x ->
     (forall t' p, ts !! t' = Some p -> lk_entries l1 !! pc_key p = Some (pc_entry p)) ->
     (forall k k' e0, lk_entries l1 !! k = Some e0 -> lk_entries l1 !! k' = Some e0 -> k = k') ->
     (forall e0, is_Some (lk_heap l1 !! e0) -> (e0 < lk_fresh l1)%nat) ->
     Inv (mkWorld (set_entry e1 (mkEntry (le_locked x) (le_refs x + 1)) l1) (<[t := Waiting key e1 try]> ts))) as Hgen.
  { intros l1 e1 x G1 G2 G3 G4 G5 G6 G7. constructor; cbn; [..|done|].
    - intros t' q. destruct (decide (t' = t)) as [->|Hne].
      + rewrite lookup_insert_eq. by intros [= <-].
      + rewrite lookup_insert_ne by done. apply G5.
    - intros k e0 Hk. destruct (G1 k e0 Hk) as (y & Y1 & Y2 & Y3 & Y4 & Y5).
      rewrite !count_insert, !count_absent by done. destruct (decide (e0 = e1)) as [->|Hne].
      + rewrite (Y2 eq_refl) in *. exists (mkEntry (le_locked x) (le_refs x + 1)). rewrite lookup_insert_eq. cbn.
        change e1 with (pc_entry (Waiting key e1 try)) at 1. rewrite uses_refl.
        unfold holds_entry at 1. cbn. split_and!; done || lia.
      + destruct (uses_other e0 (Waiting key e1 try) Hne) as [-> ->]. exists y. rewrite lookup_insert_ne by done.
        split_and!; try done. by apply Y3.
    - intros e0. destruct (decide (e0 = e1)) as [->|Hne]; [intros _; apply G7; by rewrite G3|].
      rewrite lookup_insert_ne by done. apply G7. }
  destruct (lk_entries l !! key) as [e1|] eqn:Ek.
  - destruct (Ie key e1 Ek) as (x & X1 & X2 & X3 & X4). rewrite X1. intros [= <- <-]. apply Hgen; try done; [|lia].
    intros k e0 Hk. destruct (Ie k e0 Hk) as (y & Y1 & Y2 & Y3 & Y4). exists y. split_and!; try done. intros ->. congruence.
  - cbn. rewrite lookup_insert_eq. intros [= <- <-].
    assert (lk_heap l !! lk_fresh l = None) as Hf.
    { destruct (lk_heap l !! lk_fresh l) eqn:E; [|done]. specialize (If _ (ex_intro _ _ E)). lia. }
    assert (forall k e0, lk_entries l !! k = Some e0 -> e0 <> lk_fresh l) as Hne.
    { intros k e0 Hk ->. destruct (Ie k _ Hk) as (y & Y1 & _). congruence. }
    apply (Hgen (mkLocker (<[key := lk_fresh l]> (lk_entries l)) (<[lk_fresh l := mkEntry false 0]> (lk_heap l)) (S (lk_fresh l))) (lk_fresh l) (mkEntry false 0)); cbn.
    + intros k e0. destruct (decide (k = key)) as [->|Hnk].
      * rewrite lookup_insert_eq. intros [= <-]. exists (mkEntry false 0). rewrite lookup_insert_eq.
        assert (forall t' p, ts !! t' = Some p -> uses (lk_fresh l) p = false /\ holds_entry (lk_fresh l) p = false) as Hnu.
        { intros t' p Hp. apply uses_other. intros Heq. apply (Hne _ _ (It t' p Hp)). done. }
        split_and!; try done.
        -- rewrite count_none; [done|]. intros t' p Hp. by apply (Hnu t').
        -- apply count_none. intros t' p Hp. by apply (Hnu t').
      * rewrite lookup_insert_ne by done. intros Hk. destruct (Ie k e0 Hk) as (y & Y1 & Y2 & Y3 & Y4). exists y.
        rewrite lookup_insert_ne by (intros Heq; by apply (Hne k e0 Hk)). split_and!; try done. intros ->. by destruct (Hne k _ Hk).
    + by rewrite lookup_insert_eq.
    + by rewrite lookup_insert_eq.
    + done.
    + intros t' p Hp. rewrite lookup_insert_ne; [by apply (It t')|]. intros Hkk. pose proof (It t' p Hp) as Hx.
      rewrite <-Hkk in Hx. congruence.
    + intros k k' e0. destruct (decide (k = key)) as [->|N1], (decide (k' = key)) as [->|N2];
        rewrite ?lookup_insert_eq, ?lookup_insert_ne by done; [done|..|apply Id].
      * intros [= <-] Hk. by destruct (Hne k' _ Hk).
      * intros Hk [= <-]. by destruct (Hne k _ Hk).
    + intros e0. destruct (decide (e0 = lk_fresh l)) as [->|N1]; [lia|].
      rewrite lookup_insert_ne by done. intros He. specialize (If _ He). lia.
Qed.

Lemma unref_inv l ts t key e :
  Inv (mkWorld l ts) -> ts !! t = Some (Releasing key e) -> Inv (mkWorld (unref key e l) (delete t ts)).
Proof.
  intros [It Ie Id If] Ht. cbn in *. pose proof (It t _ Ht) as Hke. cbn in Hke.
  destruct (Ie key e Hke) as (x & X1 & X2 & X3 & X4). unfold unref. rewrite X1.
  pose proof (count_delete (uses e) ts t _ Ht) as Hu. pose proof (count_delete (holds_entry e) ts t _ Ht) as Hh.
  change (uses e (Releasing key e)) with (uses (pc_entry (Releasing key e)) (Releasing key e)) in Hu.
  rewrite uses_refl in Hu. unfold holds_entry at 2 in Hh. cbn [holds andb bit] in Hu, Hh.
  assert (forall k e0, lk_entries l !! k = Some e0 -> e0 <> e -> exists y, lk_heap l !! e0 = Some y /\ 0 < le_refs y /\
    le_refs y = Z.of_nat (count (uses e0) (delete t ts)) /\ count (holds_entry e0) (delete t ts) = (if le_locked y then 1%nat else 0%nat)) as Hother.
  { intros k e0 Hk Hne. destruct (Ie k e0 Hk) as (y & Y1 & Y2 & Y3 & Y4). exists y.
    rewrite (count_delete (uses e0) ts t _ Ht) in Y3. rewrite (count_delete (holds_entry e0) ts t _ Ht) in Y4.
    destruct (uses_other e0 (Releasing key e) Hne) as [U1 U2]. rewrite U1 in Y3. rewrite U2 in Y4. done. }
  assert (forall e0, is_Some (<[e := mkEntry (le_locked x) (le_refs x - 1)]> (lk_heap l) !! e0) -> (e0 < lk_fresh l)%nat) as Hf.
  { intros e0. destruct (decide (e0 = e)) as [->|Hne]; [intros _; apply If; by rewrite X1|]. rewrite lookup_insert_ne by done. apply If. }
  destruct (le_refs x - 1 =? 0) eqn:E; reflect_bools; constructor; cbn.
  - intros t' p [Hne Hp]%lookup_delete_Some. specialize (It t' p Hp). rewrite lookup_delete_ne; [done|].
    intros Hk. assert (count (uses e) (delete t ts) = 0%nat) as Hz by lia.
    pose proof (count_zero _ _ t' p Hz ltac:(by rewrite lookup_delete_ne)) as Hup.
    assert (pc_entry p = e) as <- by congruence. by rewrite uses_refl in Hup.
  - intros k e0 [Hne Hk]%lookup_delete_Some. destruct (decide (e0 = e)) as [->|He]; [by destruct Hne; apply (Id _ _ e)|].
    destruct (Hother k e0 Hk He) as (y & Y). exists y. by rewrite lookup_insert_ne.
  - intros k k' e0 [_ H1]%lookup_delete_Some [_ H2]%lookup_delete_Some. by eapply Id.
  - done.
  - intros t' p [Hne Hp]%lookup_delete_Some. by apply (It t').
  - intros k e0 Hk. destruct (decide (e0 = e)) as [->|He].
    + exists (mkEntry (le_locked x) (le_refs x - 1)). rewrite lookup_insert_eq. cbn. split_and!; [done|lia|lia|]. cbn in Hh. congruence.
    + destruct (Hother k e0 Hk He) as (y & Y). exists y. by rewrite lookup_insert_ne.
  - apply Id.
  - done.
Qed.

Lemma keyed_step_inv w w' : step w w' -> Inv w -> Inv w'.
Proof.
  intros Hs HI. destruct Hs as [l ts t key try l' e Ht Hr|l ts t key e try x Ht Hx Hl|l ts t key e x Ht Hx Hl|l ts t key e x Ht Hx|l ts t key e Ht].
  - by eapply ref_inv.
  - apply (move_inv l ts t (Waiting key e try) (Holding key e) x true HI Ht); try done. by rewrite Hl.
  - pose proof (move_inv l ts t (Waiting key e true) (Releasing key e) x true HI Ht eq_refl eq_refl Hx) as HM.
    rewrite Hl in HM. specialize (HM eq_refl). cbn in HM.
    replace (set_entry e (mkEntry true (le_refs x)) l) with l in HM; [done|].
    unfold set_entry. rewrite insert_id; [by destruct l|]. rewrite Hx. by destruct x; cbn in *; subst.
  - pose proof HI as [It Ie _ _]. cbn in *. destruct (Ie key e) as (y & Y1 & _ & _ & Y4); [by apply (It t _ Ht)|].
    assert (le_locked x = true) as Hl.
    { rewrite Hx in Y1. injection Y1 as <-. rewrite (count_delete (holds_entry e) ts t _ Ht) in Y4.
      change (holds_entry e (Holding key e)) with (holds_entry (pc_entry (Holding key e)) (Holding key e)) in Y4.
      rewrite holds_entry_refl in Y4. cbn in Y4. by destruct (le_locked x). }
    apply (move_inv l ts t (Holding key e) (Releasing key e) x false HI Ht); try done. by rewrite Hl.
  - by apply unref_inv.
Qed.

Lemma initial_inv : Inv initial.
Proof.
  constructor; cbn.
  - intros t p Hp. by rewrite lookup_empty in Hp.
  - intros k e Hk. by rewrite lookup_empty in Hk.
  - intros k k' e Hk. by rewrite lookup_empty in Hk.
  - intros e [x Hx]. by rewrite lookup_empty in Hx.
Qed.

Lemma keyed_reachable_inv w : rtc step initial w -> Inv w.
Proof.
  intros Hr. pose proof initial_inv as HI. revert HI. induction Hr as [|w1 w2 w3 Hs _ IH]; [done|].
  intros HI. by apply IH, (keyed_step_inv w1).
Qed.

(** * Properties *)


(** Entries exist only while a key is held or awaited, and nobody waits for
    a free key: in every reachable state an entry is in the map exactly when
    some thread is in a call for its key, and a waiting thread can take its
    lock unless another thread holds the same key. *)
Theorem keyed_entries_and_progress (w : world) :
  rtc step initial w ->
  (forall key, is_Some (lk_entries (w_lock w) !! key) <-> exists t p, w_threads w !! t = Some p /\ pc_key p = key) /\
  (forall t key e try, w_threads w !! t = Some (Waiting key e try) ->
     (exists w', step w w' /\ w_threads w' !! t = Some (Holding key e)) \/
     (exists t', t' <> t /\ w_threads w !! t' = Some (Holding key e))).
Proof.
  intros Hr. destruct (keyed_reachable_inv w Hr) as [It Ie Id If]. split.
  - intros key. split.
    + intros [e He]. destruct (Ie key e He) as (x & X1 & X2 & X3 & _).
      destruct (count_some (uses e) (w_threads w)) as (t & p & Hp & Hu); [lia|].
      exists t, p. split; [done|]. apply bool_decide_eq_true_1 in Hu. apply (Id _ _ e); [|done]. rewrite <-Hu. by apply (It t).
    + intros (t & p & Hp & <-). rewrite (It t p Hp). by eexists.
  - intros t key e try Ht. pose proof (It t _ Ht) as He. cbn in He. destruct (Ie key e He) as (x & X1 & X2 & X3 & X4).
    destruct (le_locked x) eqn:El.
    + right. destruct (count_some (holds_entry e) (w_threads w)) as (t' & p & Hp & Hh); [lia|].
      unfold holds_entry in Hh. apply andb_true_iff in Hh as [H1 H2]. apply bool_decide_eq_true_1 in H2.
      destruct p as [|key' e'|]; try done. cbn in H2. subst e'. pose proof (It t' _ Hp) as H3. cbn in H3.
      rewrite (Id key' key e H3 He) in Hp. exists t'. split; [|done]. congruence.
    + left. destruct w as [l ts]. cbn in *. eexists. split; [by eapply step_acquire|]. cbn. apply lookup_insert_eq.
Qed.

End keyedlock.

(** One thread holds key 5. *)
Definition sample_held : world (K:=Z) :=
  mkWorld (mkLocker {[ 5 := 0%nat ]} {[ 0%nat := mkEntry true 1 ]} 1) {[ 1%nat := Holding 5 0%nat ]}.

Lemma sample_held_reachable : rtc step (initial (K:=Z)) sample_held.
Proof.
  apply (rtc_l _ _ (mkWorld (mkLocker {[ 5 := 0%nat ]} {[ 0%nat := mkEntry false 1 ]} 1) {[ 1%nat := Waiting 5 0%nat false ]})).
  - apply (step_ref (mkLocker ∅ ∅ 0) ∅ 1 5 false); reflexivity.
  - apply rtc_once.
    pose proof (step_acquire (mkLocker {[ 5 := 0%nat ]} {[ 0%nat := mkEntry false 1 ]} 1) {[ 1%nat := Waiting 5 0%nat false ]} 1 5 0 false
                  (mkEntry false 1) eq_refl eq_refl eq_refl) as Hs.
    unfold sample_held. by rewrite insert_singleton_eq in Hs.
Qed.


Lemma keyed_entries_and_progress_witness :
  is_Some (lk_entries (w_lock sample_held) !! 5) <-> exists t p, w_threads sample_held !! t = Some p /\ pc_key p = 5.
Proof. apply (keyed_entries_and_progress sample_held), sample_held_reachable. Defined.
