(* ===== verification/Ids.v ===== *)
(** Packed identifiers and directory policies: the inode, shard replica and
    owned-inode identifiers and the snapshot, block, span and stripe policies
    of src/go/msgs/msgs.go, and the parity byte of src/go/core/parity/parity.go.

    An identifier is the [Z] of its machine word; the accessors are the shifts
    and masks of the source. [x & ^y] is [Z.ldiff x y]. *)

From Stdlib Require Import ZArith Lia.
From stdpp Require Import base numbers option list.
From S2P Require Import Prelude Bincode Messages.

(** * Inode identifiers *)

Definition NULL_INODE_ID : Z := 0.
Definition DIRECTORY : Z := 1.
Definition FILE : Z := 2.
Definition SYMLINK : Z := 3.
Definition ROOT_DIR_INODE_ID : Z := Z.shiftl DIRECTORY 61.

Definition InodeId_Type (id : Z) : outcome unit Z :=
  let typ := Z.land (Z.shiftr id 61) 3 in
  if negb ((typ =? DIRECTORY) || (typ =? FILE) || (typ =? SYMLINK)) then Panic
  else Ok typ.

Definition InodeId_Shard (id : Z) : Z := Z.land id 255.

Definition MakeInodeId (typ shard id : Z) : Z :=
  Z.lor (Z.lor (wrap64 (Z.shiftl typ 61)) (wrap64 (Z.shiftl id 8))) shard.

Definition InodeIdExtra_Id (id : Z) : Z := Z.ldiff id (Z.shiftl 1 63).
Definition InodeIdExtra_Extra (id : Z) : bool :=
  if Z.shiftr id 63 =? 0 then false else true.

Definition MakeInodeIdExtra (id : Z) (owned : bool) : Z :=
  if owned then Z.lor id (Z.shiftl 1 63) else id.

(** * Shard replicas *)

Definition MakeShardReplicaId (shard replica : Z) : Z :=
  Z.lor (wrap16 (Z.shiftl replica 8)) shard.
Definition ShardReplicaId_Shard (id : Z) : Z := Z.land id 255.
Definition ShardReplicaId_Replica (id : Z) : Z := Z.shiftr id 8.

(** * Times *)

(** [time.Unix(0, int64(t))], as its nanoseconds. *)
Definition TernTime_Time (t : Z) : Z := to_signed 64 t.

(** [time.Time.Sub], which saturates at the bounds of a [Duration]. *)
Definition Time_Sub (a b : Z) : Z := Z.max (- 2 ^ 63) (Z.min (2 ^ 63 - 1) (a - b)).

(** * Snapshot policy *)

Definition DeleteAfterTime_Active (dat : Z) : bool := negb (Z.shiftr dat 63 =? 0).
Definition DeleteAfterTime_Time (dat : Z) : Z := Z.ldiff dat (Z.shiftl 1 63).
Definition InactiveDeleteAfterTime : Z := 0.
Definition ActiveDeleteAfterTime (duration : Z) : outcome unit Z :=
  if duration <? 0 then Panic
  else Ok (Z.lor (Z.shiftl 1 63) duration).

Definition DeleteAfterVersions_Active (dav : Z) : bool := negb (Z.shiftr dav 15 =? 0).
Definition DeleteAfterVersions_Versions (dav : Z) : Z := Z.ldiff dav (Z.shiftl 1 15).
Definition InactiveDeleteAfterVersions : Z := 0.
Definition ActiveDeleteAfterVersions (versions : Z) : outcome unit Z :=
  if versions <? 0 then Panic
  else Ok (Z.lor (Z.shiftl 1 15) versions).

(** [SnapshotPolicy.UnmarshalJSON] on the decoded specification: the optional
    [uint16] and the optional duration string, whose parser is a parameter. *)
Definition SnapshotPolicy_UnmarshalJSON (ParseDuration : list byte -> option Z)
    (versions : option Z) (time : option (list byte)) : outcome unit SnapshotPolicy :=
  let! dav :=
    match versions with
    | Some v => ActiveDeleteAfterVersions (to_signed 16 v)
    | None => Ok InactiveDeleteAfterVersions
    end in
  let! dat :=
    match time with
    | Some s =>
      match ParseDuration s with
      | None => Err tt
      | Some dur => ActiveDeleteAfterTime dur
      end
    | None => Ok InactiveDeleteAfterTime
    end in
  Ok (mkSnapshotPolicy dat dav).

(** * Block, span and stripe policies *)

Definition MAX_BLOCK_SIZE : Z := Z.shiftl 100 20.

(** The downward loops of the [Pick] methods: the first of the entries
    [n-1, ..., 0] that satisfies [p], as its index. *)
Fixpoint last_index {A} (p : A -> bool) (l : list A) (n : nat) : option nat :=
  match n with
  | O => None
  | S i =>
    match l !! i with
    | Some x => if p x then Some i else last_index p l i
    | None => last_index p l i
    end
  end.

Definition BlockPolicy_Pick (p : BlockPolicy) (size : Z) : outcome unit BlockPolicyEntry :=
  let entries := BlockPolicy_Entries p in
  if MAX_BLOCK_SIZE <? size then Panic
  else
    match last_index (fun e => BlockPolicyEntry_MinSize e <? size) entries (length entries) with
    | Some i => index entries i
    | None => index entries 0
    end.

Definition SpanPolicy_Pick (p : SpanPolicy) (size : Z) : outcome unit SpanPolicyEntry :=
  let entries := SpanPolicy_Entries p in
  if decide (length entries = 0)%nat then Panic
  else
    let! last_entry := index entries (length entries - 1) in
    if SpanPolicyEntry_MaxSize last_entry <? size then Panic
    else
      match last_index (fun e => SpanPolicyEntry_MaxSize e <? size) entries (length entries - 1) with
      | Some i => index entries (i + 1)
      | None => index entries 0
      end.

(** The division of two non-negative [int]s panics on a zero divisor. *)
Definition StripePolicy_Stripes (p : StripePolicy) (size : Z) : outcome unit Z :=
  if StripePolicy_TargetStripeSize p =? 0 then Panic
  else
    let S := size / StripePolicy_TargetStripeSize p in
    let S := if S <? 1 then 1 else S in
    let S := if 15 <? S then 15 else S in
    Ok (wrap8 S).

(** * Parity *)

Definition MkParity (dataBlocks parityBlocks : Z) : outcome unit Z :=
  if (dataBlocks =? 0) || (16 <=? dataBlocks) then Panic
  else if 16 <=? parityBlocks then Panic
  else if (1 <? dataBlocks) && (parityBlocks =? 0) then Panic
  else Ok (Z.lor dataBlocks (wrap8 (Z.shiftl parityBlocks 4))).

Definition DataBlocks (parity : Z) : Z := Z.land parity 15.
Definition ParityBlocks (parity : Z) : Z := Z.shiftr parity 4.
Definition Blocks (parity : Z) : Z := DataBlocks parity + ParityBlocks parity.

(** * Packing arithmetic *)

Lemma pack_low (hi lo n : Z) : 0 <= n -> 0 <= lo < 2 ^ n -> Z.land (Z.lor (Z.shiftl hi n) lo) (Z.ones n) = lo.
Proof.
  intros Hn Hlo. rewrite Z.land_lor_distr_l, !Z.land_ones, Z.shiftl_mul_pow2, Z.mod_mul by lia.
  by rewrite Z.lor_0_l, Z.mod_small by lia.
Qed.

Lemma pack_high (hi lo n : Z) : 0 <= n -> 0 <= lo < 2 ^ n -> Z.shiftr (Z.lor (Z.shiftl hi n) lo) n = hi.
Proof.
  intros Hn Hlo. rewrite Z.shiftr_lor, Z.shiftr_shiftl_l by lia.
  rewrite Z.sub_diag, Z.shiftl_0_r, (Z.shiftr_div_pow2 lo), Z.div_small by lia. apply Z.lor_0_r.
Qed.

Lemma pack_add (hi lo n : Z) : 0 <= n -> 0 <= lo < 2 ^ n -> Z.lor (Z.shiftl hi n) lo = hi * 2 ^ n + lo.
Proof.
  intros Hn Hlo. pose proof (pack_low hi lo n Hn Hlo) as HL. pose proof (pack_high hi lo n Hn Hlo) as HH.
  rewrite Z.land_ones in HL by lia. rewrite Z.shiftr_div_pow2 in HH by lia.
  rewrite (Z.div_mod (Z.lor (Z.shiftl hi n) lo) (2 ^ n)) by lia. lia.
Qed.

Lemma top_bit_split (x n : Z) : 0 <= n -> 0 <= x < 2 ^ (n + 1) ->
  x = Z.lor (Z.shiftl (x / 2 ^ n) n) (x mod 2 ^ n) /\ (x / 2 ^ n = 0 \/ x / 2 ^ n = 1).
Proof.
  intros Hn Hx. pose proof (Z.mod_pos_bound x (2 ^ n) ltac:(lia)). rewrite Z.pow_add_r in Hx by lia.
  rewrite pack_add by lia. split; [rewrite (Z.div_mod x (2 ^ n)) at 1; lia |].
  assert (0 <= x / 2 ^ n < 2); [|lia].
  split; [apply Z.div_pos | apply Z.div_lt_upper_bound]; lia.
Qed.

Lemma clear_top_bit (x n : Z) : 0 <= n -> 0 <= x < 2 ^ (n + 1) -> Z.ldiff x (Z.shiftl 1 n) = x mod 2 ^ n.
Proof.
  intros Hn Hx. apply Z.bits_inj'. intros i Hi.
  rewrite Z.ldiff_spec, Z.shiftl_spec by lia.
  destruct (decide (i < n)).
  - rewrite Z.mod_pow2_bits_low, (Z.testbit_neg_r 1 (i - n)) by lia. apply andb_true_r.
  - rewrite Z.mod_pow2_bits_high by lia. destruct (decide (i = n)) as [->|].
    + rewrite Z.sub_diag. apply andb_false_r.
    + rewrite (Z.bits_above_log2 x i); [done | lia |].
      destruct (decide (x = 0)) as [->|]; [simpl; lia | apply Z.log2_lt_pow2; [lia|]].
      apply (Z.lt_le_trans _ (2 ^ (n + 1))); [lia | apply Z.pow_le_mono_r; lia].
Qed.

(** A flag bit above [n] payload bits. *)
Lemma flagged (payload n : Z) : 0 <= n -> 0 <= payload < 2 ^ n ->
  Z.shiftr payload n = 0 /\ Z.shiftr (Z.lor payload (Z.shiftl 1 n)) n = 1 /\
  Z.ldiff payload (Z.shiftl 1 n) = payload /\ Z.ldiff (Z.lor payload (Z.shiftl 1 n)) (Z.shiftl 1 n) = payload.
Proof.
  intros Hn Hp. assert (Hpow : 2 ^ (n + 1) = 2 * 2 ^ n) by (rewrite Z.pow_add_r; lia).
  assert (Hlor : Z.lor payload (Z.shiftl 1 n) = 1 * 2 ^ n + payload) by (rewrite Z.lor_comm; apply pack_add; lia).
  repeat split.
  - rewrite Z.shiftr_div_pow2, Z.div_small; lia.
  - rewrite Z.lor_comm. by apply pack_high.
  - rewrite clear_top_bit, Z.mod_small; lia.
  - rewrite Hlor, clear_top_bit by lia. rewrite Z.add_comm, Z.mod_add, Z.mod_small; lia.
Qed.

Lemma MakeInodeId_word (typ shard id : Z) : 1 <= typ <= 3 -> is_u8 shard -> 0 <= id < 2 ^ 53 ->
  MakeInodeId typ shard id = typ * 2 ^ 61 + (id * 2 ^ 8 + shard).
Proof.
  intros Ht Hs Hi. unfold is_u8 in Hs. unfold MakeInodeId, wrap64.
  rewrite (Z.mod_small (Z.shiftl typ 61)), (Z.mod_small (Z.shiftl id 8)) by (rewrite Z.shiftl_mul_pow2; lia).
  rewrite <- Z.lor_assoc, (pack_add id shard 8), pack_add; lia.
Qed.

Lemma MakeInodeId_fields (typ shard id : Z) : 1 <= typ <= 3 -> is_u8 shard -> 0 <= id < 2 ^ 53 ->
  InodeId_Type (MakeInodeId typ shard id) = Ok typ /\ InodeId_Shard (MakeInodeId typ shard id) = shard /\
  2 ^ 61 <= MakeInodeId typ shard id < 2 ^ 63.
Proof.
  intros Ht Hs Hi. rewrite (MakeInodeId_word typ shard id) by done. unfold is_u8 in Hs.
  unfold InodeId_Type, InodeId_Shard. split; [|split; [|lia]].
  - replace (typ * 2 ^ 61 + (id * 2 ^ 8 + shard)) with (Z.lor (Z.shiftl typ 61) (id * 2 ^ 8 + shard))
      by (apply pack_add; lia).
    rewrite pack_high by lia. assert (typ = 1 \/ typ = 2 \/ typ = 3) as [->|[->| ->]] by lia; done.
  - change 255 with (Z.ones 8). rewrite Z.land_ones by lia.
    replace (typ * 2 ^ 61 + (id * 2 ^ 8 + shard)) with (shard + (typ * 2 ^ 53 + id) * 2 ^ 8) by lia.
    rewrite Z.mod_add, Z.mod_small; lia.
Qed.

Lemma MakeInodeIdExtra_fields (id : Z) (owned : bool) : 0 <= id < 2 ^ 63 ->
  InodeIdExtra_Id (MakeInodeIdExtra id owned) = id /\ InodeIdExtra_Extra (MakeInodeIdExtra id owned) = owned.
Proof.
  intros Hi. destruct (flagged id 63 ltac:(lia) Hi) as (H0 & H1 & H2 & H3).
  unfold InodeIdExtra_Id, InodeIdExtra_Extra, MakeInodeIdExtra. destruct owned; by rewrite ?H0, ?H1, ?H2, ?H3.
Qed.

Lemma MakeInodeIdExtra_surj (x : Z) : is_u64 x -> MakeInodeIdExtra (InodeIdExtra_Id x) (InodeIdExtra_Extra x) = x.
Proof.
  intros Hx. unfold is_u64 in Hx. destruct (top_bit_split x 63 ltac:(lia) ltac:(lia)) as [Hsplit Htop].
  unfold InodeIdExtra_Id, InodeIdExtra_Extra, MakeInodeIdExtra.
  rewrite clear_top_bit, Z.shiftr_div_pow2 by lia.
  destruct Htop as [Htop|Htop]; rewrite Htop in Hsplit |- *; (etrans; [|symmetry; exact Hsplit]).
  - by rewrite Z.shiftl_0_l, Z.lor_0_l.
  - apply Z.lor_comm.
Qed.

(** The packed identifiers are faithful. An inode id built from a type, a
    shard and a 53-bit number is a 63-bit word that gives the type and the
    shard back, and two such ids are equal only when all three parts are; the
    owned bit of an [InodeIdExtra] is independent of the id, and every 64-bit
    word is the packing of its two parts; a shard replica id gives back its
    two bytes. *)
Theorem packed_ids_roundtrip :
  (forall typ shard id, 1 <= typ <= 3 -> is_u8 shard -> 0 <= id < 2 ^ 53 ->
     InodeId_Type (MakeInodeId typ shard id) = Ok typ /\ InodeId_Shard (MakeInodeId typ shard id) = shard /\
     forall typ' shard' id', 1 <= typ' <= 3 -> is_u8 shard' -> 0 <= id' < 2 ^ 53 ->
       MakeInodeId typ shard id = MakeInodeId typ' shard' id' -> typ = typ' /\ shard = shard' /\ id = id') /\
  (forall id owned, 0 <= id < 2 ^ 63 ->
     InodeIdExtra_Id (MakeInodeIdExtra id owned) = id /\ InodeIdExtra_Extra (MakeInodeIdExtra id owned) = owned) /\
  (forall x, is_u64 x -> MakeInodeIdExtra (InodeIdExtra_Id x) (InodeIdExtra_Extra x) = x) /\
  (forall shard replica, is_u8 shard -> is_u8 replica ->
     ShardReplicaId_Shard (MakeShardReplicaId shard replica) = shard /\
     ShardReplicaId_Replica (MakeShardReplicaId shard replica) = replica).
Proof.
  split; [|split; [exact MakeInodeIdExtra_fields | split; [exact MakeInodeIdExtra_surj|]]].
  - intros typ shard id Ht Hs Hi. destruct (MakeInodeId_fields typ shard id Ht Hs Hi) as (HT & HS & _).
    split; [done|]. split; [done|]. intros typ' shard' id' Ht' Hs' Hi' Heq.
    destruct (MakeInodeId_fields typ' shard' id' Ht' Hs' Hi') as (HT' & HS' & _).
    rewrite Heq, HT' in HT. rewrite Heq, HS' in HS. apply Ok_inj in HT.
    rewrite (MakeInodeId_word typ shard id Ht Hs Hi), (MakeInodeId_word typ' shard' id' Ht' Hs' Hi') in Heq.
    lia.
  - intros shard replica Hs Hr. unfold is_u8 in *.
    unfold ShardReplicaId_Shard, ShardReplicaId_Replica, MakeShardReplicaId, wrap16.
    rewrite (Z.mod_small (Z.shiftl replica 8)) by (rewrite Z.shiftl_mul_pow2; lia).
    split; [apply (pack_low replica shard 8) | apply (pack_high replica shard 8)]; lia.
Qed.

(** The encodings of the policies. [MkParity] accepts one to fifteen data
    blocks and at most fifteen parity blocks, with a parity block whenever
    there is more than one data block, and panics otherwise; the byte gives
    both counts back. The active snapshot limits give back the duration and
    the number of versions they were made from, and the inactive ones are
    inactive. *)
Theorem policy_encodings (d p : Z) :
  is_u8 d -> is_u8 p ->
  (1 <= d <= 15 /\ p <= 15 /\ (d = 1 \/ 1 <= p) ->
     exists parity, MkParity d p = Ok parity /\ is_u8 parity /\
       DataBlocks parity = d /\ ParityBlocks parity = p /\ Blocks parity = d + p) /\
  (~ (1 <= d <= 15 /\ p <= 15 /\ (d = 1 \/ 1 <= p)) -> MkParity d p = Panic) /\
  (forall t, 0 <= t < 2 ^ 63 -> exists dat, ActiveDeleteAfterTime t = Ok dat /\
     DeleteAfterTime_Active dat = true /\ DeleteAfterTime_Time dat = t) /\
  (forall v, 0 <= v < 2 ^ 15 -> exists dav, ActiveDeleteAfterVersions v = Ok dav /\
     DeleteAfterVersions_Active dav = true /\ DeleteAfterVersions_Versions dav = v) /\
  DeleteAfterTime_Active InactiveDeleteAfterTime = false /\
  DeleteAfterVersions_Active InactiveDeleteAfterVersions = false.
Proof.
  unfold is_u8. intros Hd Hp. split; [|split; [|split; [|split; [|done]]]].
  - intros (H1 & H2 & H3). exists (Z.lor (Z.shiftl p 4) d).
    unfold MkParity, wrap8, Blocks, DataBlocks, ParityBlocks.
    rewrite (Z.mod_small (Z.shiftl p 4)), (Z.lor_comm d) by (rewrite Z.shiftl_mul_pow2; lia).
    pose proof (pack_low p d 4 ltac:(lia) ltac:(lia)) as HL. change (Z.ones 4) with 15 in HL.
    rewrite HL, pack_high by lia. rewrite pack_add by lia.
    repeat case_match; first [lia | split_and?; done || lia].
  - intros H. unfold MkParity. repeat case_match; done || lia.
  - intros t Ht. exists (Z.lor (Z.shiftl 1 63) t). unfold ActiveDeleteAfterTime, DeleteAfterTime_Active, DeleteAfterTime_Time.
    destruct (flagged t 63 ltac:(lia) Ht) as (_ & H1 & _ & H3). rewrite Z.lor_comm, H1, H3.
    destruct (Z.ltb_spec t 0); [lia | done].
  - intros v Hv. exists (Z.lor (Z.shiftl 1 15) v). unfold ActiveDeleteAfterVersions, DeleteAfterVersions_Active, DeleteAfterVersions_Versions.
    destruct (flagged v 15 ltac:(lia) Hv) as (_ & H1 & _ & H3). rewrite Z.lor_comm, H1, H3.
    destruct (Z.ltb_spec v 0); [lia | done].
Qed.

Lemma policy_encodings_witness :
  exists parity, MkParity 10 4 = Ok parity /\ is_u8 parity /\
    DataBlocks parity = 10 /\ ParityBlocks parity = 4 /\ Blocks parity = 14.
Proof. apply (policy_encodings 10 4); unfold is_u8; lia. Defined.

Lemma packed_ids_roundtrip_witness :
  InodeId_Type (MakeInodeId FILE 7 1000) = Ok FILE /\ InodeIdExtra_Extra (MakeInodeIdExtra 5 true) = true.
Proof.
  split; [apply (proj1 packed_ids_roundtrip) | apply (proj1 (proj2 packed_ids_roundtrip))];
    unfold is_u8, FILE; lia.
Defined.

(** * Picking an entry *)

Lemma last_index_spec {A} (p : A -> bool) (l : list A) (n : nat) : (n <= length l)%nat ->
  match last_index p l n with
  | Some i => (i < n)%nat /\ (exists x, l !! i = Some x /\ p x = true) /\
      forall j x, (i < j < n)%nat -> l !! j = Some x -> p x = false
  | None => forall j x, (j < n)%nat -> l !! j = Some x -> p x = false
  end.
Proof.
  induction n as [|n IH]; simpl; [intros _ j x; lia|]. intros Hn.
  destruct (lookup_lt_is_Some_2 l n ltac:(lia)) as [x Hx]. rewrite Hx. destruct (p x) eqn:Hp.
  - split_and!; [lia | eauto | lia].
  - specialize (IH ltac:(lia)). destruct (last_index p l n) as [i|].
    + destruct IH as (Hi & He & Hj). split_and!; [lia | done |]. intros j y Hjn Hy.
      destruct (decide (j = n)) as [->|]; [congruence | apply (Hj j); [lia | done]].
    + intros j y Hjn Hy. destruct (decide (j = n)) as [->|]; [congruence | apply (IH j); [lia | done]].
Qed.

Lemma index_Some {E A} (l : list A) (i : nat) (x : A) : l !! i = Some x -> @index E A l i = Ok x.
Proof. unfold index. by intros ->. Qed.

(** The entries are sorted by size limit, as the directory policies are. *)
Definition sorted_by {A} (f : A -> Z) (l : list A) : Prop :=
  forall i j x y, (i < j)%nat -> l !! i = Some x -> l !! j = Some y -> f x <= f y.

Lemma BlockPolicy_Pick_spec (p : BlockPolicy) (size : Z) : size <= MAX_BLOCK_SIZE -> BlockPolicy_Entries p <> [] ->
  exists i e, BlockPolicy_Pick p size = Ok e /\ BlockPolicy_Entries p !! i = Some e /\
    (i = 0%nat \/ BlockPolicyEntry_MinSize e < size) /\
    forall j e', (i < j)%nat -> BlockPolicy_Entries p !! j = Some e' -> size <= BlockPolicyEntry_MinSize e'.
Proof.
  intros Hsize Hne. unfold BlockPolicy_Pick. destruct (Z.ltb_spec MAX_BLOCK_SIZE size); [lia|].
  set (entries := BlockPolicy_Entries p) in *.
  pose proof (last_index_spec (fun e => BlockPolicyEntry_MinSize e <? size) entries (length entries) ltac:(lia)) as Hspec.
  destruct (last_index _ _ _) as [i|].
  - destruct Hspec as (Hi & (e & He & Hp) & Hj). exists i, e. rewrite (index_Some _ _ _ He).
    split_and!; [done | done | lia |]. intros j e' Hij He'. pose proof (lookup_lt_Some _ _ _ He').
    specialize (Hj j e' ltac:(lia) He'). lia.
  - destruct entries as [|e rest] eqn:Hent; [done|]. exists 0%nat, e. split_and!; [done | done | lia |].
    intros j e' Hj He'. pose proof (lookup_lt_Some _ _ _ He'). specialize (Hspec j e' ltac:(lia) He'). lia.
Qed.

Lemma SpanPolicy_Pick_spec (p : SpanPolicy) (size : Z) (e0 : SpanPolicyEntry) :
  sorted_by SpanPolicyEntry_MaxSize (SpanPolicy_Entries p) ->
  last (SpanPolicy_Entries p) = Some e0 -> size <= SpanPolicyEntry_MaxSize e0 ->
  exists e, SpanPolicy_Pick p size = Ok e /\ e ∈ SpanPolicy_Entries p /\ size <= SpanPolicyEntry_MaxSize e /\
    forall e', e' ∈ SpanPolicy_Entries p -> size <= SpanPolicyEntry_MaxSize e' ->
      SpanPolicyEntry_MaxSize e <= SpanPolicyEntry_MaxSize e'.
Proof.
  intros Hsort Hlast Hsize. unfold SpanPolicy_Pick. set (entries := SpanPolicy_Entries p) in *.
  rewrite last_lookup in Hlast. replace (pred (length entries)) with (length entries - 1)%nat in Hlast by lia.
  pose proof (lookup_lt_Some _ _ _ Hlast). rewrite (index_Some _ _ _ Hlast). simpl.
  destruct (decide (length entries = 0%nat)); [lia|]. destruct (Z.ltb_spec (SpanPolicyEntry_MaxSize e0) size); [lia|].
  pose proof (last_index_spec (fun e => SpanPolicyEntry_MaxSize e <? size) entries (length entries - 1) ltac:(lia)) as Hspec.
  assert (Hpick : forall i e, entries !! i = Some e -> size <= SpanPolicyEntry_MaxSize e ->
    (forall j x, (j < i)%nat -> entries !! j = Some x -> SpanPolicyEntry_MaxSize x < size) ->
    exists e, index (E:=unit) entries i = Ok e /\ e ∈ entries /\ size <= SpanPolicyEntry_MaxSize e /\
      forall e', e' ∈ entries -> size <= SpanPolicyEntry_MaxSize e' -> SpanPolicyEntry_MaxSize e <= SpanPolicyEntry_MaxSize e').
  { intros i e Hi He Hlow. exists e. rewrite (index_Some _ _ _ Hi). split_and!; [done | by eapply list_elem_of_lookup_2 | done |].
    intros e' [j Hj]%list_elem_of_lookup Hsz. destruct (lt_eq_lt_dec i j) as [[?| ->]|Hlt]; [by eapply Hsort | simplify_eq; lia |].
    specialize (Hlow j e' Hlt Hj). lia. }
  destruct (last_index _ _ _) as [i|].
  - destruct Hspec as (Hi & (e & He & Hp) & Hj).
    destruct (lookup_lt_is_Some_2 entries (i + 1) ltac:(lia)) as [e1 He1]. apply (Hpick (i + 1)%nat e1 He1).
    + destruct (decide (i + 1 = length entries - 1)%nat) as [Heq|]; [rewrite Heq in He1; simplify_eq; lia|].
      specialize (Hj (i + 1)%nat e1 ltac:(lia) He1). lia.
    + intros j x Hji Hx. destruct (decide (j = i)) as [->|]; [simplify_eq; lia|].
      specialize (Hsort j i x e ltac:(lia) Hx He). lia.
  - destruct (lookup_lt_is_Some_2 entries 0 ltac:(lia)) as [e1 He1]. apply (Hpick 0%nat e1 He1); [|intros; lia].
    destruct (decide (length entries - 1 = 0)%nat) as [Heq|]; [rewrite Heq in Hlast; simplify_eq; lia|].
    specialize (Hspec 0%nat e1 ltac:(lia) He1). lia.
Qed.

(** The policies pick the entry they describe. A block of at most the
    maximum size gets the last entry whose [MinSize] lies strictly below it,
    and the first entry when none does; a span policy sorted by [MaxSize] gives
    the smallest entry that holds the span; both panic beyond the maximum and
    on an empty policy. The number of stripes is the size over the target,
    clamped to one to fifteen. *)
Theorem policy_picks (bp : BlockPolicy) (sp : SpanPolicy) (st : StripePolicy) (size : Z) :
  0 <= size < 2 ^ 32 -> sorted_by SpanPolicyEntry_MaxSize (SpanPolicy_Entries sp) ->
  (if decide (size <= MAX_BLOCK_SIZE /\ BlockPolicy_Entries bp <> []) then
     exists i e, BlockPolicy_Pick bp size = Ok e /\ BlockPolicy_Entries bp !! i = Some e /\
       (i = 0%nat \/ BlockPolicyEntry_MinSize e < size) /\
       forall j e', (i < j)%nat -> BlockPolicy_Entries bp !! j = Some e' -> size <= BlockPolicyEntry_MinSize e'
   else BlockPolicy_Pick bp size = Panic) /\
  match last (SpanPolicy_Entries sp) with
  | Some e0 =>
    if decide (size <= SpanPolicyEntry_MaxSize e0) then
      exists e, SpanPolicy_Pick sp size = Ok e /\ e ∈ SpanPolicy_Entries sp /\ size <= SpanPolicyEntry_MaxSize e /\
        forall e', e' ∈ SpanPolicy_Entries sp -> size <= SpanPolicyEntry_MaxSize e' ->
          SpanPolicyEntry_MaxSize e <= SpanPolicyEntry_MaxSize e'
    else SpanPolicy_Pick sp size = Panic
  | None => SpanPolicy_Pick sp size = Panic
  end /\
  (0 < StripePolicy_TargetStripeSize st -> exists s, StripePolicy_Stripes st size = Ok s /\ 1 <= s <= 15 /\
     (1 <= size / StripePolicy_TargetStripeSize st <= 15 -> s = size / StripePolicy_TargetStripeSize st)).
Proof.
  intros Hsize Hsort. split; [|split].
  - case_decide as Hok; [apply BlockPolicy_Pick_spec; apply Hok|]. unfold BlockPolicy_Pick.
    destruct (Z.ltb_spec MAX_BLOCK_SIZE size); [done|].
    destruct (BlockPolicy_Entries bp) as [|e l]; [done | destruct Hok; by split].
  - destruct (last (SpanPolicy_Entries sp)) as [e0|] eqn:Hlast.
    + case_decide as Hok; [by eapply SpanPolicy_Pick_spec|]. unfold SpanPolicy_Pick. rewrite last_lookup in Hlast.
      replace (pred (length (SpanPolicy_Entries sp))) with (length (SpanPolicy_Entries sp) - 1)%nat in Hlast by lia.
      case_decide; [done|]. rewrite (index_Some _ _ _ Hlast). simpl. by destruct (Z.ltb_spec (SpanPolicyEntry_MaxSize e0) size); [|lia].
    + apply last_None in Hlast. unfold SpanPolicy_Pick. by rewrite Hlast.
  - intros Ht. unfold StripePolicy_Stripes. destruct (Z.eqb_spec (StripePolicy_TargetStripeSize st) 0); [lia|].
    eexists. split; [done|]. unfold wrap8. generalize (size / StripePolicy_TargetStripeSize st). intros s.
    repeat case_match; (rewrite Z.mod_small by lia); lia.
Qed.

Lemma policy_picks_witness :
  exists e, SpanPolicy_Pick (mkSpanPolicy [mkSpanPolicyEntry 100 17; mkSpanPolicyEntry 1000 74]) 500 = Ok e /\
    500 <= SpanPolicyEntry_MaxSize e.
Proof.
  set (sp := mkSpanPolicy [mkSpanPolicyEntry 100 17; mkSpanPolicyEntry 1000 74]).
  assert (Hsort : sorted_by SpanPolicyEntry_MaxSize (SpanPolicy_Entries sp)).
  { intros i j x y Hij Hx Hy. destruct i as [|[|i]], j as [|[|j]]; simplify_eq/=; lia. }
  destruct (policy_picks (mkBlockPolicy []) sp (mkStripePolicy 1) 500 ltac:(lia) Hsort) as (_ & Hspan & _).
  destruct Hspan as (e & He & _ & Hle & _). by exists e.
Defined.

(** [SnapshotPolicy.UnmarshalJSON] reads a number of versions up to 32767
    as that number, and panics on the other values of the [uint16] it decodes
    instead of returning an error, whatever the rest of the specification. *)
Theorem snapshot_policy_versions (ParseDuration : list byte -> option Z) (v : Z) (time : option (list byte)) :
  is_u16 v ->
  (v < 2 ^ 15 -> exists dav, SnapshotPolicy_UnmarshalJSON ParseDuration (Some v) None = Ok (mkSnapshotPolicy 0 dav) /\
     DeleteAfterVersions_Active dav = true /\ DeleteAfterVersions_Versions dav = v) /\
  (2 ^ 15 <= v -> SnapshotPolicy_UnmarshalJSON ParseDuration (Some v) time = Panic).
Proof.
  unfold is_u16, SnapshotPolicy_UnmarshalJSON, ActiveDeleteAfterVersions, to_signed. intros Hv.
  rewrite (Z.mod_small v) by lia. split; intros Hlt; case_decide; try lia; cbn -[Z.pow Z.shiftl Z.lor].
  - destruct (Z.ltb_spec v 0); [lia|]. eexists. split; [done|].
    destruct (flagged v 15 ltac:(lia) ltac:(lia)) as (_ & H1 & _ & H3).
    unfold DeleteAfterVersions_Active, DeleteAfterVersions_Versions. by rewrite Z.lor_comm, H1, H3.
  - by destruct (Z.ltb_spec (v - 2 ^ 16) 0); [|lia].
Qed.

Lemma snapshot_policy_versions_witness : SnapshotPolicy_UnmarshalJSON (fun _ => None) (Some 40000) None = Panic.
Proof. apply (snapshot_policy_versions (fun _ => None) 40000 None); unfold is_u16; lia. Defined.
