(* ===== verification/SnapshotCollector.v ===== *)
(** The directory collector: src/go/cleanup/policy.go ([edgesToRemove]) and the
    collection of one directory in src/go/cleanup/collectdirectories.go
    ([HardUnlinkFile], [applyPolicy], [CollectDirectory]).

    The shards and the CDC are parameters: a call gives the request and takes
    the answer. The clock reading of each [applyPolicy] and the iteration order
    of the map of names are parameters too. Logging and the statistics counters
    other than the destructed directories are left out. *)

From Stdlib Require Import ZArith Lia.
From stdpp Require Import base numbers option gmap list.
From S2P Require Import Prelude Bincode Messages Ids.

(** * The edges to remove *)

Definition edge_deleted (e : Edge) : bool := InodeIdExtra_Id (Edge_TargetId e) =? NULL_INODE_ID.

(** [now.Time().Sub(edge.CreationTime.Time())]. *)
Definition edge_age (now : Z) (e : Edge) : Z := Time_Sub (TernTime_Time now) (TernTime_Time (Edge_CreationTime e)).

(** There is at most one current edge, and it is the last one. *)
Fixpoint current_trails (edges : list Edge) : bool :=
  match edges with
  | [] => true
  | e :: rest => (negb (Edge_Current e) || match rest with [] => true | _ => false end) && current_trails rest
  end.

Definition same_name (edges : list Edge) : bool :=
  match edges with
  | [] => true
  | e0 :: _ => forallb (fun e => bool_decide (Edge_Name e = Edge_Name e0)) edges
  end.

(** Creation times ascend, the current edges of shard 0 apart. *)
Fixpoint times_ascend (dir : Z) (prev : Edge) (edges : list Edge) : bool :=
  match edges with
  | [] => true
  | e :: rest =>
    ((InodeId_Shard dir =? 0) && Edge_Current e || negb (Edge_CreationTime e <? Edge_CreationTime prev)) &&
    times_ascend dir e rest
  end.

(** [lastNonCurrentEdge + 1]. *)
Definition snapshot_count (edges : list Edge) : nat :=
  match last edges with
  | Some e => if Edge_Current e then length edges - 1 else length edges
  | None => 0
  end.

(** The loop on [firstGoodEdgeVersions], which is [n - 1] at the head. *)
Fixpoint versions_loop (edges : list Edge) (now minEdgeAge versions : Z) (n : nat) (versionNumber : Z) : outcome unit Z :=
  match n with
  | O => Ok (-1)
  | S i =>
    let! edge := index edges i in
    if Edge_Current edge then Panic
    else if edge_deleted edge then versions_loop edges now minEdgeAge versions i versionNumber
    else if (versions <=? versionNumber) && (minEdgeAge <? edge_age now edge) then Ok (Z.of_nat i + 1)
    else versions_loop edges now minEdgeAge versions i (versionNumber + 1)
  end.

(** The loop on [firstGoodEdgeTime], which is [n - 1] at the head. *)
Fixpoint time_loop (edges : list Edge) (now minEdgeAge time : Z) (n : nat) : outcome unit Z :=
  match n with
  | O => Ok (-1)
  | S i =>
    let! edge := index edges i in
    if Edge_Current edge then Panic
    else if Z.max time minEdgeAge <? edge_age now edge then
      if InodeIdExtra_Extra (Edge_TargetId edge) || (negb (edge_deleted edge) && (Z.of_nat i <? Z.of_nat (length edges) - 1)) then
        let! nextEdge := index edges (i + 1) in
        if time <? edge_age now nextEdge then Ok (Z.of_nat i + 1) else Ok (Z.of_nat i)
      else Ok (Z.of_nat i + 1)
    else time_loop edges now minEdgeAge time i
  end.

(** Removes the delete edges at the front of the edges that are left. *)
Fixpoint skip_deletes (rest : list Edge) (firstGoodEdge : nat) : nat :=
  match rest with
  | e :: rest => if edge_deleted e then skip_deletes rest (S firstGoodEdge) else firstGoodEdge
  | [] => firstGoodEdge
  end.

Definition edgesToRemove (dir : Z) (policy : SnapshotPolicy) (now : Z) (edges : list Edge) (minEdgeAge : Z) : outcome unit nat :=
  match edges with
  | [] => Ok 0%nat
  | e0 :: edges' =>
    if negb (current_trails edges) then Panic
    else if negb (same_name edges) then Panic
    else if negb (times_ascend dir e0 edges') then Panic
    else
      let dav := SnapshotPolicy_DeleteAfterVersions policy in
      let dat := SnapshotPolicy_DeleteAfterTime policy in
      let! firstGoodEdgeVersions :=
        if DeleteAfterVersions_Active dav then
          versions_loop edges now minEdgeAge (DeleteAfterVersions_Versions dav) (snapshot_count edges) 0
        else Ok 0 in
      let! firstGoodEdgeTime :=
        if DeleteAfterTime_Active dat then
          time_loop edges now minEdgeAge (DeleteAfterTime_Time dat) (snapshot_count edges)
        else Ok 0 in
      let firstGoodEdge := if firstGoodEdgeVersions <? firstGoodEdgeTime then firstGoodEdgeTime else firstGoodEdgeVersions in
      let firstGoodEdge := Z.to_nat (if firstGoodEdge <? 0 then 0 else firstGoodEdge) in
      Ok (skip_deletes (drop firstGoodEdge edges) firstGoodEdge)
  end.

(** * Collecting a directory *)

Inductive rpc_error :=
| FILE_NOT_FOUND
| OTHER_ERROR (code : Z).

(** The requests that change the file system. *)
Inductive request :=
| SameShardHardFileUnlink (OwnerId TargetId : Z) (Name : list byte) (CreationTime : Z)
| CrossShardHardUnlinkFile (OwnerId TargetId : Z) (Name : list byte) (CreationTime : Z)
| RemoveNonOwnedEdge (DirId TargetId : Z) (Name : list byte) (CreationTime : Z)
| HardUnlinkDirectory (DirId : Z).

(** The shards and the CDC: a state of their own, the answers to the requests
    that change it, to the listing and to the stat of a directory. *)
Record Servers (W : Type) := mkServers {
  call : W -> request -> W * option rpc_error;
  full_read_dir : W -> FullReadDirReq -> W * outcome rpc_error FullReadDirResp;
  stat_directory_owner : W -> Z -> W * outcome rpc_error Z;
}.
Arguments call {W} _ _ _.
Arguments full_read_dir {W} _ _ _.
Arguments stat_directory_owner {W} _ _ _.

(** The edges of a directory by name. *)
Abbreviation DirEdges := (gmap (list byte) (list Edge)).

Section collector.
Context {W : Type} (srv : Servers W).

(** The request [HardUnlinkFile] sends. *)
Definition HardUnlinkFile (dirId fileId : Z) (name : list byte) (creationTime : Z) : request :=
  if InodeId_Shard dirId =? InodeId_Shard fileId then SameShardHardFileUnlink dirId fileId name creationTime
  else CrossShardHardUnlinkFile dirId fileId name creationTime.

(** The request that removes one edge. *)
Definition removal (dirId : Z) (edge : Edge) : outcome rpc_error request :=
  if Edge_Current edge then Panic
  else
    let target := InodeIdExtra_Id (Edge_TargetId edge) in
    if InodeIdExtra_Extra (Edge_TargetId edge) then
      match InodeId_Type target with
      | Ok typ =>
        if typ =? DIRECTORY then Panic
        else Ok (HardUnlinkFile dirId target (Edge_Name edge) (Edge_CreationTime edge))
      | _ => Panic
      end
    else Ok (RemoveNonOwnedEdge dirId target (Edge_Name edge) (Edge_CreationTime edge)).

(** The loop of [applyPolicy]; the list is the requests sent. *)
Fixpoint apply_edges (w : W) (dirId : Z) (edges : list Edge) : W * list request * outcome rpc_error unit :=
  match edges with
  | [] => (w, [], Ok tt)
  | edge :: rest =>
    match removal dirId edge with
    | Ok req =>
      let '(w, err) := call srv w req in
      match err with
      | Some (OTHER_ERROR code) => (w, [req], Err (OTHER_ERROR code))
      | _ =>
        let '(w, sent, r) := apply_edges w dirId rest in
        (w, req :: sent, r)
      end
    | Err e => (w, [], Err e)
    | Panic => (w, [], Panic)
    end
  end.

(** Returns whether all the edges were removed. *)
Definition applyPolicy (w : W) (dirId : Z) (policy : SnapshotPolicy) (now : Z) (edges : list Edge) (minEdgeAge : Z)
    : W * list request * outcome rpc_error bool :=
  if decide (length edges = 0)%nat then (w, [], Panic) (* edges[0].Name *)
  else
    match edgesToRemove dirId policy now edges minEdgeAge with
    | Ok toCollect =>
      match sub (E:=rpc_error) edges 0 toCollect with
      | Ok doomed =>
        let '(w, sent, r) := apply_edges w dirId doomed in
        (w, sent, let! _ := r in Ok (bool_decide (toCollect = length edges)))
      | _ => (w, [], Panic)
      end
    | _ => (w, [], Panic)
    end.

Definition add_result (dirEdges : DirEdges) (result : Edge) : DirEdges :=
  <[Edge_Name result := default [] (dirEdges !! Edge_Name result) ++ [result]]> dirEdges.

Definition FULL_READ_DIR_CURRENT : Z := 1.

Definition next_request (req : FullReadDirReq) (next : FullReadDirCursor) : FullReadDirReq :=
  mkFullReadDirReq (FullReadDirReq_DirId req)
    (if FullReadDirCursor_Current next then FULL_READ_DIR_CURRENT else 0)
    (FullReadDirCursor_StartName next) (FullReadDirCursor_StartTime next)
    (FullReadDirReq_Limit req) (FullReadDirReq_Mtu req).

(** The listing loop. The error [None] stands for a listing longer than the fuel. *)
Fixpoint read_edges (fuel : nat) (w : W) (req : FullReadDirReq) (dirEdges : DirEdges) : W * outcome (option rpc_error) DirEdges :=
  match fuel with
  | O => (w, Err None)
  | S fuel =>
    let '(w, r) := full_read_dir srv w req in
    match r with
    | Ok resp =>
      let dirEdges := foldl add_result dirEdges (FullReadDirResp_Results resp) in
      if decide (FullReadDirCursor_StartName (FullReadDirResp_Next resp) = []) then (w, Ok dirEdges)
      else read_edges fuel w (next_request req (FullReadDirResp_Next resp)) dirEdges
    | Err e => (w, Err (Some e))
    | Panic => (w, Panic)
    end
  end.

(** The loop on the names, in the order the map gives them; the boolean is [hasEdges]. *)
Fixpoint apply_names (w : W) (dirId : Z) (policy : SnapshotPolicy) (clock : list byte -> Z) (minEdgeAge : Z)
    (dirEdges : DirEdges) (names : list (list byte)) (hasEdges : bool) : W * list request * outcome rpc_error bool :=
  match names with
  | [] => (w, [], Ok hasEdges)
  | name :: names =>
    match dirEdges !! name with
    | None => apply_names w dirId policy clock minEdgeAge dirEdges names hasEdges
    | Some edges =>
      let '(w, sent, r) := applyPolicy w dirId policy (clock name) edges minEdgeAge in
      match r with
      | Ok allRemoved =>
        let '(w, sent', r') :=
          apply_names w dirId policy clock minEdgeAge dirEdges names (hasEdges || negb allRemoved) in
        (w, sent ++ sent', r')
      | Err e => (w, sent, Err e)
      | Panic => (w, sent, Panic)
      end
    end
  end.

(** The removal of a directory left without edges and owner. *)
Definition destruct_directory (w : W) (dirId : Z) : W * list request * outcome rpc_error unit :=
  let '(w, r) := stat_directory_owner srv w dirId in
  match r with
  | Ok owner =>
    if owner =? NULL_INODE_ID then
      let '(w, err) := call srv w (HardUnlinkDirectory dirId) in
      (w, [HardUnlinkDirectory dirId], match err with Some e => Err e | None => Ok tt end)
    else (w, [], Ok tt)
  | Err e => (w, [], Err e)
  | Panic => (w, [], Panic)
  end.

(** [CollectDirectory] from the resolved policy on; [order] lists the keys of
    the map of names in its iteration order. *)
Definition CollectDirectory (fuel : nat) (w : W) (dirId : Z) (policy : SnapshotPolicy) (clock : list byte -> Z)
    (minEdgeAge : Z) (order : DirEdges -> list (list byte)) : W * list request * outcome (option rpc_error) unit :=
  let '(w, r) := read_edges fuel w (mkFullReadDirReq dirId 0 [] 0 0 0) ∅ in
  match r with
  | Ok dirEdges =>
    let '(w, sent, r) := apply_names w dirId policy clock minEdgeAge dirEdges (order dirEdges) false in
    match r with
    | Ok hasEdges =>
      if negb hasEdges && negb (dirId =? ROOT_DIR_INODE_ID) then
        let '(w, sent', r') := destruct_directory w dirId in
        (w, sent ++ sent', match r' with Ok _ => Ok tt | Err e => Err (Some e) | Panic => Panic end)
      else (w, sent, Ok tt)
    | Err e => (w, sent, Err (Some e))
    | Panic => (w, sent, Panic)
    end
  | Err e => (w, [], Err e)
  | Panic => (w, [], Panic)
  end.

End collector.

(** * The policy *)

(** What [edgesToRemove] checks of its input. *)
Definition edges_ordered (dir : Z) (edges : list Edge) : bool :=
  match edges with
  | [] => true
  | e0 :: edges' => current_trails edges && same_name edges && times_ascend dir e0 edges'
  end.

(** Creation times are nanoseconds that fit an [int64]. *)
Definition valid_times (edges : list Edge) : Prop :=
  Forall (fun e => 0 <= Edge_CreationTime e < 2 ^ 63) edges.

(** An owned snapshot edge is always followed by the edge that overrode it. *)
Definition owned_overridden (edges : list Edge) : Prop :=
  forall e, last edges = Some e -> Edge_Current e = false -> InodeIdExtra_Extra (Edge_TargetId e) = false.

Definition is_version (e : Edge) : bool := negb (edge_deleted e) && negb (Edge_Current e).

Definition count_versions (edges : list Edge) : Z := Z.of_nat (length (base.filter (fun e => is_version e = true) edges)).

Arguments DeleteAfterTime_Time : simpl never.
Arguments DeleteAfterTime_Active : simpl never.
Arguments DeleteAfterVersions_Versions : simpl never.
Arguments DeleteAfterVersions_Active : simpl never.
Arguments InodeIdExtra_Extra : simpl never.
Arguments edge_age : simpl never.
Arguments edge_deleted : simpl never.

Section policy.
Context (policy : SnapshotPolicy) (now minEdgeAge : Z) (edges : list Edge).

(** [DeleteAfterVersions] newer versions exist, and the edge is old enough. *)
Definition by_versions (i : nat) (e : Edge) : Prop :=
  DeleteAfterVersions_Active (SnapshotPolicy_DeleteAfterVersions policy) = true /\
  DeleteAfterVersions_Versions (SnapshotPolicy_DeleteAfterVersions policy) <= count_versions (drop (S i) edges) /\
  minEdgeAge < edge_age now e.

(** The edge is old enough, and was overridden more than [DeleteAfterTime] ago
    if it was at all. *)
Definition by_time (i : nat) (e : Edge) : Prop :=
  let time := DeleteAfterTime_Time (SnapshotPolicy_DeleteAfterTime policy) in
  DeleteAfterTime_Active (SnapshotPolicy_DeleteAfterTime policy) = true /\
  Z.max time minEdgeAge < edge_age now e /\
  forall next, edges !! S i = Some next -> time < edge_age now next.

End policy.

Lemma count_versions_cons (e : Edge) (l : list Edge) :
  count_versions (e :: l) = (if is_version e then 1 else 0) + count_versions l.
Proof.
  unfold count_versions. rewrite filter_cons. destruct (is_version e) eqn:H; case_decide; try congruence; simpl; lia.
Qed.

Lemma count_versions_none (l : list Edge) : Forall (fun e => is_version e = false) l -> count_versions l = 0.
Proof. induction 1 as [|e l He _ IH]; [done|]. by rewrite count_versions_cons, He. Qed.

Lemma count_versions_drop (l : list Edge) (i j : nat) : (i <= j)%nat ->
  count_versions (drop j l) <= count_versions (drop i l).
Proof.
  intros Hij. replace (drop j l) with (drop (j - i) (drop i l)) by (rewrite drop_drop; f_equal; lia).
  generalize (drop i l) (j - i)%nat. clear. intros l. induction l as [|e l IH]; intros [|n]; simpl; try done.
  rewrite count_versions_cons. specialize (IH n). case_match; lia.
Qed.

Lemma current_trails_inner (edges : list Edge) (i : nat) (e : Edge) : current_trails edges = true ->
  edges !! i = Some e -> (S i < length edges)%nat -> Edge_Current e = false.
Proof.
  revert i. induction edges as [|e0 l IH]; intros i Ht Hi Hlen; [done|]. simpl in Ht. reflect_bools.
  destruct i as [|i]; simplify_eq/=; [|apply (IH i); [done | done | lia]].
  destruct l; [simpl in Hlen; lia | by destruct (Edge_Current e)].
Qed.

Lemma snapshot_count_spec (edges : list Edge) (i : nat) (e : Edge) : current_trails edges = true ->
  edges !! i = Some e -> (i < snapshot_count edges)%nat <-> Edge_Current e = false.
Proof.
  intros Ht Hi. pose proof (lookup_lt_Some _ _ _ Hi). unfold snapshot_count.
  destruct (last edges) as [el|] eqn:Hl; [|apply last_None in Hl; by subst].
  rewrite last_lookup in Hl. destruct (decide (S i = length edges)) as [Hlast|].
  - rewrite <- Hlast in Hl. simpl in Hl. rewrite Hi in Hl. injection Hl as <-. destruct (Edge_Current e); split; intros; try done; lia.
  - rewrite (current_trails_inner edges i e Ht Hi) by lia. case_match; split; intros; try done; lia.
Qed.

Lemma snapshot_count_le (edges : list Edge) : (snapshot_count edges <= length edges)%nat.
Proof. unfold snapshot_count. repeat case_match; lia. Qed.

Lemma times_ascend_next (dir : Z) (e0 : Edge) (l : list Edge) (i : nat) (e e' : Edge) :
  times_ascend dir e0 l = true -> (e0 :: l) !! i = Some e -> (e0 :: l) !! S i = Some e' -> Edge_Current e' = false ->
  Edge_CreationTime e <= Edge_CreationTime e'.
Proof.
  revert e0 i. induction l as [|e1 l IH]; intros e0 i Ht Hi Hi' Hc; [done|]. simpl in Ht. reflect_bools.
  destruct i as [|i]; simplify_eq/=; [|by apply (IH e1 i)].
  rewrite Hc, andb_false_r in *. simpl in *. lia.
Qed.

Lemma edge_age_mono (now : Z) (e e' : Edge) : 0 <= Edge_CreationTime e < 2 ^ 63 -> 0 <= Edge_CreationTime e' < 2 ^ 63 ->
  Edge_CreationTime e <= Edge_CreationTime e' -> edge_age now e' <= edge_age now e.
Proof.
  intros H H' Hle. unfold edge_age, Time_Sub, TernTime_Time, to_signed.
  rewrite (Z.mod_small (Edge_CreationTime e)), (Z.mod_small (Edge_CreationTime e')) by lia.
  do 3 case_decide; lia.
Qed.

Section exactness.
Context (dir : Z) (policy : SnapshotPolicy) (now minEdgeAge : Z) (edges : list Edge).
Hypothesis Hordered : edges_ordered dir edges = true.
Hypothesis Htimes : valid_times edges.

Lemma ordered_trails : current_trails edges = true.
Proof using Hordered Htimes. destruct edges; [done|]. unfold edges_ordered in Hordered. by reflect_bools. Qed.

(** Older snapshot edges have the greater age. *)
Lemma ages_descend (i j : nat) (e e' : Edge) : (i <= j)%nat -> (j < snapshot_count edges)%nat ->
  edges !! i = Some e -> edges !! j = Some e' -> edge_age now e' <= edge_age now e.
Proof using Hordered Htimes.
  revert j e'. induction j as [|j IH]; intros e' Hij Hj Hi Hj'.
  { by replace i with 0%nat in Hi by lia; simplify_eq. }
  destruct (decide (i = S j)) as [->|]; [by simplify_eq|].
  pose proof (lookup_lt_Some _ _ _ Hj').
  destruct (lookup_lt_is_Some_2 edges j ltac:(lia)) as [ej Hej].
  specialize (IH ej ltac:(lia) ltac:(lia) Hi Hej). trans (edge_age now ej); [|done].
  apply edge_age_mono; [apply (Forall_lookup_1 _ _ _ _ Htimes Hej) | apply (Forall_lookup_1 _ _ _ _ Htimes Hj') |].
  pose proof ordered_trails as Ht. unfold edges_ordered in Hordered. destruct edges as [|e0 l] eqn:He; [done|].
  reflect_bools. eapply (times_ascend_next dir e0 l j); [done .. |]. by apply (snapshot_count_spec (e0 :: l) (S j)).
Qed.

Lemma version_lookup (i : nat) (e : Edge) : (i < snapshot_count edges)%nat -> edges !! i = Some e ->
  Edge_Current e = false /\ is_version e = negb (edge_deleted e).
Proof using Hordered Htimes.
  intros Hi He. pose proof (proj1 (snapshot_count_spec edges i e ordered_trails He) Hi) as Hc.
  split; [done|]. unfold is_version. rewrite Hc. apply andb_true_r.
Qed.

Lemma versions_loop_spec (n : nat) (vn : Z) :
  DeleteAfterVersions_Active (SnapshotPolicy_DeleteAfterVersions policy) = true ->
  (n <= snapshot_count edges)%nat -> vn = count_versions (drop n edges) ->
  exists z, versions_loop edges now minEdgeAge
      (DeleteAfterVersions_Versions (SnapshotPolicy_DeleteAfterVersions policy)) n vn = Ok z /\ -1 <= z <= Z.of_nat n /\
    forall i e, (i < n)%nat -> edges !! i = Some e -> edge_deleted e = false ->
      Z.of_nat i < z <-> by_versions policy now minEdgeAge edges i e.
Proof using Hordered Htimes.
  intros Hact. revert vn. induction n as [|n IH]; intros vn Hn ->; simpl.
  { eexists. split; [done|]. split; [lia | intros; lia]. }
  pose proof (snapshot_count_le edges).
  destruct (lookup_lt_is_Some_2 edges n ltac:(lia)) as [en Hen]. rewrite (index_Some _ _ _ Hen). simpl.
  destruct (version_lookup n en ltac:(lia) Hen) as [Hcur Hver]. rewrite Hcur.
  pose proof (drop_S edges en n Hen) as Hdrop.
  assert (Hcount : count_versions (drop n edges) = (if edge_deleted en then 0 else 1) + count_versions (drop (S n) edges)).
  { rewrite Hdrop, count_versions_cons, Hver. by destruct (edge_deleted en). }
  destruct (edge_deleted en) eqn:Hdel.
  - destruct (IH (count_versions (drop (S n) edges)) ltac:(lia) ltac:(lia)) as (z & Hz & Hb & Hiff).
    exists z. split; [done|]. split; [lia|]. intros i e Hi He Hd.
    destruct (decide (i = n)) as [->|]; [congruence | apply Hiff; [lia | done..]].
  - destruct (_ && _) eqn:Hc.
    + eexists. split; [done|]. split; [lia|]. intros i e Hi He Hd. split; [|lia]. intros _.
      reflect_bools. split; [done|].
      pose proof (count_versions_drop edges (S i) (S n) ltac:(lia)).
      pose proof (ages_descend i n e en ltac:(lia) ltac:(lia) He Hen). lia.
    + destruct (IH (count_versions (drop (S n) edges) + 1) ltac:(lia) ltac:(lia)) as (z & Hz & Hb & Hiff).
      exists z. split; [done|]. split; [lia|]. intros i e Hi He Hd.
      destruct (decide (i = n)) as [->|]; [|apply Hiff; [lia | done..]]. simplify_eq.
      split; [lia|]. intros (_ & Hv & Ha). lia.
Qed.

Lemma time_loop_spec (n : nat) :
  DeleteAfterTime_Active (SnapshotPolicy_DeleteAfterTime policy) = true ->
  owned_overridden edges -> (n <= snapshot_count edges)%nat ->
  exists z, time_loop edges now minEdgeAge
      (DeleteAfterTime_Time (SnapshotPolicy_DeleteAfterTime policy)) n = Ok z /\ -1 <= z <= Z.of_nat n /\
    forall i e, (i < n)%nat -> edges !! i = Some e -> edge_deleted e = false ->
      Z.of_nat i < z <-> by_time policy now minEdgeAge edges i e.
Proof using Hordered Htimes.
  intros Hact Hown. induction n as [|n IH]; intros Hn; cbn [time_loop].
  { eexists. split; [done|]. split; [lia | intros; lia]. }
  set (time := DeleteAfterTime_Time _) in *. pose proof (snapshot_count_le edges).
  destruct (lookup_lt_is_Some_2 edges n ltac:(lia)) as [en Hen]. rewrite (index_Some _ _ _ Hen). cbn [mbind outcome_bind].
  destruct (version_lookup n en ltac:(lia) Hen) as [Hcur _]. rewrite Hcur.
  destruct (Z.ltb_spec (Z.max time minEdgeAge) (edge_age now en)) as [Hold|Hyoung].
  2: { destruct (IH ltac:(lia)) as (z & Hz & Hb & Hiff). exists z. split; [done|]. split; [lia|].
       intros i e Hi He Hd. destruct (decide (i = n)) as [->|]; [|apply Hiff; [lia | done..]]. simplify_eq.
       split; [lia | intros (_ & Ha & _); fold time in Ha; lia]. }
  assert (Hbelow : forall i e, (i < n)%nat -> edges !! i = Some e -> by_time policy now minEdgeAge edges i e).
  { intros i e Hi He. pose proof (ages_descend i n e en ltac:(lia) ltac:(lia) He Hen).
    split; [done|]. fold time. split; [lia|]. intros next Hnext.
    pose proof (ages_descend (S i) n next en ltac:(lia) ltac:(lia) Hnext Hen). lia. }
  assert (Hresult : forall z, (z = Z.of_nat n \/ z = Z.of_nat n + 1) ->
    (edge_deleted en = false -> z = Z.of_nat n + 1 <-> by_time policy now minEdgeAge edges n en) ->
    -1 <= z <= Z.of_nat (S n) /\ forall i e, (i < S n)%nat -> edges !! i = Some e -> edge_deleted e = false ->
      Z.of_nat i < z <-> by_time policy now minEdgeAge edges i e).
  { intros z Hz Hn'. split; [lia|]. intros i e Hi He Hd. destruct (decide (i = n)) as [->|].
    - simplify_eq. rewrite <- Hn' by done. lia.
    - split; [intros _; apply Hbelow; [lia | done] | lia]. }
  assert (Hhere : by_time policy now minEdgeAge edges n en <-> forall next, edges !! S n = Some next -> time < edge_age now next).
  { split; [by intros (_ & _ & Hx) | intros Hx; repeat split; assumption]. }
  destruct (edges !! S n) as [next|] eqn:Hnext.
  - destruct (_ || _) eqn:Hcond.
    + replace (n + 1)%nat with (S n) by lia. rewrite (index_Some _ _ _ Hnext). simpl.
      destruct (Z.ltb_spec time (edge_age now next)); (eexists; split; [done|]; apply Hresult; [lia|]); intros _; rewrite Hhere.
      * split; [intros _ x Hx; by simplify_eq | done].
      * split; [lia | intros Hx; specialize (Hx next eq_refl); lia].
    + eexists. split; [done|]. apply Hresult; [lia|]. intros Hd. apply orb_false_iff in Hcond as [_ Hc].
      rewrite Hd in Hc. apply lookup_lt_Some in Hnext. lia.
  - apply lookup_ge_None in Hnext as Hlen.
    assert (Hext : InodeIdExtra_Extra (Edge_TargetId en) = false).
    { apply Hown; [|done]. rewrite last_lookup. by replace (pred (length edges)) with n by lia. }
    rewrite Hext. destruct (Z.ltb_spec (Z.of_nat n) (Z.of_nat (length edges) - 1)); [lia|].
    rewrite andb_false_r. simpl. eexists. split; [done|]. apply Hresult; [lia|]. intros _. rewrite Hhere.
    split; [intros _ x Hx; congruence | done].
Qed.

Lemma skip_deletes_spec (l : list Edge) (n : nat) :
  (n <= skip_deletes l n <= n + length l)%nat /\
  (forall i e, (n + i < skip_deletes l n)%nat -> l !! i = Some e -> edge_deleted e = true) /\
  (forall e, l !! (skip_deletes l n - n)%nat = Some e -> edge_deleted e = false).
Proof.
  clear. revert n. induction l as [|e l IH]; intros n; simpl; [split_and!; try lia; intros; done|].
  destruct (edge_deleted e) eqn:Hd.
  - destruct (IH (S n)) as (Hb & Hin & Hout). split_and!; [lia .. | |].
    + intros [|i] x Hi Hx; simplify_eq/=; [done | apply (Hin i); [lia | done]].
    + intros x Hx. apply Hout. by replace (skip_deletes l (S n) - n)%nat with (S (skip_deletes l (S n) - S n)) in Hx by lia.
  - split_and!; [lia .. | intros; lia |]. rewrite Nat.sub_diag. simpl. congruence.
Qed.

Lemma current_not_counted : count_versions (drop (snapshot_count edges) edges) = 0.
Proof using Hordered Htimes.
  apply count_versions_none, Forall_lookup_2. intros i e He.
  rewrite lookup_drop in He. pose proof (snapshot_count_spec edges _ e ordered_trails He) as Hc.
  unfold is_version. destruct (Edge_Current e); [by rewrite andb_false_r | lia].
Qed.

Lemma versions_bound :
  exists z, (if DeleteAfterVersions_Active (SnapshotPolicy_DeleteAfterVersions policy) then
      versions_loop edges now minEdgeAge (DeleteAfterVersions_Versions (SnapshotPolicy_DeleteAfterVersions policy))
        (snapshot_count edges) 0 else Ok 0) = Ok z /\ -1 <= z <= Z.of_nat (snapshot_count edges) /\
    forall i e, (i < snapshot_count edges)%nat -> edges !! i = Some e -> edge_deleted e = false ->
      Z.of_nat i < z <-> by_versions policy now minEdgeAge edges i e.
Proof using Hordered Htimes.
  destruct (DeleteAfterVersions_Active _) eqn:Hact; [by apply versions_loop_spec; rewrite ?current_not_counted | exists 0].
  split; [done|]. split; [lia|]. intros i e _ _ _. split; [lia | intros [? _]; congruence].
Qed.

Lemma time_bound : owned_overridden edges ->
  exists z, (if DeleteAfterTime_Active (SnapshotPolicy_DeleteAfterTime policy) then
      time_loop edges now minEdgeAge (DeleteAfterTime_Time (SnapshotPolicy_DeleteAfterTime policy))
        (snapshot_count edges) else Ok 0) = Ok z /\ -1 <= z <= Z.of_nat (snapshot_count edges) /\
    forall i e, (i < snapshot_count edges)%nat -> edges !! i = Some e -> edge_deleted e = false ->
      Z.of_nat i < z <-> by_time policy now minEdgeAge edges i e.
Proof using Hordered Htimes.
  intros Hown. destruct (DeleteAfterTime_Active _) eqn:Hact; [by apply time_loop_spec | exists 0].
  split; [done|]. split; [lia|]. intros i e _ _ _. split; [lia | intros [? _]; congruence].
Qed.

Lemma edgesToRemove_spec : owned_overridden edges ->
  exists n, edgesToRemove dir policy now edges minEdgeAge = Ok n /\ (n <= length edges)%nat /\
    (forall e, edges !! n = Some e -> edge_deleted e = false) /\
    forall i e, edges !! i = Some e -> edge_deleted e = false ->
      (i < n)%nat <-> Edge_Current e = false /\
        (by_versions policy now minEdgeAge edges i e \/ by_time policy now minEdgeAge edges i e).
Proof using Hordered Htimes.
  intros Hown. pose proof ordered_trails as Htrails. destruct versions_bound as (zv & Hv & Hvb & Hviff).
  destruct (time_bound Hown) as (zt & Ht & Htb & Htiff). pose proof (snapshot_count_le edges) as Hle.
  set (good := Z.to_nat (if (if zv <? zt then zt else zv) <? 0 then 0 else if zv <? zt then zt else zv)).
  exists (skip_deletes (drop good edges) good). split.
  { unfold edgesToRemove, edges_ordered in *. destruct edges as [|e0 l].
    { rewrite drop_nil. cbn [skip_deletes]. change (snapshot_count []) with 0%nat in *. f_equal.
      unfold good. repeat case_match; lia. }
    reflect_bools. rewrite Htrails, H0, H1. cbn [negb]. cbv zeta. rewrite Hv. cbn [mbind outcome_bind]. by rewrite Ht. }
  assert (Hgood : (good <= snapshot_count edges)%nat) by (unfold good; repeat case_match; lia).
  destruct (skip_deletes_spec (drop good edges) good) as (Hb & Hin & Hout). rewrite length_drop in Hb.
  split; [lia|]. split.
  { intros e He. apply Hout. rewrite lookup_drop. by replace (good + (skip_deletes (drop good edges) good - good))%nat
      with (skip_deletes (drop good edges) good) by lia. }
  intros i e He Hd. assert (Hsame : (i < skip_deletes (drop good edges) good)%nat <-> (i < good)%nat).
  { split; [|lia]. intros Hi. destruct (decide (i < good)%nat); [done|].
    specialize (Hin (i - good)%nat e ltac:(lia)). rewrite lookup_drop in Hin.
    replace (good + (i - good))%nat with i in Hin by lia. rewrite (Hin He) in Hd. done. }
  rewrite Hsame. pose proof (snapshot_count_spec edges i e Htrails He) as Hc. split.
  - intros Hi. split; [apply Hc; lia|]. specialize (Hviff i e ltac:(lia) He Hd). specialize (Htiff i e ltac:(lia) He Hd).
    unfold good in Hi. destruct (Z.ltb_spec zv zt); [right; apply Htiff | left; apply Hviff]; case_match; lia.
  - intros [Hcur Hor]. apply Hc in Hcur. unfold good.
    destruct Hor as [H|H]; [apply (Hviff i e Hcur He Hd) in H | apply (Htiff i e Hcur He Hd) in H]; repeat case_match; lia.
Qed.

End exactness.

(** * The requests of the collector *)

Lemma apply_edges_spec {W} (srv : Servers W) (w w' : W) (dirId : Z) (edges : list Edge) (sent : list request) r :
  apply_edges srv w dirId edges = (w', sent, r) ->
  Forall2 (fun req e => removal dirId e = Ok req) sent (take (length sent) edges) /\
  (r = Ok tt -> length sent = length edges).
Proof.
  revert w w' sent r. induction edges as [|e l IH]; intros w w' sent r H; simpl in H; [by simplify_eq|].
  destruct (removal dirId e) as [req|err|] eqn:Hrem; [|simplify_eq; split; [constructor | done]..].
  destruct (call srv w req) as [w1 err]. destruct (apply_edges srv w1 dirId l) as [[w2 sent2] r2] eqn:Hrec.
  assert (Hcont : (w2, req :: sent2, r2) = (w', sent, r) ->
    Forall2 (fun req e => removal dirId e = Ok req) sent (take (length sent) (e :: l)) /\ (r = Ok tt -> length sent = length (e :: l))).
  { intros Heq. simplify_eq. destruct (IH _ _ _ _ Hrec) as [HF HL]. split; [by constructor|].
    intros Hr. simpl. by rewrite HL. }
  destruct err as [[|code]|]; [by apply Hcont | | by apply Hcont].
  simplify_eq. split; [by repeat constructor | done].
Qed.

(** The requests [sent] are those that remove the first edges of [edges], all
    of them within the policy. *)
Definition within_policy (dirId : Z) (policy : SnapshotPolicy) (now minEdgeAge : Z) (edges : list Edge) (req : request) : Prop :=
  exists n i e, edgesToRemove dirId policy now edges minEdgeAge = Ok n /\ (i < n)%nat /\
    edges !! i = Some e /\ removal dirId e = Ok req.

(** Every edge the policy removes has its request among [sent]. *)
Definition policy_done (dirId : Z) (policy : SnapshotPolicy) (now minEdgeAge : Z) (edges : list Edge) (sent : list request) : Prop :=
  exists n, edgesToRemove dirId policy now edges minEdgeAge = Ok n /\
    forall i e, (i < n)%nat -> edges !! i = Some e -> exists req, removal dirId e = Ok req /\ req ∈ sent.

Lemma applyPolicy_spec {W} (srv : Servers W) (w w' : W) (dirId : Z) (policy : SnapshotPolicy) (now : Z)
    (edges : list Edge) (minEdgeAge : Z) (sent : list request) r :
  applyPolicy srv w dirId policy now edges minEdgeAge = (w', sent, r) ->
  (forall req, req ∈ sent -> within_policy dirId policy now minEdgeAge edges req) /\
  (forall b, r = Ok b -> policy_done dirId policy now minEdgeAge edges sent /\
     (b = true -> edgesToRemove dirId policy now edges minEdgeAge = Ok (length edges))).
Proof.
  unfold applyPolicy. case_decide; [intros; simplify_eq; split; [by intros ? ?%elem_of_nil | done]|].
  destruct (edgesToRemove _ _ _ _ _) as [n|e|] eqn:Hn; [|intros; simplify_eq; split; [by intros ? ?%elem_of_nil | done]..].
  unfold sub. case_decide as Hrange; [|intros; simplify_eq; split; [by intros ? ?%elem_of_nil | done]].
  rewrite Nat.sub_0_r, drop_0. destruct (apply_edges srv w dirId (take n edges)) as [[w1 sent1] r1] eqn:Happly.
  intros Heq. simplify_eq. destruct (apply_edges_spec srv _ _ _ _ _ _ Happly) as [HF HL]. split.
  - intros req [i Hi]%list_elem_of_lookup. destruct (Forall2_lookup_l _ _ _ _ _ HF Hi) as (e & He & Hrem).
    apply lookup_take_Some in He as [[He ?]%lookup_take_Some _]. by exists n, i, e.
  - intros b Hb. destruct r1 as [[]| |]; simplify_eq/=. specialize (HL eq_refl). rewrite length_take in HL. split.
    + exists n. split; [done|]. intros i e Hi He.
      destruct (Forall2_lookup_r _ _ _ i e HF) as (req & Hreq & Hrem).
      { apply lookup_take_Some. split; [apply lookup_take_Some; by split|]. apply lookup_lt_Some in He. lia. }
      exists req. split; [done | by eapply list_elem_of_lookup_2].
    + intros Hall%bool_decide_eq_true. congruence.
Qed.

Lemma policy_done_mono dirId policy now minEdgeAge edges (sent sent' : list request) :
  sent ⊆ sent' -> policy_done dirId policy now minEdgeAge edges sent -> policy_done dirId policy now minEdgeAge edges sent'.
Proof.
  intros Hsub (n & Hn & Hdone). exists n. split; [done|]. intros i e Hi He.
  destruct (Hdone i e Hi He) as (req & ? & ?). eauto.
Qed.

Section names.
Context {W : Type} (srv : Servers W) (dirId : Z) (policy : SnapshotPolicy) (clock : list byte -> Z) (minEdgeAge : Z).
Context (dirEdges : DirEdges).

Lemma apply_names_spec (names : list (list byte)) (w w' : W) (has : bool) (sent : list request) r :
  apply_names srv w dirId policy clock minEdgeAge dirEdges names has = (w', sent, r) ->
  (forall req, req ∈ sent -> exists name edges, dirEdges !! name = Some edges /\
     within_policy dirId policy (clock name) minEdgeAge edges req) /\
  (forall b, r = Ok b ->
     (forall name edges, name ∈ names -> dirEdges !! name = Some edges ->
        policy_done dirId policy (clock name) minEdgeAge edges sent) /\
     (b = false -> has = false /\ forall name edges, name ∈ names -> dirEdges !! name = Some edges ->
        edgesToRemove dirId policy (clock name) edges minEdgeAge = Ok (length edges))).
Proof.
  revert w has sent r. induction names as [|name names IH]; intros w has sent r H; simpl in H.
  { simplify_eq. split; [by intros ? ?%elem_of_nil|]. intros b Hb. simplify_eq.
    split; [by intros ? ? ?%elem_of_nil | intros ->; split; [done | by intros ? ? ?%elem_of_nil]]. }
  destruct (dirEdges !! name) as [edges|] eqn:Hname.
  2: { destruct (IH _ _ _ _ H) as [H1 H2]. split; [done|]. intros b Hb. destruct (H2 b Hb) as [Hd Hf].
       split; [intros x es [->|Hx]%elem_of_cons Hes; [congruence | by apply (Hd x)]|].
       intros Hbf. destruct (Hf Hbf) as [Hh Hall]. split; [done|]. intros x es [->|Hx]%elem_of_cons Hes; [congruence | by apply Hall]. }
  destruct (applyPolicy _ _ _ _ _ _ _) as [[w1 sent1] r1] eqn:Happ.
  destruct (applyPolicy_spec _ _ _ _ _ _ _ _ _ _ Happ) as [Hwithin Hdone].
  destruct r1 as [all|e|]; [|simplify_eq; split; [by eauto | done]..].
  destruct (apply_names _ w1 _ _ _ _ _ _ _) as [[w2 sent2] r2] eqn:Hrec. simplify_eq.
  destruct (IH _ _ _ _ Hrec) as [H1 H2]. split; [intros req [?|?]%elem_of_app; [by eauto | by apply H1]|].
  intros b Hb. destruct (H2 b Hb) as [Hd Hf]. destruct (Hdone all eq_refl) as [Hd0 Hall]. split.
  - intros x es [->|Hx]%elem_of_cons Hes; simplify_eq.
    + eapply policy_done_mono; [|done]. intros ? ?. apply elem_of_app. by left.
    + eapply policy_done_mono; [|by apply (Hd x)]. intros ? ?. apply elem_of_app. by right.
  - intros Hbf. destruct (Hf Hbf) as [Hh Hrest]. apply orb_false_iff in Hh as [-> Hh]. apply negb_false_iff in Hh.
    split; [done|]. intros x es [->|Hx]%elem_of_cons Hes; simplify_eq; [by apply Hall | by apply Hrest].
Qed.

End names.

(** The edges of one name in a listing, in its order. *)
Definition listed (name : list byte) (results : list Edge) : list Edge :=
  base.filter (fun e => Edge_Name e = name) results.

Lemma add_results_lookup (results : list Edge) (d : DirEdges) (name : list byte) :
  (forall x, d !! x <> Some []) ->
  foldl add_result d results !! name =
    match default [] (d !! name) ++ listed name results with [] => None | es => Some es end.
Proof.
  revert d. induction results as [|e l IH]; intros d Hd; simpl.
  - rewrite app_nil_r. destruct (d !! name) as [[|x es]|] eqn:H; simpl; try done. by destruct (Hd name).
  - rewrite IH; unfold add_result, listed.
    + rewrite filter_cons. destruct (decide (Edge_Name e = name)) as [<-|Hne].
      * rewrite lookup_insert_eq. simpl. by rewrite <- app_assoc.
      * by rewrite lookup_insert_ne.
    + intros x. destruct (decide (x = Edge_Name e)) as [->|]; [rewrite lookup_insert_eq | by rewrite lookup_insert_ne].
      by destruct (default [] _).
Qed.

(** [pages] are the answers of the servers to the listing that starts with
    [req], the last one without a next name. *)
Inductive lists {W} (srv : Servers W) : W -> FullReadDirReq -> list FullReadDirResp -> W -> Prop :=
| lists_last w req resp w' :
    full_read_dir srv w req = (w', Ok resp) -> FullReadDirCursor_StartName (FullReadDirResp_Next resp) = [] ->
    lists srv w req [resp] w'
| lists_more w req resp w' pages w'' :
    full_read_dir srv w req = (w', Ok resp) -> FullReadDirCursor_StartName (FullReadDirResp_Next resp) <> [] ->
    lists srv w' (next_request req (FullReadDirResp_Next resp)) pages w'' ->
    lists srv w req (resp :: pages) w''.

Lemma read_edges_spec {W} (srv : Servers W) (w w' : W) req pages :
  lists srv w req pages w' -> forall fuel d, (length pages <= fuel)%nat ->
  read_edges srv fuel w req d = (w', Ok (foldl add_result d (mjoin (FullReadDirResp_Results <$> pages)))).
Proof.
  induction 1 as [w req resp w' Hcall Hlast | w req resp w' pages w'' Hcall Hmore _ IH]; intros [|fuel] d Hfuel;
    simpl in *; try lia; rewrite Hcall.
  - rewrite decide_True by done. by rewrite app_nil_r.
  - rewrite decide_False by done. rewrite IH by lia. by rewrite foldl_app.
Qed.

(** [edgesToRemove] implements the snapshot policy exactly. For the edges
    of one name, oldest first, it returns the length of a prefix such that an
    edge with a target is in the prefix if and only if it is a snapshot edge
    that either policy expires: at least [DeleteAfterVersions] newer versions
    follow it and it is older than the minimum age, or it is older than
    [DeleteAfterTime] and the minimum age and the edge that overrode it, if
    any, is older than [DeleteAfterTime]. The first edge kept is not a delete.
    On edges out of order it panics. *)
Theorem snapshot_policy_exact (dir : Z) (policy : SnapshotPolicy) (now minEdgeAge : Z) (edges : list Edge) :
  valid_times edges -> owned_overridden edges ->
  (edges_ordered dir edges = false -> edgesToRemove dir policy now edges minEdgeAge = Panic) /\
  (edges_ordered dir edges = true ->
    exists n, edgesToRemove dir policy now edges minEdgeAge = Ok n /\ (n <= length edges)%nat /\
      (forall e, edges !! n = Some e -> edge_deleted e = false) /\
      forall i e, edges !! i = Some e -> edge_deleted e = false ->
        (i < n)%nat <-> Edge_Current e = false /\
          (by_versions policy now minEdgeAge edges i e \/ by_time policy now minEdgeAge edges i e)).
Proof.
  intros Htimes Hown. split; [|intros Hord; by apply edgesToRemove_spec].
  unfold edges_ordered, edgesToRemove. destruct edges as [|e0 l]; [done|]. intros Hord.
  destruct (current_trails _); [|done]. destruct (same_name _); [|done]. by destruct (times_ascend _ _ _).
Qed.

(** A file made at time 10, overwritten at 20, deleted at 30 and made again at
    40, which is current. *)
Definition sample_edges : list Edge :=
  [mkEdge false (MakeInodeIdExtra (MakeInodeId FILE 1 1) true) 0 [] 10;
   mkEdge false (MakeInodeIdExtra (MakeInodeId FILE 1 2) true) 0 [] 20;
   mkEdge false 0 0 [] 30;
   mkEdge true (MakeInodeId FILE 1 3) 0 [] 40].

Lemma sample_edges_valid : valid_times sample_edges.
Proof. unfold valid_times, sample_edges. repeat constructor; simpl; lia. Qed.

Lemma sample_edges_owned : owned_overridden sample_edges.
Proof. intros e He Hc. injection He as <-. done. Qed.

Lemma snapshot_policy_exact_witness :
  exists n, edgesToRemove 257 (mkSnapshotPolicy 0 (Z.lor (Z.shiftl 1 15) 1)) 100 sample_edges 0 = Ok n /\ (n <= 4)%nat.
Proof.
  destruct (snapshot_policy_exact 257 (mkSnapshotPolicy 0 (Z.lor (Z.shiftl 1 15) 1)) 100 0 sample_edges
    sample_edges_valid sample_edges_owned) as [_ H].
  destruct (H eq_refl) as (n & Hn & Hle & _). by exists n.
Defined.


Definition sample_page : FullReadDirResp := mkFullReadDirResp (mkFullReadDirCursor false [] 0) sample_edges.

(** Servers that keep the requests they are sent and list [sample_edges]. *)
Definition sample_servers : Servers (list request) :=
  mkServers _ (fun w req => (req :: w, None)) (fun w _ => (w, Ok sample_page)) (fun w _ => (w, Ok NULL_INODE_ID)).

