(* ===== verification/Gf256.v ===== *)
(** The field GF(2^8) of the erasure code: src/go/core/rs/gf_tables.c and the
    multiplications of src/go/core/rs/rs_core.c.

    A [u8] is a [byte] and addition is exclusive or. The tables are those of the
    source. That they make the bytes a field is computed: multiplication is
    linear in each argument, so that the laws hold once they hold on the eight
    powers of two, and the logarithms are those of a generator. *)

From Stdlib Require Import ZArith Lia Ring Ring_theory.
From stdpp Require Import base numbers option list.
From S2P Require Import Prelude.

(** * The tables *)

Definition rs_gf_exp_table : list byte := byte_of <$>
  [0x01; 0x03; 0x05; 0x0f; 0x11; 0x33; 0x55; 0xff; 0x1a; 0x2e; 0x72; 0x96; 0xa1; 0xf8; 0x13; 0x35;
   0x5f; 0xe1; 0x38; 0x48; 0xd8; 0x73; 0x95; 0xa4; 0xf7; 0x02; 0x06; 0x0a; 0x1e; 0x22; 0x66; 0xaa;
   0xe5; 0x34; 0x5c; 0xe4; 0x37; 0x59; 0xeb; 0x26; 0x6a; 0xbe; 0xd9; 0x70; 0x90; 0xab; 0xe6; 0x31;
   0x53; 0xf5; 0x04; 0x0c; 0x14; 0x3c; 0x44; 0xcc; 0x4f; 0xd1; 0x68; 0xb8; 0xd3; 0x6e; 0xb2; 0xcd;
   0x4c; 0xd4; 0x67; 0xa9; 0xe0; 0x3b; 0x4d; 0xd7; 0x62; 0xa6; 0xf1; 0x08; 0x18; 0x28; 0x78; 0x88;
   0x83; 0x9e; 0xb9; 0xd0; 0x6b; 0xbd; 0xdc; 0x7f; 0x81; 0x98; 0xb3; 0xce; 0x49; 0xdb; 0x76; 0x9a;
   0xb5; 0xc4; 0x57; 0xf9; 0x10; 0x30; 0x50; 0xf0; 0x0b; 0x1d; 0x27; 0x69; 0xbb; 0xd6; 0x61; 0xa3;
   0xfe; 0x19; 0x2b; 0x7d; 0x87; 0x92; 0xad; 0xec; 0x2f; 0x71; 0x93; 0xae; 0xe9; 0x20; 0x60; 0xa0;
   0xfb; 0x16; 0x3a; 0x4e; 0xd2; 0x6d; 0xb7; 0xc2; 0x5d; 0xe7; 0x32; 0x56; 0xfa; 0x15; 0x3f; 0x41;
   0xc3; 0x5e; 0xe2; 0x3d; 0x47; 0xc9; 0x40; 0xc0; 0x5b; 0xed; 0x2c; 0x74; 0x9c; 0xbf; 0xda; 0x75;
   0x9f; 0xba; 0xd5; 0x64; 0xac; 0xef; 0x2a; 0x7e; 0x82; 0x9d; 0xbc; 0xdf; 0x7a; 0x8e; 0x89; 0x80;
   0x9b; 0xb6; 0xc1; 0x58; 0xe8; 0x23; 0x65; 0xaf; 0xea; 0x25; 0x6f; 0xb1; 0xc8; 0x43; 0xc5; 0x54;
   0xfc; 0x1f; 0x21; 0x63; 0xa5; 0xf4; 0x07; 0x09; 0x1b; 0x2d; 0x77; 0x99; 0xb0; 0xcb; 0x46; 0xca;
   0x45; 0xcf; 0x4a; 0xde; 0x79; 0x8b; 0x86; 0x91; 0xa8; 0xe3; 0x3e; 0x42; 0xc6; 0x51; 0xf3; 0x0e;
   0x12; 0x36; 0x5a; 0xee; 0x29; 0x7b; 0x8d; 0x8c; 0x8f; 0x8a; 0x85; 0x94; 0xa7; 0xf2; 0x0d; 0x17;
   0x39; 0x4b; 0xdd; 0x7c; 0x84; 0x97; 0xa2; 0xfd; 0x1c; 0x24; 0x6c; 0xb4; 0xc7; 0x52; 0xf6; 0x01].

Definition rs_gf_log_table : list byte := byte_of <$>
  [0x00; 0xff; 0x19; 0x01; 0x32; 0x02; 0x1a; 0xc6; 0x4b; 0xc7; 0x1b; 0x68; 0x33; 0xee; 0xdf; 0x03;
   0x64; 0x04; 0xe0; 0x0e; 0x34; 0x8d; 0x81; 0xef; 0x4c; 0x71; 0x08; 0xc8; 0xf8; 0x69; 0x1c; 0xc1;
   0x7d; 0xc2; 0x1d; 0xb5; 0xf9; 0xb9; 0x27; 0x6a; 0x4d; 0xe4; 0xa6; 0x72; 0x9a; 0xc9; 0x09; 0x78;
   0x65; 0x2f; 0x8a; 0x05; 0x21; 0x0f; 0xe1; 0x24; 0x12; 0xf0; 0x82; 0x45; 0x35; 0x93; 0xda; 0x8e;
   0x96; 0x8f; 0xdb; 0xbd; 0x36; 0xd0; 0xce; 0x94; 0x13; 0x5c; 0xd2; 0xf1; 0x40; 0x46; 0x83; 0x38;
   0x66; 0xdd; 0xfd; 0x30; 0xbf; 0x06; 0x8b; 0x62; 0xb3; 0x25; 0xe2; 0x98; 0x22; 0x88; 0x91; 0x10;
   0x7e; 0x6e; 0x48; 0xc3; 0xa3; 0xb6; 0x1e; 0x42; 0x3a; 0x6b; 0x28; 0x54; 0xfa; 0x85; 0x3d; 0xba;
   0x2b; 0x79; 0x0a; 0x15; 0x9b; 0x9f; 0x5e; 0xca; 0x4e; 0xd4; 0xac; 0xe5; 0xf3; 0x73; 0xa7; 0x57;
   0xaf; 0x58; 0xa8; 0x50; 0xf4; 0xea; 0xd6; 0x74; 0x4f; 0xae; 0xe9; 0xd5; 0xe7; 0xe6; 0xad; 0xe8;
   0x2c; 0xd7; 0x75; 0x7a; 0xeb; 0x16; 0x0b; 0xf5; 0x59; 0xcb; 0x5f; 0xb0; 0x9c; 0xa9; 0x51; 0xa0;
   0x7f; 0x0c; 0xf6; 0x6f; 0x17; 0xc4; 0x49; 0xec; 0xd8; 0x43; 0x1f; 0x2d; 0xa4; 0x76; 0x7b; 0xb7;
   0xcc; 0xbb; 0x3e; 0x5a; 0xfb; 0x60; 0xb1; 0x86; 0x3b; 0x52; 0xa1; 0x6c; 0xaa; 0x55; 0x29; 0x9d;
   0x97; 0xb2; 0x87; 0x90; 0x61; 0xbe; 0xdc; 0xfc; 0xbc; 0x95; 0xcf; 0xcd; 0x37; 0x3f; 0x5b; 0xd1;
   0x53; 0x39; 0x84; 0x3c; 0x41; 0xa2; 0x6d; 0x47; 0x14; 0x2a; 0x9e; 0x5d; 0x56; 0xf2; 0xd3; 0xab;
   0x44; 0x11; 0x92; 0xd9; 0x23; 0x20; 0x2e; 0x89; 0xb4; 0x7c; 0xb8; 0x26; 0x77; 0x99; 0xe3; 0xa5;
   0x67; 0x4a; 0xed; 0xde; 0xc5; 0x31; 0xfe; 0x18; 0x0d; 0x63; 0x8c; 0x80; 0xc0; 0xf7; 0x70; 0x07].

Definition rs_gf_inv_table : list byte := byte_of <$>
  [0x00; 0x01; 0x8d; 0xf6; 0xcb; 0x52; 0x7b; 0xd1; 0xe8; 0x4f; 0x29; 0xc0; 0xb0; 0xe1; 0xe5; 0xc7;
   0x74; 0xb4; 0xaa; 0x4b; 0x99; 0x2b; 0x60; 0x5f; 0x58; 0x3f; 0xfd; 0xcc; 0xff; 0x40; 0xee; 0xb2;
   0x3a; 0x6e; 0x5a; 0xf1; 0x55; 0x4d; 0xa8; 0xc9; 0xc1; 0x0a; 0x98; 0x15; 0x30; 0x44; 0xa2; 0xc2;
   0x2c; 0x45; 0x92; 0x6c; 0xf3; 0x39; 0x66; 0x42; 0xf2; 0x35; 0x20; 0x6f; 0x77; 0xbb; 0x59; 0x19;
   0x1d; 0xfe; 0x37; 0x67; 0x2d; 0x31; 0xf5; 0x69; 0xa7; 0x64; 0xab; 0x13; 0x54; 0x25; 0xe9; 0x09;
   0xed; 0x5c; 0x05; 0xca; 0x4c; 0x24; 0x87; 0xbf; 0x18; 0x3e; 0x22; 0xf0; 0x51; 0xec; 0x61; 0x17;
   0x16; 0x5e; 0xaf; 0xd3; 0x49; 0xa6; 0x36; 0x43; 0xf4; 0x47; 0x91; 0xdf; 0x33; 0x93; 0x21; 0x3b;
   0x79; 0xb7; 0x97; 0x85; 0x10; 0xb5; 0xba; 0x3c; 0xb6; 0x70; 0xd0; 0x06; 0xa1; 0xfa; 0x81; 0x82;
   0x83; 0x7e; 0x7f; 0x80; 0x96; 0x73; 0xbe; 0x56; 0x9b; 0x9e; 0x95; 0xd9; 0xf7; 0x02; 0xb9; 0xa4;
   0xde; 0x6a; 0x32; 0x6d; 0xd8; 0x8a; 0x84; 0x72; 0x2a; 0x14; 0x9f; 0x88; 0xf9; 0xdc; 0x89; 0x9a;
   0xfb; 0x7c; 0x2e; 0xc3; 0x8f; 0xb8; 0x65; 0x48; 0x26; 0xc8; 0x12; 0x4a; 0xce; 0xe7; 0xd2; 0x62;
   0x0c; 0xe0; 0x1f; 0xef; 0x11; 0x75; 0x78; 0x71; 0xa5; 0x8e; 0x76; 0x3d; 0xbd; 0xbc; 0x86; 0x57;
   0x0b; 0x28; 0x2f; 0xa3; 0xda; 0xd4; 0xe4; 0x0f; 0xa9; 0x27; 0x53; 0x04; 0x1b; 0xfc; 0xac; 0xe6;
   0x7a; 0x07; 0xae; 0x63; 0xc5; 0xdb; 0xe2; 0xea; 0x94; 0x8b; 0xc4; 0xd5; 0x9d; 0xf8; 0x90; 0x6b;
   0xb1; 0x0d; 0xd6; 0xeb; 0xc6; 0x0e; 0xcf; 0xad; 0x08; 0x4e; 0xd7; 0xe3; 0x5d; 0x50; 0x1e; 0xb3;
   0x5b; 0x23; 0x38; 0x34; 0x68; 0x46; 0x03; 0x8c; 0xdd; 0x9c; 0x7d; 0xa0; 0xcd; 0x1a; 0x41; 0x1c].

(** * Operations *)

Definition gf_zero : byte := Byte.x00.
Definition gf_one : byte := Byte.x01.

#[export] Instance byte_inhabited : Inhabited byte := populate gf_zero.

(** A table read at an index below its 256 entries. *)
Definition table_at (t : list byte) (i : Z) : byte := t !!! Z.to_nat i.

Definition u8_xor (x y : byte) : byte := byte_of (Z.lxor (byte_val x) (byte_val y)).

Definition gf_inv (x : byte) : byte := table_at rs_gf_inv_table (byte_val x).

Definition gf_mul (x y : byte) : byte :=
  if bool_decide (x = gf_zero) || bool_decide (y = gf_zero) then gf_zero
  else
    let i := byte_val (table_at rs_gf_log_table (byte_val x)) + byte_val (table_at rs_gf_log_table (byte_val y)) in
    table_at rs_gf_exp_table (if 254 <? i then i - 255 else i).

(** The products of a factor by the sixteen low and the sixteen high nibbles,
    and the multiplication that looks them up. *)
Definition gf_mul_expand_factor (x : byte) : list byte :=
  ((fun i => gf_mul (byte_of (Z.of_nat i)) x) <$> seq 0 16) ++
  ((fun i => gf_mul (byte_of (Z.shiftl (Z.of_nat i) 4)) x) <$> seq 0 16).

Definition gf_mul_expanded (x : byte) (expanded_y : list byte) : byte :=
  u8_xor (table_at expanded_y (Z.land (byte_val x) 0x0f))
    (table_at expanded_y (16 + Z.shiftr (Z.land (byte_val x) 0xf0) 4)).

(** * Addition *)

Lemma byte_val_xor x y : byte_val (u8_xor x y) = Z.lxor (byte_val x) (byte_val y).
Proof. unfold u8_xor. rewrite byte_val_of, Z.mod_small; [done|]. apply (lxor_bound _ _ 8); [lia|apply byte_val_bound..]. Qed.

Lemma xor_comm x y : u8_xor x y = u8_xor y x.
Proof. apply byte_val_inj. rewrite !byte_val_xor. apply Z.lxor_comm. Qed.

Lemma xor_assoc x y z : u8_xor x (u8_xor y z) = u8_xor (u8_xor x y) z.
Proof. apply byte_val_inj. rewrite !byte_val_xor. symmetry. apply Z.lxor_assoc. Qed.

Lemma xor_zero_l x : u8_xor gf_zero x = x.
Proof. apply byte_val_inj. rewrite byte_val_xor. apply Z.lxor_0_l. Qed.

Lemma xor_self x : u8_xor x x = gf_zero.
Proof. apply byte_val_inj. rewrite byte_val_xor. apply Z.lxor_nilpotent. Qed.

(** * Linear functions of a byte *)

Definition all_bytes : list byte := (fun i => byte_of (Z.of_nat i)) <$> seq 0 256.
Definition powers : list byte := (fun i => byte_of (2 ^ Z.of_nat i)) <$> seq 0 8.

Lemma all_bytes_spec x : x ∈ all_bytes.
Proof.
  apply list_elem_of_fmap. exists (Z.to_nat (byte_val x)). pose proof (byte_val_bound x). split.
  - rewrite Z2Nat.id by lia. symmetry. apply byte_of_val.
  - apply elem_of_seq. lia.
Qed.

Lemma by_table1 (P : byte -> bool) : forallb P all_bytes = true -> forall x, P x = true.
Proof. intros H x. exact (proj1 (forallb_forall _ _) H x (proj1 (list_elem_of_In _ _) (all_bytes_spec x))). Qed.

Lemma by_table_eq (f g : byte -> byte) : forallb (fun x => bool_decide (f x = g x)) all_bytes = true -> forall x, f x = g x.
Proof. intros H x. pose proof (by_table1 _ H x) as E. by apply bool_decide_eq_true in E. Qed.

Definition additive (f : byte -> byte) : Prop := forall x y, f (u8_xor x y) = u8_xor (f x) (f y).

Fixpoint xors (l : list byte) : byte := match l with [] => gf_zero | x :: l => u8_xor x (xors l) end.

(** The value at [p], a power of two, where [x] has its bit. *)
Definition at_bit (g : byte -> byte) (x p : byte) : byte := if Z.testbit (byte_val x) (Z.log2 (byte_val p)) then g p else gf_zero.
Definition by_bits (g : byte -> byte) (x : byte) : byte := xors (at_bit g x <$> powers).

Lemma xor_shuffle a b c d : u8_xor (u8_xor a b) (u8_xor c d) = u8_xor (u8_xor a c) (u8_xor b d).
Proof. rewrite <- !xor_assoc. f_equal. rewrite !xor_assoc. f_equal. apply xor_comm. Qed.

Lemma xors_split {A} (f g : A -> byte) (l : list A) : xors ((fun p => u8_xor (f p) (g p)) <$> l) = u8_xor (xors (f <$> l)) (xors (g <$> l)).
Proof. induction l as [|p l IH]; csimpl; [by rewrite xor_zero_l|]. rewrite IH. apply xor_shuffle. Qed.

Lemma by_bits_additive g : additive (by_bits g).
Proof.
  intros x y. unfold by_bits. rewrite <- xors_split. f_equal. apply list_fmap_ext. intros i p _. unfold at_bit.
  rewrite byte_val_xor, Z.lxor_spec. destruct (Z.testbit (byte_val x) _), (Z.testbit (byte_val y) _); simpl;
    by rewrite ?xor_self, ?xor_zero_l, ?(xor_comm _ gf_zero), ?xor_zero_l.
Qed.

Lemma byte_bits x : by_bits id x = x.
Proof. revert x. apply (by_table_eq (by_bits id) id). by vm_compute. Qed.

Lemma additive_zero f : additive f -> f gf_zero = gf_zero.
Proof. intros Hf. rewrite <- (xor_self gf_zero), Hf, xor_self. by rewrite xor_self. Qed.

Lemma additive_xors f l : additive f -> f (xors l) = xors (f <$> l).
Proof. intros Hf. induction l as [|x l IH]; csimpl; [by apply additive_zero|]. by rewrite Hf, IH. Qed.

(** An additive function is what it is on the powers of two. *)
Lemma additive_bits f x : additive f -> f x = by_bits f x.
Proof.
  intros Hf. rewrite <- (byte_bits x) at 1. unfold by_bits. rewrite additive_xors by done. f_equal. rewrite <- list_fmap_compose.
  apply list_fmap_ext. intros i p _. unfold at_bit. simpl. destruct (Z.testbit _ _); [done|by apply additive_zero].
Qed.

Lemma additive_ext f g : additive f -> additive g -> Forall (fun p => f p = g p) powers -> forall x, f x = g x.
Proof.
  intros Hf Hg Hp x. rewrite (additive_bits f), (additive_bits g) by done. unfold by_bits. f_equal.
  apply list_fmap_ext. intros i p Hi. unfold at_bit. by rewrite (Forall_lookup_1 _ _ _ _ Hp Hi).
Qed.

Lemma additive_comp f g : additive f -> additive g -> additive (fun x => f (g x)).
Proof. intros Hf Hg x y. by rewrite Hg, Hf. Qed.

(** * Multiplication of polynomials *)

(** By x, modulo x^8 + x^4 + x^3 + x + 1, and by a polynomial, bit by bit. *)
Definition xtime (y : byte) : byte :=
  let z := 2 * byte_val y in byte_of (if z <? 256 then z else Z.lxor z 0x11b).
Definition times_power (y p : byte) : byte := Nat.iter (Z.to_nat (Z.log2 (byte_val p))) xtime y.
Definition mulref (x y : byte) : byte := by_bits (times_power y) x.

Lemma xtime_additive : additive xtime.
Proof.
  assert (H : forall x, xtime x = by_bits xtime x).
  { apply by_table_eq. by vm_compute. }
  intros x y. rewrite !H. apply by_bits_additive.
Qed.

Lemma times_power_additive p : additive (fun y => times_power y p).
Proof.
  unfold times_power. induction (Z.to_nat (Z.log2 (byte_val p))) as [|n IH]; [by intros x y|].
  intros x y. simpl. by rewrite IH, xtime_additive.
Qed.

Lemma mulref_additive_l y : additive (fun x => mulref x y).
Proof. apply by_bits_additive. Qed.

Lemma mulref_additive_r x : additive (mulref x).
Proof.
  intros a b. unfold mulref, by_bits. rewrite <- xors_split. f_equal. apply list_fmap_ext. intros i p _. unfold at_bit.
  destruct (Z.testbit _ _); [apply times_power_additive|by rewrite xor_self].
Qed.

Lemma by_powers (P : byte -> bool) : forallb P powers = true -> Forall (fun p => P p = true) powers.
Proof. intros H. apply Forall_forall. intros x Hx. exact (proj1 (forallb_forall _ _) H x (proj1 (list_elem_of_In _ _) Hx)). Qed.

Lemma mulref_assoc x y z : mulref x (mulref y z) = mulref (mulref x y) z.
Proof.
  assert (H : forallb (fun x => forallb (fun y => forallb (fun z => bool_decide (mulref x (mulref y z) = mulref (mulref x y) z)) powers) powers) powers = true)
    by (by vm_compute).
  revert x. apply additive_ext; [apply mulref_additive_l | apply (additive_comp (fun a => mulref a z)); apply mulref_additive_l|].
  apply by_powers in H. eapply Forall_impl; [exact H|]. intros x Hx%by_powers. revert y. apply additive_ext;
    [apply (additive_comp (mulref x)); [apply mulref_additive_r | apply mulref_additive_l] |
     apply (additive_comp (fun a => mulref a z)); [apply mulref_additive_l | apply mulref_additive_r] |].
  eapply Forall_impl; [exact Hx|]. intros y Hy%by_powers. revert z.
  apply additive_ext; [apply (additive_comp (mulref x)); apply mulref_additive_r | apply mulref_additive_r|].
  eapply Forall_impl; [exact Hy|]. intros z Hz. by apply bool_decide_eq_true in Hz.
Qed.

Lemma mulref_one_l x : mulref gf_one x = x.
Proof. revert x. apply additive_ext; [apply mulref_additive_r | by intros x y|]. repeat constructor; by vm_compute. Qed.

(** * Logarithms *)

Definition generator : byte := Byte.x03.
Definition gpow (n : nat) : byte := Nat.iter n (mulref generator) gf_one.

Lemma gpow_add m n : gpow (m + n) = mulref (gpow m) (gpow n).
Proof.
  induction m as [|m IH]; [by rewrite mulref_one_l|].
  change (gpow (S m + n)) with (mulref generator (gpow (m + n))). by rewrite IH, mulref_assoc.
Qed.

Lemma exp_table_steps : forallb (fun i => bool_decide (mulref generator (rs_gf_exp_table !!! i) = rs_gf_exp_table !!! S i)) (seq 0 255) = true.
Proof. by vm_compute. Qed.

Lemma exp_table_pow i : (i <= 255)%nat -> rs_gf_exp_table !!! i = gpow i.
Proof.
  induction i as [|i IH]; intros Hi; [done|]. change (gpow (S i)) with (mulref generator (gpow i)). rewrite <- IH by lia.
  pose proof exp_table_steps as H. rewrite forallb_forall in H. specialize (H i ltac:(apply in_seq; lia)).
  apply bool_decide_eq_true in H. by rewrite H.
Qed.

Lemma gpow_255 : gpow 255 = gf_one.
Proof. rewrite <- exp_table_pow by lia. by vm_compute. Qed.

Definition gf_log (x : byte) : nat := Z.to_nat (byte_val (table_at rs_gf_log_table (byte_val x))).

Lemma gpow_log x : x <> gf_zero -> gpow (gf_log x) = x.
Proof.
  intros Hx. rewrite <- exp_table_pow by (unfold gf_log; pose proof (byte_val_bound (table_at rs_gf_log_table (byte_val x))); lia).
  pose proof (by_table1 (fun x => bool_decide (x = gf_zero) || bool_decide (rs_gf_exp_table !!! gf_log x = x))) as H.
  specialize (H ltac:(by vm_compute) x). apply orb_true_iff in H as [H|H]; by apply bool_decide_eq_true in H.
Qed.

(** The multiplication by logarithms is that of polynomials. *)
Lemma gf_mul_ref x y : gf_mul x y = mulref x y.
Proof.
  unfold gf_mul. case_bool_decide as Hx; [subst; by rewrite (additive_zero _ (mulref_additive_l y))|].
  case_bool_decide as Hy; [subst; by rewrite (additive_zero _ (mulref_additive_r x))|]. simpl.
  transitivity (mulref (gpow (gf_log x)) (gpow (gf_log y))); [|by rewrite !gpow_log]. rewrite <- gpow_add. unfold gf_log, table_at.
  set (a := byte_val (_ !!! Z.to_nat (byte_val x))). set (b := byte_val (_ !!! Z.to_nat (byte_val y))).
  assert (Ha : 0 <= a < 256) by apply byte_val_bound. assert (Hb : 0 <= b < 256) by apply byte_val_bound.
  destruct (Z.ltb_spec 254 (a + b)).
  - rewrite exp_table_pow by lia. replace (Z.to_nat a + Z.to_nat b)%nat with (255 + Z.to_nat (a + b - 255))%nat by lia.
    by rewrite gpow_add, gpow_255, mulref_one_l.
  - rewrite exp_table_pow by lia. f_equal. lia.
Qed.

(** * The field *)

Lemma mul_comm x y : gf_mul x y = gf_mul y x.
Proof. unfold gf_mul. by rewrite orb_comm, Z.add_comm. Qed.

Lemma mul_additive_l y : additive (fun x => gf_mul x y).
Proof. intros a b. rewrite !gf_mul_ref. apply mulref_additive_l. Qed.

Lemma mul_assoc x y z : gf_mul x (gf_mul y z) = gf_mul (gf_mul x y) z.
Proof. rewrite !gf_mul_ref. apply mulref_assoc. Qed.

Lemma mul_one_l x : gf_mul gf_one x = x.
Proof. rewrite gf_mul_ref. apply mulref_one_l. Qed.

Lemma gf_ring : ring_theory gf_zero gf_one u8_xor gf_mul u8_xor id eq.
Proof.
  constructor; [exact xor_zero_l | exact xor_comm | exact xor_assoc | exact mul_one_l | exact mul_comm | exact mul_assoc | | done | exact xor_self].
  intros x y z. apply mul_additive_l.
Qed.

(** The coefficients are those of two elements. *)
Lemma gf_morph : ring_morph gf_zero gf_one u8_xor gf_mul u8_xor id eq false true xorb andb xorb id Bool.eqb (fun b : bool => if b then gf_one else gf_zero).
Proof. constructor; try done; try (intros [] []; by vm_compute). Qed.

Add Ring gf_ring : gf_ring (morphism gf_morph).

Lemma mul_inv_l x : x <> gf_zero -> gf_mul (gf_inv x) x = gf_one.
Proof.
  intros Hx. pose proof (by_table1 (fun x => bool_decide (x = gf_zero) || bool_decide (gf_mul (gf_inv x) x = gf_one))) as H.
  specialize (H ltac:(by vm_compute) x). apply orb_true_iff in H as [H|H]; by apply bool_decide_eq_true in H.
Qed.

Lemma mul_zero_l x : gf_mul gf_zero x = gf_zero.
Proof. ring. Qed.

Lemma mul_eq_zero x y : gf_mul x y = gf_zero -> x = gf_zero \/ y = gf_zero.
Proof.
  intros H. destruct (decide (x = gf_zero)) as [|Hx]; [by left|right].
  rewrite <- (mul_one_l y), <- (mul_inv_l x Hx), <- mul_assoc, H. ring.
Qed.

Lemma inv_nonzero x : x <> gf_zero -> gf_inv x <> gf_zero.
Proof. intros Hx H. pose proof (mul_inv_l x Hx) as E. rewrite H, mul_zero_l in E. done. Qed.

Lemma mul_nonzero x y : x <> gf_zero -> y <> gf_zero -> gf_mul x y <> gf_zero.
Proof. intros Hx Hy H. by destruct (mul_eq_zero x y H). Qed.

Lemma xor_eq_zero x y : u8_xor x y = gf_zero -> x = y.
Proof. intros H. rewrite <- (xor_zero_l y), <- H. ring_simplify. done. Qed.

Lemma table_at_app_l {A} (f : A -> byte) (l : list A) (t : list byte) i a : 0 <= i -> l !! Z.to_nat i = Some a -> table_at ((f <$> l) ++ t) i = f a.
Proof. intros Hi Hl. unfold table_at. apply list_lookup_total_correct, lookup_app_l_Some. by rewrite list_lookup_fmap, Hl. Qed.

(** The multiplication by nibbles is the multiplication. *)
Lemma gf_mul_expanded_ok x y : gf_mul_expanded y (gf_mul_expand_factor x) = gf_mul y x.
Proof.
  pose proof (by_table1 (fun y => bool_decide (y = u8_xor (byte_of (Z.land (byte_val y) 15)) (byte_of (Z.shiftl (Z.shiftr (Z.land (byte_val y) 240) 4) 4))) &&
    bool_decide (0 <= Z.land (byte_val y) 15 < 16) && bool_decide (0 <= Z.shiftr (Z.land (byte_val y) 240) 4 < 16)) ltac:(by vm_compute) y) as H.
  apply andb_true_iff in H as [[H Hlo]%andb_true_iff Hhi]. apply bool_decide_eq_true in H, Hlo, Hhi.
  unfold gf_mul_expanded, gf_mul_expand_factor. set (lo := Z.land (byte_val y) 15) in *. set (hi := Z.shiftr _ 4) in *.
  rewrite (table_at_app_l _ _ _ lo (Z.to_nat lo)) by (rewrite ?lookup_seq; lia). rewrite Z2Nat.id by lia.
  unfold table_at. rewrite (list_lookup_total_correct _ _ (gf_mul (byte_of (Z.shiftl hi 4)) x)).
  - rewrite <- (mul_additive_l x). by rewrite <- H.
  - rewrite lookup_app_r by (rewrite length_fmap, length_seq; lia). rewrite length_fmap, length_seq, list_lookup_fmap.
    replace (Z.to_nat (16 + hi) - 16)%nat with (Z.to_nat hi) by lia. rewrite lookup_seq_lt by lia. simpl. by rewrite Z2Nat.id by lia.
Qed.

(** The multiplication by logarithms, and the one that looks the nibbles of
    its argument up, are the multiplication of polynomials over GF(2) modulo
    x^8 + x^4 + x^3 + x + 1, and every nonzero byte has the inverse its table
    gives. *)
Theorem gf_tables_exact x y :
  gf_mul x y = mulref x y /\ gf_mul_expanded x (gf_mul_expand_factor y) = mulref x y /\ (x <> gf_zero -> gf_mul x (gf_inv x) = gf_one).
Proof.
  split_and!; [apply gf_mul_ref | rewrite gf_mul_expanded_ok; apply gf_mul_ref | intros Hx; rewrite mul_comm; by apply mul_inv_l].
Qed.
