(* ===== verification/Cauchy.v ===== *)
(** Cauchy matrices over GF(2^8): a combination of the functions 1/(x + y_j) that
    vanishes at as many points as it has terms is zero.

    The numerator of the combination is a polynomial with fewer coefficients than
    it has roots. No code is modelled here: the erasure code (ReedSolomon.v) uses
    it for the coefficients of its parity blocks. *)

From Stdlib Require Import ZArith Lia Ring.
From stdpp Require Import base numbers option list.
From S2P Require Import Prelude Gf256.

(** * Polynomials *)

Fixpoint poly_eval (cs : list byte) (x : byte) : byte :=
  match cs with [] => gf_zero | c :: cs => u8_xor c (gf_mul x (poly_eval cs x)) end.

(** Division by [x + a]. *)
Fixpoint poly_quot (cs : list byte) (a : byte) : list byte :=
  match cs with
  | [] => []
  | c :: cs => match cs with [] => [] | _ => poly_eval cs a :: poly_quot cs a end
  end.

Lemma length_poly_quot cs a : length (poly_quot cs a) = (length cs - 1)%nat.
Proof. induction cs as [|c [|c' cs] IH]; [done..|]. change (S (length (poly_quot (c' :: cs) a)) = (length (c :: c' :: cs) - 1)%nat). rewrite IH. simpl. lia. Qed.

Lemma poly_quot_eval cs a x : u8_xor (poly_eval cs x) (poly_eval cs a) = gf_mul (u8_xor x a) (poly_eval (poly_quot cs a) x).
Proof.
  induction cs as [|c [|c' cs] IH]; [simpl; ring | simpl; ring|].
  change (poly_quot (c :: c' :: cs) a) with (poly_eval (c' :: cs) a :: poly_quot (c' :: cs) a).
  set (q := poly_quot (c' :: cs) a) in *. set (p := c' :: cs) in *.
  change (poly_eval (c :: p) x) with (u8_xor c (gf_mul x (poly_eval p x))). change (poly_eval (c :: p) a) with (u8_xor c (gf_mul a (poly_eval p a))).
  change (poly_eval (poly_eval p a :: q) x) with (u8_xor (poly_eval p a) (gf_mul x (poly_eval q x))).
  transitivity (u8_xor (gf_mul x (u8_xor (poly_eval p x) (poly_eval p a))) (gf_mul (u8_xor x a) (poly_eval p a))); [ring|]. rewrite IH. ring.
Qed.

(** A polynomial with as many roots as coefficients is zero everywhere. *)
Lemma poly_roots xs : forall cs, NoDup xs -> (length cs <= length xs)%nat -> (forall x, x ∈ xs -> poly_eval cs x = gf_zero) -> forall x, poly_eval cs x = gf_zero.
Proof.
  induction xs as [|a xs IH]; intros cs Hnd Hl Hroot x; [by destruct cs; [|simpl in Hl; lia]|]. apply NoDup_cons in Hnd as [Ha Hnd].
  assert (Hq : forall x, poly_eval cs x = gf_mul (u8_xor x a) (poly_eval (poly_quot cs a) x)).
  { intros y. rewrite <- poly_quot_eval, (Hroot a) by left. ring. }
  rewrite Hq, (IH (poly_quot cs a)); [ring | done | rewrite length_poly_quot; simpl in Hl; lia |].
  intros y Hy. assert (Hz : poly_eval cs y = gf_zero) by (apply Hroot; by right). rewrite Hq in Hz.
  apply mul_eq_zero in Hz as [Hz|Hz]; [|done]. apply xor_eq_zero in Hz as ->. done.
Qed.

(** * Functions that are polynomials *)

Definition is_poly (n : nat) (f : byte -> byte) : Prop := exists cs, (length cs <= n)%nat /\ forall x, f x = poly_eval cs x.

Definition poly_add (cs ds : list byte) : list byte :=
  zip_with u8_xor (resize (length cs `max` length ds) gf_zero cs) (resize (length cs `max` length ds) gf_zero ds).

Lemma poly_eval_resize n cs x : (length cs <= n)%nat -> poly_eval (resize n gf_zero cs) x = poly_eval cs x.
Proof.
  revert n. induction cs as [|c cs IH]; intros n Hn.
  - rewrite resize_nil. induction n as [|n IHn]; [done|]. simpl. rewrite IHn by (simpl; lia). simpl. ring.
  - destruct n as [|n]; [simpl in Hn; lia|]. simpl in *. rewrite IH by lia. done.
Qed.

Lemma poly_eval_zip cs ds x : length cs = length ds -> poly_eval (zip_with u8_xor cs ds) x = u8_xor (poly_eval cs x) (poly_eval ds x).
Proof. revert ds. induction cs as [|c cs IH]; intros [|d ds] Hl; simpl in *; try lia; [ring|]. rewrite IH by lia. ring. Qed.

Lemma is_poly_add n f g : is_poly n f -> is_poly n g -> is_poly n (fun x => u8_xor (f x) (g x)).
Proof.
  intros (cs & Hc & Hf) (ds & Hd & Hg). exists (poly_add cs ds). unfold poly_add. split.
  - rewrite length_zip_with, !length_resize. lia.
  - intros x. rewrite poly_eval_zip by (by rewrite !length_resize). rewrite !poly_eval_resize by lia. by rewrite Hf, Hg.
Qed.

Lemma is_poly_scale n c f : is_poly n f -> is_poly n (fun x => gf_mul c (f x)).
Proof.
  intros (cs & Hl & Hf). exists (gf_mul c <$> cs). split; [by rewrite length_fmap|]. intros x. rewrite Hf. clear Hl Hf.
  induction cs as [|d cs IH]; csimpl; [ring|]. rewrite <- IH. ring.
Qed.

Lemma is_poly_weaken m n f : is_poly m f -> (m <= n)%nat -> is_poly n f.
Proof. intros (cs & Hl & Hf) Hn. exists cs. split; [lia|done]. Qed.

Lemma is_poly_linear n a f : is_poly n f -> is_poly (S n) (fun x => gf_mul (u8_xor x a) (f x)).
Proof.
  intros Hf. destruct (is_poly_add (S n) (fun x => gf_mul a (f x)) (fun x => gf_mul x (f x))) as (cs & Hl & Hc).
  - apply (is_poly_weaken n); [by apply is_poly_scale | lia].
  - destruct Hf as (cs & Hl & Hf). exists (gf_zero :: cs). split; [simpl; lia|]. intros x. simpl. rewrite Hf. ring.
  - exists cs. split; [done|]. intros x. rewrite <- Hc. ring.
Qed.

(** * The combination *)

(** Of the terms [(y, c)], the sum of [c / (x + y)], and it over the common
    denominator. *)
Definition cauchy_sum (ts : list (byte * byte)) (x : byte) : byte := xors ((fun t => gf_mul t.2 (gf_inv (u8_xor x t.1))) <$> ts).

Fixpoint denominator (ts : list (byte * byte)) (x : byte) : byte :=
  match ts with [] => gf_one | (y, _) :: ts => gf_mul (u8_xor x y) (denominator ts x) end.

Fixpoint numerator (ts : list (byte * byte)) (x : byte) : byte :=
  match ts with [] => gf_zero | (y, c) :: ts => u8_xor (gf_mul c (denominator ts x)) (gf_mul (u8_xor x y) (numerator ts x)) end.

Lemma denominator_poly ts : is_poly (S (length ts)) (denominator ts).
Proof.
  induction ts as [|[y c] ts IH]; [exists [gf_one]; split; [done|]; intros x; simpl; ring|]. exact (is_poly_linear _ y _ IH).
Qed.

Lemma numerator_poly ts : is_poly (length ts) (numerator ts).
Proof.
  induction ts as [|[y c] ts IH]; [by exists []|]. simpl. apply is_poly_add; [apply is_poly_scale, denominator_poly | by apply is_poly_linear].
Qed.

Lemma denominator_nonzero ts x : x ∉ ts.*1 -> denominator ts x <> gf_zero.
Proof.
  induction ts as [|[y c] ts IH]; intros Hx; [done|]. simpl in *. apply not_elem_of_cons in Hx as [Hne Hx].
  apply mul_nonzero; [|by apply IH]. intros E. by apply Hne, xor_eq_zero.
Qed.

Lemma numerator_sum ts x : x ∉ ts.*1 -> numerator ts x = gf_mul (denominator ts x) (cauchy_sum ts x).
Proof.
  induction ts as [|[y c] ts IH]; intros Hx; [unfold cauchy_sum; simpl; ring|]. simpl in Hx. apply not_elem_of_cons in Hx as [Hne Hx].
  simpl. rewrite IH by done. unfold cauchy_sum. csimpl. fold (cauchy_sum ts x).
  assert (Hinv : gf_mul (gf_inv (u8_xor x y)) (u8_xor x y) = gf_one) by (apply mul_inv_l; intros E; by apply Hne, xor_eq_zero).
  transitivity (u8_xor (gf_mul (gf_mul c (denominator ts x)) (gf_mul (gf_inv (u8_xor x y)) (u8_xor x y)))
    (gf_mul (u8_xor x y) (gf_mul (denominator ts x) (cauchy_sum ts x)))); [rewrite Hinv; ring|]. ring.
Qed.

Lemma numerator_zero ts xs : NoDup ts.*1 -> NoDup xs -> (forall x, x ∈ xs -> x ∉ ts.*1) -> (length ts <= length xs)%nat ->
  (forall x, x ∈ xs -> numerator ts x = gf_zero) -> Forall (fun t => t.2 = gf_zero) ts.
Proof.
  induction ts as [|[y c] ts IH]; intros Hys Hxs Hdis Hl Hz; [done|]. simpl in Hys, Hl. apply NoDup_cons in Hys as [Hy Hys].
  assert (Hxy : forall x, x ∈ xs -> x <> y /\ x ∉ ts.*1) by (intros x Hx; by apply not_elem_of_cons, (Hdis x Hx)).
  assert (Hc : c = gf_zero).
  { destruct (numerator_poly ((y, c) :: ts)) as (cs & Hcl & Hcs).
    assert (Hny : numerator ((y, c) :: ts) y = gf_zero).
    { rewrite Hcs. apply (poly_roots xs); [done | simpl in Hcl; lia |]. intros x Hx. rewrite <- Hcs. auto. }
    simpl in Hny. rewrite xor_self, mul_zero_l in Hny. assert (Hp : gf_mul c (denominator ts y) = gf_zero) by (rewrite <- Hny; ring).
    apply mul_eq_zero in Hp as [|Hp]; [done|]. by apply denominator_nonzero in Hp. }
  constructor; [done|]. apply IH; try done; [intros x Hx; by apply Hxy | lia |].
  intros x Hx. specialize (Hz x Hx). simpl in Hz. rewrite Hc, mul_zero_l, xor_zero_l in Hz. apply mul_eq_zero in Hz as [Hz|]; [|done].
  apply xor_eq_zero in Hz. by destruct (Hxy x Hx).
Qed.

Lemma cauchy_kernel ts xs : NoDup ts.*1 -> NoDup xs -> (forall x, x ∈ xs -> x ∉ ts.*1) -> (length ts <= length xs)%nat ->
  (forall x, x ∈ xs -> cauchy_sum ts x = gf_zero) -> Forall (fun t => t.2 = gf_zero) ts.
Proof.
  intros Hys Hxs Hdis Hl Hz. apply (numerator_zero ts xs); try done. intros x Hx. rewrite numerator_sum, Hz by auto. ring.
Qed.
