(* ===== verification/ReedSolomon.v ===== *)
(** The erasure code of the spans: src/go/core/rs/rs_core.c, rs.cpp and rs.go.

    A block is a linear combination of the data blocks, byte by byte; the
    coefficients of the data blocks are the identity, those of the parity blocks
    a scaled Cauchy matrix. A block is recovered from any D others by inverting
    their coefficients with Gauss-Jordan elimination.

    A matrix is the list of its rows: for the coefficients, the D bytes of one
    block, which the source keeps at matrix + block*D. The scalar routines are
    modelled here, the vector ones in RsVector. The cache of rs_get and the
    copying of pointers to C are left out. *)

From Stdlib Require Import ZArith Lia Ring.
From stdpp Require Import base numbers option list.
From S2P Require Import Prelude Gf256 Cauchy.

(** rs_warn and die raise SIGABRT; the other is behaviour that C leaves undefined. *)
Inductive rs_error := Abort | Undefined.

Abbreviation matrix := (list (list byte)).

Definition rs_data_blocks_core (parity : Z) : nat := Z.to_nat (Z.land parity 0x0F).
Definition rs_parity_blocks_core (parity : Z) : nat := Z.to_nat (Z.shiftr parity 4).
Definition rs_blocks_core (parity : Z) : nat := rs_data_blocks_core parity + rs_parity_blocks_core parity.

Definition entry (m : matrix) (i k : nat) : byte := (m !!! i) !!! k.

Definition identity (n : nat) : matrix := (fun i => (fun j => if (i =? j)%nat then gf_one else gf_zero) <$> seq 0 n) <$> seq 0 n.

(** * Inverting a matrix *)

Definition scale_row (f : byte) (row : list byte) : list byte := (fun x => gf_mul x f) <$> row.

(** [dst[k] ^= gf_mul(t, src[k])]. *)
Definition add_row (t : byte) (src dst : list byte) : list byte := zip_with (fun a b => u8_xor a (gf_mul t b)) dst src.

Definition swap_rows (i j : nat) (m : matrix) : matrix := <[i := m !!! j]> (<[j := m !!! i]> m).

(** The row to swap row [i] with: [i] itself when its pivot is not zero. *)
Definition find_pivot (n i : nat) (in_mat : matrix) : option nat :=
  if bool_decide (entry in_mat i i = gf_zero)
  then find (fun j => negb (bool_decide (entry in_mat j i = gf_zero))) (seq (S i) (n - S i))
  else Some i.

Definition eliminate_row (i : nat) (mats : matrix * matrix) (j : nat) : matrix * matrix :=
  let '(in_mat, out_mat) := mats in
  if (j =? i)%nat then mats
  else
    let temp := entry in_mat j i in
    (<[j := add_row temp (in_mat !!! i) (in_mat !!! j)]> in_mat, <[j := add_row temp (out_mat !!! i) (out_mat !!! j)]> out_mat).

Definition scale_pivot (i : nat) (mats : matrix * matrix) : matrix * matrix :=
  let '(in_mat, out_mat) := mats in
  let temp := gf_inv (entry in_mat i i) in
  (<[i := scale_row temp (in_mat !!! i)]> in_mat, <[i := scale_row temp (out_mat !!! i)]> out_mat).

Definition invert_column (n i : nat) (mats : matrix * matrix) : option (matrix * matrix) :=
  let '(in_mat, out_mat) := mats in
  match find_pivot n i in_mat with
  | None => None
  | Some j =>
    let mats := if (j =? i)%nat then mats else (swap_rows i j in_mat, swap_rows i j out_mat) in
    Some (foldl (eliminate_row i) (scale_pivot i mats) (seq 0 n))
  end.

Fixpoint invert_columns (n : nat) (columns : list nat) (mats : matrix * matrix) : option (matrix * matrix) :=
  match columns with
  | [] => Some mats
  | i :: columns => match invert_column n i mats with Some mats => invert_columns n columns mats | None => None end
  end.

Definition rs_gf_invert_matrix (in_mat : matrix) (n : nat) : option matrix :=
  match invert_columns n (seq 0 n) (in_mat, identity n) with Some (_, out_mat) => Some out_mat | None => None end.

(** * The coefficients *)

Definition cauchy_row (D col : nat) : list byte :=
  (fun row => gf_inv (u8_xor (byte_of (Z.of_nat col)) (byte_of (Z.of_nat row)))) <$> seq 0 D.

Definition scale_column (column : list byte) : list byte := scale_row (gf_inv (column !!! 0%nat)) column.

(** Scales entry [row] of every parity block by the inverse of the first's. *)
Definition scale_entry (parities : matrix) (row : nat) : matrix :=
  let factor := gf_inv (entry parities 0 row) in (fun column => <[row := gf_mul (column !!! row) factor]> column) <$> parities.

Definition cauchy_parities (D P : nat) : matrix :=
  foldl scale_entry (scale_column <$> (cauchy_row D <$> seq D P)) (seq 1 (D - 1)).

Definition rs_cauchy_matrix (D P : nat) : matrix := identity D ++ cauchy_parities D P.

Record rs := mkRs { r_parity : Z; r_matrix : matrix; r_expanded : list (list (list byte)) }.

Definition rs_new_core (parity : Z) : rs :=
  let D := rs_data_blocks_core parity in
  let m := rs_cauchy_matrix D (rs_parity_blocks_core parity) in
  mkRs parity m ((fun coefficients : list byte => gf_mul_expand_factor <$> coefficients) <$> drop D m).

(** * Computing parity *)

Definition column (blocks : matrix) (i : nat) : list byte := (fun b => b !!! i) <$> blocks.

(** Byte [i] of parity block [p]. *)
Definition rs_compute_parity_single (r : rs) (data : matrix) (p i : nat) : byte :=
  if (p =? 0)%nat then foldl u8_xor gf_zero (column data i)
  else foldl (fun acc q => u8_xor acc (gf_mul_expanded q.1 q.2)) gf_zero (zip (column data i) (r_expanded r !!! p)).

Definition rs_compute_parity (r : rs) (size : nat) (data : matrix) : matrix :=
  (fun p => rs_compute_parity_single r data p <$> seq 0 size) <$> seq 0 (rs_parity_blocks_core (r_parity r)).

(** * Recovering a block *)

(** The blocks of a bitmap, lowest first. *)
Definition have_list (B : nat) (have_blocks : Z) : list nat := filter (fun b => Z.testbit have_blocks (Z.of_nat b) = true) (seq 0 B).

Definition rs_recover_mat (r : rs) (have_blocks : Z) (want : nat) : outcome rs_error (list byte) :=
  let D := rs_data_blocks_core (r_parity r) in
  let B := rs_blocks_core (r_parity r) in
  let want_block := Z.shiftl 1 (Z.of_nat want) in
  if negb (Z.shiftr have_blocks (Z.of_nat B) =? 0) || negb (Z.shiftr want_block (Z.of_nat B) =? 0) then Err Abort
  else if negb (Z.land have_blocks want_block =? 0) then Err Abort
  else
    let data_to_have := (fun b => r_matrix r !!! b) <$> have_list B have_blocks in
    if negb (length data_to_have =? D)%nat then Err Undefined
    else
      match rs_gf_invert_matrix data_to_have D with
      | None => Err Abort
      | Some have_to_data =>
        let data_to_want := r_matrix r !!! want in
        Ok ((fun i => foldl (fun acc j => u8_xor acc (gf_mul (data_to_want !!! j) (entry have_to_data j i))) gf_zero (seq 0 D)) <$> seq 0 D)
      end.

Definition rs_recover_matmul_single_expanded (have : matrix) (expanded : list (list byte)) (i : nat) : byte :=
  foldl (fun acc q => u8_xor acc (gf_mul_expanded q.1 q.2)) gf_zero (zip (column have i) expanded).

Definition rs_recover (r : rs) (size : nat) (have_blocks : Z) (have : matrix) (want : nat) : outcome rs_error (list byte) :=
  let! have_to_want := rs_recover_mat r have_blocks want in
  Ok (rs_recover_matmul_single_expanded have (gf_mul_expand_factor <$> have_to_want) <$> seq 0 size).

(** * The Go interface *)

Definition Get (parity : Z) : outcome rs_error rs :=
  if (rs_data_blocks_core parity <? 2)%nat then Panic
  else if (rs_parity_blocks_core parity <? 1)%nat then Err Abort
  else Ok (rs_new_core parity).

(** [checkBlockSize]; taking the address of the first byte of an empty block
    panics as well. *)
Definition checkBlockSize (r : rs) (data : matrix) : outcome rs_error nat :=
  if negb (length data =? rs_data_blocks_core (r_parity r))%nat then Panic
  else
    let! b := index data 0 in
    if negb (forallb (fun d => (length d =? length b)%nat) data) then Panic
    else if (length b =? 0)%nat then Panic
    else Ok (length b).

(** [ComputeParity], and [ComputeParityInto] buffers of the size of the blocks. *)
Definition ComputeParity (r : rs) (data : matrix) : outcome rs_error matrix :=
  let! blockSize := checkBlockSize r data in Ok (rs_compute_parity r blockSize data).

Definition RecoverInto (r : rs) (haveBlocks : Z) (blocks : matrix) (wantBlock : nat) (block : list byte) : outcome rs_error (list byte) :=
  let! blockSize := checkBlockSize r blocks in
  if negb (length block =? blockSize)%nat then Panic
  else if existsb (fun b => Z.testbit haveBlocks (Z.of_nat b) && ((rs_blocks_core (r_parity r) <=? b)%nat || (b =? wantBlock)%nat)) (seq 0 32) then Panic
  else rs_recover r blockSize haveBlocks blocks wantBlock.

(** * Sums *)

Definition gsum (n : nat) (f : nat -> byte) : byte := xors (f <$> seq 0 n).

Lemma foldl_xor {A} (g : A -> byte) (l : list A) (a : byte) : foldl (fun acc x => u8_xor acc (g x)) a l = u8_xor a (xors (g <$> l)).
Proof. revert a. induction l as [|x l IH]; intros a; csimpl; [ring|]. rewrite IH. ring. Qed.

Lemma foldl_xor_id (l : list byte) (a : byte) : foldl u8_xor a l = u8_xor a (xors l).
Proof. revert a. induction l as [|x l IH]; intros a; csimpl; [ring|]. rewrite IH. ring. Qed.

Lemma gsum_S n f : gsum (S n) f = u8_xor (gsum n f) (f n).
Proof.
  unfold gsum. rewrite seq_S, fmap_app. simpl. generalize (f <$> seq 0 n). intros l. induction l as [|x l IH]; csimpl; [ring|]. rewrite IH. ring.
Qed.

Lemma gsum_ext n f g : (forall k, (k < n)%nat -> f k = g k) -> gsum n f = gsum n g.
Proof. intros H. induction n as [|n IH]; [done|]. rewrite !gsum_S, IH, H by auto with lia. done. Qed.

Lemma gsum_zero n f : (forall k, (k < n)%nat -> f k = gf_zero) -> gsum n f = gf_zero.
Proof. intros H. induction n as [|n IH]; [done|]. rewrite gsum_S, IH, H by auto with lia. ring. Qed.

Lemma gsum_add n f g : gsum n (fun k => u8_xor (f k) (g k)) = u8_xor (gsum n f) (gsum n g).
Proof. induction n as [|n IH]; [done|]. rewrite !gsum_S, IH. ring. Qed.

Lemma gsum_mul n a f : gsum n (fun k => gf_mul a (f k)) = gf_mul a (gsum n f).
Proof. induction n as [|n IH]; [unfold gsum; simpl; ring|]. rewrite !gsum_S, IH. ring. Qed.

Lemma gsum_swap m n (f : nat -> nat -> byte) : gsum m (fun i => gsum n (f i)) = gsum n (fun j => gsum m (fun i => f i j)).
Proof.
  induction m as [|m IH]; [symmetry; by apply gsum_zero|]. rewrite gsum_S, IH, <- gsum_add. apply gsum_ext. intros k _. by rewrite gsum_S.
Qed.

Lemma gsum_one n f i : (i < n)%nat -> (forall k, (k < n)%nat -> k <> i -> f k = gf_zero) -> gsum n f = f i.
Proof.
  intros Hi H. induction n as [|n IH]; [lia|]. rewrite gsum_S. destruct (decide (i = n)) as [->|Hne].
  - rewrite gsum_zero; [ring|]. intros k Hk. apply H; lia.
  - rewrite IH, (H n) by auto with lia. ring.
Qed.

Lemma xors_zip {A} (g : byte -> A -> byte) (l : list byte) (t : list A) `{Inhabited A} n : length l = n -> length t = n ->
  xors ((fun q => g q.1 q.2) <$> zip l t) = gsum n (fun k => g (l !!! k) (t !!! k)).
Proof.
  intros Hl Ht. unfold gsum. f_equal. apply list_eq. intros i. rewrite !list_lookup_fmap. destruct (decide (i < n)%nat) as [Hi|Hi].
  - rewrite lookup_seq_lt by done. rewrite lookup_zip_with. destruct (lookup_lt_is_Some_2 l i) as [x Hx]; [lia|].
    destruct (lookup_lt_is_Some_2 t i) as [y Hy]; [lia|]. rewrite Hx, Hy. simpl. by rewrite (list_lookup_total_correct _ _ _ Hx), (list_lookup_total_correct _ _ _ Hy).
  - rewrite lookup_seq_ge by lia. rewrite (lookup_ge_None_2 (zip l t)); [done|]. rewrite length_zip_with. lia.
Qed.

(** * Rows as linear forms *)

Definition dot (n : nat) (row : list byte) (x : nat -> byte) : byte := gsum n (fun k => gf_mul (row !!! k) (x k)).

Definition square (n : nat) (m : matrix) : Prop := length m = n /\ forall i, (i < n)%nat -> length (m !!! i) = n.

Lemma fmap_total {A B} `{Inhabited B} (f : A -> B) (l : list A) k a : l !! k = Some a -> (f <$> l) !!! k = f a.
Proof. intros Ha. apply list_lookup_total_correct. by rewrite list_lookup_fmap, Ha. Qed.

Lemma lookup_total_scale f row k : (k < length row)%nat -> scale_row f row !!! k = gf_mul (row !!! k) f.
Proof.
  intros Hk. destruct (lookup_lt_is_Some_2 row k Hk) as [a Ha]. rewrite (list_lookup_total_correct _ _ _ Ha).
  exact (fmap_total (fun x => gf_mul x f) row k a Ha).
Qed.

Lemma lookup_total_add t src dst k : length src = length dst -> (k < length dst)%nat ->
  add_row t src dst !!! k = u8_xor (dst !!! k) (gf_mul t (src !!! k)).
Proof.
  intros Hl Hk. destruct (lookup_lt_is_Some_2 dst k Hk) as [a Ha]. destruct (lookup_lt_is_Some_2 src k ltac:(lia)) as [b Hb].
  rewrite (list_lookup_total_correct _ _ _ Ha), (list_lookup_total_correct _ _ _ Hb). apply list_lookup_total_correct.
  unfold add_row. by rewrite lookup_zip_with, Ha, Hb.
Qed.

Lemma dot_scale n f row x : length row = n -> dot n (scale_row f row) x = gf_mul f (dot n row x).
Proof. intros Hl. unfold dot. rewrite <- gsum_mul. apply gsum_ext. intros k Hk. rewrite lookup_total_scale by lia. ring. Qed.

Lemma dot_add n t src dst x : length src = n -> length dst = n -> dot n (add_row t src dst) x = u8_xor (dot n dst x) (gf_mul t (dot n src x)).
Proof.
  intros Hs Hd. unfold dot. rewrite <- gsum_mul, <- gsum_add. apply gsum_ext. intros k Hk. rewrite lookup_total_add by lia. ring.
Qed.

Lemma insert_total (m : matrix) i j a : (i < length m)%nat -> <[i := a]> m !!! j = if (j =? i)%nat then a else m !!! j.
Proof.
  intros Hi. destruct (Nat.eqb_spec j i) as [->|Hne]; [by apply list_lookup_total_insert_eq|]. by apply list_lookup_total_insert_ne.
Qed.

Lemma square_insert n m i a : square n m -> (i < n)%nat -> length a = n -> square n (<[i := a]> m).
Proof.
  intros [Hl Hr] Hi Ha. split; [by rewrite length_insert|]. intros j Hj. rewrite insert_total by lia. destruct (j =? i)%nat; auto.
Qed.

Lemma length_scale_row f row : length (scale_row f row) = length row.
Proof. apply length_fmap. Qed.

Lemma length_add_row t src dst : length src = length dst -> length (add_row t src dst) = length dst.
Proof. intros H. unfold add_row. rewrite length_zip_with. lia. Qed.

(** The equations of two matrices: what elimination does not change. *)
Definition equations (n : nat) (mats : matrix * matrix) (x y : nat -> byte) : Prop :=
  forall r, (r < n)%nat -> dot n (mats.1 !!! r) x = dot n (mats.2 !!! r) y.

Definition squares (n : nat) (mats : matrix * matrix) : Prop := square n mats.1 /\ square n mats.2.

(** [mats'] has the equations of [mats]. *)
Definition same_equations (n : nat) (mats mats' : matrix * matrix) : Prop :=
  squares n mats' /\ forall x y, equations n mats x y <-> equations n mats' x y.

Lemma swap_total n i j m r : square n m -> (i < n)%nat -> (j < n)%nat -> j <> i ->
  swap_rows i j m !!! r = if (r =? i)%nat then m !!! j else if (r =? j)%nat then m !!! i else m !!! r.
Proof. intros [Hl _] Hi Hj Hne. unfold swap_rows. rewrite !insert_total by (rewrite ?length_insert; lia). done. Qed.

Lemma square_swap n i j m : square n m -> (i < n)%nat -> (j < n)%nat -> square n (swap_rows i j m).
Proof. intros H Hi Hj. destruct H as [Hl Hr] eqn:E. unfold swap_rows. repeat apply square_insert; auto. Qed.

Lemma same_swap n i j in_mat out_mat : squares n (in_mat, out_mat) -> (i < n)%nat -> (j < n)%nat -> j <> i ->
  same_equations n (in_mat, out_mat) (swap_rows i j in_mat, swap_rows i j out_mat).
Proof.
  intros [H1 H2] Hi Hj Hne. split; [split; by apply square_swap|]. intros x y. unfold equations; simpl. split; intros H r Hr.
  - rewrite !(swap_total n) by done. destruct (r =? i)%nat, (r =? j)%nat; auto.
  - destruct (decide (r = i)) as [->|Hri]; [|destruct (decide (r = j)) as [->|Hrj]].
    + specialize (H j Hj). rewrite !(swap_total n) in H by done. rewrite (proj2 (Nat.eqb_neq j i)), Nat.eqb_refl in H by done. done.
    + specialize (H i Hi). rewrite !(swap_total n) in H by done. by rewrite Nat.eqb_refl in H.
    + specialize (H r Hr). rewrite !(swap_total n) in H by done. by rewrite (proj2 (Nat.eqb_neq r i)), (proj2 (Nat.eqb_neq r j)) in H.
Qed.

(** Replacing one equation by an equivalent one. *)
Lemma same_insert n i a b in_mat out_mat : squares n (in_mat, out_mat) -> (i < n)%nat -> length a = n -> length b = n ->
  (forall x y, (forall r, (r < n)%nat -> r <> i -> dot n (in_mat !!! r) x = dot n (out_mat !!! r) y) ->
     dot n (in_mat !!! i) x = dot n (out_mat !!! i) y <-> dot n a x = dot n b y) ->
  same_equations n (in_mat, out_mat) (<[i := a]> in_mat, <[i := b]> out_mat).
Proof.
  intros [H1 H2] Hi Ha Hb Heq. split; [split; by apply square_insert|]. intros x y. unfold equations; simpl.
  assert (Ht : forall r, <[i := a]> in_mat !!! r = (if (r =? i)%nat then a else in_mat !!! r) /\
    <[i := b]> out_mat !!! r = (if (r =? i)%nat then b else out_mat !!! r)).
  { intros r. destruct H1 as [L1 _], H2 as [L2 _]. simpl in *. split; apply insert_total; lia. }
  split; intros H.
  - intros r Hr. destruct (Ht r) as [-> ->]. destruct (Nat.eqb_spec r i) as [->|Hne]; [|auto]. apply Heq; auto.
  - assert (Hother : forall r, (r < n)%nat -> r <> i -> dot n (in_mat !!! r) x = dot n (out_mat !!! r) y).
    { intros r Hr Hne. specialize (H r Hr). destruct (Ht r) as [E1 E2]. rewrite E1, E2 in H. by rewrite (proj2 (Nat.eqb_neq r i)) in H. }
    intros r Hr. destruct (decide (r = i)) as [->|Hne]; [|auto]. apply (Heq x y Hother). specialize (H i Hi).
    destruct (Ht i) as [E1 E2]. rewrite E1, E2 in H. by rewrite Nat.eqb_refl in H.
Qed.

Lemma same_scale n i in_mat out_mat : squares n (in_mat, out_mat) -> (i < n)%nat -> entry in_mat i i <> gf_zero ->
  same_equations n (in_mat, out_mat) (scale_pivot i (in_mat, out_mat)).
Proof.
  intros Hsq Hi Hp. destruct Hsq as [[L1 R1] [L2 R2]] eqn:E. simpl in *. apply same_insert; try done; try (rewrite length_scale_row; auto).
  intros x y _. rewrite !dot_scale by auto. set (f := gf_inv _). split; [by intros ->|]. intros H.
  rewrite <- (mul_one_l (dot n (in_mat !!! i) x)), <- (mul_one_l (dot n (out_mat !!! i) y)), <- (mul_inv_l f) by (by apply inv_nonzero).
  by rewrite <- !mul_assoc, H.
Qed.

Lemma same_eliminate n i j mats : squares n mats -> (i < n)%nat -> (j < n)%nat -> same_equations n mats (eliminate_row i mats j).
Proof.
  intros Hsq Hi Hj. destruct mats as [in_mat out_mat]. unfold eliminate_row. destruct (Nat.eqb_spec j i) as [->|Hne]; [by split|].
  destruct Hsq as [[L1 R1] [L2 R2]] eqn:E. simpl in *. apply same_insert; try done; try (rewrite length_add_row; auto; by rewrite R1, R1 || by rewrite R2, R2).
  intros x y Hother. rewrite !dot_add by auto. rewrite <- (Hother i) by auto. set (t := gf_mul _ _). split; [by intros ->|]. intros H.
  transitivity (u8_xor (u8_xor (dot n (in_mat !!! j) x) t) t); [ring|]. rewrite H. ring.
Qed.

Lemma same_equations_trans n m1 m2 m3 : same_equations n m1 m2 -> same_equations n m2 m3 -> same_equations n m1 m3.
Proof. intros [_ H1] [Hs H2]. split; [done|]. intros x y. by rewrite H1, H2. Qed.

(** ** Elimination *)

(** The first [i] columns are those of the identity. *)
Definition unit_columns (n i : nat) (m : matrix) : Prop :=
  forall c r, (c < i)%nat -> (r < n)%nat -> entry m r c = if (r =? c)%nat then gf_one else gf_zero.

Lemma find_pivot_some n i m j : find_pivot n i m = Some j -> (i < n)%nat -> (i <= j < n)%nat /\ entry m j i <> gf_zero.
Proof.
  unfold find_pivot. case_bool_decide as Hp; [|intros [= <-]; split; [lia|done]]. intros H Hi. apply find_some in H as [Hin Hne].
  apply in_seq in Hin. apply negb_true_iff, bool_decide_eq_false in Hne. split; [lia|done].
Qed.

Lemma find_pivot_none n i m r : find_pivot n i m = None -> (i <= r < n)%nat -> entry m r i = gf_zero.
Proof.
  unfold find_pivot. case_bool_decide as Hp; [|done]. intros H Hr. destruct (decide (r = i)) as [->|Hne]; [done|].
  pose proof (find_none _ _ H r ltac:(apply in_seq; lia)) as E. by apply negb_false_iff, bool_decide_eq_true in E.
Qed.

Record eliminating (n i : nat) (mats : matrix * matrix) (rows : list nat) : Prop := {
  el_squares : squares n mats;
  el_units : unit_columns n i mats.1;
  el_pivot : entry mats.1 i i = gf_one;
  el_rows : forall r, r ∈ rows -> r <> i -> entry mats.1 r i = gf_zero;
}.

Lemma eliminate_entry n i j in_mat out_mat r c : squares n (in_mat, out_mat) -> (i < n)%nat -> (j < n)%nat -> j <> i -> (c < n)%nat ->
  entry (eliminate_row i (in_mat, out_mat) j).1 r c =
    if (r =? j)%nat then u8_xor (entry in_mat j c) (gf_mul (entry in_mat j i) (entry in_mat i c)) else entry in_mat r c.
Proof.
  intros [[L R] _] Hi Hj Hne Hc. unfold eliminate_row. rewrite (proj2 (Nat.eqb_neq j i)) by done. simpl in *.
  unfold entry. rewrite insert_total by lia. destruct (r =? j)%nat; [|done]. rewrite lookup_total_add; [done | by rewrite !R | by rewrite R].
Qed.

Lemma eliminating_step n i mats rows j : eliminating n i mats rows -> (i < n)%nat -> (j < n)%nat ->
  eliminating n i (eliminate_row i mats j) (j :: rows).
Proof.
  intros [Hsq Hu Hp Hr] Hi Hj. destruct (same_eliminate n i j mats Hsq Hi Hj) as [Hsq' _]. destruct mats as [in_mat out_mat].
  destruct (decide (j = i)) as [->|Hne].
  { unfold eliminate_row in *. rewrite Nat.eqb_refl in *. constructor; try done. intros r [->|Hin]%elem_of_cons Hri; [done|auto]. }
  pose proof (fun r c => eliminate_entry n i j in_mat out_mat r c Hsq Hi Hj Hne) as He. simpl in Hu, Hp, Hr. constructor; [done|..].
  - intros c r Hc Hr'. rewrite He by lia. destruct (Nat.eqb_spec r j) as [->|_]; [|by apply Hu]. rewrite (Hu c i), (Hu c j) by done.
    rewrite (proj2 (Nat.eqb_neq i c)) by lia. ring.
  - rewrite He by done. by rewrite (proj2 (Nat.eqb_neq i j)).
  - intros r Hin Hri. rewrite He by done. destruct (Nat.eqb_spec r j) as [->|Hrj].
    + rewrite Hp. ring.
    + apply elem_of_cons in Hin as [->|Hin]; [done|auto].
Qed.

Lemma eliminating_rows n i js mats rows : eliminating n i mats rows -> (i < n)%nat -> Forall (fun j => (j < n)%nat) js ->
  let mats' := foldl (eliminate_row i) mats js in same_equations n mats mats' /\ eliminating n i mats' (rev js ++ rows).
Proof.
  intros Hel Hi Hjs. revert mats rows Hel. induction Hjs as [|j js Hj _ IH]; intros mats rows Hel; simpl; [split; [by split; [apply Hel|]|done]|].
  destruct (IH _ _ (eliminating_step n i mats rows j Hel Hi Hj)) as [H1 H2]. split.
  - apply (same_equations_trans _ _ (eliminate_row i mats j)); [apply same_eliminate; [apply Hel | done..] | exact H1].
  - by rewrite <- app_assoc.
Qed.

Lemma swapped_pivot n i j in_mat out_mat : squares n (in_mat, out_mat) -> unit_columns n i in_mat -> (i <= j < n)%nat -> entry in_mat j i <> gf_zero ->
  exists mats, (if (j =? i)%nat then (in_mat, out_mat) else (swap_rows i j in_mat, swap_rows i j out_mat)) = mats /\
    same_equations n (in_mat, out_mat) mats /\ unit_columns n i mats.1 /\ entry mats.1 i i <> gf_zero.
Proof.
  intros Hsq Hu Hj Hp. eexists; split; [done|]. destruct (Nat.eqb_spec j i) as [->|Hne]; [by split_and!; [split|..]|].
  destruct Hsq as [H1 H2] eqn:E. split_and!; [apply same_swap; auto with lia| |].
  - intros c r Hc Hr. simpl in *. unfold entry. rewrite (swap_total n) by auto with lia. destruct (Nat.eqb_spec r i) as [->|Hri].
    + fold (entry in_mat j c). rewrite Hu, (proj2 (Nat.eqb_neq j c)), (proj2 (Nat.eqb_neq i c)) by lia. done.
    + destruct (Nat.eqb_spec r j) as [->|Hrj]; [|by apply Hu].
      fold (entry in_mat i c). rewrite Hu, (proj2 (Nat.eqb_neq i c)), (proj2 (Nat.eqb_neq j c)) by lia. done.
  - simpl in *. unfold entry. rewrite (swap_total n) by auto with lia. by rewrite Nat.eqb_refl.
Qed.

Lemma scaled_pivot n i mats : squares n mats -> unit_columns n i mats.1 -> (i < n)%nat -> entry mats.1 i i <> gf_zero ->
  same_equations n mats (scale_pivot i mats) /\ eliminating n i (scale_pivot i mats) [].
Proof.
  destruct mats as [in_mat out_mat]. simpl. intros Hsq Hu Hi Hp. pose proof (same_scale n i in_mat out_mat Hsq Hi Hp) as Hs. split; [done|].
  destruct Hs as [Hsq' _]. destruct Hsq as [[L R] _]. simpl in L, R.
  assert (He : forall r c, (c < n)%nat -> entry (scale_pivot i (in_mat, out_mat)).1 r c =
    if (r =? i)%nat then gf_mul (entry in_mat i c) (gf_inv (entry in_mat i i)) else entry in_mat r c).
  { intros r c Hc. simpl. unfold entry. rewrite insert_total by lia. destruct (r =? i)%nat; [|done]. apply lookup_total_scale. by rewrite R. }
  constructor; [done | | | by intros r ?%not_elem_of_nil].
  - intros c r Hc Hr. rewrite He by lia. destruct (Nat.eqb_spec r i) as [->|Hri]; [|by apply Hu].
    rewrite Hu, (proj2 (Nat.eqb_neq i c)) by lia. ring.
  - rewrite He by done. rewrite Nat.eqb_refl, mul_comm. by apply mul_inv_l.
Qed.

Lemma invert_column_ok n i mats j : squares n mats -> unit_columns n i mats.1 -> (i < n)%nat -> find_pivot n i mats.1 = Some j ->
  exists mats', invert_column n i mats = Some mats' /\ same_equations n mats mats' /\ unit_columns n (S i) mats'.1.
Proof.
  intros Hsq Hu Hi Hf. destruct mats as [in_mat out_mat]. simpl in *. rewrite Hf. destruct (find_pivot_some _ _ _ _ Hf Hi) as [Hj Hp].
  destruct (swapped_pivot n i j in_mat out_mat Hsq Hu Hj Hp) as (mats & -> & Hs & Hu' & Hp').
  destruct (scaled_pivot n i mats (proj1 Hs) Hu' Hi Hp') as [Hs2 Hel].
  destruct (eliminating_rows n i (seq 0 n) _ _ Hel Hi) as [Hs3 [Hsq' Hu3 Hp3 Hr3]]; [apply Forall_seq; lia|].
  eexists; split_and!; [done | eapply same_equations_trans; [exact Hs | eapply same_equations_trans; [exact Hs2 | exact Hs3]] |].
  intros c r Hc Hr. destruct (decide (c = i)) as [->|Hne]; [|apply Hu3; lia]. destruct (Nat.eqb_spec r i) as [->|Hri]; [done|].
  apply Hr3; [|done]. rewrite app_nil_r. apply list_elem_of_In, in_rev. rewrite rev_involutive. apply in_seq. lia.
Qed.

(** A column without a pivot gives a solution of the homogeneous equations. *)
Lemma no_pivot_kernel n i m : square n m -> unit_columns n i m -> (i < n)%nat -> find_pivot n i m = None ->
  exists x : nat -> byte, x i = gf_one /\ forall r, (r < n)%nat -> dot n (m !!! r) x = gf_zero.
Proof.
  intros Hsq Hu Hi Hf. exists (fun k => if (k <? i)%nat then entry m k i else if (k =? i)%nat then gf_one else gf_zero).
  rewrite Nat.ltb_irrefl, Nat.eqb_refl. split; [done|]. intros r Hr. unfold dot.
  assert (Hterm : forall k, (k < n)%nat -> gf_mul ((m !!! r) !!! k) (if (k <? i)%nat then entry m k i else if (k =? i)%nat then gf_one else gf_zero) =
    u8_xor (if (k =? r)%nat then if (r <? i)%nat then entry m r i else gf_zero else gf_zero) (if (k =? i)%nat then entry m r i else gf_zero)).
  { intros k Hk. fold (entry m r k). destruct (Nat.ltb_spec k i) as [Hki|Hki].
    - rewrite (Hu k r) by lia. rewrite (proj2 (Nat.eqb_neq k i)) by lia. destruct (Nat.eqb_spec r k) as [->|Hrk].
      + rewrite Nat.eqb_refl. rewrite (proj2 (Nat.ltb_lt k i)) by lia. ring.
      + rewrite (proj2 (Nat.eqb_neq k r)) by lia. ring.
    - destruct (Nat.eqb_spec k i) as [->|Hne].
      + destruct (Nat.eqb_spec i r) as [<-|]; [rewrite Nat.ltb_irrefl|]; ring.
      + destruct (Nat.eqb_spec k r) as [<-|]; [rewrite (proj2 (Nat.ltb_ge k i)) by lia|]; ring. }
  rewrite (gsum_ext _ _ _ Hterm), gsum_add. rewrite (gsum_one n _ r), (gsum_one n _ i) by
    (first [done | intros k _ Hk; by rewrite (proj2 (Nat.eqb_neq k _))]).
  rewrite !Nat.eqb_refl. destruct (Nat.ltb_spec r i); [ring|]. rewrite (find_pivot_none n i m r Hf) by lia. ring.
Qed.

(** The homogeneous equations have no other solution than zero. *)
Definition injective_matrix (n : nat) (m : matrix) : Prop :=
  forall x, (forall r, (r < n)%nat -> dot n (m !!! r) x = gf_zero) -> forall k, (k < n)%nat -> x k = gf_zero.

Lemma dot_zero n row : dot n row (fun _ => gf_zero) = gf_zero.
Proof. apply gsum_zero. intros k _. ring. Qed.

Lemma dot_one n i x : (i < n)%nat -> dot n ((fun j => if (i =? j)%nat then gf_one else gf_zero) <$> seq 0 n) x = x i.
Proof.
  intros Hi. unfold dot.
  assert (He : forall k, (k < n)%nat -> ((fun j => if (i =? j)%nat then gf_one else gf_zero) <$> seq 0 n) !!! k = if (i =? k)%nat then gf_one else gf_zero).
  { intros k Hk. apply (fmap_total (fun j => if (i =? j)%nat then gf_one else gf_zero)). by rewrite lookup_seq_lt. }
  rewrite (gsum_one n _ i) by (first [done | intros k Hk Hne; rewrite He by done; rewrite (proj2 (Nat.eqb_neq i k)) by done; ring]).
  rewrite He, Nat.eqb_refl by done. ring.
Qed.

Lemma identity_total n i : (i < n)%nat -> identity n !!! i = (fun j => if (i =? j)%nat then gf_one else gf_zero) <$> seq 0 n.
Proof. intros Hi. apply (fmap_total (fun i => (fun j => if (i =? j)%nat then gf_one else gf_zero) <$> seq 0 n)). by rewrite lookup_seq_lt. Qed.

Lemma square_identity n : square n (identity n).
Proof. split; [unfold identity; by rewrite length_fmap, length_seq|]. intros i Hi. by rewrite identity_total, length_fmap, length_seq. Qed.

Lemma invert_columns_ok n m i k mats : injective_matrix n m -> (i + k = n)%nat -> same_equations n (m, identity n) mats -> unit_columns n i mats.1 ->
  exists mats', invert_columns n (seq i k) mats = Some mats' /\ same_equations n (m, identity n) mats' /\ unit_columns n n mats'.1.
Proof.
  intros Hinj. revert i mats. induction k as [|k IH]; intros i mats Hik Hs Hu; simpl.
  { assert (i = n) as -> by lia. by exists mats. }
  destruct (find_pivot n i mats.1) as [j|] eqn:Hf.
  - destruct (invert_column_ok n i mats j (proj1 Hs) Hu ltac:(lia) Hf) as (mats' & -> & Hs' & Hu').
    apply (IH (S i)); [lia | by eapply same_equations_trans | done].
  - exfalso. destruct (no_pivot_kernel n i mats.1 (proj1 (proj1 Hs)) Hu ltac:(lia) Hf) as (x & Hx & Hz).
    assert (Heq : equations n (m, identity n) x (fun _ => gf_zero)).
    { apply Hs. intros r Hr. by rewrite Hz, dot_zero. }
    assert (Ex : x i = gf_zero); [|rewrite Hx in Ex; discriminate Ex]. apply (Hinj x); [|lia]. intros r Hr. specialize (Heq r Hr). simpl in Heq. by rewrite Heq, dot_zero.
Qed.

(** Elimination inverts every matrix that is injective. *)
Lemma invert_ok n m : square n m -> injective_matrix n m ->
  exists out, rs_gf_invert_matrix m n = Some out /\
    forall x y, (forall r, (r < n)%nat -> dot n (m !!! r) x = y r) -> forall r, (r < n)%nat -> dot n (out !!! r) y = x r.
Proof.
  intros Hsq Hinj. destruct (invert_columns_ok n m 0 n (m, identity n) Hinj) as ([in_mat out] & E & [_ Hs] & Hu); [done | | by intros c r Hc; lia |].
  { split; [split; [done|apply square_identity]|done]. }
  simpl in Hu. exists out. unfold rs_gf_invert_matrix. rewrite E. split; [done|]. intros x y Hxy r Hr.
  assert (Heq : equations n (m, identity n) x y). { intros i Hi. simpl. by rewrite identity_total, dot_one, Hxy by done. }
  apply Hs in Heq. specialize (Heq r Hr). simpl in Heq. rewrite <- Heq. unfold dot. rewrite (gsum_one n _ r) by
    (first [done | intros k Hk Hne; fold (entry in_mat r k); rewrite (Hu k r), (proj2 (Nat.eqb_neq r k)) by auto; ring]).
  fold (entry in_mat r r). rewrite (Hu r r), Nat.eqb_refl by done. ring.
Qed.

(** * The coefficients of the parity blocks *)

(** The field element of a block. *)
Definition point (b : nat) : byte := byte_of (Z.of_nat b).

Lemma point_inj a b : (a < 256)%nat -> (b < 256)%nat -> point a = point b -> a = b.
Proof. unfold point. intros Ha Hb E. apply (f_equal byte_val) in E. rewrite !byte_val_of, !Z.mod_small in E by lia. lia. Qed.

Lemma points_differ a b : (a < 256)%nat -> (b < 256)%nat -> a <> b -> u8_xor (point a) (point b) <> gf_zero.
Proof. intros Ha Hb Hne E. by apply Hne, point_inj, xor_eq_zero. Qed.

(** The factor of parity block [p] and the entries it has with factors [G]. *)
Definition column_factor (D p : nat) : byte := gf_inv (gf_inv (u8_xor (point (D + p)) (point 0))).
Definition scaled_entry (D p k : nat) (G : nat -> byte) : byte :=
  gf_mul (gf_mul (gf_inv (u8_xor (point (D + p)) (point k))) (column_factor D p)) (G k).

Record scaled (D P : nat) (G : nat -> byte) (m : matrix) : Prop := {
  sc_length : length m = P;
  sc_rows : forall p, (p < P)%nat -> length (m !!! p) = D;
  sc_entries : forall p k, (p < P)%nat -> (k < D)%nat -> entry m p k = scaled_entry D p k G;
  sc_factors : forall k, (k < D)%nat -> G k <> gf_zero;
}.

Lemma scaled_entry_nonzero D P G m p k : scaled D P G m -> (D + P <= 256)%nat -> (p < P)%nat -> (k < D)%nat -> entry m p k <> gf_zero.
Proof.
  intros [_ _ He Hg] HB Hp Hk. rewrite He by done. unfold scaled_entry, column_factor.
  repeat (first [apply mul_nonzero | apply inv_nonzero | apply points_differ | by apply Hg]; try lia).
Qed.

Lemma scaled_start D P : (0 < D)%nat -> (D + P <= 256)%nat -> scaled D P (fun _ => gf_one) (scale_column <$> (cauchy_row D <$> seq D P)).
Proof.
  intros HD HB.
  assert (Hrow : forall p, (p < P)%nat -> (scale_column <$> (cauchy_row D <$> seq D P)) !!! p = scale_column (cauchy_row D (D + p))).
  { intros p Hp. apply fmap_total. by rewrite list_lookup_fmap, lookup_seq_lt. }
  assert (Hc : forall p k, (k < D)%nat -> cauchy_row D (D + p) !!! k = gf_inv (u8_xor (point (D + p)) (point k))).
  { intros p k Hk. unfold cauchy_row. apply (fmap_total (fun row => gf_inv (u8_xor (point (D + p)) (point row)))). by rewrite lookup_seq_lt. }
  assert (Hl : forall col, length (cauchy_row D col) = D) by (intros; unfold cauchy_row; by rewrite length_fmap, length_seq).
  constructor; [by rewrite !length_fmap, length_seq | | |done].
  - intros p Hp. rewrite Hrow by done. unfold scale_column. by rewrite length_scale_row, Hl.
  - intros p k Hp Hk. unfold entry. rewrite Hrow by done. unfold scale_column. rewrite lookup_total_scale by (by rewrite Hl).
    rewrite !Hc by done. unfold scaled_entry, column_factor. ring.
Qed.

Lemma insert_byte_total (l : list byte) i j a : (i < length l)%nat -> <[i := a]> l !!! j = if (j =? i)%nat then a else l !!! j.
Proof.
  intros Hi. destruct (Nat.eqb_spec j i) as [->|Hne]; [by apply list_lookup_total_insert_eq|]. by apply list_lookup_total_insert_ne.
Qed.

Lemma scale_entry_entry D P G m row p k : scaled D P G m -> (row < D)%nat -> (p < P)%nat ->
  entry (scale_entry m row) p k = if (k =? row)%nat then gf_mul (entry m p row) (gf_inv (entry m 0 row)) else entry m p k.
Proof.
  intros [Hl Hr _ _] Hrow Hp. unfold entry at 1, scale_entry. destruct (lookup_lt_is_Some_2 m p) as [c Hc]; [lia|].
  pose proof (list_lookup_total_correct _ _ _ Hc) as Ht. rewrite (fmap_total _ m p c Hc). specialize (Hr p Hp). rewrite Ht in Hr.
  rewrite insert_byte_total by lia. unfold entry. by rewrite Ht.
Qed.

Lemma scale_entry_step D P G m row : scaled D P G m -> (0 < P)%nat -> (D + P <= 256)%nat -> (row < D)%nat ->
  exists G', scaled D P G' (scale_entry m row) /\ forall k, entry (scale_entry m row) 0 k = if (k =? row)%nat then gf_one else entry m 0 k.
Proof.
  intros Hs HP HB Hrow. pose proof (scaled_entry_nonzero D P G m 0 row Hs HB HP Hrow) as Hnz.
  exists (fun k => if (k =? row)%nat then gf_mul (G k) (gf_inv (entry m 0 row)) else G k). split.
  - constructor.
    + unfold scale_entry. rewrite length_fmap. apply Hs.
    + intros p Hp. unfold scale_entry. destruct (lookup_lt_is_Some_2 m p) as [c Hc]; [rewrite (sc_length _ _ _ _ Hs); lia|].
      rewrite (fmap_total _ m p c Hc), length_insert. rewrite <- (sc_rows _ _ _ _ Hs p Hp). by rewrite (list_lookup_total_correct _ _ _ Hc).
    + intros p k Hp Hk. rewrite (scale_entry_entry D P G) by done. rewrite !(sc_entries _ _ _ _ Hs p) by done. unfold scaled_entry.
      destruct (Nat.eqb_spec k row) as [->|]; [ring|done].
    + intros k Hk. destruct (k =? row)%nat; [apply mul_nonzero; [|by apply inv_nonzero]|]; by apply Hs.
  - intros k. rewrite (scale_entry_entry D P G) by done. destruct (Nat.eqb_spec k row); [|done]. rewrite mul_comm. by apply mul_inv_l.
Qed.

(** The parity coefficients are a Cauchy matrix up to nonzero factors, and the
    first parity block has ones. *)
Lemma cauchy_parities_scaled D P : (0 < D)%nat -> (0 < P)%nat -> (D + P <= 256)%nat ->
  exists G, scaled D P G (cauchy_parities D P) /\ forall k, (k < D)%nat -> entry (cauchy_parities D P) 0 k = gf_one.
Proof.
  intros HD HP HB. unfold cauchy_parities. set (m0 := scale_column <$> _).
  assert (H0 : exists G, scaled D P G m0 /\ forall k, (k < 1)%nat -> entry m0 0 k = gf_one).
  { exists (fun _ => gf_one). pose proof (scaled_start D P HD HB) as Hs. split; [done|]. intros k Hk. rewrite (sc_entries _ _ _ _ Hs) by lia.
    assert (k = 0)%nat as -> by lia. unfold scaled_entry, column_factor. rewrite mul_comm, mul_one_l, mul_comm. apply mul_inv_l, inv_nonzero, points_differ; lia. }
  assert (Hm : forall n m, (n <= D - 1)%nat -> (exists G, scaled D P G m /\ forall k, (k < 1)%nat -> entry m 0 k = gf_one) ->
    exists G, scaled D P G (foldl scale_entry m (seq 1 n)) /\ forall k, (k < 1 + n)%nat -> entry (foldl scale_entry m (seq 1 n)) 0 k = gf_one).
  { intros n m. induction n as [|n IH]; intros Hn Hm; [done|]. destruct (IH ltac:(lia) Hm) as (G & Hs & Hone).
    rewrite seq_S, foldl_app. simpl. destruct (scale_entry_step D P G _ (1 + n) Hs HP HB ltac:(lia)) as (G' & Hs' & He).
    exists G'. split; [done|]. intros k Hk. rewrite He. destruct (Nat.eqb_spec k (1 + n)); [done|]. apply Hone. lia. }
  destruct (Hm (D - 1)%nat m0 ltac:(lia) H0) as (G & Hs & Hone). exists G. split; [done|]. intros k Hk. apply Hone. lia.
Qed.

(** * Recovery *)

Section recovery.
Context (D P : nat) (HD : (0 < D)%nat) (HP : (0 < P)%nat) (HB : (D + P <= 256)%nat).
Let M : matrix := rs_cauchy_matrix D P.

Lemma data_row b : (b < D)%nat -> M !!! b = (fun j => if (b =? j)%nat then gf_one else gf_zero) <$> seq 0 D.
Proof.
  intros Hb. rewrite <- identity_total by done. unfold M, rs_cauchy_matrix. apply list_lookup_total_correct, lookup_app_l_Some.
  apply list_lookup_lookup_total_lt. rewrite (proj1 (square_identity D)). done.
Qed.

Lemma parity_row b : (D <= b)%nat -> (b < D + P)%nat -> M !!! b = cauchy_parities D P !!! (b - D)%nat.
Proof.
  intros Hb Hb'. unfold M, rs_cauchy_matrix. destruct (cauchy_parities_scaled D P HD HP HB) as (G & Hs & _).
  apply list_lookup_total_correct. rewrite lookup_app_r; rewrite (proj1 (square_identity D)); [|done].
  apply list_lookup_lookup_total_lt. rewrite (sc_length _ _ _ _ Hs). lia.
Qed.

Lemma length_row b : (b < D + P)%nat -> length (M !!! b) = D.
Proof.
  intros Hb. destruct (decide (b < D)%nat); [rewrite data_row by done; by rewrite length_fmap, length_seq|].
  rewrite parity_row by lia. destruct (cauchy_parities_scaled D P HD HP HB) as (G & Hs & _). apply (sc_rows _ _ _ _ Hs). lia.
Qed.

Lemma xors_filter {A} (Q : A -> Prop) `{!forall a, Decision (Q a)} (f : A -> byte) (l : list A) :
  xors (f <$> filter Q l) = xors ((fun a => if decide (Q a) then f a else gf_zero) <$> l).
Proof.
  induction l as [|a l IH]; [done|]. rewrite filter_cons. csimpl. destruct (decide (Q a)); csimpl; rewrite IH; [done|]. ring.
Qed.

(** As many parity blocks are had as data blocks are missing. *)
Lemma missing_count (hs : list nat) : NoDup hs -> length hs = D ->
  length (filter (fun d => d ∉ hs) (seq 0 D)) = length (filter (fun b => ~ (b < D)%nat) hs).
Proof.
  intros Hnd Hl. assert (Hp : filter (fun b => (b < D)%nat) hs ≡ₚ filter (fun d => d ∈ hs) (seq 0 D)).
  { apply NoDup_Permutation; [by apply NoDup_filter | apply NoDup_filter, NoDup_seq |]. intros b. rewrite !list_elem_of_filter, elem_of_seq. intuition lia. }
  apply Permutation_length in Hp. pose proof (Permutation_length (filter_app_complement (fun d => d ∈ hs) (seq 0 D))) as H1.
  pose proof (Permutation_length (filter_app_complement (fun b => (b < D)%nat) hs)) as H2. rewrite length_app in H1, H2. rewrite length_seq in H1. lia.
Qed.

(** What a data block contributes to the Cauchy combinations of the missing. *)
Definition term (G x : nat -> byte) (j : nat) : byte * byte := (point j, gf_mul (G j) (x j)).
Definition missing (hs : list nat) : list nat := filter (fun d => d ∉ hs) (seq 0 D).

Lemma missing_terms G x hs : (term G x <$> missing hs).*1 = point <$> missing hs.
Proof. by rewrite <- list_fmap_compose. Qed.

Lemma elem_of_missing hs j : j ∈ missing hs <-> (j < D)%nat /\ j ∉ hs.
Proof. unfold missing. rewrite list_elem_of_filter, elem_of_seq. intuition lia. Qed.

Lemma NoDup_points l : NoDup l -> (forall a, a ∈ l -> (a < 256)%nat) -> NoDup (point <$> l).
Proof. intros Hnl Hlt. apply NoDup_fmap_2_strong; [|done]. intros a b Ha Hb. apply point_inj; auto. Qed.

(** A parity block of data that is zero but for the missing blocks. *)
Lemma parity_sum G hs x p : scaled D P G (cauchy_parities D P) -> (p < P)%nat -> (forall k, k ∈ hs -> (k < D)%nat -> x k = gf_zero) ->
  dot D (cauchy_parities D P !!! p) x = gf_mul (column_factor D p) (cauchy_sum (term G x <$> missing hs) (point (D + p))).
Proof.
  intros Hs Hp Hdata. transitivity (gf_mul (column_factor D p) (gsum D (fun d => if decide (d ∉ hs) then
    gf_mul (gf_mul (G d) (x d)) (gf_inv (u8_xor (point (D + p)) (point d))) else gf_zero))).
  - rewrite <- gsum_mul. unfold dot. apply gsum_ext. intros k Hk. fold (entry (cauchy_parities D P) p k).
    rewrite (sc_entries _ _ _ _ Hs) by done. unfold scaled_entry. destruct (decide (k ∉ hs)) as [|Hin]; [ring|].
    rewrite (Hdata k) by (first [done | by destruct (decide (k ∈ hs))]). ring.
  - f_equal. unfold cauchy_sum, missing. rewrite <- list_fmap_compose. symmetry. apply xors_filter.
Qed.

(** The coefficients of any [D] blocks are injective. *)
Lemma have_kernel (hs : list nat) (x : nat -> byte) : NoDup hs -> length hs = D -> (forall b, b ∈ hs -> (b < D + P)%nat) ->
  (forall b, b ∈ hs -> dot D (M !!! b) x = gf_zero) -> forall k, (k < D)%nat -> x k = gf_zero.
Proof.
  intros Hnd Hl Hlt Hz. destruct (cauchy_parities_scaled D P HD HP HB) as (G & Hs & _).
  assert (Hdata : forall k, k ∈ hs -> (k < D)%nat -> x k = gf_zero) by (intros k Hk Hk'; rewrite <- (Hz k Hk), data_row by done; by rewrite dot_one).
  assert (Hall : Forall (fun t => t.2 = gf_zero) (term G x <$> missing hs)).
  { apply (cauchy_kernel _ (point <$> filter (fun b => ~ (b < D)%nat) hs)); rewrite ?missing_terms.
    - apply NoDup_points; [apply NoDup_filter, NoDup_seq|]. intros j Hj%elem_of_missing. lia.
    - apply NoDup_points; [by apply NoDup_filter|]. intros b [_ Hb%Hlt]%list_elem_of_filter. lia.
    - intros y (b & -> & [Hb Hin]%list_elem_of_filter)%list_elem_of_fmap (j & E & Hj%elem_of_missing)%list_elem_of_fmap.
      specialize (Hlt b Hin). apply point_inj in E; lia.
    - rewrite !length_fmap. unfold missing. by rewrite missing_count.
    - intros y (b & -> & [Hb Hin]%list_elem_of_filter)%list_elem_of_fmap. pose proof (Hlt b Hin) as Hlb. specialize (Hz b Hin).
      rewrite parity_row, (parity_sum G hs) in Hz by (try lia; done). replace (D + (b - D))%nat with b in Hz by lia.
      apply mul_eq_zero in Hz as [Hz|]; [|done]. exfalso. revert Hz. apply inv_nonzero, inv_nonzero, points_differ; lia. }
  intros k Hk. destruct (decide (k ∈ hs)) as [|Hin]; [by apply Hdata|]. rewrite Forall_forall in Hall.
  specialize (Hall (term G x k) ltac:(by apply list_elem_of_fmap_2, elem_of_missing)).
  apply mul_eq_zero in Hall as [Hg|]; [|done]. by apply (sc_factors _ _ _ _ Hs k Hk) in Hg.
Qed.
End recovery.

Lemma parity_blocks_bound parity : is_u8 parity -> (rs_blocks_core parity <= 30)%nat.
Proof.
  intros Hp. unfold is_u8 in Hp. unfold rs_blocks_core, rs_data_blocks_core, rs_parity_blocks_core.
  change 0x0F with (Z.ones 4). rewrite (Z.land_ones parity 4), Z.shiftr_div_pow2 by lia. pose proof (Z.mod_pos_bound parity (2 ^ 4) ltac:(lia)).
  assert (parity / 2 ^ 4 < 16) by (apply Z.div_lt_upper_bound; lia). lia.
Qed.

Lemma bitmap_bound have B : 0 <= have < 2 ^ Z.of_nat B -> (Z.shiftr have (Z.of_nat B) =? 0) = true.
Proof. intros H. apply Z.eqb_eq. rewrite Z.shiftr_div_pow2 by lia. by apply Z.div_small. Qed.

Lemma want_bound want B : (want < B)%nat -> (Z.shiftr (Z.shiftl 1 (Z.of_nat want)) (Z.of_nat B) =? 0) = true.
Proof. intros H. apply bitmap_bound. rewrite Z.shiftl_1_l. split; [lia|]. apply Z.pow_lt_mono_r; lia. Qed.

Lemma bitmap_disjoint have want : Z.testbit have (Z.of_nat want) = false -> (Z.land have (Z.shiftl 1 (Z.of_nat want)) =? 0) = true.
Proof.
  intros H. apply Z.eqb_eq, Z.bits_inj'. intros n Hn. rewrite Z.shiftl_1_l, Z.land_spec, Z.pow2_bits_eqb, Z.bits_0 by lia.
  destruct (Z.eqb_spec (Z.of_nat want) n) as [<-|]; [by rewrite H | apply andb_false_r].
Qed.

Section blocks.
Context (parity : Z) (Hu8 : is_u8 parity) (data : matrix) (size : nat).
Let D : nat := rs_data_blocks_core parity.
Let P : nat := rs_parity_blocks_core parity.
Let r : rs := rs_new_core parity.
Context (HD : (2 <= D)%nat) (HP : (1 <= P)%nat) (Hdata : length data = D) (Hsizes : forall d, (d < D)%nat -> length (data !!! d) = size).

(** Byte [i] of the data blocks. *)
Definition data_byte (i d : nat) : byte := (data !!! d) !!! i.

Lemma column_total i d : (d < D)%nat -> column data i !!! d = data_byte i d.
Proof.
  intros Hd. destruct (lookup_lt_is_Some_2 data d) as [b Hb]; [lia|]. unfold data_byte.
  rewrite (list_lookup_total_correct _ _ _ Hb). exact (fmap_total (fun b => b !!! i) data d b Hb).
Qed.

Lemma xors_gsum (l : list byte) n : length l = n -> xors l = gsum n (fun k => l !!! k).
Proof.
  intros Hl. unfold gsum. f_equal. apply list_eq. intros i. rewrite list_lookup_fmap. destruct (decide (i < n)%nat).
  - rewrite lookup_seq_lt by done. simpl. rewrite list_lookup_lookup_total_lt by lia. done.
  - rewrite lookup_seq_ge by lia. apply lookup_ge_None_2. lia.
Qed.

Lemma parity_byte p i : (p < P)%nat -> rs_compute_parity_single r data p i = dot D (rs_cauchy_matrix D P !!! (D + p)%nat) (data_byte i).
Proof.
  intros Hp. pose proof (parity_blocks_bound parity Hu8) as HB. unfold rs_blocks_core in HB. fold D P in HB.
  rewrite (parity_row D P) by lia. replace (D + p - D)%nat with p by lia.
  destruct (cauchy_parities_scaled D P) as (G & Hs & Hone); [lia..|].
  assert (Hlc : length (column data i) = D) by (unfold column; by rewrite length_fmap).
  unfold rs_compute_parity_single, dot. destruct (Nat.eqb_spec p 0) as [->|Hne].
  - rewrite foldl_xor_id, xor_zero_l, (xors_gsum _ D Hlc). apply gsum_ext. intros k Hk. fold (entry (cauchy_parities D P) 0 k).
    rewrite Hone, column_total by done. ring.
  - rewrite (foldl_xor (fun q => gf_mul_expanded q.1 q.2)), xor_zero_l.
    assert (He : r_expanded r !!! p = gf_mul_expand_factor <$> cauchy_parities D P !!! p).
    { unfold r, rs_new_core. cbn [r_expanded]. fold D P. unfold rs_cauchy_matrix. rewrite drop_app_length' by (symmetry; apply square_identity).
      destruct (lookup_lt_is_Some_2 (cauchy_parities D P) p) as [c Hc]; [by rewrite (sc_length _ _ _ _ Hs)|].
      rewrite (list_lookup_total_correct _ _ _ Hc). by apply (fmap_total (fun c : list byte => gf_mul_expand_factor <$> c)). }
    pose proof (sc_rows _ _ _ _ Hs p Hp) as Hrow. rewrite He, (xors_zip gf_mul_expanded _ _ D) by (first [exact Hlc | by rewrite length_fmap]).
    apply gsum_ext. intros k Hk. destruct (lookup_lt_is_Some_2 (cauchy_parities D P !!! p) k) as [c Hc]; [lia|].
    rewrite (fmap_total gf_mul_expand_factor _ k c Hc), gf_mul_expanded_ok, column_total by done.
    rewrite (list_lookup_total_correct _ _ _ Hc). apply mul_comm.
Qed.

Definition all_blocks : matrix := data ++ rs_compute_parity r size data.

Lemma length_all_blocks : length all_blocks = (D + P)%nat.
Proof. unfold all_blocks, rs_compute_parity. rewrite length_app, length_fmap, length_seq, Hdata. done. Qed.

Lemma parity_block p : (p < P)%nat -> all_blocks !!! (D + p)%nat = rs_compute_parity_single r data p <$> seq 0 size.
Proof.
  intros Hp. unfold all_blocks. apply list_lookup_total_correct. rewrite lookup_app_r by lia. replace (D + p - length data)%nat with p by lia.
  unfold rs_compute_parity. rewrite list_lookup_fmap, lookup_seq_lt by done. done.
Qed.

Lemma data_block d : (d < D)%nat -> all_blocks !!! d = data !!! d.
Proof. intros Hd. apply list_lookup_total_correct, lookup_app_l_Some, list_lookup_lookup_total_lt. lia. Qed.

Lemma length_block b : (b < D + P)%nat -> length (all_blocks !!! b) = size.
Proof.
  intros Hb. destruct (decide (b < D)%nat); [rewrite data_block by done; auto|].
  replace b with (D + (b - D))%nat by lia. rewrite parity_block by lia. by rewrite length_fmap, length_seq.
Qed.

(** Every block is the combination of the data its coefficients say. *)
Lemma block_byte b i : (b < D + P)%nat -> (i < size)%nat -> (all_blocks !!! b) !!! i = dot D (rs_cauchy_matrix D P !!! b) (data_byte i).
Proof.
  intros Hb Hi. pose proof (parity_blocks_bound parity Hu8) as HB. unfold rs_blocks_core in HB. fold D P in HB.
  destruct (decide (b < D)%nat) as [Hd|Hd].
  - rewrite data_block, (data_row D P), dot_one by (try lia; done). done.
  - replace b with (D + (b - D))%nat by lia. rewrite parity_block by lia. rewrite <- parity_byte by lia.
    apply fmap_total. by rewrite lookup_seq_lt.
Qed.

(** The coefficients found for a block give it from the blocks that are had. *)
Lemma recover_mat_ok have want : 0 <= have < 2 ^ Z.of_nat (D + P) -> length (have_list (D + P) have) = D ->
  (want < D + P)%nat -> Z.testbit have (Z.of_nat want) = false ->
  exists h2w, rs_recover_mat r have want = Ok h2w /\ length h2w = D /\
    forall x, gsum D (fun k => gf_mul (h2w !!! k) (dot D (rs_cauchy_matrix D P !!! (have_list (D + P) have !!! k)) x)) =
      dot D (rs_cauchy_matrix D P !!! want) x.
Proof.
  intros Hhave Hlen Hwant Hbit. pose proof (parity_blocks_bound parity Hu8) as HB. unfold rs_blocks_core in HB. fold D P in HB.
  set (hs := have_list (D + P) have) in *. set (M := rs_cauchy_matrix D P) in *.
  assert (Hhs : forall b, b ∈ hs -> (b < D + P)%nat) by (intros b [_ Hb%elem_of_seq]%list_elem_of_filter; lia).
  set (rows := (fun b => M !!! b) <$> hs). assert (Hrow : forall k, (k < D)%nat -> rows !!! k = M !!! (hs !!! k) /\ hs !!! k ∈ hs).
  { intros k Hk. destruct (lookup_lt_is_Some_2 hs k) as [b Hb]; [lia|]. rewrite (list_lookup_total_correct _ _ _ Hb).
    split; [exact (fmap_total (fun b => M !!! b) hs k b Hb) | by eapply list_elem_of_lookup_2]. }
  destruct (invert_ok D rows) as (out & Hinv & Hout).
  - split; [unfold rows; by rewrite length_fmap|]. intros k Hk. destruct (Hrow k Hk) as [-> Hin]. apply length_row; [lia..|auto].
  - intros x Hx. apply (have_kernel D P ltac:(lia) ltac:(lia) ltac:(lia) hs); [apply NoDup_filter, NoDup_seq | done | done |].
    intros b [k Hk]%list_elem_of_lookup. pose proof (lookup_lt_Some _ _ _ Hk). specialize (Hx k ltac:(lia)).
    destruct (Hrow k ltac:(lia)) as [E _]. by rewrite E, (list_lookup_total_correct _ _ _ Hk) in Hx.
  - unfold rs_recover_mat, r, rs_new_core. cbn [r_parity r_matrix]. unfold rs_blocks_core. fold D P M hs rows.
    rewrite bitmap_bound, want_bound, bitmap_disjoint by done. cbn [negb orb].
    assert (Hr : length rows = D) by (unfold rows; by rewrite length_fmap). rewrite Hr, Nat.eqb_refl, Hinv. cbn [negb].
    eexists; split_and!; [done | by rewrite length_fmap, length_seq |]. intros x.
    transitivity (gsum D (fun k => gsum D (fun j => gf_mul (gf_mul ((M !!! want) !!! j) (entry out j k)) (dot D (M !!! (hs !!! k)) x)))).
    + apply gsum_ext. intros k Hk.
      rewrite (fmap_total _ (seq 0 D) k k) by (by rewrite lookup_seq_lt). rewrite (foldl_xor (fun j => gf_mul ((M !!! want) !!! j) (entry out j k))).
      rewrite xor_zero_l. change (xors _) with (gsum D (fun j => gf_mul ((M !!! want) !!! j) (entry out j k))).
      rewrite mul_comm, <- gsum_mul. apply gsum_ext. intros j _. ring.
    + rewrite gsum_swap. unfold dot at 2. apply gsum_ext. intros j Hj.
      rewrite <- (Hout x (fun k => dot D (M !!! (hs !!! k)) x)) by (first [done | intros k Hk; by destruct (Hrow k Hk) as [-> _]]).
      unfold dot at 2. rewrite <- gsum_mul. apply gsum_ext. intros k _. unfold entry. ring.
Qed.
End blocks.

(** * The claims *)

Lemma checkBlockSize_ok parity blocks size : length blocks = rs_data_blocks_core parity -> (2 <= length blocks)%nat ->
  Forall (fun b => length b = size) blocks -> (0 < size)%nat -> checkBlockSize (rs_new_core parity) blocks = Ok size.
Proof.
  intros Hl H2 Hf Hs. unfold checkBlockSize, rs_new_core. cbn [r_parity]. rewrite Hl, Nat.eqb_refl. cbn [negb].
  destruct blocks as [|b blocks]; [simpl in H2; lia|]. apply Forall_cons in Hf as [Hb Hf]. unfold index. simpl.
  rewrite Hb, Nat.eqb_refl. simpl. rewrite (proj2 (forallb_forall _ _)).
  - simpl. by destruct size; [lia|].
  - intros d Hd. apply Nat.eqb_eq. rewrite Forall_forall in Hf. by apply Hf, list_elem_of_In.
Qed.

Lemma rs_recover_ok parity data size have want : is_u8 parity ->
  let D := rs_data_blocks_core parity in let P := rs_parity_blocks_core parity in
  let blocks := data ++ rs_compute_parity (rs_new_core parity) size data in
  (2 <= D)%nat -> (1 <= P)%nat -> length data = D -> (forall d, (d < D)%nat -> length (data !!! d) = size) ->
  0 <= have < 2 ^ Z.of_nat (D + P) -> length (have_list (D + P) have) = D -> (want < D + P)%nat -> Z.testbit have (Z.of_nat want) = false ->
  rs_recover (rs_new_core parity) size have ((fun b => blocks !!! b) <$> have_list (D + P) have) want = Ok (blocks !!! want).
Proof.
  intros Hu8 D P blocks HD HP Hl Hs Hhave Hlen Hwant Hbit. unfold rs_recover.
  destruct (recover_mat_ok parity Hu8 data HD HP Hl have want Hhave Hlen Hwant Hbit) as (h2w & -> & Hh & Hsum). cbn [mbind outcome_bind]. f_equal.
  set (hs := have_list (D + P) have) in *. fold D P in Hsum.
  apply list_eq_same_length with size; [by apply length_block | by rewrite length_fmap, length_seq |].
  intros i x y Hi Hx Hy. rewrite list_lookup_fmap, lookup_seq_lt in Hx by done. simpl in Hx. injection Hx as <-.
  apply list_lookup_total_correct in Hy. subst y. unfold rs_recover_matmul_single_expanded. rewrite (foldl_xor (fun q => gf_mul_expanded q.1 q.2)), xor_zero_l.
  rewrite (xors_zip gf_mul_expanded _ _ D) by (unfold column; by rewrite !length_fmap).
  unfold blocks. fold (all_blocks parity data size). rewrite (block_byte parity Hu8 data size HD HP Hl) by done. rewrite <- Hsum.
  apply gsum_ext. intros k Hk. destruct (lookup_lt_is_Some_2 h2w k) as [c Hc]; [lia|]. destruct (lookup_lt_is_Some_2 hs k) as [b Hb]; [lia|].
  rewrite (fmap_total gf_mul_expand_factor _ k c Hc), gf_mul_expanded_ok. rewrite (list_lookup_total_correct _ _ _ Hc), (list_lookup_total_correct _ _ _ Hb).
  rewrite mul_comm. f_equal. unfold column. rewrite <- list_fmap_compose.
  rewrite (fmap_total _ hs k b Hb). simpl. apply (block_byte parity Hu8 data size HD HP Hl); [|done].
  apply list_elem_of_lookup_2, list_elem_of_filter in Hb as [_ Hb%elem_of_seq]. unfold D, P in *. lia.
Qed.

Lemma recover_into_ok parity data size have want block : is_u8 parity ->
  let blocks := data ++ rs_compute_parity (rs_new_core parity) size data in
  (2 <= rs_data_blocks_core parity)%nat -> (1 <= rs_parity_blocks_core parity)%nat -> length data = rs_data_blocks_core parity -> Forall (fun b => length b = size) data -> (0 < size)%nat ->
  0 <= have < 2 ^ Z.of_nat (rs_blocks_core parity) -> length (have_list (rs_blocks_core parity) have) = rs_data_blocks_core parity ->
  (want < rs_blocks_core parity)%nat -> Z.testbit have (Z.of_nat want) = false -> length block = size ->
  RecoverInto (rs_new_core parity) have ((fun b => blocks !!! b) <$> have_list (rs_blocks_core parity) have) want block = Ok (blocks !!! want).
Proof.
  intros Hu8 blocks HD HP Hl Hf Hs Hhave Hlen Hwant Hbit Hb.
  assert (Hsz : forall d, (d < rs_data_blocks_core parity)%nat -> length (data !!! d) = size).
  { intros d Hd. destruct (lookup_lt_is_Some_2 data d) as [b Hd']; [lia|]. rewrite (list_lookup_total_correct _ _ _ Hd'). by eapply Forall_lookup_1 in Hf. }
  unfold RecoverInto. rewrite (checkBlockSize_ok parity _ size); [| by rewrite length_fmap | rewrite length_fmap; lia | | done].
  2:{ apply Forall_fmap, Forall_forall. intros b [_ Hb'%elem_of_seq]%list_elem_of_filter. unfold compose. unfold rs_blocks_core in Hb'.
      apply (length_block parity data size); try done. lia. }
  cbn [mbind outcome_bind]. rewrite Hb, Nat.eqb_refl. cbn [negb]. cbn [r_parity rs_new_core].
  replace (existsb _ (seq 0 32)) with false; [by apply (rs_recover_ok parity data size)|]. symmetry. apply not_true_iff_false. intros E.
  apply existsb_exists in E as (b & _ & [E1 E2]%andb_true_iff). apply orb_true_iff in E2 as [E2|E2].
  - apply Nat.leb_le in E2. rewrite (Z.bits_above_log2 have) in E1; [done | lia |].
    destruct (decide (have = 0)) as [->|]; [simpl; lia|]. apply Z.log2_lt_pow2; [lia|]. eapply Z.lt_le_trans; [apply Hhave|]. apply Z.pow_le_mono_r; lia.
  - apply Nat.eqb_eq in E2. subst b. congruence.
Qed.

(** The parities of the beginnings are the beginnings of the parities. *)
Lemma compute_parity_take r data size m : (m <= size)%nat -> rs_compute_parity r m (take m <$> data) = take m <$> rs_compute_parity r size data.
Proof.
  intros Hm. unfold rs_compute_parity. rewrite <- list_fmap_compose. apply list_fmap_ext. intros _ p _. unfold compose. rewrite <- fmap_take, take_seq, Nat.min_l by done.
  apply list_fmap_ext. intros i ? [-> Hi]%lookup_seq. cbn [Nat.add]. unfold rs_compute_parity_single. assert (column (take m <$> data) i = column data i) as ->; [|done].
  unfold column. rewrite <- list_fmap_compose. apply list_fmap_ext. intros _ d _. unfold compose. rewrite !list_lookup_total_alt. by rewrite lookup_take_lt.
Qed.

(** Recovery from the beginnings of the blocks. *)
Lemma recover_prefix parity data size m have want block : is_u8 parity ->
  let blocks := data ++ rs_compute_parity (rs_new_core parity) size data in
  (2 <= rs_data_blocks_core parity)%nat -> (1 <= rs_parity_blocks_core parity)%nat -> length data = rs_data_blocks_core parity -> Forall (fun b => length b = size) data -> (0 < m <= size)%nat ->
  0 <= have < 2 ^ Z.of_nat (rs_blocks_core parity) -> length (have_list (rs_blocks_core parity) have) = rs_data_blocks_core parity ->
  (want < rs_blocks_core parity)%nat -> Z.testbit have (Z.of_nat want) = false -> length block = m ->
  RecoverInto (rs_new_core parity) have ((fun b => take m (blocks !!! b)) <$> have_list (rs_blocks_core parity) have) want block = Ok (take m (blocks !!! want)).
Proof.
  intros Hu8 blocks HD HP Hl Hf [Hm0 Hm] Hhave Hlen Hwant Hbit Hb. assert (Ht : forall b, take m (blocks !!! b) = (take m <$> blocks) !!! b) by (intros b; rewrite !list_lookup_total_alt, list_lookup_fmap; destruct (blocks !! b); [done | apply take_nil]).
  rewrite Ht, (list_fmap_ext _ (fun b => (take m <$> blocks) !!! b)) by (intros; apply Ht). unfold blocks. rewrite fmap_app, <- compute_parity_take by done. apply recover_into_ok; try done; [by rewrite length_fmap|].
  apply Forall_fmap. eapply Forall_impl; [exact Hf|]. intros d Hd. cbv beta in Hd. unfold compose. rewrite length_take. lia.
Qed.

(** C3: any D of the blocks of a span give back every other block. For every
    parity with at least two data and one parity block, and data blocks of one
    size, [ComputeParity] succeeds, and from any D blocks of data and parity, in
    the order of their numbers, [RecoverInto] gives exactly the block that is
    wanted: the elimination never meets a singular matrix. *)
Theorem erasure_code_recovers parity data size : is_u8 parity ->
  (2 <= rs_data_blocks_core parity)%nat -> (1 <= rs_parity_blocks_core parity)%nat ->
  length data = rs_data_blocks_core parity -> Forall (fun b => length b = size) data -> (0 < size)%nat ->
  exists r parities, Get parity = Ok r /\ ComputeParity r data = Ok parities /\ length parities = rs_parity_blocks_core parity /\
    forall have want block, 0 <= have < 2 ^ Z.of_nat (rs_blocks_core parity) ->
      length (have_list (rs_blocks_core parity) have) = rs_data_blocks_core parity ->
      (want < rs_blocks_core parity)%nat -> Z.testbit have (Z.of_nat want) = false -> length block = size ->
      RecoverInto r have ((fun b => (data ++ parities) !!! b) <$> have_list (rs_blocks_core parity) have) want block = Ok ((data ++ parities) !!! want).
Proof.
  intros Hu8 HD HP Hl Hf Hs. exists (rs_new_core parity), (rs_compute_parity (rs_new_core parity) size data). split_and!.
  - unfold Get. by rewrite (proj2 (Nat.ltb_ge _ 2)), (proj2 (Nat.ltb_ge _ 1)).
  - unfold ComputeParity. by rewrite (checkBlockSize_ok parity data size) by (first [done | lia]).
  - unfold rs_compute_parity. by rewrite length_fmap, length_seq.
  - intros have want block Hhave Hlen Hwant Hbit Hb. by apply recover_into_ok.
Qed.

(** Two data blocks and two parity blocks; both data blocks are lost. *)
Lemma erasure_code_recovers_witness : exists r parities,
  ComputeParity r [[Byte.x41; Byte.x42]; [Byte.x05; Byte.xff]] = Ok parities /\
  RecoverInto r 12 parities 0 [Byte.x00; Byte.x00] = Ok [Byte.x41; Byte.x42].
Proof.
  destruct (erasure_code_recovers 0x22 [[Byte.x41; Byte.x42]; [Byte.x05; Byte.xff]] 2) as (r & parities & Hget & Hcp & Hl & Hr);
    [unfold is_u8; lia | by vm_compute; lia | by vm_compute; lia | done | by repeat constructor | lia |].
  exists r, parities. split; [done|]. specialize (Hr 12 0%nat [Byte.x00; Byte.x00] ltac:(vm_compute; split; congruence) eq_refl ltac:(vm_compute; lia) eq_refl eq_refl).
  destruct parities as [|p [|q [|]]]; try discriminate Hl. exact Hr.
Defined.
