(* ===== verification/RsVector.v ===== *)
(** The vector routines of the erasure code: the AVX2 and GFNI versions of
    src/go/core/rs/rs_core.c and the choice between them of rs.cpp.

    A 256-bit register is the list of its 32 bytes, lowest first. The
    instructions are modelled byte by byte after their definition: the shuffle
    looks up in each half of 16 bytes separately, the shift works on words of 16
    bits, the multiplication of GFNI is that of GF(2^8) modulo
    x^8 + x^4 + x^3 + x + 1. *)

From Stdlib Require Import ZArith Lia Ring.
From stdpp Require Import base numbers option list.
From S2P Require Import Prelude Gf256 Cauchy ReedSolomon.

(** * Instructions *)

Abbreviation m256 := (list byte).

Definition mm256_setzero : m256 := replicate 32 gf_zero.
Definition broadcast_u8 (x : byte) : m256 := replicate 32 x.
Definition mm256_loadu (block : list byte) (i : nat) : m256 := take 32 (drop i block).
Definition mm256_xor (a b : m256) : m256 := zip_with u8_xor a b.
Definition mm256_and (a b : m256) : m256 := zip_with (fun x y => byte_of (Z.land (byte_val x) (byte_val y))) a b.

Fixpoint mm256_srli_epi16 (a : m256) (n : Z) : m256 :=
  match a with
  | lo :: hi :: a => let w := Z.shiftr (byte_val lo + 256 * byte_val hi) n in byte_of w :: byte_of (w / 256) :: mm256_srli_epi16 a n
  | _ => []
  end.

(** The half of two registers a control nibble picks. *)
Definition lane (a b : m256) (control : Z) : list byte :=
  match Z.land control 3 with 0 => take 16 a | 1 => drop 16 a | 2 => take 16 b | _ => drop 16 b end.

Definition mm256_permute2x128 (a b : m256) (imm : Z) : m256 := lane a b imm ++ lane a b (Z.shiftr imm 4).

Definition mm256_shuffle_epi8 (a b : m256) : m256 :=
  imap (fun i x => if Z.testbit (byte_val x) 7 then gf_zero else a !!! (16 * (i / 16) + Z.to_nat (Z.land (byte_val x) 15))%nat) b.

Definition mm256_gf2p8mul_epi8 (a b : m256) : m256 := zip_with mulref a b.

(** * The code *)

Definition gf_mul_expanded_avx2 (x expanded_y low_nibble_mask : m256) : m256 :=
  let expanded_y_lo := mm256_permute2x128 expanded_y expanded_y 0x00 in
  let expanded_y_hi := mm256_permute2x128 expanded_y expanded_y 0x11 in
  let x_lo := mm256_and x low_nibble_mask in
  let x_hi := mm256_and (mm256_srli_epi16 x 4) low_nibble_mask in
  mm256_xor (mm256_shuffle_epi8 expanded_y_lo x_lo) (mm256_shuffle_epi8 expanded_y_hi x_hi).

(** The 32 bytes at [i] of parity block [p]. *)
Definition parity_0 (data : matrix) (i : nat) : m256 := foldl (fun acc d => mm256_xor acc (mm256_loadu d i)) mm256_setzero data.

Definition avx2_parity (r : rs) (data : matrix) (p i : nat) : m256 :=
  let low_nibble_mask := broadcast_u8 Byte.x0f in
  if (p =? 0)%nat then parity_0 data i
  else foldl (fun acc q => mm256_xor acc (gf_mul_expanded_avx2 (mm256_loadu q.1 i) q.2 low_nibble_mask)) mm256_setzero (zip data (r_expanded r !!! p)).

Definition gfni_parity (r : rs) (data : matrix) (p i : nat) : m256 :=
  let D := rs_data_blocks_core (r_parity r) in
  if (p =? 0)%nat then parity_0 data i
  else foldl (fun acc q => mm256_xor acc (mm256_gf2p8mul_epi8 (mm256_loadu q.1 i) (broadcast_u8 q.2))) mm256_setzero (zip data (r_matrix r !!! (D + p)%nat)).

(** The loop over the whole registers of a block, then the one over the bytes
    that are left. *)
Definition vector_block (kernel : nat -> m256) (single : nat -> byte) (size : nat) : list byte :=
  let avx_leftover := (size mod 32)%nat in
  let avx_size := (size - avx_leftover)%nat in
  concat ((fun k => kernel (32 * k)%nat) <$> seq 0 (avx_size / 32)) ++ (single <$> seq avx_size avx_leftover).

Inductive rs_cpu_level := RS_CPU_SCALAR | RS_CPU_AVX2 | RS_CPU_GFNI.

(** The loop of the AVX2 version counts in 32 bits: it does not end ([None]) when
    the position where it is to stop needs more. *)
Definition rs_compute_parity_tmpl (level : rs_cpu_level) (r : rs) (size : nat) (data : matrix) : option matrix :=
  let P := rs_parity_blocks_core (r_parity r) in
  match level with
  | RS_CPU_SCALAR => Some ((fun p => rs_compute_parity_single r data p <$> seq 0 size) <$> seq 0 P)
  | RS_CPU_AVX2 =>
      if 2 ^ 32 <=? Z.of_nat (size - size mod 32) then None
      else Some ((fun p => vector_block (avx2_parity r data p) (rs_compute_parity_single r data p) size) <$> seq 0 P)
  | RS_CPU_GFNI => Some ((fun p => vector_block (gfni_parity r data p) (rs_compute_parity_single r data p) size) <$> seq 0 P)
  end.

Definition rs_recover_matmul_single (have : matrix) (have_to_want : list byte) (i : nat) : byte :=
  foldl (fun acc q => u8_xor acc (gf_mul q.1 q.2)) gf_zero (zip have_to_want (column have i)).

Definition avx2_want (have : matrix) (have_to_want_expanded : list m256) (i : nat) : m256 :=
  let low_nibble_mask := broadcast_u8 Byte.x0f in
  foldl (fun want_i q => mm256_xor want_i (gf_mul_expanded_avx2 (mm256_loadu q.1 i) q.2 low_nibble_mask)) mm256_setzero (zip have have_to_want_expanded).

Definition gfni_want (have : matrix) (have_to_want_avx : list m256) (i : nat) : m256 :=
  foldl (fun want_i q => mm256_xor want_i (mm256_gf2p8mul_epi8 (mm256_loadu q.1 i) q.2)) mm256_setzero (zip have have_to_want_avx).

Definition rs_recover_matmul_tmpl (level : rs_cpu_level) (size : nat) (have : matrix) (mat : list byte) : list byte :=
  let expanded := gf_mul_expand_factor <$> mat in
  match level with
  | RS_CPU_SCALAR => rs_recover_matmul_single_expanded have expanded <$> seq 0 size
  | RS_CPU_AVX2 => vector_block (avx2_want have expanded) (rs_recover_matmul_single_expanded have expanded) size
  | RS_CPU_GFNI => vector_block (gfni_want have (broadcast_u8 <$> mat)) (rs_recover_matmul_single have mat) size
  end.

(** What the processor says it has, under Valgrind or not. *)
Definition rs_has_cpu_level_core (max_leaf ebx ecx : Z) (valgrind : bool) (level : rs_cpu_level) : bool :=
  let '(ebx, ecx) := if 7 <=? max_leaf then (ebx, ecx) else (0, 0) in
  match level with
  | RS_CPU_SCALAR => true
  | RS_CPU_AVX2 => Z.testbit ebx 5
  | RS_CPU_GFNI => Z.testbit ecx 8 && negb valgrind
  end.

Definition rs_detect_cpu_level (has : rs_cpu_level -> bool) : rs_cpu_level :=
  if has RS_CPU_GFNI then RS_CPU_GFNI else if has RS_CPU_AVX2 then RS_CPU_AVX2 else RS_CPU_SCALAR.

(** * Registers as functions of the position *)

Lemma loadu_at block i : (i + 32 <= length block)%nat -> mm256_loadu block i = (fun j => block !!! j) <$> seq i 32.
Proof.
  intros Hl. apply list_eq. intros k. unfold mm256_loadu. rewrite list_lookup_fmap. destruct (decide (k < 32)%nat) as [Hk|Hk].
  - rewrite lookup_take_lt, lookup_drop, lookup_seq_lt by done. simpl. apply list_lookup_lookup_total_lt. lia.
  - rewrite lookup_take_ge, lookup_seq_ge by lia. done.
Qed.

Lemma xor_at (f g : nat -> byte) s : mm256_xor (f <$> s) (g <$> s) = (fun j => u8_xor (f j) (g j)) <$> s.
Proof. unfold mm256_xor. induction s as [|j s IH]; csimpl; [done|]. by rewrite IH. Qed.

Lemma zero_at i : mm256_setzero = (fun _ => gf_zero) <$> seq i 32.
Proof. done. Qed.

(** Adding up registers is adding up the bytes of each position. *)
Lemma vector_sum {A} (v : A -> m256) (g : nat -> A -> byte) (l : list A) i :
  (forall a, a ∈ l -> v a = (fun j => g j a) <$> seq i 32) ->
  foldl (fun acc a => mm256_xor acc (v a)) mm256_setzero l = (fun j => foldl (fun acc a => u8_xor acc (g j a)) gf_zero l) <$> seq i 32.
Proof.
  intros Hv. assert (H : forall f, foldl (fun acc a => mm256_xor acc (v a)) (f <$> seq i 32) l = (fun j => foldl (fun acc a => u8_xor acc (g j a)) (f j) l) <$> seq i 32); [|exact (H (fun _ => gf_zero))].
  revert Hv. induction l as [|a l IH]; intros Hv f; cbn [foldl]; [done|]. rewrite (Hv a) by left. rewrite xor_at. apply IH. intros b Hb. apply Hv. by right.
Qed.

Lemma seq_mul_add n : forall i, concat ((fun k => seq (i + 32 * k) 32) <$> seq 0 n) = seq i (32 * n).
Proof.
  induction n as [|n IH]; intros i; [done|]. replace (32 * S n)%nat with (32 + 32 * n)%nat by lia. rewrite (seq_app 32 (32 * n)), <- cons_seq, fmap_cons. cbn [concat].
  f_equal; [f_equal; lia|]. rewrite <- IH, <- fmap_S_seq, <- list_fmap_compose. f_equal. apply list_fmap_ext. intros ? k _. unfold compose. f_equal. lia.
Qed.

Lemma concat_fmap_fmap {A B} (f : A -> B) (ls : list (list A)) : concat ((fun l : list A => f <$> l) <$> ls) = f <$> concat ls.
Proof. induction ls as [|l ls IH]; csimpl; [done|]. by rewrite IH, fmap_app. Qed.

(** A kernel that agrees with the loop over single bytes gives the same block. *)
Lemma vector_block_ok kernel single size : (forall i, (i + 32 <= size)%nat -> kernel i = single <$> seq i 32) -> vector_block kernel single size = single <$> seq 0 size.
Proof.
  intros Hk. unfold vector_block. pose proof (Nat.div_mod_eq size 32) as Hdm. pose proof (Nat.mod_upper_bound size 32 ltac:(lia)) as Hm.
  replace (size - size mod 32)%nat with (32 * (size / 32))%nat by lia. rewrite Nat.mul_comm, Nat.div_mul by lia.
  transitivity (single <$> (seq 0 (32 * (size / 32)) ++ seq (32 * (size / 32)) (size mod 32))).
  - rewrite fmap_app. f_equal; [|by rewrite Nat.mul_comm]. rewrite <- seq_mul_add, <- concat_fmap_fmap, <- list_fmap_compose. f_equal. apply list_fmap_ext.
    intros ? k [-> Hlt]%lookup_seq. unfold compose. simpl. apply Hk. lia.
  - f_equal. rewrite <- seq_app. f_equal. lia.
Qed.

(** * The AVX2 multiplication *)

Lemma list_pairs_ind {A} (P : list A -> Prop) : P [] -> (forall a b l, P l -> P (a :: b :: l)) -> forall l n, length l = (2 * n)%nat -> P l.
Proof.
  intros H0 H2 l n. revert l. induction n as [|n IH]; intros l Hl; [by destruct l|]. destruct l as [|a [|b l]]; try (simpl in Hl; lia).
  apply H2, IH. simpl in Hl. lia.
Qed.

Lemma low_nibble x : byte_of (Z.land (byte_val x) (byte_val Byte.x0f)) = byte_of (byte_val x mod 16).
Proof. change (byte_val Byte.x0f) with (Z.ones 4). by rewrite Z.land_ones by lia. Qed.

Lemma high_nibbles x n : length x = (2 * n)%nat ->
  mm256_and (mm256_srli_epi16 x 4) (replicate (length x) Byte.x0f) = (fun b => byte_of (byte_val b / 16)) <$> x.
Proof.
  revert x n. refine (list_pairs_ind _ _ _); [done|]. intros lo hi x IH. cbn [mm256_srli_epi16 length replicate]. csimpl. unfold mm256_and in *. simpl. rewrite IH.
  pose proof (byte_val_bound lo). pose proof (byte_val_bound hi). rewrite !low_nibble, !byte_val_of, Z.shiftr_div_pow2 by lia. change (2 ^ 4) with 16.
  f_equal; [|f_equal]; f_equal; Z.div_mod_to_equations; lia.
Qed.

Lemma low_nibbles x : mm256_and x (replicate (length x) Byte.x0f) = (fun b => byte_of (byte_val b mod 16)) <$> x.
Proof. unfold mm256_and. induction x as [|b x IH]; csimpl; [done|]. by rewrite IH, low_nibble. Qed.

(** A table repeated in both halves, at nibbles. *)
Lemma shuffle_at t (f : byte -> Z) x : length t = 16%nat -> length x = 32%nat -> (forall b, 0 <= f b < 16) ->
  mm256_shuffle_epi8 (t ++ t) ((fun b => byte_of (f b)) <$> x) = (fun b => t !!! Z.to_nat (f b)) <$> x.
Proof.
  intros Ht Hx Hf. apply list_eq. intros i. unfold mm256_shuffle_epi8. rewrite list_lookup_imap, !list_lookup_fmap. destruct (x !! i) as [b|] eqn:Hb; [|done]. cbn [fmap option_fmap option_map]. f_equal.
  specialize (Hf b). apply lookup_lt_Some in Hb. rewrite byte_val_of, Z.mod_small, (high_bits _ 4) by lia. change 15 with (Z.ones 4). rewrite Z.land_ones, Z.mod_small by lia.
  set (k := Z.to_nat (f b)). assert (k < 16)%nat by lia. destruct (decide (i < 16)%nat).
  - rewrite Nat.div_small by lia. apply lookup_total_app_l. lia.
  - assert (i / 16 = 1)%nat as -> by (symmetry; apply (Nat.div_unique _ _ _ (i - 16)); lia). rewrite lookup_total_app_r by lia. f_equal. lia.
Qed.

Lemma gf_mul_expanded_avx2_ok x y : length x = 32%nat -> length y = 32%nat ->
  gf_mul_expanded_avx2 x y (broadcast_u8 Byte.x0f) = (fun b => gf_mul_expanded b y) <$> x.
Proof.
  intros Hx Hy. unfold gf_mul_expanded_avx2, broadcast_u8. rewrite <- Hx, low_nibbles, (high_nibbles x 16) by done.
  change (mm256_permute2x128 y y 0x00) with (take 16 y ++ take 16 y). change (mm256_permute2x128 y y 0x11) with (drop 16 y ++ drop 16 y).
  assert (Hb : forall b, 0 <= byte_val b mod 16 < 16 /\ 0 <= byte_val b / 16 < 16).
  { intros b. pose proof (byte_val_bound b). Z.div_mod_to_equations. lia. }
  rewrite !shuffle_at; [| rewrite ?length_take, ?length_drop; first [done | lia | apply Hb]..].
  unfold mm256_xor. rewrite zip_with_fmap_l, zip_with_fmap_r, zip_with_diag. apply list_fmap_ext. intros _ b _.
  destruct (Hb b) as [Hlo Hhi]. unfold gf_mul_expanded, table_at. change 0x0f with (Z.ones 4). rewrite Z.land_ones by lia. change (2 ^ 4) with 16. f_equal.
  - rewrite (lookup_total_take_lt y) by lia. done.
  - rewrite lookup_total_drop. f_equal. rewrite Z.shiftr_land. change (Z.shiftr 0xf0 4) with (Z.ones 4). rewrite Z.land_ones, Z.shiftr_div_pow2 by lia.
    change (2 ^ 4) with 16. rewrite (Z.mod_small (byte_val b / 16)) by lia. lia.
Qed.

(** * The levels agree *)

Lemma gf2p8mul_at f c i : mm256_gf2p8mul_epi8 (f <$> seq i 32) (broadcast_u8 c) = (fun j => gf_mul (f j) c) <$> seq i 32.
Proof.
  unfold mm256_gf2p8mul_epi8, broadcast_u8. rewrite zip_with_replicate_r_eq by (by rewrite length_fmap, length_seq). rewrite <- list_fmap_compose.
  apply list_fmap_ext. intros ? j _. symmetry. apply gf_mul_ref.
Qed.

Lemma foldl_zip_fmap {A B A' B' C} (F : C -> A' -> B' -> C) (f : A -> A') (g : B -> B') l : forall t c,
  foldl (fun acc q => F acc q.1 q.2) c (zip (f <$> l) (g <$> t)) = foldl (fun acc q => F acc (f q.1) (g q.2)) c (zip l t).
Proof. induction l as [|x l IH]; intros [|y t] c; try done. csimpl. apply IH. Qed.

Lemma foldl_zip_swap {A B C} (F : C -> A -> B -> C) l : forall t c, foldl (fun acc q => F acc q.1 q.2) c (zip l t) = foldl (fun acc q => F acc q.2 q.1) c (zip t l).
Proof. induction l as [|x l IH]; intros [|y t] c; try done. csimpl. apply IH. Qed.

(** A sum over one position of the blocks, each with its factor. *)
Lemma single_sum {A B} (h : byte -> A -> byte) (k : B -> A) (blocks : matrix) (t : list B) j :
  foldl (fun acc q => u8_xor acc (h q.1 q.2)) gf_zero (zip (column blocks j) (k <$> t)) =
  foldl (fun acc q => u8_xor acc (h (q.1 !!! j) (k q.2))) gf_zero (zip blocks t).
Proof. exact (foldl_zip_fmap (fun acc x y => u8_xor acc (h x y)) (fun b : list byte => b !!! j) k blocks t gf_zero). Qed.

Section agree.
Context (blocks : matrix) (size : nat) (Hsize : Forall (fun b => length b = size) blocks).

(** A kernel that adds the products of its blocks up, against the loop over a
    byte of each. *)
Lemma kernel_agrees {A B} (h : byte -> A -> byte) (k : B -> A) (mul : m256 -> B -> m256) (t : list B) i :
  (forall f c, c ∈ t -> mul (f <$> seq i 32) c = (fun j => h (f j) (k c)) <$> seq i 32) -> (i + 32 <= size)%nat ->
  foldl (fun acc q => mm256_xor acc (mul (mm256_loadu q.1 i) q.2)) mm256_setzero (zip blocks t) =
  (fun j => foldl (fun acc q => u8_xor acc (h q.1 q.2)) gf_zero (zip (column blocks j) (k <$> t))) <$> seq i 32.
Proof.
  intros Hmul Hi. rewrite (vector_sum (fun q => mul (mm256_loadu q.1 i) q.2) (fun j q => h (q.1 !!! j) (k q.2)) _ i).
  - apply list_fmap_ext. intros ? j _. by rewrite single_sum.
  - intros [b c] Hq. cbn [fst snd]. pose proof (elem_of_zip_l _ _ _ _ Hq) as Hb. apply elem_of_zip_r in Hq. rewrite Forall_forall in Hsize.
    rewrite loadu_at by (rewrite (Hsize b Hb); lia). by apply Hmul.
Qed.

Lemma parity_0_agrees i : (i + 32 <= size)%nat -> parity_0 blocks i = (fun j => foldl u8_xor gf_zero (column blocks j)) <$> seq i 32.
Proof.
  intros Hi. unfold parity_0. rewrite (vector_sum (fun d => mm256_loadu d i) (fun j d => d !!! j) _ i).
  - apply list_fmap_ext. intros ? j _. unfold column. by rewrite foldl_fmap.
  - intros b Hb. rewrite Forall_forall in Hsize. apply loadu_at. rewrite (Hsize b Hb). lia.
Qed.

Lemma avx2_agrees t i : Forall (fun e => length e = 32%nat) t -> (i + 32 <= size)%nat ->
  foldl (fun acc q => mm256_xor acc (gf_mul_expanded_avx2 (mm256_loadu q.1 i) q.2 (broadcast_u8 Byte.x0f))) mm256_setzero (zip blocks t) =
  (fun j => foldl (fun acc q => u8_xor acc (gf_mul_expanded q.1 q.2)) gf_zero (zip (column blocks j) t)) <$> seq i 32.
Proof.
  intros Ht Hi. pose proof (kernel_agrees gf_mul_expanded id (fun v e => gf_mul_expanded_avx2 v e (broadcast_u8 Byte.x0f)) t i) as H.
  rewrite list_fmap_id in H. apply H; [|done]. intros f e He. rewrite Forall_forall in Ht.
  rewrite gf_mul_expanded_avx2_ok, <- list_fmap_compose by (rewrite ?length_fmap, ?length_seq; auto). done.
Qed.

End agree.

Lemma length_expand_factor x : length (gf_mul_expand_factor x) = 32%nat.
Proof. done. Qed.

Lemma matmul_levels level size have mat : Forall (fun b => length b = size) have ->
  rs_recover_matmul_tmpl level size have mat = rs_recover_matmul_single_expanded have (gf_mul_expand_factor <$> mat) <$> seq 0 size.
Proof.
  intros Hs. destruct level; [done|..]; unfold rs_recover_matmul_tmpl.
  - apply vector_block_ok. intros i Hi. apply (avx2_agrees have size Hs); [|done]. apply Forall_fmap, Forall_forall. intros x _. apply length_expand_factor.
  - assert (Heq : forall j, rs_recover_matmul_single have mat j = rs_recover_matmul_single_expanded have (gf_mul_expand_factor <$> mat) j).
    { intros j. unfold rs_recover_matmul_single, rs_recover_matmul_single_expanded. rewrite (foldl_zip_swap (fun acc x y => u8_xor acc (gf_mul x y))).
      rewrite <- (list_fmap_id (column have j)) at 2. rewrite (foldl_zip_fmap (fun acc x y => u8_xor acc (gf_mul_expanded x y))).
      rewrite (foldl_xor (fun q => gf_mul q.2 q.1)), (foldl_xor (fun q => gf_mul_expanded (id q.1) (gf_mul_expand_factor q.2))).
      f_equal. f_equal. apply list_fmap_ext. intros _ q _. by rewrite gf_mul_expanded_ok, mul_comm. }
    rewrite vector_block_ok; [apply list_fmap_ext; intros; apply Heq|]. intros i Hi. unfold gfni_want. rewrite (list_fmap_ext _ _ _ (fun _ j _ => Heq j)).
    rewrite <- (list_fmap_id have) at 1. rewrite (foldl_zip_fmap (fun acc x y => mm256_xor acc (mm256_gf2p8mul_epi8 (mm256_loadu x i) y)) id broadcast_u8).
    apply (kernel_agrees have size Hs gf_mul_expanded gf_mul_expand_factor (fun v c => mm256_gf2p8mul_epi8 v (broadcast_u8 c))); [|done].
    intros f c _. rewrite gf2p8mul_at. apply list_fmap_ext. intros ? j _. by rewrite gf_mul_expanded_ok.
Qed.

Lemma length_cauchy_matrix D P : length (rs_cauchy_matrix D P) = (D + P)%nat.
Proof.
  unfold rs_cauchy_matrix, identity, cauchy_parities. rewrite length_app, length_fmap, length_seq. f_equal. transitivity (length (scale_column <$> (cauchy_row D <$> seq D P))).
  - generalize (scale_column <$> (cauchy_row D <$> seq D P)). induction (seq 1 (D - 1)) as [|row rows IH]; intros m; [done|]. cbn [foldl]. rewrite IH. apply length_fmap.
  - by rewrite !length_fmap, length_seq.
Qed.

Section parities.
Context (parity : Z).
Let D := rs_data_blocks_core parity.
Let P := rs_parity_blocks_core parity.
Let r := rs_new_core parity.

Lemma expanded_row p : (p < P)%nat -> r_expanded r !!! p = gf_mul_expand_factor <$> r_matrix r !!! (D + p)%nat.
Proof.
  intros Hp. unfold r, rs_new_core. cbn [r_expanded r_matrix]. fold D P. assert (Hl : length (rs_cauchy_matrix D P) = (D + P)%nat) by apply length_cauchy_matrix.
  destruct (lookup_lt_is_Some_2 (rs_cauchy_matrix D P) (D + p)) as [row Hrow]; [lia|].
  rewrite (fmap_total (fun coefficients : list byte => gf_mul_expand_factor <$> coefficients) _ p row) by (by rewrite lookup_drop).
  by rewrite (list_lookup_total_correct _ _ _ Hrow).
Qed.

Lemma parity_levels level size data : Forall (fun b => length b = size) data -> Z.of_nat size < 2 ^ 32 -> rs_compute_parity_tmpl level r size data = Some (rs_compute_parity r size data).
Proof.
  intros Hs H32. destruct level; [done|..]; unfold rs_compute_parity_tmpl, rs_compute_parity; [rewrite (proj2 (Z.leb_gt _ _)) by lia|]; f_equal; apply list_fmap_ext; intros p p0 Hp; apply lookup_seq in Hp as [E Hp]; simpl in E; subst p0;
    apply vector_block_ok; intros k Hi; [unfold avx2_parity | unfold gfni_parity]; unfold rs_compute_parity_single;
    (destruct (Nat.eqb_spec p 0); [by apply (parity_0_agrees data size)|]).
  - apply (avx2_agrees data size Hs); [|done]. rewrite expanded_row by done. apply Forall_fmap, Forall_forall. intros x _. apply length_expand_factor.
  - rewrite expanded_row by done.
    apply (kernel_agrees data size Hs gf_mul_expanded gf_mul_expand_factor (fun v c => mm256_gf2p8mul_epi8 v (broadcast_u8 c))); [|done].
    intros f c _. rewrite gf2p8mul_at. apply list_fmap_ext. intros ? j _. by rewrite gf_mul_expanded_ok.
Qed.

End parities.

(** C21: the vector routines compute what the scalar ones do, at every level the
    processor allows and for blocks of every size below 2^32, the bytes after
    the last whole register included. *)
Theorem cpu_levels_agree (level : rs_cpu_level) (parity : Z) (size : nat) (data : matrix) (mat : list byte) :
  Forall (fun b => length b = size) data -> Z.of_nat size < 2 ^ 32 ->
  rs_compute_parity_tmpl level (rs_new_core parity) size data = Some (rs_compute_parity (rs_new_core parity) size data) /\
  rs_recover_matmul_tmpl level size data mat = rs_recover_matmul_tmpl RS_CPU_SCALAR size data mat.
Proof. intros Hs H32. split; [by apply parity_levels|]. by rewrite !matmul_levels. Qed.

Lemma cpu_levels_agree_witness : exists p, rs_compute_parity_tmpl RS_CPU_AVX2 (rs_new_core 0x23) 33 [replicate 33 Byte.x41; replicate 33 Byte.x42; replicate 33 Byte.xf5] = Some p /\ length p = 2%nat.
Proof.
  destruct (cpu_levels_agree RS_CPU_AVX2 0x23 33 [replicate 33 Byte.x41; replicate 33 Byte.x42; replicate 33 Byte.xf5] []) as [-> _];
    [by repeat constructor | lia | by eexists].
Defined.
