(* ===== verification/Crc32c.v ===== *)
(** CRC-32C: the arithmetic of src/go/core/crc32c/crc32c_body.c.

    The operations that find the checksum of a concatenation, of an exclusive
    or, and of a string with zeros added or removed, from the checksums of its
    parts, and the loops that compute a checksum without PCLMUL. A checksum is a
    polynomial over GF(2), the highest bit its constant term; the processor's
    instruction multiplies by a power of x modulo the Castagnoli polynomial.

    The file is compiled twice, with CRC32C_USE_PCLMUL and without: [pclmul] is
    that choice. CrcFusion has the loops with PCLMUL and the Go functions. *)

From Stdlib Require Import ZArith Lia.
From stdpp Require Import base numbers option list.
From S2P Require Import Prelude.

(** * The instructions *)

Definition castagnoli : Z := 0x82F63B78.

Definition crc_bit (c : Z) : Z :=
  if Z.odd c then Z.lxor (Z.shiftr c 1) castagnoli else Z.shiftr c 1.

(** Multiplication by a power of x. *)
Definition xpow (n : nat) (c : Z) : Z := Nat.iter n crc_bit c.
Arguments xpow : simpl never.

Definition crc_byte (c : Z) (b : byte) : Z := xpow 8 (Z.lxor c (byte_val b)).

(** _mm_crc32_u8, _mm_crc32_u64 of eight bytes, and _mm_crc32_u32. *)
Definition mm_crc32_u8 (crc : Z) (b : byte) : Z := crc_byte crc b.
Definition mm_crc32_u64 (crc : Z) (v : Z) : Z := foldl crc_byte crc (le_bytes 8 v).
Definition mm_crc32_u32 (crc v : Z) : Z := xpow 32 (Z.lxor crc v).

(** The product of polynomials over GF(2), one bit of [a] at a time. *)
Fixpoint clmul (n : nat) (a b : Z) : Z :=
  match n with O => 0 | S n => Z.lxor (clmul n a b) (if Z.testbit a (Z.of_nat n) then Z.shiftl b (Z.of_nat n) else 0) end.

(** _mm_clmulepi64_si128: the product of a half of [x] and a half of [y]. *)
Definition half (x : Z) (high : bool) : Z := if high then wrap64 (Z.shiftr x 64) else wrap64 x.
Definition mm_clmulepi64 (x y imm : Z) : Z := clmul 64 (half x (Z.testbit imm 0)) (half y (Z.testbit imm 4)).

(** [~] of a [u32]. *)
Definition not32 (c : Z) : Z := Z.lxor c 0xFFFFFFFF.

(** * The code *)

(** The loops over eight bytes and over single bytes. *)
Fixpoint crc_words (n : nat) (crc : Z) (buf : list byte) : Z * list byte :=
  match n with
  | O => (crc, buf)
  | S n => crc_words n (mm_crc32_u64 crc (le_val (take 8 buf))) (drop 8 buf)
  end.

Definition crc32c (crc : Z) (buf : list byte) : Z :=
  let '(crc, buf) := crc_words (length buf / 8) (not32 crc) buf in
  not32 (foldl mm_crc32_u8 crc buf).

(** The loop of [crc32c_mul], [i] rounds before its end. *)
Fixpoint mul_loop (i : nat) (a b c : Z) : Z :=
  match i with
  | O => c
  | S i => mul_loop i (wrap32 (Z.shiftl a 1)) (Z.shiftr b 1) (Z.lxor c (if Z.testbit a 31 then b else 0))
  end.

Definition CRC_POWER_TABLE : list Z :=
  [0x00800000; 0x00008000; 0x82f63b78; 0x6ea2d55c; 0x18b8ea18; 0x510ac59a; 0xb82be955; 0xb8fdb1e7;
   0x88e56f72; 0x74c360a4; 0xe4172b16; 0x0d65762a; 0x35d73a62; 0x28461564; 0xbf455269; 0xe2ea32dc;
   0xfe7740e6; 0xf946610b; 0x3c204f8f; 0x538586e3; 0x59726915; 0x734d5309; 0xbc1ac763; 0x7d0722cc;
   0xd289cabe; 0xe94ca9bc; 0x05b74f3f; 0xa51e1f42; 0x40000000; 0x20000000; 0x08000000; 0x00800000;
   0x00008000; 0x82f63b78; 0x6ea2d55c; 0x18b8ea18; 0x510ac59a; 0xb82be955; 0xb8fdb1e7; 0x88e56f72;
   0x74c360a4; 0xe4172b16; 0x0d65762a; 0x35d73a62; 0x28461564; 0xbf455269; 0xe2ea32dc; 0xfe7740e6;
   0xf946610b; 0x3c204f8f; 0x538586e3; 0x59726915; 0x734d5309; 0xbc1ac763; 0x7d0722cc; 0xd289cabe;
   0xe94ca9bc; 0x05b74f3f; 0xa51e1f42; 0x40000000; 0x20000000; 0x08000000; 0x00800000; 0x00008000].

Definition CRC_INVERSE_POWER_TABLE : list Z :=
  [0xfde39562; 0xbef0965e; 0xd610d67e; 0xe67cce65; 0xa268b79e; 0x134fb088; 0x32998d96; 0xcedac2cc;
   0x70118575; 0x0e004a40; 0xa7864c8b; 0xbc7be916; 0x10ba2894; 0x6077197b; 0x98448e4e; 0x8baf845d;
   0xe93e07fc; 0xf58027d7; 0x5e2b422d; 0x9db2851c; 0x9270ed25; 0x5984e7b3; 0x7af026f1; 0xe0f4116b;
   0xace8a6b0; 0x9e09f006; 0x6a60ea71; 0x4fd04875; 0x05ec76f1; 0x0bd8ede2; 0x2f63b788; 0xfde39562;
   0xbef0965e; 0xd610d67e; 0xe67cce65; 0xa268b79e; 0x134fb088; 0x32998d96; 0xcedac2cc; 0x70118575;
   0x0e004a40; 0xa7864c8b; 0xbc7be916; 0x10ba2894; 0x6077197b; 0x98448e4e; 0x8baf845d; 0xe93e07fc;
   0xf58027d7; 0x5e2b422d; 0x9db2851c; 0x9270ed25; 0x5984e7b3; 0x7af026f1; 0xe0f4116b; 0xace8a6b0;
   0x9e09f006; 0x6a60ea71; 0x4fd04875; 0x05ec76f1; 0x0bd8ede2; 0x2f63b788; 0xfde39562; 0xbef0965e].

Section code.
Context (pclmul : bool).

Definition crc32c_mul (a b : Z) : Z :=
  if pclmul then wrap64 (Z.shiftl (wrap64 (mm_clmulepi64 a b 0)) 1)
  else mul_loop 32 a (Z.shiftl b 32) 0.

Definition crc32c_mod_p (a : Z) : Z := Z.lxor (mm_crc32_u32 0 (wrap32 a)) (Z.shiftr a 32).

Definition crc32c_mul_mod_p (a b : Z) : Z := crc32c_mod_p (crc32c_mul a b).

(** The loop over the bits of [n], with the entries of the table from the [k]th
    on: it ends at the last one, which has the 64th bit. *)
Fixpoint power_loop (table : list Z) (n x : Z) : Z :=
  match table with
  | [] => x
  | t :: table => if n =? 0 then x else power_loop table (Z.shiftr n 1) (if Z.odd n then crc32c_mul_mod_p x t else x)
  end.

Definition crc32c_x_pow_n (n : Z) : Z := power_loop CRC_POWER_TABLE n (Z.shiftl 1 31).
Definition crc32c_x_pow_neg_n (n : Z) : Z := power_loop CRC_INVERSE_POWER_TABLE n (Z.shiftl 1 31).

Definition crc32c_zero_extend (crc zeros : Z) : Z :=
  if 0 <? zeros then not32 (crc32c_mul_mod_p (not32 crc) (crc32c_x_pow_n zeros))
  else not32 (crc32c_mul_mod_p (not32 crc) (crc32c_x_pow_neg_n (- zeros))).

Definition crc32c_append (crc_a crc_b len_b : Z) : Z := Z.lxor (crc32c_mul_mod_p crc_a (crc32c_x_pow_n len_b)) crc_b.

Definition crc32c_xor (crc_a crc_b len : Z) : Z :=
  Z.lxor (Z.lxor crc_a crc_b) (not32 (crc32c_mul_mod_p 0xFFFFFFFF (crc32c_x_pow_n len))).

End code.

(** Equations between exclusive ors, bit by bit. *)
Ltac xor_bits := apply Z.bits_inj'; intros ? _; rewrite !Z.lxor_spec, ?Z.bits_0; repeat destruct (Z.testbit _ _); reflexivity.

(** * Multiplication by x *)

Lemma crc_bit_bound (c : Z) : is_u32 c -> is_u32 (crc_bit c).
Proof.
  unfold is_u32, crc_bit. intros Hc.
  assert (0 <= Z.shiftr c 1 < 2 ^ 32) by (rewrite Z.shiftr_div_pow2 by lia; split; [apply Z.div_pos | apply Z.div_lt_upper_bound]; lia).
  destruct (Z.odd c); [apply lxor_bound; unfold castagnoli; lia | done].
Qed.

Definition one : Z := Z.shiftl 1 31.

Lemma crc_bit_xor a b : crc_bit (Z.lxor a b) = Z.lxor (crc_bit a) (crc_bit b).
Proof.
  unfold crc_bit. rewrite Z.shiftr_lxor. rewrite <- !Z.bit0_odd, Z.lxor_spec. apply Z.bits_inj'. intros n _.
  destruct (Z.testbit a 0), (Z.testbit b 0); simpl; rewrite !Z.lxor_spec; by destruct (Z.testbit _ _), (Z.testbit _ _), (Z.testbit castagnoli n).
Qed.

Lemma crc_bit_zero : crc_bit 0 = 0.
Proof. done. Qed.

Lemma xpow_xor n a b : xpow n (Z.lxor a b) = Z.lxor (xpow n a) (xpow n b).
Proof. induction n as [|n IH]; [done|]. change (crc_bit (xpow n (Z.lxor a b)) = Z.lxor (crc_bit (xpow n a)) (crc_bit (xpow n b))). by rewrite IH, crc_bit_xor. Qed.

Lemma xpow_zero n : xpow n 0 = 0.
Proof. induction n as [|n IH]; [done|]. change (crc_bit (xpow n 0) = 0). by rewrite IH. Qed.

Lemma xpow_S n c : xpow (S n) c = crc_bit (xpow n c).
Proof. done. Qed.

Lemma xpow_add m n c : xpow (m + n) c = xpow m (xpow n c).
Proof. induction m as [|m IH]; [done|]. change (S m + n)%nat with (S (m + n)). by rewrite !xpow_S, IH. Qed.

Lemma xpow_bit n c : xpow n (crc_bit c) = crc_bit (xpow n c).
Proof. induction n as [|n IH]; [done|]. by rewrite !xpow_S, IH. Qed.

Lemma xpow_comm m n c : xpow m (xpow n c) = xpow n (xpow m c).
Proof. rewrite <- !xpow_add. f_equal. lia. Qed.

Lemma xpow_bound n c : is_u32 c -> is_u32 (xpow n c).
Proof. intros Hc. induction n as [|n IH]; [done|]. rewrite xpow_S. by apply crc_bit_bound. Qed.

(** The bits that leave at the low end are zero before they meet a one. *)
Lemma xpow_shift n c : 0 <= c -> xpow n (Z.shiftl c (Z.of_nat n)) = c.
Proof.
  revert c. induction n as [|n IH]; intros c Hc; [by rewrite Z.shiftl_0_r|]. rewrite xpow_S.
  replace (Z.shiftl c (Z.of_nat (S n))) with (Z.shiftl (2 * c) (Z.of_nat n)).
  - rewrite IH by lia. unfold crc_bit. rewrite Z.odd_mul. simpl. rewrite Z.shiftr_div_pow2 by lia. change (2 ^ 1) with 2. rewrite Z.mul_comm. by apply Z.div_mul.
  - rewrite !Z.shiftl_mul_pow2 by lia. rewrite Nat2Z.inj_succ, Z.pow_succ_r by lia. ring.
Qed.

(** * Multiplication *)

(** [b] times the low [i] of the coefficients of [a], from the constant term on. *)
Fixpoint mulref (i : nat) (a b : Z) : Z :=
  match i with O => 0 | S i => Z.lxor (mulref i a b) (if Z.testbit a (31 - Z.of_nat i) then xpow i b else 0) end.

Lemma lxor_cond_bound (x : bool) a : is_u32 a -> is_u32 (if x then a else 0).
Proof. intros Ha. destruct x; [done|]. unfold is_u32. lia. Qed.

Lemma is_u32_xor a b : is_u32 a -> is_u32 b -> is_u32 (Z.lxor a b).
Proof. apply (lxor_bound _ _ 32). lia. Qed.

(** Reducing what the [i]th shift of [b] leaves on both sides of bit 32. *)
Lemma mod_p_step w : 0 <= w < 2 ^ 64 -> Z.even w = true -> crc32c_mod_p (Z.shiftr w 1) = crc_bit (crc32c_mod_p w).
Proof.
  intros Hw He. unfold crc32c_mod_p, mm_crc32_u32. rewrite !Z.lxor_0_l.
  rewrite crc_bit_xor. set (hi := Z.shiftr w 32).
  assert (Hlo : wrap32 (Z.shiftr w 1) = Z.lxor (Z.shiftr (wrap32 w) 1) (if Z.odd hi then Z.shiftl 1 31 else 0)).
  { unfold wrap32. apply Z.bits_inj'. intros n Hn. rewrite Z.lxor_spec. destruct (decide (n < 32)) as [Hlt|Hge].
    - rewrite Z.mod_pow2_bits_low, !Z.shiftr_spec by lia. destruct (decide (n = 31)) as [->|Hne].
      + rewrite Z.mod_pow2_bits_high by lia. unfold hi. rewrite <- Z.bit0_odd, Z.shiftr_spec by lia. change (31 + 1) with (0 + 32).
        by destruct (Z.testbit w (0 + 32)).
      + rewrite Z.mod_pow2_bits_low by lia. destruct (Z.odd hi); [|by rewrite Z.bits_0, xorb_false_r].
        rewrite Z.shiftl_spec, (Z.testbit_neg_r 1 (n - 31)) by lia. by rewrite xorb_false_r.
    - rewrite Z.mod_pow2_bits_high, Z.shiftr_spec, Z.mod_pow2_bits_high by lia. destruct (Z.odd hi); [|by rewrite Z.bits_0].
      change (Z.shiftl 1 31) with (2 ^ 31). by rewrite Z.pow2_bits_false by lia. }
  assert (Hev : Z.shiftr (wrap32 w) 1 = crc_bit (wrap32 w)).
  { unfold crc_bit, wrap32. rewrite <- Z.bit0_odd, Z.mod_pow2_bits_low, Z.bit0_odd by lia. rewrite <- Z.negb_even, He. done. }
  assert (H32 : xpow 32 (Z.shiftl 1 31) = castagnoli) by (by vm_compute).
  assert (Hsh : Z.shiftr (Z.shiftr w 1) 32 = Z.shiftr hi 1) by (unfold hi; rewrite !Z.shiftr_shiftr by lia; f_equal; lia).
  rewrite Hlo, xpow_xor, Hev, xpow_bit, Hsh, Z.lxor_assoc. f_equal. unfold crc_bit.
  destruct (Z.odd hi); [rewrite H32; apply Z.lxor_comm | by rewrite xpow_zero, Z.lxor_0_l].
Qed.

Lemma wrap32_xor a b : wrap32 (Z.lxor a b) = Z.lxor (wrap32 a) (wrap32 b).
Proof.
  unfold wrap32. apply Z.bits_inj'. intros n Hn. rewrite Z.lxor_spec. destruct (decide (n < 32)).
  - by rewrite !Z.mod_pow2_bits_low, Z.lxor_spec by lia.
  - by rewrite !Z.mod_pow2_bits_high by lia.
Qed.

Lemma mod_p_xor a b : crc32c_mod_p (Z.lxor a b) = Z.lxor (crc32c_mod_p a) (crc32c_mod_p b).
Proof.
  unfold crc32c_mod_p, mm_crc32_u32. rewrite !Z.lxor_0_l, wrap32_xor, xpow_xor, Z.shiftr_lxor. xor_bits.
Qed.

Lemma mod_p_shift i b : (i <= 32)%nat -> is_u32 b -> crc32c_mod_p (Z.shiftl b (32 - Z.of_nat i)) = xpow i b.
Proof.
  intros Hi [Hb0 Hb]. induction i as [|i IH].
  - unfold crc32c_mod_p, mm_crc32_u32, wrap32. change (32 - Z.of_nat 0) with 32. rewrite Z.shiftl_mul_pow2, Z_mod_mult by lia.
    change (xpow 32 (Z.lxor 0 0)) with 0. rewrite Z.lxor_0_l, Z.shiftr_div_pow2 by lia. by apply Z.div_mul.
  - rewrite xpow_S, <- IH by lia. rewrite <- mod_p_step.
    + f_equal. rewrite Z.shiftr_shiftl_l by lia. f_equal. lia.
    + rewrite Z.shiftl_mul_pow2 by lia. split; [nia|]. assert (2 ^ (32 - Z.of_nat i) <= 2 ^ 32) by (apply Z.pow_le_mono_r; lia). nia.
    + rewrite <- Z.negb_odd, <- Z.bit0_odd, Z.shiftl_spec_low by lia. done.
Qed.

Lemma shifted_again a j : wrap32 (Z.shiftl (wrap32 (Z.shiftl a (Z.of_nat j))) 1) = wrap32 (Z.shiftl a (Z.of_nat (S j))).
Proof.
  unfold wrap32. rewrite !Z.shiftl_mul_pow2 by lia. rewrite Z.mul_mod_idemp_l by lia. f_equal.
  rewrite Nat2Z.inj_succ, Z.pow_succ_r by lia. lia.
Qed.

Lemma mul_loop_ok k j a b c : (k + j = 32)%nat -> is_u32 b -> crc32c_mod_p c = mulref j a b ->
  crc32c_mod_p (mul_loop k (wrap32 (Z.shiftl a (Z.of_nat j))) (Z.shiftl b (32 - Z.of_nat j)) c) = mulref 32 a b.
Proof.
  intros Hkj Hb. revert j c Hkj. induction k as [|k IH]; intros j c Hkj Hc; [by assert (j = 32)%nat as -> by lia|].
  cbn [mul_loop]. rewrite shifted_again, Z.shiftr_shiftl_l by lia. replace (32 - Z.of_nat j - 1) with (32 - Z.of_nat (S j)) by lia.
  apply IH; [lia|]. rewrite mod_p_xor, Hc. cbn [mulref]. f_equal. unfold wrap32. rewrite Z.mod_pow2_bits_low, Z.shiftl_spec by lia.
  destruct (Z.testbit a _); [apply mod_p_shift; [lia|done] | done].
Qed.

Lemma shiftl_bound a j m : 0 <= j -> 0 <= m -> 0 <= a < 2 ^ m -> 0 <= Z.shiftl a j < 2 ^ (m + j).
Proof. intros Hj Hm Ha. rewrite Z.shiftl_mul_pow2, Z.pow_add_r by lia. nia. Qed.

(** Bits of [a] beyond the [k]th add nothing. *)
Lemma clmul_short n k a b : (k <= n)%nat -> 0 <= a < 2 ^ Z.of_nat k -> clmul n a b = clmul k a b.
Proof.
  intros Hk Ha. induction Hk as [|n Hk IH]; [done|]. cbn [clmul]. rewrite IH, (high_bits a (Z.of_nat k)) by lia. apply Z.lxor_0_r.
Qed.

Lemma clmul_bound n a b m : 0 <= m -> 0 <= b < 2 ^ m -> 0 <= clmul (S n) a b < 2 ^ (m + Z.of_nat n).
Proof.
  intros Hm Hb. induction n as [|n IH].
  - cbn [clmul]. rewrite Z.lxor_0_l, Z.shiftl_0_r, Z.add_0_r. destruct (Z.testbit _ _); lia.
  - change (clmul (S (S n)) a b) with (Z.lxor (clmul (S n) a b) (if Z.testbit a (Z.of_nat (S n)) then Z.shiftl b (Z.of_nat (S n)) else 0)).
    assert (Hle : 2 ^ (m + Z.of_nat n) <= 2 ^ (m + Z.of_nat (S n))) by (apply Z.pow_le_mono_r; lia).
    apply lxor_bound; [lia| |]; [lia|]. pose proof (shiftl_bound b (Z.of_nat (S n)) m ltac:(lia) ltac:(lia) ltac:(lia)). destruct (Z.testbit _ _); lia.
Qed.

(** The tail of [mulref], whose first term is the highest bit. *)
Lemma mod_p_clmul n a b : (n <= 32)%nat -> is_u32 b -> Z.lxor (crc32c_mod_p (Z.shiftl (clmul n a b) 1)) (mulref (32 - n) a b) = mulref 32 a b.
Proof.
  intros Hn Hb. induction n as [|n IH]; cbn [clmul].
  { change (crc32c_mod_p (Z.shiftl 0 1)) with 0. by rewrite Z.lxor_0_l. }
  rewrite <- IH by lia. replace (32 - n)%nat with (S (32 - S n)) by lia. cbn [mulref]. rewrite Z.shiftl_lxor, mod_p_xor.
  replace (31 - Z.of_nat (32 - S n)) with (Z.of_nat n) by lia. destruct (Z.testbit a (Z.of_nat n)).
  - rewrite Z.shiftl_shiftl by lia. replace (Z.of_nat n + 1) with (32 - Z.of_nat (32 - S n)) by lia. rewrite mod_p_shift by (lia || done).
    rewrite !Z.lxor_assoc. f_equal. apply Z.lxor_comm.
  - rewrite Z.shiftl_0_l. change (crc32c_mod_p 0) with 0. by rewrite !Z.lxor_0_r.
Qed.

Lemma wrap64_u32 a : is_u32 a -> wrap64 a = a.
Proof. intros [? ?]. apply Z.mod_small. lia. Qed.

(** Both versions multiply. *)
Lemma mul_mod_p_ref pclmul a b : is_u32 a -> is_u32 b -> crc32c_mul_mod_p pclmul a b = mulref 32 a b.
Proof.
  intros Ha Hb. unfold crc32c_mul_mod_p, crc32c_mul. destruct pclmul.
  - unfold mm_clmulepi64, half. cbn [Z.testbit]. rewrite (wrap64_u32 a), (wrap64_u32 b), (clmul_short 64 32) by (done || exact Ha || lia).
    pose proof (clmul_bound 31 a b 32 ltac:(lia) Hb) as Hc. pose proof (mod_p_clmul 32 a b ltac:(lia) Hb) as H.
    unfold wrap64. rewrite (Z.mod_small (clmul 32 a b)), (Z.mod_small (Z.shiftl _ 1)) by (rewrite ?Z.shiftl_mul_pow2 by lia; lia).
    by rewrite Nat.sub_diag, Z.lxor_0_r in H.
  - pose proof (mul_loop_ok 32 0 a b 0 eq_refl Hb eq_refl) as H.
    rewrite Z.shiftl_0_r in H. unfold wrap32 in H. rewrite Z.mod_small in H by done. exact H.
Qed.

Lemma mulref_xpow i a b n : mulref i a (xpow n b) = xpow n (mulref i a b).
Proof.
  induction i as [|i IH]; cbn [mulref]; [by rewrite xpow_zero|]. rewrite IH, xpow_xor. f_equal.
  destruct (Z.testbit _ _); [apply xpow_comm | by rewrite xpow_zero].
Qed.

Lemma mulref_bound i a b : is_u32 b -> is_u32 (mulref i a b).
Proof.
  intros Hb. induction i as [|i IH]; cbn [mulref]; [unfold is_u32; lia|]. apply is_u32_xor; [done|]. by apply lxor_cond_bound, xpow_bound.
Qed.

Lemma xpow_one i : (i <= 31)%nat -> xpow i one = 2 ^ (31 - Z.of_nat i).
Proof.
  intros Hi. rewrite <- (xpow_shift i (2 ^ (31 - Z.of_nat i))) by lia. f_equal. unfold one. rewrite Z.shiftl_1_l, Z.shiftl_mul_pow2 by lia.
  rewrite <- Z.pow_add_r by lia. f_equal. lia.
Qed.

Lemma mulref_one_bits i a n : (i <= 32)%nat -> 0 <= n -> Z.testbit (mulref i a one) n = (31 - Z.of_nat i <? n) && (n <=? 31) && Z.testbit a n.
Proof.
  intros Hi Hn. induction i as [|i IH]; cbn [mulref].
  - rewrite Z.bits_0. destruct (Z.ltb_spec (31 - Z.of_nat 0) n), (Z.leb_spec n 31); try done; lia.
  - rewrite Z.lxor_spec, IH by lia. rewrite xpow_one by lia.
    assert (Hb : Z.testbit (if Z.testbit a (31 - Z.of_nat i) then 2 ^ (31 - Z.of_nat i) else 0) n = (31 - Z.of_nat i =? n) && Z.testbit a n).
    { destruct (Z.eqb_spec (31 - Z.of_nat i) n) as [<-|Hne].
      - destruct (Z.testbit a (31 - Z.of_nat i)); [rewrite Z.pow2_bits_true by lia | rewrite Z.bits_0]; done.
      - destruct (Z.testbit a (31 - Z.of_nat i)); [rewrite Z.pow2_bits_false by lia | rewrite Z.bits_0]; done. }
    rewrite Hb. destruct (Z.testbit a n); [|by rewrite !andb_false_r]. rewrite !andb_true_r.
    destruct (Z.ltb_spec (31 - Z.of_nat i) n), (Z.eqb_spec (31 - Z.of_nat i) n), (Z.ltb_spec (31 - Z.of_nat (S i)) n), (Z.leb_spec n 31); simpl; try done; lia.
Qed.

Lemma mulref_one a : is_u32 a -> mulref 32 a one = a.
Proof.
  intros Ha. apply Z.bits_inj'. intros n Hn. rewrite mulref_one_bits by lia. destruct (Z.leb_spec n 31).
  - replace (31 - Z.of_nat 32 <? n) with true by (symmetry; apply Z.ltb_lt; lia). done.
  - rewrite andb_false_r. symmetry. apply (high_bits a 32); [apply Ha | lia].
Qed.

Lemma one_u32 : is_u32 one.
Proof. unfold is_u32, one. by vm_compute. Qed.

Lemma mulref_xor_r i a b c : mulref i a (Z.lxor b c) = Z.lxor (mulref i a b) (mulref i a c).
Proof.
  induction i as [|i IH]; [done|]. cbn [mulref]. rewrite IH. apply Z.bits_inj'. intros n _.
  destruct (Z.testbit a _); rewrite ?xpow_xor, !Z.lxor_spec, ?Z.bits_0; by repeat destruct (Z.testbit _ _).
Qed.

Lemma mulref_zero i a : mulref i a 0 = 0.
Proof. induction i as [|i IH]; [done|]. cbn [mulref]. rewrite IH, xpow_zero. by destruct (Z.testbit _ _). Qed.

Lemma mulref_comm a b : is_u32 a -> is_u32 b -> mulref 32 a b = mulref 32 b a.
Proof.
  intros Ha Hb. assert (H : forall i, mulref 32 a (mulref i b one) = mulref i b a); [|by rewrite <- (mulref_one b) at 1].
  intros i. induction i as [|i IH]; [apply mulref_zero|].
  change (mulref (S i) b one) with (Z.lxor (mulref i b one) (if Z.testbit b (31 - Z.of_nat i) then xpow i one else 0)).
  change (mulref (S i) b a) with (Z.lxor (mulref i b a) (if Z.testbit b (31 - Z.of_nat i) then xpow i a else 0)).
  rewrite mulref_xor_r, IH. f_equal. destruct (Z.testbit b _); [by rewrite mulref_xpow, mulref_one | apply mulref_zero].
Qed.

Section laws.
Context (pclmul : bool).

(** Multiplying by a power of x is the power of the multiplication. *)
Lemma mul_mod_p_xpow a b n : is_u32 a -> is_u32 b -> crc32c_mul_mod_p pclmul a (xpow n b) = xpow n (crc32c_mul_mod_p pclmul a b).
Proof. intros Ha Hb. rewrite !mul_mod_p_ref by (try done; by apply xpow_bound). apply mulref_xpow. Qed.

Lemma mul_mod_p_one a n : is_u32 a -> crc32c_mul_mod_p pclmul a (xpow n one) = xpow n a.
Proof. intros Ha. rewrite mul_mod_p_xpow, mul_mod_p_ref, mulref_one by (try done; apply one_u32). done. Qed.

(** * The tables *)

(** The power of x that entry [k] stands for: 2^k bytes. *)
Definition byte_power (k : nat) : nat := 8 * 2 ^ k.

Lemma byte_power_S k : byte_power (S k) = (byte_power k + byte_power k)%nat.
Proof. unfold byte_power. rewrite Nat.pow_succ_r'. lia. Qed.

Definition at_table (t : list Z) (k : nat) : Z := nth k t 0.

Lemma power_table_squares : forallb (fun k => crc32c_mul_mod_p pclmul (at_table CRC_POWER_TABLE k) (at_table CRC_POWER_TABLE k) =? at_table CRC_POWER_TABLE (S k)) (seq 0 63) = true.
Proof. destruct pclmul; by vm_compute. Qed.

Lemma inverse_table_products : forallb (fun k => crc32c_mul_mod_p pclmul (at_table CRC_INVERSE_POWER_TABLE k) (at_table CRC_POWER_TABLE k) =? one) (seq 0 64) = true.
Proof. destruct pclmul; by vm_compute. Qed.

Lemma inverse_table_bounds : forallb (fun t => (0 <=? t) && (t <? 2 ^ 32)) CRC_INVERSE_POWER_TABLE = true.
Proof. destruct pclmul; by vm_compute. Qed.

Lemma power_table_ok k : (k < 64)%nat -> at_table CRC_POWER_TABLE k = xpow (byte_power k) one.
Proof.
  induction k as [|k IH]; intros Hk; [by vm_compute|]. pose proof power_table_squares as H. rewrite forallb_forall in H.
  specialize (H k ltac:(apply in_seq; lia)). apply Z.eqb_eq in H. rewrite <- H, IH by lia.
  rewrite mul_mod_p_one, byte_power_S, xpow_add by (apply xpow_bound, one_u32). done.
Qed.

Lemma inverse_table_ok k : (k < 64)%nat -> is_u32 (at_table CRC_INVERSE_POWER_TABLE k) /\ xpow (byte_power k) (at_table CRC_INVERSE_POWER_TABLE k) = one.
Proof.
  intros Hk. assert (Hb : is_u32 (at_table CRC_INVERSE_POWER_TABLE k)).
  { pose proof inverse_table_bounds as H. rewrite forallb_forall in H. specialize (H (at_table CRC_INVERSE_POWER_TABLE k) ltac:(apply nth_In; exact Hk)).
    unfold is_u32. apply andb_true_iff in H as [H1%Z.leb_le H2%Z.ltb_lt]. lia. }
  split; [done|]. pose proof inverse_table_products as H. rewrite forallb_forall in H. specialize (H k ltac:(apply in_seq; lia)). apply Z.eqb_eq in H.
  by rewrite power_table_ok, mul_mod_p_one in H.
Qed.

(** One bit of the exponent at a time. *)
Lemma exponent_step n k : 0 <= n ->
  (byte_power k * Z.to_nat n = byte_power (S k) * Z.to_nat (Z.shiftr n 1) + (if Z.odd n then byte_power k else 0))%nat.
Proof.
  intros Hn. rewrite byte_power_S. assert (Z.to_nat n = 2 * Z.to_nat (Z.shiftr n 1) + (if Z.odd n then 1 else 0))%nat as ->; [|destruct (Z.odd n); nia].
  rewrite Z.shiftr_div_pow2 by lia. change (2 ^ 1) with 2. pose proof (Zdiv2_odd_eqn n) as H. rewrite Z.div2_div in H.
  pose proof (Z.div_pos n 2 Hn ltac:(lia)). destruct (Z.odd n); lia.
Qed.

Lemma shifted_bound n (m : nat) : 0 <= n < 2 ^ Z.of_nat (S m) -> 0 <= Z.shiftr n 1 < 2 ^ Z.of_nat m.
Proof.
  intros Hn. rewrite Z.shiftr_div_pow2 by lia. change (2 ^ 1) with 2. rewrite Nat2Z.inj_succ, Z.pow_succ_r in Hn by lia.
  split; [apply Z.div_pos; lia | apply Z.div_lt_upper_bound; lia].
Qed.

Lemma power_loop_ok table : forall k n x, (forall i t, table !! i = Some t -> t = xpow (byte_power (k + i)) one) ->
  0 <= n < 2 ^ Z.of_nat (length table) -> is_u32 x -> power_loop pclmul table n x = xpow (byte_power k * Z.to_nat n) x.
Proof.
  induction table as [|t table IH]; intros k n x Ht Hn Hx; cbn [power_loop].
  { simpl in Hn. assert (n = 0) as -> by lia. by rewrite Nat.mul_0_r. }
  destruct (Z.eqb_spec n 0) as [->|Hne]; [by rewrite Nat.mul_0_r|]. assert (t = xpow (byte_power k) one) as -> by (rewrite (Ht 0%nat t eq_refl); f_equal; f_equal; lia).
  rewrite mul_mod_p_one by done. rewrite (IH (S k)).
  - rewrite (exponent_step n k), xpow_add by lia. by destruct (Z.odd n).
  - intros i t Hi. rewrite (Ht (S i) t Hi). f_equal. f_equal. lia.
  - apply shifted_bound, Hn.
  - destruct (Z.odd n); [by apply xpow_bound | done].
Qed.

Lemma inverse_loop_ok table : forall k n x, (forall i t, table !! i = Some t -> is_u32 t /\ xpow (byte_power (k + i)) t = one) ->
  0 <= n < 2 ^ Z.of_nat (length table) -> is_u32 x ->
  is_u32 (power_loop pclmul table n x) /\ xpow (byte_power k * Z.to_nat n) (power_loop pclmul table n x) = x.
Proof.
  induction table as [|t table IH]; intros k n x Ht Hn Hx; cbn [power_loop].
  { simpl in Hn. assert (n = 0) as -> by lia. by rewrite Nat.mul_0_r. }
  destruct (Z.eqb_spec n 0) as [->|Hne]; [by rewrite Nat.mul_0_r|]. destruct (Ht 0%nat t eq_refl) as [Htu Htx]. rewrite Nat.add_0_r in Htx.
  destruct (IH (S k) (Z.shiftr n 1) (if Z.odd n then crc32c_mul_mod_p pclmul x t else x)) as [H1 H2].
  - intros i t' Hi. replace (S k + i)%nat with (k + S i)%nat by lia. exact (Ht (S i) t' Hi).
  - apply shifted_bound, Hn.
  - destruct (Z.odd n); [|done]. rewrite mul_mod_p_ref by done. by apply mulref_bound.
  - split; [done|]. rewrite (exponent_step n k), Nat.add_comm, xpow_add, H2 by lia. destruct (Z.odd n); [|done].
    rewrite <- mul_mod_p_xpow, Htx by done. rewrite mul_mod_p_ref by (first [done | apply one_u32]). by apply mulref_one.
Qed.

Lemma table_entry t (P : Z -> Prop) k v : t !! k = Some v -> P (at_table t k) -> P v.
Proof. intros Hk. unfold at_table. by rewrite (nth_lookup_Some t k 0 v Hk). Qed.

Lemma x_pow_n_ok n : is_u64 n -> crc32c_x_pow_n pclmul n = xpow (8 * Z.to_nat n) one.
Proof.
  intros Hn. unfold crc32c_x_pow_n. rewrite (power_loop_ok _ 0); [done | | exact Hn | apply one_u32].
  intros i t Hi. pose proof (lookup_lt_Some _ _ _ Hi) as Hl. apply (table_entry CRC_POWER_TABLE (fun t => t = _) i); [done|]. by apply power_table_ok.
Qed.

Lemma x_pow_neg_n_ok n : is_u64 n -> is_u32 (crc32c_x_pow_neg_n pclmul n) /\ xpow (8 * Z.to_nat n) (crc32c_x_pow_neg_n pclmul n) = one.
Proof.
  intros Hn. apply (inverse_loop_ok _ 0); [| exact Hn | apply one_u32].
  intros i t Hi. pose proof (lookup_lt_Some _ _ _ Hi) as Hl. apply (table_entry CRC_INVERSE_POWER_TABLE (fun t => is_u32 t /\ xpow (byte_power i) t = one) i); [done|]. by apply inverse_table_ok.
Qed.

(** * Checksums *)

Lemma not32_u32 c : is_u32 c -> is_u32 (not32 c).
Proof. intros Hc. apply is_u32_xor; [done|]. unfold is_u32. lia. Qed.

Lemma not32_involutive c : not32 (not32 c) = c.
Proof. unfold not32. by rewrite Z.lxor_assoc, Z.lxor_nilpotent, Z.lxor_0_r. Qed.

Lemma byte_u32 b : is_u32 (byte_val b).
Proof. unfold is_u32. pose proof (byte_val_bound b). lia. Qed.

Lemma crc_fold_u32 bs : forall c, is_u32 c -> is_u32 (foldl crc_byte c bs).
Proof. induction bs as [|b bs IH]; intros c Hc; [done|]. simpl. apply IH. unfold crc_byte. apply xpow_bound, is_u32_xor; [done|apply byte_u32]. Qed.

(** The register and the bytes act independently. *)
Lemma crc_fold_xor bs : forall c d, foldl crc_byte (Z.lxor c d) bs = Z.lxor (foldl crc_byte c bs) (xpow (8 * length bs) d).
Proof.
  induction bs as [|b bs IH]; intros c d; [done|]. cbn [foldl length]. unfold crc_byte at 2 4.
  replace (Z.lxor (Z.lxor c d) (byte_val b)) with (Z.lxor (Z.lxor c (byte_val b)) d) by (rewrite !Z.lxor_assoc; f_equal; apply Z.lxor_comm).
  rewrite xpow_xor, IH. f_equal. rewrite <- xpow_add. f_equal. lia.
Qed.

Lemma crc_fold_zeros n c : foldl crc_byte c (replicate n zero_byte) = xpow (8 * n) c.
Proof.
  revert c. induction n as [|n IH]; intros c; [done|]. cbn [replicate foldl]. rewrite IH. unfold crc_byte. change (byte_val zero_byte) with 0.
  rewrite Z.lxor_0_r, <- xpow_add. f_equal. lia.
Qed.

Definition xor_bytes (a b : list byte) : list byte := zip_with (fun x y => byte_of (Z.lxor (byte_val x) (byte_val y))) a b.

Lemma crc_fold_xor_bytes a : forall b c d, length a = length b ->
  foldl crc_byte (Z.lxor c d) (xor_bytes a b) = Z.lxor (foldl crc_byte c a) (foldl crc_byte d b).
Proof.
  induction a as [|x a IH]; intros [|y b] c d Hl; try done. cbn [xor_bytes zip_with foldl]. rewrite <- IH by (simpl in Hl; lia). f_equal.
  unfold crc_byte. rewrite <- xpow_xor. f_equal. rewrite byte_val_of, Z.mod_small.
  - xor_bits.
  - apply (lxor_bound _ _ 8); [lia|apply byte_val_bound..].
Qed.

Lemma crc_words_ok n : forall crc buf, (8 * n <= length buf)%nat -> crc_words n crc buf = (foldl crc_byte crc (take (8 * n) buf), drop (8 * n) buf).
Proof.
  induction n as [|n IH]; intros crc buf Hn; [by rewrite drop_0|]. cbn [crc_words]. rewrite IH by (rewrite length_drop; lia).
  rewrite drop_drop. replace (8 * S n)%nat with (8 + 8 * n)%nat by lia. rewrite <- take_take_drop, foldl_app. f_equal. f_equal.
  unfold mm_crc32_u64. f_equal. rewrite <- (le_bytes_le_val (take 8 buf)) at 2. rewrite length_take. f_equal. lia.
Qed.

(** Both loops together go over the bytes once. *)
Lemma crc32c_fold crc buf : crc32c crc buf = not32 (foldl crc_byte (not32 crc) buf).
Proof.
  unfold crc32c. rewrite crc_words_ok by (apply Nat.Div0.mul_div_le). unfold mm_crc32_u8. rewrite <- foldl_app, take_drop. done.
Qed.

(** * The checksum of a byte string *)

Definition crc_of (crc : Z) (bs : list byte) : Z := not32 (foldl crc_byte (not32 crc) bs).

Lemma crc_of_u32 crc bs : is_u32 crc -> is_u32 (crc_of crc bs).
Proof. intros Hc. by apply not32_u32, crc_fold_u32, not32_u32. Qed.

Lemma crc_of_nil crc : crc_of crc [] = crc.
Proof. apply not32_involutive. Qed.

Lemma crc_of_app crc a b : crc_of crc (a ++ b) = crc_of (crc_of crc a) b.
Proof. unfold crc_of. by rewrite foldl_app, not32_involutive. Qed.

(** The checksum so far moves up by the length of what follows. *)
Lemma crc_of_start crc bs : crc_of crc bs = Z.lxor (xpow (8 * length bs) crc) (crc_of 0 bs).
Proof.
  unfold crc_of, not32. rewrite Z.lxor_0_l, (Z.lxor_comm crc), crc_fold_xor, (Z.lxor_comm (foldl _ _ _)). by rewrite Z.lxor_assoc.
Qed.

Lemma append_ok crc_a b : is_u32 crc_a -> is_u64 (Z.of_nat (length b)) -> crc32c_append pclmul crc_a (crc_of 0 b) (Z.of_nat (length b)) = crc_of crc_a b.
Proof. intros Ha Hl. unfold crc32c_append. by rewrite x_pow_n_ok, mul_mod_p_one, Nat2Z.id, (crc_of_start crc_a). Qed.

Lemma xor_ok a b : length a = length b -> is_u64 (Z.of_nat (length a)) ->
  crc32c_xor pclmul (crc_of 0 a) (crc_of 0 b) (Z.of_nat (length a)) = crc_of 0 (xor_bytes a b).
Proof.
  intros Hl Hu. unfold crc32c_xor. rewrite x_pow_n_ok, mul_mod_p_one, Nat2Z.id by (done || unfold is_u32; lia).
  rewrite <- (crc_fold_zeros (length a)). unfold crc_of, not32. rewrite Z.lxor_0_l.
  assert (Hx : foldl crc_byte 0xFFFFFFFF (xor_bytes a b) = Z.lxor (Z.lxor (foldl crc_byte 0xFFFFFFFF a) (foldl crc_byte 0xFFFFFFFF b)) (foldl crc_byte 0xFFFFFFFF (replicate (length a) zero_byte))).
  { rewrite <- crc_fold_xor_bytes by done. rewrite Z.lxor_nilpotent, crc_fold_zeros. assert (length a = length (xor_bytes a b)) as -> by (unfold xor_bytes; rewrite length_zip_with; lia).
    rewrite <- crc_fold_xor. by rewrite Z.lxor_0_l. }
  rewrite Hx. xor_bits.
Qed.

Lemma zero_extend_ok crc n : is_u32 crc -> is_u64 (Z.of_nat n) -> crc32c_zero_extend pclmul crc (Z.of_nat n) = crc_of crc (replicate n zero_byte).
Proof.
  intros Hc Hn. unfold crc32c_zero_extend, crc_of. rewrite crc_fold_zeros. pose proof (not32_u32 crc Hc) as Hn32. destruct (Z.ltb_spec 0 (Z.of_nat n)).
  - by rewrite x_pow_n_ok, mul_mod_p_one, Nat2Z.id.
  - assert (n = 0)%nat as -> by lia. exact (f_equal not32 (mul_mod_p_one _ 0 Hn32)).
Qed.

Lemma zero_extend_back crc n : is_u32 crc -> is_u64 (Z.of_nat n) -> crc32c_zero_extend pclmul (crc_of crc (replicate n zero_byte)) (- Z.of_nat n) = crc.
Proof.
  intros Hc Hn. unfold crc32c_zero_extend, crc_of. rewrite (proj2 (Z.ltb_ge 0 (- Z.of_nat n))) by lia. rewrite Z.opp_involutive.
  destruct (x_pow_neg_n_ok _ Hn) as [Hu Hx]. rewrite Nat2Z.id in Hx. rewrite crc_fold_zeros, not32_involutive.
  pose proof (not32_u32 crc Hc) as Hn32. pose proof (xpow_bound (8 * n) _ Hn32) as Hb.
  rewrite mul_mod_p_ref, mulref_comm, mulref_xpow, mulref_comm, <- mulref_xpow, Hx, mulref_one by done. apply not32_involutive.
Qed.

End laws.
