(* ===== verification/CrcFusion.v ===== *)
(** CRC-32C with PCLMUL, and the Go functions: crc32c_4k_fusion and crc32c of
    src/go/core/crc32c/crc32c_body.c compiled with CRC32C_USE_PCLMUL, and
    src/go/core/crc32c/crc32c.go.

    The kernel cuts its input in four: three parts go through the checksum
    instruction side by side, the fourth is folded 64 bytes at a time in four
    128-bit registers by carry-less multiplication, and the four remainders are
    brought together by multiplying each with the power of x that the length of
    what follows it asks for. These powers are found by repeated squaring, for
    the three parts at once.

    A wide integer stands for a sum of powers of x whose bit [i] is x^(31-i),
    the bits above 31 negative powers: [xpow n] multiplies by x^n, and what it
    gives has 32 bits when [n] is as large as the bits there are above 31. *)

From Stdlib Require Import ZArith Lia.
From stdpp Require Import base numbers option list.
From S2P Require Import Prelude Crc32c.

(** * The code *)

(** [n] bytes at [off] as a register. *)
Definition load (n off : nat) (buf : list byte) : Z := le_val (take n (drop off buf)).

(** _mm_setr_epi32(k1, 0, k2, 0). *)
Definition setr (k1 k2 : Z) : Z := Z.lor k1 (Z.shiftl k2 64).

Definition k1k2 : Z := setr 0x740EEF02 0x9E4ADDF8.
Definition k3k4 : Z := setr 0xF20C0DFE 0x493C7D27.
Definition k5k6 : Z := setr 0x3DA6D0CB 0xBA4FC28E.

Record lanes := Lanes { acc_a : Z; acc_b : Z; acc_c : Z; x1 : Z; x2 : Z; x3 : Z; x4 : Z }.

(** The first loop, at [p] in the parts A, B and C and at [q] in D. *)
Fixpoint fusion_loop (fuel stride stop p q : nat) (buf : list byte) (l : lanes) : nat * lanes :=
  match fuel with
  | O => (p, l)
  | S fuel =>
      if (q <? stop)%nat then
        let acc_a := mm_crc32_u64 (acc_a l) (load 8 p buf) in
        let x5 := mm_clmulepi64 (x1 l) k1k2 0x00 in
        let acc_b := mm_crc32_u64 (acc_b l) (load 8 (p + stride) buf) in
        let x1 := mm_clmulepi64 (x1 l) k1k2 0x11 in
        let acc_c := mm_crc32_u64 (acc_c l) (load 8 (p + stride * 2) buf) in
        let x6 := mm_clmulepi64 (x2 l) k1k2 0x00 in
        let acc_a := mm_crc32_u64 acc_a (load 8 (p + 8) buf) in
        let x2 := mm_clmulepi64 (x2 l) k1k2 0x11 in
        let acc_b := mm_crc32_u64 acc_b (load 8 (p + stride + 8) buf) in
        let x7 := mm_clmulepi64 (x3 l) k1k2 0x00 in
        let acc_c := mm_crc32_u64 acc_c (load 8 (p + stride * 2 + 8) buf) in
        let x3 := mm_clmulepi64 (x3 l) k1k2 0x11 in
        let acc_a := mm_crc32_u64 acc_a (load 8 (p + 16) buf) in
        let x8 := mm_clmulepi64 (x4 l) k1k2 0x00 in
        let acc_b := mm_crc32_u64 acc_b (load 8 (p + stride + 16) buf) in
        let x4 := mm_clmulepi64 (x4 l) k1k2 0x11 in
        let acc_c := mm_crc32_u64 acc_c (load 8 (p + stride * 2 + 16) buf) in
        let x5 := Z.lxor x5 (load 16 (q + 64) buf) in
        let x1 := Z.lxor x1 x5 in
        let x6 := Z.lxor x6 (load 16 (q + 80) buf) in
        let x2 := Z.lxor x2 x6 in
        let x7 := Z.lxor x7 (load 16 (q + 96) buf) in
        let x3 := Z.lxor x3 x7 in
        let x8 := Z.lxor x8 (load 16 (q + 112) buf) in
        let x4 := Z.lxor x4 x8 in
        fusion_loop fuel stride stop (p + 24) (q + 64) buf (Lanes acc_a acc_b acc_c x1 x2 x3 x4)
      else (p, l)
  end.

(** The powers: a part's stack and the exponent that is left. *)
Definition push (l : Z * Z) : Z * Z :=
  let '(stack, bits) := l in
  (wrap64 (wrap64 (Z.shiftl stack 1) + Z.land bits 1), wrap64 (Z.shiftr bits 1 - 16)).

Fixpoint push_loop (fuel : nat) (a b c : Z * Z) : (Z * Z) * (Z * Z) * (Z * Z) :=
  match fuel with
  | O => (a, b, c)
  | S fuel => if 191 <? a.2 then push_loop fuel (push a) (push b) (push c) else (a, b, c)
  end.

Definition not64 (z : Z) : Z := Z.lxor z 0xFFFFFFFFFFFFFFFF.

(** [n] rounds of _mm_crc32_u32(magic, 0). *)
Definition rounds (n : Z) (magic : Z) : Z := Nat.iter (Z.to_nat n) (fun m => mm_crc32_u32 m 0) magic.

Definition square (magic low : Z) : Z :=
  let y := wrap64 (mm_clmulepi64 magic magic 0) in
  mm_crc32_u64 0 (wrap64 (Z.shiftl y low)).

Fixpoint square_loop (fuel : nat) (stack_a stack_b stack_c magic_a magic_b magic_c : Z) : Z * Z * Z :=
  match fuel with
  | O => (magic_a, magic_b, magic_c)
  | S fuel =>
      let low := Z.land stack_a 1 in
      let stack_a := Z.shiftr stack_a 1 in
      if stack_a =? 0 then (magic_a, magic_b, magic_c)
      else
        let magic_a := square magic_a low in
        let magic_c := square magic_c (Z.land stack_c 1) in
        let stack_c := Z.shiftr stack_c 1 in
        let magic_b := square magic_b (Z.land stack_b 1) in
        let stack_b := Z.shiftr stack_b 1 in
        square_loop fuel stack_a stack_b stack_c magic_a magic_b magic_c
  end.

(** The magic numbers that depend on n_blocks. *)
Definition magics (n_blocks stride : Z) : Z * Z * Z :=
  let bits_c := wrap64 (n_blocks * 64 - 33) in
  let bits_b := wrap64 (bits_c + stride - 8) in
  let bits_a := wrap64 (bits_b + stride) in
  let stack := not64 8 in
  let '(stack_a, bits_a, (stack_b, bits_b), (stack_c, bits_c)) := push_loop 64 (stack, bits_a) (stack, bits_b) (stack, bits_c) in
  let '(stack_a, stack_b, stack_c) := (not64 stack_a, not64 stack_b, not64 stack_c) in
  let magic_a := Z.shiftr 0x80000000 (Z.land bits_a 31) in
  let bits_a := Z.shiftr bits_a 5 in
  let magic_b := Z.shiftr 0x80000000 (Z.land bits_b 31) in
  let bits_b := Z.shiftr bits_b 5 in
  let magic_c := Z.shiftr 0x80000000 (Z.land bits_c 31) in
  let bits_c := Z.shiftr bits_c 5 in
  let bits_a := wrap64 (bits_a - bits_b) in
  let bits_b := wrap64 (bits_b - bits_c) in
  let '(magic_a, magic_b, magic_c) := (rounds bits_c magic_a, rounds bits_c magic_b, rounds bits_c magic_c) in
  let '(magic_a, magic_b) := (rounds bits_b magic_a, rounds bits_b magic_b) in
  let magic_a := rounds bits_a magic_a in
  square_loop 64 stack_a stack_b stack_c magic_a magic_b magic_c.

(** [buf]: what follows the kernel's start, to the end of the buffer. *)
Definition crc32c_4k_fusion (acc_a : Z) (buf : list byte) (n_blocks : nat) : Z :=
  let stride := (n_blocks * 24 + 8)%nat in
  let buf2 := (n_blocks * 72 + 16)%nat in
  let stop := (n_blocks * 136 + 16 - 64)%nat in
  let '(p, l) := fusion_loop n_blocks stride stop 0 buf2 buf
    (Lanes acc_a 0 0 (load 16 buf2 buf) (load 16 (buf2 + 16) buf) (load 16 (buf2 + 32) buf) (load 16 (buf2 + 48) buf)) in
  let '(Lanes acc_a acc_b acc_c x1 x2 x3 x4) := l in
  let acc_a := mm_crc32_u64 acc_a (load 8 p buf) in
  let x5 := mm_clmulepi64 x1 k3k4 0x00 in
  let acc_b := mm_crc32_u64 acc_b (load 8 (p + stride) buf) in
  let x1 := mm_clmulepi64 x1 k3k4 0x11 in
  let acc_c := mm_crc32_u64 acc_c (load 8 (p + stride * 2) buf) in
  let x6 := mm_clmulepi64 x3 k3k4 0x00 in
  let acc_a := mm_crc32_u64 acc_a (load 8 (p + 8) buf) in
  let x3 := mm_clmulepi64 x3 k3k4 0x11 in
  let acc_b := mm_crc32_u64 acc_b (load 8 (p + stride + 8) buf) in
  let acc_c := mm_crc32_u64 acc_c (load 8 (p + stride * 2 + 8) buf) in
  let acc_a := mm_crc32_u64 acc_a (load 8 (p + 16) buf) in
  let acc_b := mm_crc32_u64 acc_b (load 8 (p + stride + 16) buf) in
  let x5 := Z.lxor x5 x2 in
  let acc_c := mm_crc32_u64 acc_c (load 8 (p + stride * 2 + 16) buf) in
  let x1 := Z.lxor x1 x5 in
  let acc_a := mm_crc32_u64 acc_a (load 8 (p + 24) buf) in
  let x6 := Z.lxor x6 x4 in
  let x3 := Z.lxor x3 x6 in
  let x5 := mm_clmulepi64 x1 k5k6 0x00 in
  let acc_b := mm_crc32_u64 acc_b (load 8 (p + stride + 24) buf) in
  let x1 := mm_clmulepi64 x1 k5k6 0x11 in
  let '(magic_a, magic_b, magic_c) := magics (Z.of_nat n_blocks) (Z.of_nat stride) in
  let vec_c := mm_clmulepi64 acc_c magic_c 0x00 in
  let vec_a := mm_clmulepi64 acc_a magic_a 0x00 in
  let vec_b := mm_clmulepi64 acc_b magic_b 0x00 in
  let x5 := Z.lxor x5 x3 in
  let x1 := Z.lxor x1 x5 in
  let abc := wrap64 (Z.lxor (Z.lxor vec_c vec_a) vec_b) in
  let crc := mm_crc32_u64 0 (half x1 false) in
  mm_crc32_u64 crc (Z.lxor abc (half x1 true)).

(** [addr]: the address of the buffer. *)
Definition crc32c_pclmul (addr crc : Z) (buf : list byte) : Z :=
  let len := Z.of_nat (length buf) in
  let crc := not32 crc in
  let '(crc, buf) :=
    if 31 <=? len then
      let n_blocks := (len - 16) / 136 in
      let kernel_length := n_blocks * 136 + 16 in
      let '(n_blocks, kernel_length) :=
        if len <? kernel_length + Z.land (wrap64 (- (addr + n_blocks * 8))) 15
        then (wrap64 (n_blocks - 1), wrap64 (kernel_length - 136)) else (n_blocks, kernel_length) in
      let kernel_end := Z.land (wrap64 (addr + kernel_length + 15)) (not64 15) in
      let kernel_start := kernel_end - kernel_length in
      let skip := Z.to_nat (kernel_start - addr) in
      let crc := foldl mm_crc32_u8 crc (take skip buf) in
      let buf := drop skip buf in
      if n_blocks =? 0 then (crc, buf)
      else (crc32c_4k_fusion crc buf (Z.to_nat n_blocks), drop (Z.to_nat kernel_length) buf)
    else (crc, buf) in
  let '(crc, buf) := crc_words (length buf / 8) crc buf in
  not32 (foldl mm_crc32_u8 crc buf).

(** The Go functions. *)
Definition Sum (addr crc : Z) (buf : list byte) : Z := if (length buf =? 0)%nat then crc else crc32c_pclmul addr crc buf.
Definition Xor {E} (crc1 crc2 len : Z) : outcome E Z := if len <? 0 then Panic else Ok (crc32c_xor true crc1 crc2 len).
Definition Append {E} (crc1 crc2 len2 : Z) : outcome E Z := if len2 <? 0 then Panic else Ok (crc32c_append true crc1 crc2 len2).
Definition ZeroExtend (crc zeros : Z) : Z := crc32c_zero_extend true crc zeros.

(** * Powers of x of wide integers *)

Lemma xpow_shiftl N j a : (j <= N)%nat -> 0 <= a -> xpow N (Z.shiftl a (Z.of_nat j)) = xpow (N - j) a.
Proof. intros Hj Ha. replace N with ((N - j) + j)%nat at 1 by lia. by rewrite xpow_add, xpow_shift. Qed.

(** The power a bit of the first factor gives. *)
Lemma xpow_one_bit N j : (31 <= N)%nat -> (j <= N)%nat -> xpow (N - j) one = xpow (N - 31) (2 ^ Z.of_nat j).
Proof.
  intros HN Hj. rewrite <- (xpow_shiftl N j one), <- (xpow_shiftl N 31 (2 ^ Z.of_nat j)) by (done || lia). f_equal.
  unfold one. rewrite Z.shiftl_shiftl, !Z.shiftl_mul_pow2, <- Z.pow_add_r by lia. rewrite Z.mul_1_l. f_equal. lia.
Qed.

Lemma mod_pow2_S a n : a mod 2 ^ Z.of_nat (S n) = Z.lxor (a mod 2 ^ Z.of_nat n) (if Z.testbit a (Z.of_nat n) then 2 ^ Z.of_nat n else 0).
Proof.
  apply Z.bits_inj'. intros i Hi. rewrite Z.lxor_spec. destruct (decide (i < Z.of_nat n)) as [Hlt|Hge].
  - rewrite !Z.mod_pow2_bits_low by lia. destruct (Z.testbit a (Z.of_nat n)); [rewrite Z.pow2_bits_false by lia | rewrite Z.bits_0]; by rewrite xorb_false_r.
  - rewrite (Z.mod_pow2_bits_high a (Z.of_nat n)) by lia. rewrite xorb_false_l. destruct (decide (i = Z.of_nat n)) as [->|Hne].
    + rewrite Z.mod_pow2_bits_low by lia. destruct (Z.testbit a (Z.of_nat n)); [by rewrite Z.pow2_bits_true by lia | by rewrite Z.bits_0].
    + rewrite Z.mod_pow2_bits_high by lia. destruct (Z.testbit a (Z.of_nat n)); [by rewrite Z.pow2_bits_false by lia | by rewrite Z.bits_0].
Qed.

(** Carry-less multiplication by a power of x. *)
Lemma clmul_xpow n N m a : (31 <= N)%nat -> (n <= S N)%nat -> xpow N (clmul n a (xpow m one)) = xpow (N - 31 + m) (a mod 2 ^ Z.of_nat n).
Proof.
  intros HN. induction n as [|n IH]; intros Hn; cbn [clmul]; [by rewrite Z.mod_1_r, !xpow_zero|].
  rewrite mod_pow2_S, !xpow_xor, IH by lia. f_equal. destruct (Z.testbit a (Z.of_nat n)); [|by rewrite !xpow_zero].
  pose proof (xpow_bound m one one_u32) as [? _]. rewrite xpow_shiftl, xpow_comm, xpow_one_bit by lia. by rewrite <- xpow_add, Nat.add_comm.
Qed.

Lemma le_val_app a b : le_val (a ++ b) = Z.lxor (le_val a) (Z.shiftl (le_val b) (Z.of_nat (8 * length a))).
Proof.
  rewrite <- Z.add_nocarry_lxor.
  - induction a as [|x a IH]; [by rewrite Z.shiftl_0_r|]. change (byte_val x + 256 * le_val (a ++ b) = byte_val x + 256 * le_val a + Z.shiftl (le_val b) (Z.of_nat (8 * S (length a)))). rewrite IH, !Z.shiftl_mul_pow2 by lia.
    replace (Z.of_nat (8 * S (length a))) with (8 + Z.of_nat (8 * length a)) by lia. rewrite Z.pow_add_r by lia. lia.
  - apply Z.bits_inj'. intros i Hi. rewrite Z.land_spec, Z.bits_0. destruct (decide (i < Z.of_nat (8 * length a))).
    + by rewrite Z.shiftl_spec_low, andb_false_r by lia.
    + rewrite (high_bits _ (Z.of_nat (8 * length a))); [done| |lia]. pose proof (le_val_bound a) as H. change 256 with (2 ^ 8) in H. rewrite <- Z.pow_mul_r in H by lia.
      by replace (Z.of_nat (8 * length a)) with (8 * Z.of_nat (length a)) by lia.
Qed.

(** The checksum as a power of x. *)
Lemma crc_fold_value bs : forall c, foldl crc_byte c bs = xpow (8 * length bs) (Z.lxor c (le_val bs)).
Proof.
  induction bs as [|b bs IH]; intros c; [by rewrite Z.lxor_0_r|]. cbn [foldl length]. rewrite IH. unfold crc_byte.
  change (b :: bs) with ([b] ++ bs). rewrite le_val_app. change (8 * length [b])%nat with 8%nat. replace (8 * S (length bs))%nat with (8 * length bs + 8)%nat by lia.
  rewrite xpow_add. f_equal. rewrite <- Z.lxor_assoc, (xpow_xor 8 _ (Z.shiftl _ _)), (xpow_shift 8); [|apply le_val_bound]. do 3 f_equal. change (byte_val b = byte_val b + 256 * 0). lia.
Qed.

Lemma mm_crc32_u64_ok c v : is_u64 v -> mm_crc32_u64 c v = xpow 64 (Z.lxor c v).
Proof. intros Hv. unfold mm_crc32_u64. by rewrite crc_fold_value, length_le_bytes, le_val_bytes_u64. Qed.

Lemma mm_crc32_u64_u32 c v : is_u32 c -> is_u32 (mm_crc32_u64 c v).
Proof. apply crc_fold_u32. Qed.

(** * One step of folding *)

Definition is_u128 (x : Z) : Prop := 0 <= x < 2 ^ 128.

Definition folded (x k : Z) : Z := Z.lxor (mm_clmulepi64 x k 0x00) (mm_clmulepi64 x k 0x11).

Lemma mm_clmul_low x y : mm_clmulepi64 x y 0x00 = clmul 64 (half x false) (half y false).
Proof. done. Qed.

Lemma mm_clmul_high x y : mm_clmulepi64 x y 0x11 = clmul 64 (half x true) (half y true).
Proof. done. Qed.

Lemma folded_xor x k y : Z.lxor (mm_clmulepi64 x k 0x11) (Z.lxor (mm_clmulepi64 x k 0x00) y) = Z.lxor (folded x k) y.
Proof. unfold folded. xor_bits. Qed.

Lemma half_u64 x h : is_u64 (half x h).
Proof. destruct h; apply Z.mod_pos_bound; lia. Qed.

Lemma halves x : is_u128 x -> x = Z.lxor (half x false) (Z.shiftl (half x true) 64).
Proof.
  intros [Hx0 Hx]. unfold half, wrap64. apply Z.bits_inj'. intros i Hi. rewrite Z.lxor_spec. destruct (decide (i < 64)).
  - by rewrite Z.mod_pow2_bits_low, Z.shiftl_spec_low, xorb_false_r by lia.
  - rewrite Z.mod_pow2_bits_high, Z.shiftl_spec, xorb_false_l by lia. destruct (decide (i < 128)).
    + rewrite Z.mod_pow2_bits_low, Z.shiftr_spec by lia. f_equal. lia.
    + rewrite Z.mod_pow2_bits_high, (high_bits x 128) by lia. done.
Qed.

(** The constants of a fold by [s] bits. *)
Definition fold_by (s : nat) (k : Z) : Prop := half k false = xpow (s + 31) one /\ half k true = xpow (s - 33) one.

Lemma k1k2_ok : fold_by 512 k1k2. Proof. split; by vm_compute. Qed.
Lemma k3k4_ok : fold_by 128 k3k4. Proof. split; by vm_compute. Qed.
Lemma k5k6_ok : fold_by 256 k5k6. Proof. split; by vm_compute. Qed.

Lemma folded_ok N s x k : (64 <= s)%nat -> (63 <= N)%nat -> fold_by s k -> is_u128 x -> xpow N (folded x k) = xpow (N + s) x.
Proof.
  intros Hs HN [H1 H2] Hx. unfold folded. rewrite mm_clmul_low, mm_clmul_high.
  rewrite H1, H2, xpow_xor, !clmul_xpow by lia. rewrite !(Z.mod_small (half x _)) by apply half_u64.
  rewrite (halves x Hx) at 3. rewrite xpow_xor. change 64 with (Z.of_nat 64). rewrite xpow_shiftl by (lia || apply half_u64).
  f_equal; f_equal; lia.
Qed.

Lemma folded_u128 s x k : fold_by s k -> is_u128 (folded x k).
Proof.
  intros [H1 H2]. unfold folded. rewrite mm_clmul_low, mm_clmul_high. rewrite H1, H2.
  assert (Hb : forall a m, 0 <= clmul 64 a (xpow m one) < 2 ^ 128).
  { intros a m. pose proof (clmul_bound 63 a (xpow m one) 32 ltac:(lia) (xpow_bound m one one_u32)). lia. }
  apply (lxor_bound _ _ 128); [lia|apply Hb..].
Qed.

Lemma is_u128_xor x y : is_u128 x -> is_u128 y -> is_u128 (Z.lxor x y).
Proof. apply (lxor_bound _ _ 128). lia. Qed.

(** * The first loop *)

Lemma load_bound n off buf : 0 <= load n off buf < 2 ^ Z.of_nat (8 * n).
Proof.
  unfold load. pose proof (le_val_bound (take n (drop off buf))) as H. change 256 with (2 ^ 8) in H. rewrite <- Z.pow_mul_r in H by lia.
  assert (2 ^ (8 * Z.of_nat (length (take n (drop off buf)))) <= 2 ^ Z.of_nat (8 * n)); [|lia].
  apply Z.pow_le_mono_r; [lia|]. rewrite length_take. lia.
Qed.

Lemma load_u128 off buf : is_u128 (load 16 off buf).
Proof. apply (load_bound 16). Qed.

Lemma load_split m n off buf : (off + m <= length buf)%nat ->
  load (m + n) off buf = Z.lxor (load m off buf) (Z.shiftl (load n (off + m) buf) (Z.of_nat (8 * m))).
Proof.
  intros Hm. unfold load. rewrite <- take_take_drop, drop_drop, le_val_app, length_take, length_drop. do 3 f_equal. lia.
Qed.

(** The next eight bytes of a part. *)
Lemma part_next c o m buf : (o + m + 8 <= length buf)%nat ->
  mm_crc32_u64 (foldl crc_byte c (take m (drop o buf))) (load 8 (o + m) buf) = foldl crc_byte c (take (m + 8) (drop o buf)).
Proof.
  intros Hm. rewrite <- take_take_drop, foldl_app, drop_drop. unfold mm_crc32_u64, load. f_equal.
  rewrite <- (le_bytes_le_val (take 8 (drop (o + m) buf))) at 2. f_equal. rewrite length_take, length_drop. lia.
Qed.

(** The four registers as one number. *)
Definition registers (x1 x2 x3 x4 : Z) : Z := Z.lxor x1 (Z.lxor (Z.shiftl x2 128) (Z.lxor (Z.shiftl x3 256) (Z.shiftl x4 384))).

Lemma registers_power N x1 x2 x3 x4 : (384 <= N)%nat -> is_u128 x1 -> is_u128 x2 -> is_u128 x3 -> is_u128 x4 ->
  xpow N (registers x1 x2 x3 x4) = Z.lxor (xpow N x1) (Z.lxor (xpow (N - 128) x2) (Z.lxor (xpow (N - 256) x3) (xpow (N - 384) x4))).
Proof.
  intros HN [_ _] [? _] [? _] [? _]. unfold registers. change 128 with (Z.of_nat 128). change 256 with (Z.of_nat 256). change 384 with (Z.of_nat 384).
  by rewrite !xpow_xor, !xpow_shiftl by lia.
Qed.

Lemma load_registers off buf : (off + 64 <= length buf)%nat ->
  load 64 off buf = registers (load 16 off buf) (load 16 (off + 16) buf) (load 16 (off + 32) buf) (load 16 (off + 48) buf).
Proof.
  intros Hl. change 64%nat with (16 + (16 + (16 + 16)))%nat. rewrite !load_split by lia. unfold registers. rewrite !Z.shiftl_lxor, !Z.shiftl_shiftl by lia.
  by rewrite <- !Nat.add_assoc.
Qed.

(** A round of the loop folds the registers and takes in 64 bytes. *)
Lemma registers_round N x1 x2 x3 x4 y1 y2 y3 y4 : (447 <= N)%nat ->
  is_u128 x1 -> is_u128 x2 -> is_u128 x3 -> is_u128 x4 -> is_u128 y1 -> is_u128 y2 -> is_u128 y3 -> is_u128 y4 ->
  xpow N (registers (Z.lxor (folded x1 k1k2) y1) (Z.lxor (folded x2 k1k2) y2) (Z.lxor (folded x3 k1k2) y3) (Z.lxor (folded x4 k1k2) y4)) =
  Z.lxor (xpow (N + 512) (registers x1 x2 x3 x4)) (xpow N (registers y1 y2 y3 y4)).
Proof.
  intros HN H1 H2 H3 H4 K1 K2 K3 K4. pose proof k1k2_ok as Hk.
  rewrite !registers_power by (try apply is_u128_xor; try apply (folded_u128 512); (lia || done)).
  rewrite !xpow_xor, !(folded_ok _ 512) by (lia || done).
  replace (N + 512 - 128)%nat with (N - 128 + 512)%nat by lia. replace (N + 512 - 256)%nat with (N - 256 + 512)%nat by lia. replace (N + 512 - 384)%nat with (N - 384 + 512)%nat by lia.
  xor_bits.
Qed.

(** * The powers *)

Lemma not64_bound z : is_u64 z -> not64 z = 2 ^ 64 - 1 - z.
Proof.
  intros Hz. unfold not64. rewrite (Z.sub_nocarry_ldiff (2 ^ 64 - 1) z).
  - change (2 ^ 64 - 1) with (Z.ones 64). apply Z.bits_inj'. intros i Hi. rewrite Z.lxor_spec, Z.ldiff_spec. change 0xFFFFFFFFFFFFFFFF with (Z.ones 64).
    destruct (decide (i < 64)).
    + rewrite Z.ones_spec_low by lia. by destruct (Z.testbit z i).
    + by rewrite Z.ones_spec_high, (high_bits z 64) by (lia || done).
  - change (2 ^ 64 - 1) with (Z.ones 64). apply Z.bits_inj'. intros i Hi. rewrite Z.ldiff_spec, Z.bits_0. destruct (decide (i < 64)).
    + by rewrite Z.ones_spec_low, andb_false_r by lia.
    + by rewrite (high_bits z 64) by (lia || done).
Qed.

(** The exponent after [r] of the squarings that a stack asks for. *)
Fixpoint squarings (r : nat) (stack e : Z) : Z :=
  match r with O => e | S r => squarings r (stack / 2) (2 * e + 33 - stack mod 2) end.

(** A part's stack and exponent after [k] pushes. *)
Record pushed (b0 : Z) (k : nat) (l : Z * Z) : Prop := {
  pushed_stack : is_u64 l.1;
  pushed_size : 8 * 2 ^ Z.of_nat k <= not64 l.1 < 16 * 2 ^ Z.of_nat k;
  pushed_bits : l.2 = (b0 + 32) / 2 ^ Z.of_nat k - 32;
  pushed_squarings : squarings (k + 3) (not64 l.1) l.2 = 8 * b0 + 231 }.

Lemma pushed_0 b0 : pushed b0 0 (not64 8, b0).
Proof.
  constructor; cbn [fst snd]; [by vm_compute | by vm_compute | rewrite Z.div_1_r; lia |]. change (not64 (not64 8)) with 8. change (0 + 3)%nat with 3%nat.
  cbn [squarings]. change (8 mod 2) with 0. change (8 / 2 mod 2) with 0. change (8 / 2 / 2 mod 2) with 0. lia.
Qed.

Lemma halved_bits b : Z.shiftr b 1 - 16 = (b + 32) / 2 - 32 /\ Z.land b 1 = b mod 2 /\ b = 2 * ((b + 32) / 2 - 32) + 32 + b mod 2.
Proof.
  rewrite Z.shiftr_div_pow2 by lia. change (2 ^ 1) with 2. change 1 with (Z.ones 1). rewrite Z.land_ones by lia. change (2 ^ 1) with 2.
  replace (b + 32) with (b + 16 * 2) by lia. rewrite Z.div_add by lia. pose proof (Z.div_mod b 2 ltac:(lia)). lia.
Qed.

Lemma pushed_S b0 k l : (k < 60)%nat -> 0 <= b0 < 2 ^ 63 -> 32 <= (b0 + 32) / 2 ^ Z.of_nat (S k) -> pushed b0 k l -> pushed b0 (S k) (push l).
Proof.
  intros Hk Hb0 Hbig [Hu Hs Hbits Hsq]. destruct l as [stack bits]. cbn [fst snd] in *. unfold push. destruct (halved_bits bits) as (H1 & H2 & H3).
  rewrite H1, H2. assert (Hdiv : (bits + 32) / 2 = (b0 + 32) / 2 ^ Z.of_nat (S k)).
  { rewrite Hbits, Nat2Z.inj_succ, Z.pow_succ_r, (Z.mul_comm 2), <- Z.div_div by lia. f_equal. lia. }
  assert (Hmod : 0 <= bits mod 2 < 2) by (apply Z.mod_pos_bound; lia). rewrite not64_bound in Hs, Hsq by done.
  assert (Hpow : 2 ^ Z.of_nat k <= 2 ^ 59) by (apply Z.pow_le_mono_r; lia).
  assert (Hlt : (b0 + 32) / 2 ^ Z.of_nat (S k) < 2 ^ 64) by (apply Z.div_lt_upper_bound; [lia|]; nia).
  assert (Hst : wrap64 (wrap64 (Z.shiftl stack 1) + bits mod 2) = 2 ^ 64 - 1 - (2 * (2 ^ 64 - 1 - stack) + 1 - bits mod 2)).
  { unfold wrap64. rewrite Z.shiftl_mul_pow2, Zplus_mod_idemp_l by lia. change (2 ^ 1) with 2. rewrite <- (Z.mod_small (2 ^ 64 - 1 - _) (2 ^ 64)) by lia.
    replace (2 ^ 64 - 1 - (2 * (2 ^ 64 - 1 - stack) + 1 - bits mod 2)) with (stack * 2 + bits mod 2 + (-1) * 2 ^ 64) by lia. by rewrite Z.mod_add by lia. }
  assert (Hwb : wrap64 ((bits + 32) / 2 - 32) = (bits + 32) / 2 - 32) by (apply Z.mod_small; lia).
  assert (Hu' : is_u64 (2 ^ 64 - 1 - (2 * (2 ^ 64 - 1 - stack) + 1 - bits mod 2))) by (unfold is_u64 in *; lia).
  rewrite Hst, Hwb. constructor; cbn [fst snd]; rewrite ?(not64_bound _ Hu'), ?Nat2Z.inj_succ, ?Z.pow_succ_r by lia.
  - done.
  - lia.
  - rewrite Hdiv. by rewrite Nat2Z.inj_succ, Z.pow_succ_r by lia.
  - change (S k + 3)%nat with (S (k + 3)). cbn [squarings]. rewrite <- Hsq. set (t := 2 ^ 64 - 1 - stack).
    replace (2 ^ 64 - 1 - (2 ^ 64 - 1 - (2 * t + 1 - bits mod 2))) with (1 - bits mod 2 + t * 2) by lia.
    rewrite Z.div_add, Z.mod_add, (Z.div_small (1 - bits mod 2)), (Z.mod_small (1 - bits mod 2)) by lia. f_equal; lia.
Qed.

Lemma push_loop_ok n fuel : 0 < n < 2 ^ 56 -> forall k a b c, 2 ^ Z.of_nat k <= n -> (56 <= fuel + k)%nat ->
  pushed (112 * n - 25) k a -> pushed (88 * n - 33) k b -> pushed (64 * n - 33) k c ->
  exists k' a' b' c', push_loop fuel a b c = (a', b', c') /\ 2 ^ Z.of_nat k' <= n /\
    pushed (112 * n - 25) k' a' /\ pushed (88 * n - 33) k' b' /\ pushed (64 * n - 33) k' c'.
Proof.
  intros Hn. induction fuel as [|fuel IH]; intros k a b c Hk Hf Ha Hb Hc; cbn [push_loop]; [by exists k, a, b, c|].
  destruct (Z.ltb_spec 191 a.2) as [Hlt|_]; [|by exists k, a, b, c]. assert (Hp : 0 < 2 ^ Z.of_nat k) by (apply Z.pow_pos_nonneg; lia).
  assert (HS : 2 ^ Z.of_nat (S k) <= n).
  { rewrite (pushed_bits _ _ _ Ha) in Hlt. rewrite Nat2Z.inj_succ, Z.pow_succ_r by lia.
    assert (224 * 2 ^ Z.of_nat k <= 112 * n - 25 + 32); [|lia]. pose proof (Z.mul_div_le (112 * n - 25 + 32) _ Hp). nia. }
  assert (k < 60)%nat. { destruct (decide (k < 60)%nat); [done|]. assert (2 ^ 60 <= 2 ^ Z.of_nat k) by (apply Z.pow_le_mono_r; lia). lia. }
  assert (Hq : forall e, 63 * n <= e -> 32 <= e / 2 ^ Z.of_nat (S k)).
  { intros e He. apply Z.div_le_lower_bound; [apply Z.pow_pos_nonneg; lia|]. nia. }
  apply (IH (S k)); [done | lia | ..]; apply pushed_S; try done; try lia; apply Hq; lia.
Qed.

Lemma rounds_xpow n m : rounds n m = xpow (32 * Z.to_nat n) m.
Proof.
  unfold rounds. induction (Z.to_nat n) as [|k IH]; [done|]. simpl. rewrite IH. unfold mm_crc32_u32. rewrite Z.lxor_0_r, <- xpow_add. f_equal. lia.
Qed.

(** What the last bits of the exponent and the rounds for the others give. *)
Lemma start_power bits : 0 <= bits -> xpow (32 * Z.to_nat (Z.shiftr bits 5)) (Z.shiftr 0x80000000 (Z.land bits 31)) = xpow (Z.to_nat bits) one.
Proof.
  intros Hb. change 31 with (Z.ones 5). rewrite Z.land_ones, Z.shiftr_div_pow2 by lia. change (2 ^ 5) with 32.
  pose proof (Z.div_mod bits 32 ltac:(lia)). pose proof (Z.mod_pos_bound bits 32 ltac:(lia)). pose proof (Z.div_pos bits 32 Hb ltac:(lia)).
  replace (Z.shiftr 0x80000000 (bits mod 32)) with (xpow (Z.to_nat (bits mod 32)) one).
  - rewrite <- xpow_add. f_equal. lia.
  - rewrite xpow_one, Z2Nat.id by lia. change 0x80000000 with (2 ^ 31). by rewrite Z.shiftr_div_pow2, Z.pow_sub_r by lia.
Qed.

Lemma square_ok e low : low = 0 \/ low = 1 -> square (xpow e one) low = xpow (2 * e + 33 - Z.to_nat low) one.
Proof.
  intros Hlow. unfold square. rewrite mm_clmul_low. unfold half. pose proof (xpow_bound e one one_u32) as Hu. rewrite (wrap64_u32 (xpow e one)) by done.
  pose proof (clmul_bound 31 (xpow e one) (xpow e one) 32 ltac:(lia) Hu) as Hb. rewrite (clmul_short 64 32) by (exact Hu || lia).
  assert (Hs : 0 <= Z.shiftl (clmul 32 (xpow e one) (xpow e one)) low < 2 ^ 64) by (rewrite Z.shiftl_mul_pow2 by lia; destruct Hlow as [-> | ->]; simpl (2 ^ _); lia).
  unfold wrap64. rewrite (Z.mod_small (clmul _ _ _)), (Z.mod_small (Z.shiftl _ _)) by lia. rewrite mm_crc32_u64_ok, Z.lxor_0_l by done.
  replace low with (Z.of_nat (Z.to_nat low)) at 1 by lia. rewrite xpow_shiftl by lia. rewrite clmul_xpow by lia. rewrite Z.mod_small by exact Hu. rewrite <- xpow_add. f_equal. lia.
Qed.

Lemma land_1_cases z : Z.land z 1 = z mod 2 /\ (Z.land z 1 = 0 \/ Z.land z 1 = 1).
Proof. assert (Z.land z 1 = z mod 2) by (apply (Z.land_ones z 1); lia). pose proof (Z.mod_pos_bound z 2 ltac:(lia)). lia. Qed.

Lemma square_step stack e : 0 <= e -> square (xpow (Z.to_nat e) one) (Z.land stack 1) = xpow (Z.to_nat (2 * e + 33 - stack mod 2)) one.
Proof. intros He. destruct (land_1_cases stack) as [Heq Hc]. rewrite square_ok by done. f_equal. rewrite <- Heq. lia. Qed.

Lemma square_loop_ok r : forall fuel sa sb sc ea eb ec, (r < fuel)%nat -> 2 ^ Z.of_nat r <= sa < 2 * 2 ^ Z.of_nat r -> 0 <= ea -> 0 <= eb -> 0 <= ec ->
  square_loop fuel sa sb sc (xpow (Z.to_nat ea) one) (xpow (Z.to_nat eb) one) (xpow (Z.to_nat ec) one) =
  (xpow (Z.to_nat (squarings r sa ea)) one, xpow (Z.to_nat (squarings r sb eb)) one, xpow (Z.to_nat (squarings r sc ec)) one).
Proof.
  induction r as [|r IH]; intros [|fuel] sa sb sc ea eb ec Hf Hs Ha Hb Hc; try lia; cbn [square_loop squarings]; rewrite Z.shiftr_div_pow2 by lia; change (2 ^ 1) with 2.
  - simpl in Hs. by rewrite (Z.div_small sa 2) by lia.
  - rewrite Nat2Z.inj_succ, Z.pow_succ_r in Hs by lia. assert (Hd : 2 ^ Z.of_nat r <= sa / 2 < 2 * 2 ^ Z.of_nat r) by (split; [apply Z.div_le_lower_bound | apply Z.div_lt_upper_bound]; lia).
    assert (0 < 2 ^ Z.of_nat r) by (apply Z.pow_pos_nonneg; lia). rewrite (proj2 (Z.eqb_neq (sa / 2) 0)) by lia. rewrite !square_step, !Z.shiftr_div_pow2 by lia. change (2 ^ 1) with 2.
    pose proof (Z.mod_pos_bound sa 2 ltac:(lia)). pose proof (Z.mod_pos_bound sb 2 ltac:(lia)). pose proof (Z.mod_pos_bound sc 2 ltac:(lia)). apply IH; lia.
Qed.

Lemma div_monotone_32 b b' k : 0 <= b <= b' -> b / 2 ^ Z.of_nat k <= b' / 2 ^ Z.of_nat k.
Proof. intros Hb. apply Z.div_le_mono; [apply Z.pow_pos_nonneg|]; lia. Qed.

(** Each magic number is the power of x for its part. *)
Lemma magics_ok n : 0 < n < 2 ^ 56 ->
  magics n (24 * n + 8) = (xpow (Z.to_nat (896 * n + 31)) one, xpow (Z.to_nat (704 * n - 33)) one, xpow (Z.to_nat (512 * n - 33)) one).
Proof.
  intros Hn. assert (E1 : wrap64 (n * 64 - 33) = 64 * n - 33) by (unfold wrap64; rewrite Z.mod_small; lia).
  assert (E2 : wrap64 (64 * n - 33 + (24 * n + 8) - 8) = 88 * n - 33) by (unfold wrap64; rewrite Z.mod_small; lia).
  assert (E3 : wrap64 (88 * n - 33 + (24 * n + 8)) = 112 * n - 25) by (unfold wrap64; rewrite Z.mod_small; lia).
  unfold magics. cbv zeta. rewrite E1, E2, E3. clear E1 E2 E3.
  destruct (push_loop_ok n 64 Hn 0 _ _ _ ltac:(simpl; lia) ltac:(lia) (pushed_0 _) (pushed_0 _) (pushed_0 _)) as (k & [sa ba] & [sb bb] & [sc bc] & -> & Hk & [Ua Sa Ba Qa] & [Ub Sb Bb Qb] & [Uc Sc Bc Qc]).
  cbn [fst snd] in *. assert (Hp : 0 < 2 ^ Z.of_nat k) by (apply Z.pow_pos_nonneg; lia).
  assert (Hc32 : 32 <= (64 * n - 33 + 32) / 2 ^ Z.of_nat k) by (apply Z.div_le_lower_bound; nia).
  pose proof (div_monotone_32 (64 * n - 33 + 32) (88 * n - 33 + 32) k ltac:(lia)). pose proof (div_monotone_32 (88 * n - 33 + 32) (112 * n - 25 + 32) k ltac:(lia)).
  assert (Hlt : (112 * n - 25 + 32) / 2 ^ Z.of_nat k < 2 ^ 63) by (apply Z.div_lt_upper_bound; nia).
  assert (Hk64 : (k + 3 < 64)%nat). { destruct (decide (k + 3 < 64)%nat); [done|]. assert (2 ^ 60 <= 2 ^ Z.of_nat k) by (apply Z.pow_le_mono_r; lia). lia. }
  assert (Hord : Z.shiftr bc 5 <= Z.shiftr bb 5 <= Z.shiftr ba 5) by (rewrite !Z.shiftr_div_pow2 by lia; split; apply Z.div_le_mono; lia).
  assert (Ht : 0 <= Z.shiftr bc 5 /\ Z.shiftr ba 5 < 2 ^ 63) by (rewrite !Z.shiftr_div_pow2 by lia; split; [apply Z.div_pos | apply Z.div_lt_upper_bound]; lia).
  unfold wrap64. rewrite !Z.mod_small, !rounds_xpow, <- !xpow_add by lia.
  replace (32 * Z.to_nat (Z.shiftr ba 5 - Z.shiftr bb 5) + 32 * Z.to_nat (Z.shiftr bb 5 - Z.shiftr bc 5) + 32 * Z.to_nat (Z.shiftr bc 5))%nat with (32 * Z.to_nat (Z.shiftr ba 5))%nat by lia.
  replace (32 * Z.to_nat (Z.shiftr bb 5 - Z.shiftr bc 5) + 32 * Z.to_nat (Z.shiftr bc 5))%nat with (32 * Z.to_nat (Z.shiftr bb 5))%nat by lia.
  rewrite !start_power, (square_loop_ok (k + 3)), Qa, Qb, Qc; [do 2 f_equal; f_equal; f_equal; lia | lia | | lia..].
  rewrite Nat2Z.inj_add, Z.pow_add_r by lia. simpl (2 ^ Z.of_nat 3). lia.
Qed.

Section kernel.
Context (acc : Z) (buf : list byte) (n : nat) (Hacc : is_u32 acc) (Hn : (0 < n)%nat) (Hlen : (n * 136 + 16 <= length buf)%nat).

Let stride := (n * 24 + 8)%nat.
Let start := (n * 72 + 16)%nat.

(** After [i] rounds: [m] bytes of A, B and C are done, and the registers stand
    for [i + 1] blocks of D. *)
Record after (i : nat) (l : lanes) : Prop := {
  after_a : acc_a l = foldl crc_byte acc (take (24 * i) (drop 0 buf));
  after_b : acc_b l = foldl crc_byte 0 (take (24 * i) (drop stride buf));
  after_c : acc_c l = foldl crc_byte 0 (take (24 * i) (drop (stride * 2) buf));
  after_x1 : is_u128 (x1 l);
  after_x2 : is_u128 (x2 l);
  after_x3 : is_u128 (x3 l);
  after_x4 : is_u128 (x4 l);
  after_d : forall N, (447 <= N)%nat -> xpow N (registers (x1 l) (x2 l) (x3 l) (x4 l)) = xpow (N + 512 * i) (load (64 * S i) start buf) }.

(** Twenty-four bytes of a part that starts at [o]. *)
Lemma part_round c o i : (o + (24 * i + 24) <= length buf)%nat ->
  mm_crc32_u64 (mm_crc32_u64 (mm_crc32_u64 (foldl crc_byte c (take (24 * i) (drop o buf))) (load 8 (24 * i + o) buf)) (load 8 (24 * i + o + 8) buf)) (load 8 (24 * i + o + 16) buf)
  = foldl crc_byte c (take (24 * S i) (drop o buf)).
Proof.
  intros Hl. replace (24 * i + o)%nat with (o + 24 * i)%nat by lia. rewrite part_next by lia.
  rewrite <- (Nat.add_assoc o), part_next by lia. rewrite <- (Nat.add_assoc o). replace (24 * i + 16)%nat with (24 * i + 8 + 8)%nat by lia. rewrite part_next by lia.
  f_equal. f_equal. lia.
Qed.

Lemma fusion_start : after 0 (Lanes acc 0 0 (load 16 start buf) (load 16 (start + 16) buf) (load 16 (start + 32) buf) (load 16 (start + 48) buf)).
Proof.
  constructor; simpl; try apply load_u128; try done. intros N HN. rewrite <- load_registers by (unfold start; lia). by rewrite Nat.add_0_r.
Qed.

Lemma fold_more i N : (i < n - 1)%nat -> Z.lxor (xpow (N + 512 + 512 * i) (load (64 * S i) start buf)) (xpow N (load 64 (start + 64 * S i) buf)) = xpow (N + 512 * S i) (load (64 * S (S i)) start buf).
Proof.
  intros Hi. replace (64 * S (S i))%nat with (64 * S i + 64)%nat by lia. rewrite load_split by (unfold start; lia). rewrite xpow_xor, xpow_shiftl; [|lia|apply load_bound].
  f_equal; f_equal; lia.
Qed.

Lemma fusion_loop_ok fuel i l : (i <= n - 1)%nat -> (n - 1 - i <= fuel)%nat -> after i l ->
  exists l', fusion_loop fuel stride (n * 136 + 16 - 64) (24 * i) (start + 64 * i) buf l = ((24 * (n - 1))%nat, l') /\ after (n - 1) l'.
Proof.
  revert i l. induction fuel as [|fuel IH]; intros i l Hi Hf Hl; cbn [fusion_loop].
  { assert (i = n - 1)%nat as -> by lia. by exists l. }
  destruct (Nat.ltb_spec (start + 64 * i) (n * 136 + 16 - 64)) as [Hlt|Hge]; unfold start in *.
  2:{ assert (i = n - 1)%nat as -> by lia. by exists l. }
  replace (24 * i + 24)%nat with (24 * S i)%nat by lia. replace (n * 72 + 16 + 64 * i + 64)%nat with (n * 72 + 16 + 64 * S i)%nat by lia.
  apply IH; [lia..|]. destruct Hl as [Ha Hb Hc H1 H2 H3 H4 Hd]. fold start in Hd |- *. pose proof (folded_u128 512) as Hf128. pose proof k1k2_ok as Hk.
  assert (HL : forall o, is_u128 (load 16 o buf)) by (intros; apply load_u128).
  constructor; cbn [acc_a acc_b acc_c x1 x2 x3 x4]; rewrite ?folded_xor; try (apply is_u128_xor; eauto).
  - rewrite Ha, <- part_round by lia. by rewrite Nat.add_0_r.
  - rewrite Hb, <- part_round by (unfold stride; lia). done.
  - rewrite Hc, <- part_round by (unfold stride; lia). done.
  - intros N HN. rewrite registers_round by (eauto || lia). rewrite Hd by lia. rewrite <- fold_more by lia. f_equal. f_equal.
    rewrite load_registers by (unfold start; lia). f_equal; f_equal; lia.
Qed.

(** The last eight bytes of A and B. *)
Lemma part_last c o i : (o + (24 * i + 32) <= length buf)%nat ->
  mm_crc32_u64 (mm_crc32_u64 (mm_crc32_u64 (mm_crc32_u64 (foldl crc_byte c (take (24 * i) (drop o buf))) (load 8 (24 * i + o) buf)) (load 8 (24 * i + o + 8) buf)) (load 8 (24 * i + o + 16) buf)) (load 8 (24 * i + o + 24) buf)
  = foldl crc_byte c (take (24 * i + 32) (drop o buf)).
Proof.
  intros Hl. rewrite part_round by lia. replace (24 * i + o + 24)%nat with (o + 24 * S i)%nat by lia. rewrite part_next by lia. f_equal. f_equal. lia.
Qed.

(** The four registers brought into one. *)
Lemma registers_merge x1 x2 x3 x4 N : is_u128 x1 -> is_u128 x2 -> is_u128 x3 -> is_u128 x4 -> (63 <= N)%nat ->
  xpow N (Z.lxor (folded (Z.lxor (folded x1 k3k4) x2) k5k6) (Z.lxor (folded x3 k3k4) x4)) = xpow (N + 384) (registers x1 x2 x3 x4).
Proof.
  intros H1 H2 H3 H4 HN. pose proof k3k4_ok as K3. pose proof k5k6_ok as K5. rewrite registers_power by (lia || done).
  rewrite !xpow_xor, (folded_ok _ 256), xpow_xor, !(folded_ok _ 128) by (try apply is_u128_xor; try apply (folded_u128 128); (lia || done)).
  replace (N + 256 + 128)%nat with (N + 384)%nat by lia. replace (N + 384 - 128)%nat with (N + 256)%nat by lia. replace (N + 384 - 256)%nat with (N + 128)%nat by lia. replace (N + 384 - 384)%nat with N by lia.
  xor_bits.
Qed.

(** A part's remainder times its magic number. *)
Lemma part_power a m : is_u32 a -> xpow 64 (mm_clmulepi64 a (xpow m one) 0x00) = xpow (m + 33) a /\ is_u64 (mm_clmulepi64 a (xpow m one) 0x00).
Proof.
  intros Ha. pose proof (xpow_bound m one one_u32) as Hm. rewrite mm_clmul_low. unfold half. rewrite !wrap64_u32 by done. split.
  - rewrite clmul_xpow, Z.mod_small by (exact Ha || lia || (unfold is_u32 in Ha; lia)). f_equal. lia.
  - rewrite (clmul_short 64 32) by (exact Ha || lia). pose proof (clmul_bound 31 a (xpow m one) 32 ltac:(lia) Hm). unfold is_u64. lia.
Qed.

(** The bytes of the kernel, part by part. *)
Lemma kernel_parts c :
  foldl crc_byte c (take (n * 136 + 16) buf) =
  Z.lxor (xpow (8 * (n * 112 + 8)) (foldl crc_byte c (take stride (drop 0 buf))))
    (Z.lxor (xpow (8 * (n * 88)) (foldl crc_byte 0 (take stride (drop stride buf))))
      (Z.lxor (xpow (8 * (n * 64)) (foldl crc_byte 0 (take (n * 24) (drop (stride * 2) buf))))
        (foldl crc_byte 0 (take (64 * n) (drop start buf))))).
Proof.
  assert (Hcut : forall o m r c, (o + m + r <= length buf)%nat -> foldl crc_byte c (take (m + r) (drop o buf)) = Z.lxor (xpow (8 * r) (foldl crc_byte c (take m (drop o buf)))) (foldl crc_byte 0 (take r (drop (o + m) buf)))).
  { intros o m r c0 Hl. rewrite <- take_take_drop, foldl_app, drop_drop. rewrite <- (Z.lxor_0_l (foldl crc_byte c0 _)) at 1. rewrite crc_fold_xor, Z.lxor_comm. f_equal. f_equal.
    rewrite length_take, length_drop. lia. }
  change buf with (drop 0 buf) at 1. unfold stride, start. replace (n * 136 + 16)%nat with (n * 24 + 8 + (n * 24 + 8 + (n * 24 + 64 * n)))%nat by lia.
  rewrite !Hcut by lia. rewrite !Nat.add_0_l.
  replace (n * 24 + 8 + (n * 24 + 64 * n))%nat with (n * 112 + 8)%nat by lia. replace (n * 24 + 64 * n)%nat with (n * 88)%nat by lia. rewrite (Nat.mul_comm 64 n).
  replace (n * 24 + 8 + (n * 24 + 8) + n * 24)%nat with (n * 72 + 16)%nat by lia. replace ((n * 24 + 8) * 2)%nat with (n * 24 + 8 + (n * 24 + 8))%nat by lia.
  done.
Qed.

(** The checksum of the last register, together with what the other parts give. *)
Lemma last_register x abc : is_u128 x -> is_u64 abc -> mm_crc32_u64 (mm_crc32_u64 0 (half x false)) (Z.lxor abc (half x true)) = Z.lxor (xpow 64 abc) (xpow 128 x).
Proof.
  intros Hx Habc. rewrite (mm_crc32_u64_ok _ (Z.lxor _ _)) by (apply (lxor_bound _ _ 64); [lia|done|apply half_u64]). rewrite mm_crc32_u64_ok by apply half_u64.
  rewrite (halves x Hx) at 3. rewrite !xpow_xor, xpow_zero, Z.lxor_0_l, (xpow_shiftl 128 64) by (lia || apply half_u64). rewrite <- xpow_add.
  change (64 + 64)%nat with 128%nat. change (128 - 64)%nat with 64%nat. xor_bits.
Qed.

Lemma fusion_ok : Z.of_nat n < 2 ^ 56 -> crc32c_4k_fusion acc buf n = foldl crc_byte acc (take (n * 136 + 16) buf).
Proof.
  intros Hbig. unfold crc32c_4k_fusion. cbv zeta. fold stride start. destruct (fusion_loop_ok n 0 _ ltac:(lia) ltac:(lia) fusion_start) as (l & Hloop & Hl).
  change (24 * 0)%nat with 0%nat in Hloop. rewrite Nat.mul_0_r, Nat.add_0_r in Hloop. rewrite Hloop. clear Hloop.
  destruct Hl as [Ha Hb Hc H1 H2 H3 H4 Hd]. destruct l as [a b c y1 y2 y3 y4]. cbn [acc_a acc_b acc_c x1 x2 x3 x4] in *.
  replace (Z.of_nat stride) with (24 * Z.of_nat n + 8) by (unfold stride; lia). rewrite magics_ok by lia. rewrite !folded_xor.
  pose proof (part_last acc 0 (n - 1) ltac:(lia)) as Ea. rewrite <- Ha, Nat.add_0_r in Ea. rewrite Ea.
  pose proof (part_last 0 stride (n - 1) ltac:(unfold stride; lia)) as Eb. rewrite <- Hb in Eb. rewrite Eb.
  pose proof (part_round 0 (stride * 2) (n - 1) ltac:(unfold stride; lia)) as Ec. rewrite <- Hc in Ec. rewrite Ec. clear Ea Eb Ec Ha Hb Hc a b c.
  assert (Hu : forall c bs, is_u32 c -> is_u32 (foldl crc_byte c bs)) by (intros; by apply crc_fold_u32). assert (H0 : is_u32 0) by done.
  destruct (part_power _ (Z.to_nat (896 * Z.of_nat n + 31)) (Hu acc (take (24 * (n - 1) + 32) (drop 0 buf)) Hacc)) as [Pa Ua].
  destruct (part_power _ (Z.to_nat (704 * Z.of_nat n - 33)) (Hu 0 (take (24 * (n - 1) + 32) (drop stride buf)) H0)) as [Pb Ub].
  destruct (part_power _ (Z.to_nat (512 * Z.of_nat n - 33)) (Hu 0 (take (24 * S (n - 1)) (drop (stride * 2) buf)) H0)) as [Pc Uc].
  assert (HU : forall x y, is_u64 x -> is_u64 y -> is_u64 (Z.lxor x y)) by (intros x y; apply (lxor_bound _ _ 64); lia).
  pose proof (HU _ _ (HU _ _ Uc Ua) Ub) as Uabc. unfold wrap64. rewrite Z.mod_small by exact Uabc.
  assert (F : forall x y s k, fold_by s k -> is_u128 y -> is_u128 (Z.lxor (folded x k) y)) by (intros x y s k Hk Hy; apply is_u128_xor; [by apply (folded_u128 s)|done]).
  rewrite last_register; [|eapply F, (F _ _ 128%nat), H4; first [apply k5k6_ok | apply k3k4_ok]|exact Uabc].
  rewrite registers_merge by (lia || done). change (128 + 384)%nat with 512%nat. rewrite Hd by lia. rewrite !xpow_xor, Pa, Pb, Pc.
  rewrite kernel_parts, (crc_fold_value (take (64 * n) _)), Z.lxor_0_l, length_take, length_drop. unfold load.
  replace (24 * (n - 1) + 32)%nat with stride by (unfold stride; lia). replace (24 * S (n - 1))%nat with (n * 24)%nat by lia. replace (64 * S (n - 1))%nat with (64 * n)%nat by lia.
  replace (Z.to_nat (896 * Z.of_nat n + 31) + 33)%nat with (8 * (n * 112 + 8))%nat by lia. replace (Z.to_nat (704 * Z.of_nat n - 33) + 33)%nat with (8 * (n * 88))%nat by lia.
  replace (Z.to_nat (512 * Z.of_nat n - 33) + 33)%nat with (8 * (n * 64))%nat by lia. replace (512 + 512 * (n - 1))%nat with (8 * ((64 * n) `min` (length buf - start)))%nat by (unfold start; lia).
  xor_bits.
Qed.

End kernel.

(** * The checksum *)

Lemma land_15 x : Z.land (wrap64 x) 15 = x mod 16.
Proof.
  change 15 with (Z.ones 4). rewrite Z.land_ones by lia. apply Z.mod_mod_divide. by exists (2 ^ 60).
Qed.

Lemma align_down y : is_u64 y -> Z.land y (not64 15) = y - y mod 16.
Proof.
  intros Hy. change 16 with (2 ^ 4). rewrite <- (Z.land_ones y 4) by lia. replace (Z.land y (not64 15)) with (Z.ldiff y (Z.land y (Z.ones 4))).
  - symmetry. apply Z.sub_nocarry_ldiff. apply Z.bits_inj'. intros i Hi. rewrite Z.ldiff_spec, Z.land_spec, Z.bits_0. by destruct (Z.testbit y i), (Z.testbit (Z.ones 4) i).
  - apply Z.bits_inj'. intros i Hi. unfold not64. rewrite Z.ldiff_spec, !Z.land_spec, Z.lxor_spec. change 0xFFFFFFFFFFFFFFFF with (Z.ones 64). change 15 with (Z.ones 4).
    destruct (decide (i < 64)); [rewrite (Z.ones_spec_low 64) by lia; by destruct (Z.testbit y i), (Z.testbit (Z.ones 4) i)|].
    by rewrite (high_bits y 64) by (lia || done).
Qed.

(** Where the kernel starts: on its end's alignment, inside the buffer. *)
Lemma kernel_place addr len n : 0 <= addr -> 31 <= len -> addr + len < 2 ^ 63 -> 0 <= n -> n * 136 + 16 <= len -> n * 136 + 16 + (- (addr + n * 8)) mod 16 <= len ->
  0 <= Z.land (wrap64 (addr + (n * 136 + 16) + 15)) (not64 15) - (n * 136 + 16) - addr /\
  Z.land (wrap64 (addr + (n * 136 + 16) + 15)) (not64 15) - (n * 136 + 16) - addr + (n * 136 + 16) <= len.
Proof.
  intros Ha Hl Hal Hn Hk Hfit. assert (Hw : wrap64 (addr + (n * 136 + 16) + 15) = addr + (n * 136 + 16) + 15) by (apply Z.mod_small; lia).
  rewrite Hw, align_down by (unfold is_u64; lia). Z.div_mod_to_equations. lia.
Qed.

Lemma crc_tail crc buf : (let '(crc, buf) := crc_words (length buf / 8) crc buf in not32 (foldl mm_crc32_u8 crc buf)) = not32 (foldl crc_byte crc buf).
Proof. rewrite crc_words_ok by (apply Nat.Div0.mul_div_le). unfold mm_crc32_u8. by rewrite <- foldl_app, take_drop. Qed.

Lemma crc32c_pclmul_ok addr crc buf : is_u32 crc -> 0 <= addr -> addr + Z.of_nat (length buf) < 2 ^ 63 -> crc32c_pclmul addr crc buf = crc_of crc buf.
Proof.
  intros Hc Ha Hal. unfold crc32c_pclmul, crc_of. cbv zeta. destruct (Z.leb_spec 31 (Z.of_nat (length buf))) as [Hlen|_]; [|apply crc_tail].
  set (len := Z.of_nat (length buf)) in *. set (n0 := (len - 16) / 136). pose proof (Z.div_pos (len - 16) 136 ltac:(lia) ltac:(lia)) as Hn0. fold n0 in Hn0.
  pose proof (Z.mul_div_le (len - 16) 136 ltac:(lia)) as Hmul. fold n0 in Hmul.
  assert (Hpick : exists n, 0 <= n /\ n * 136 + 16 + (- (addr + n * 8)) mod 16 <= len /\
    (if len <? n0 * 136 + 16 + Z.land (wrap64 (- (addr + n0 * 8))) 15 then (wrap64 (n0 - 1), wrap64 (n0 * 136 + 16 - 136)) else (n0, n0 * 136 + 16)) = (n, n * 136 + 16)).
  { rewrite land_15. pose proof (Z.mod_pos_bound (- (addr + n0 * 8)) 16 ltac:(lia)). pose proof (Z.mod_pos_bound (- (addr + (n0 - 1) * 8)) 16 ltac:(lia)).
    destruct (Z.ltb_spec len (n0 * 136 + 16 + (- (addr + n0 * 8)) mod 16)) as [Hlt|Hge]; [|exists n0; split_and!; [lia|lia|done]].
    exists (n0 - 1). unfold wrap64. rewrite (Z.mod_small (n0 - 1)), (Z.mod_small (_ - 136)) by lia. split_and!; [lia|lia|]. f_equal. lia. }
  destruct Hpick as (n & Hn & Hfit & ->). pose proof (Z.mod_pos_bound (- (addr + n * 8)) 16 ltac:(lia)).
  destruct (kernel_place addr len n) as [Hs0 Hs1]; try lia. set (skip := _ - addr) in *.
  assert (Hcut : forall c k bs, foldl crc_byte c bs = foldl crc_byte (foldl crc_byte c (take k bs)) (drop k bs)) by (intros; by rewrite <- foldl_app, take_drop).
  rewrite (Hcut (not32 crc) (Z.to_nat skip) buf). destruct (Z.eqb_spec n 0) as [_|Hne]; [apply crc_tail|].
  assert (Hu : is_u32 (foldl crc_byte (not32 crc) (take (Z.to_nat skip) buf))) by (by apply crc_fold_u32, not32_u32).
  change mm_crc32_u8 with crc_byte at 1. rewrite fusion_ok; [| done | lia | rewrite length_drop; unfold len in *; lia | lia].
  replace (Z.to_nat (n * 136 + 16)) with (Z.to_nat n * 136 + 16)%nat by lia. rewrite (Hcut _ (Z.to_nat n * 136 + 16)%nat (drop (Z.to_nat skip) buf)).
  apply crc_tail.
Qed.

Lemma Sum_ok addr crc buf : is_u32 crc -> 0 <= addr -> addr + Z.of_nat (length buf) < 2 ^ 63 -> Sum addr crc buf = crc_of crc buf.
Proof. intros Hc Ha Hl. unfold Sum. destruct buf as [|b buf]; [by rewrite crc_of_nil|]. by apply crc32c_pclmul_ok. Qed.

(** * Claims *)

(** C17: whatever the address of the buffer, the checksum with PCLMUL - the
    kernel that runs three parts of the buffer side by side, folds the fourth
    in 128-bit registers and joins the four with powers of x found by repeated
    squaring - is the one that takes the bytes one at a time, bit by bit, and
    so is the one without PCLMUL. *)
Theorem fused_checksum (addr crc : Z) (buf : list byte) :
  is_u32 crc -> 0 <= addr -> addr + Z.of_nat (length buf) < 2 ^ 63 ->
  Sum addr crc buf = crc_of crc buf /\ crc32c crc buf = crc_of crc buf /\ is_u32 (crc_of crc buf).
Proof. intros Hc Ha Hl. split_and!; [by apply Sum_ok | apply crc32c_fold | by apply crc_of_u32]. Qed.

Lemma fused_checksum_witness : Sum 0x1003 0 (replicate 160 (byte_of 0x61)) = crc_of 0 (replicate 160 (byte_of 0x61)).
Proof. apply (fused_checksum 0x1003 0 (replicate 160 (byte_of 0x61))); [done | lia | rewrite length_replicate; lia]. Defined.

(** C22: from the checksums of two strings, Append finds the one of their
    concatenation and Xor the one of their exclusive or; ZeroExtend finds the
    one of a string with zeros added at its end and, given a negative count,
    takes the zeros away again; a negative length panics. *)
Theorem crc_operations (a b : list byte) (n : nat) :
  Z.of_nat (length a) < 2 ^ 63 -> Z.of_nat (length b) < 2 ^ 63 -> Z.of_nat n < 2 ^ 63 ->
  @Append () (crc_of 0 a) (crc_of 0 b) (Z.of_nat (length b)) = Ok (crc_of 0 (a ++ b)) /\
  (length a = length b -> @Xor () (crc_of 0 a) (crc_of 0 b) (Z.of_nat (length a)) = Ok (crc_of 0 (xor_bytes a b))) /\
  ZeroExtend (crc_of 0 a) (Z.of_nat n) = crc_of 0 (a ++ replicate n zero_byte) /\
  ZeroExtend (crc_of 0 (a ++ replicate n zero_byte)) (- Z.of_nat n) = crc_of 0 a /\
  (forall c d len, len < 0 -> @Append () c d len = Panic /\ @Xor () c d len = Panic).
Proof.
  intros Ha Hb Hn. assert (H0 : is_u32 0) by done. pose proof (crc_of_u32 0 a H0) as Hu. unfold Append, Xor, ZeroExtend.
  rewrite !(proj2 (Z.ltb_ge _ 0)) by lia. rewrite !crc_of_app. split_and!.
  - rewrite append_ok; [done..|unfold is_u64; lia].
  - intros Hl. rewrite xor_ok; [done|done|unfold is_u64; lia].
  - apply zero_extend_ok; [done|unfold is_u64; lia].
  - apply zero_extend_back; [done|unfold is_u64; lia].
  - intros c d len Hlen. by rewrite (proj2 (Z.ltb_lt len 0)) by lia.
Qed.

Lemma crc_operations_witness : ZeroExtend (crc_of 0 [byte_of 1; byte_of 2]) 5 = crc_of 0 ([byte_of 1; byte_of 2] ++ replicate 5 zero_byte).
Proof. apply (crc_operations [byte_of 1; byte_of 2] [] 5); by vm_compute. Defined.
