(* ===== verification/Divide32.v ===== *)
(** Division by a fixed number: src/go/divide32/divide32.go.

    The quotient and the remainder by multiplications with the reciprocal of the
    divisor, scaled by 2^64. *)

From Stdlib Require Import ZArith Lia.
From stdpp Require Import base numbers.
From S2P Require Import Prelude.

Record Divisor := mkDivisor { dv_d : Z; (* uint32 *) dv_m : Z (* uint64 *) }.

(** [^uint64(0) / uint64(divisor)] panics on zero. *)
Definition NewDivisor (divisor : Z) : outcome unit Divisor :=
  if divisor =? 0 then Panic else Ok (mkDivisor divisor (wrap64 ((2 ^ 64 - 1) / divisor + 1))).

(** bits.Mul64: the product of two [uint64]s as its high and low halves. *)
Definition Mul64 (x y : Z) : Z * Z := (Z.shiftr (x * y) 64, wrap64 (x * y)).

Definition Divisor_Mod (d : Divisor) (quotient : Z) : Z :=
  let '(x, _) := Mul64 (wrap64 (dv_m d * quotient)) (dv_d d) in wrap32 x.

Definition Divisor_Div (d : Divisor) (quotient : Z) : Z :=
  let '(x, _) := Mul64 (dv_m d) quotient in wrap32 x.

(** The reciprocal is a little more than exact: the error times the number that
    is divided stays below the scale. *)
Lemma reciprocal d q : 2 <= d < 2 ^ 32 -> 0 <= q < 2 ^ 32 ->
  exists e, 0 <= e * q < 2 ^ 64 /\ d * ((2 ^ 64 - 1) / d + 1) = 2 ^ 64 + e /\ 0 <= (2 ^ 64 - 1) / d + 1 < 2 ^ 64.
Proof.
  intros Hd Hq. pose proof (Z.div_mod (2 ^ 64 - 1) d ltac:(lia)) as H. pose proof (Z.mod_pos_bound (2 ^ 64 - 1) d ltac:(lia)) as Hr.
  exists (d - 1 - (2 ^ 64 - 1) mod d). split_and!; [| | | | apply (Z.le_lt_trans _ ((2 ^ 64 - 1) / 2 + 1))].
  - nia.
  - assert (d - 1 - (2 ^ 64 - 1) mod d < 2 ^ 32) by lia. nia.
  - lia.
  - pose proof (Z.div_pos (2 ^ 64 - 1) d ltac:(lia) ltac:(lia)). lia.
  - apply Zplus_le_compat_r, Z.div_le_compat_l; lia.
  - by vm_compute.
Qed.

(** The part of [q * m] that the fraction holds. *)
Lemma fraction d q m e : 2 <= d -> 0 <= q -> 0 <= m -> 0 <= e * q < 2 ^ 64 -> d * m = 2 ^ 64 + e ->
  m * q = (q / d) * 2 ^ 64 + ((q / d) * e + (q mod d) * m) /\ 0 <= (q / d) * e + (q mod d) * m < 2 ^ 64 /\
  d * ((q / d) * e + (q mod d) * m) = e * q + (q mod d) * 2 ^ 64.
Proof.
  intros Hd Hq Hm He Hdm. pose proof (Z.div_mod q d ltac:(lia)) as Hqd. pose proof (Z.mod_pos_bound q d ltac:(lia)) as Hr. set (a := q / d) in *. set (b := q mod d) in *.
  assert (Hd3 : d * (a * e + b * m) = e * q + b * 2 ^ 64) by (replace (e * q) with (e * (d * a + b)) by (by rewrite <- Hqd); nia). split_and!; [nia | | | done].
  - assert (0 <= d * (a * e + b * m)) by nia. nia.
  - assert (d * (a * e + b * m) < d * 2 ^ 64) by nia. nia.
Qed.

(** For every divisor from 2 on, Div and Mod give the quotient and the
    remainder of every [uint32]. *)
Theorem divide32_exact (d q : Z) : 2 <= d < 2 ^ 32 -> 0 <= q < 2 ^ 32 ->
  exists dv, NewDivisor d = Ok dv /\ Divisor_Div dv q = q / d /\ Divisor_Mod dv q = q mod d.
Proof.
  intros Hd Hq. unfold NewDivisor. rewrite (proj2 (Z.eqb_neq d 0)) by lia. destruct (reciprocal d q Hd Hq) as (e & He & Hdm & Hm).
  set (m := (2 ^ 64 - 1) / d + 1) in *. unfold wrap64 at 1. rewrite Z.mod_small by done. eexists. split; [done|].
  destruct (fraction d q m e ltac:(lia) ltac:(lia) ltac:(lia) He Hdm) as (F1 & F2 & F3). set (x := q / d * e + q mod d * m) in *.
  pose proof (Z.div_pos q d ltac:(lia) ltac:(lia)). pose proof (Z.mod_pos_bound q d ltac:(lia)). assert (q / d <= q) by (apply Z.div_le_upper_bound; nia).
  unfold Divisor_Div, Divisor_Mod, Mul64, wrap32, wrap64. cbn [dv_d dv_m]. rewrite !Z.shiftr_div_pow2 by lia. rewrite F1. split.
  - rewrite Z.div_add_l, (Z.div_small x) by lia. rewrite Z.add_0_r. apply Z.mod_small. lia.
  - rewrite (Z.add_comm _ x), Z.mod_add, (Z.mod_small x) by lia. replace (x * d) with (q mod d * 2 ^ 64 + e * q) by lia.
    rewrite Z.div_add_l, (Z.div_small (e * q)) by lia. rewrite Z.add_0_r. apply Z.mod_small. lia.
Qed.

Lemma divide32_exact_witness : exists dv, NewDivisor 4096 = Ok dv /\ Divisor_Div dv 70000 = 17 /\ Divisor_Mod dv 70000 = 368.
Proof. apply (divide32_exact 4096 70000); lia. Defined.

(** The reciprocal of one does not fit: everything divides to zero. *)
Lemma divide32_by_one q : exists dv, NewDivisor 1 = Ok dv /\ Divisor_Div dv q = 0.
Proof. eexists. split; [done|]. unfold Divisor_Div, Mul64. cbn [dv_m]. change (wrap64 ((2 ^ 64 - 1) / 1 + 1)) with 0. by rewrite Z.mul_0_l. Qed.
