(* ===== verification/SpanLayout.v ===== *)
(** Writing a span: src/go/client/span.go, from the policies to the readers of
    the blocks.

    A span's data is padded with zeros to stripes of D cells, a block holds one
    cell of each stripe, and the parity cells of a stripe follow all the data.
    A [data *[]byte] is its bytes and the room between its length and its
    capacity; what [append] leaves there when it moves the data is an argument.
    Sizes that the source keeps in an [int] are natural numbers; conversions to
    [uint32] wrap. [crc32c.Sum(0, bs)] is [crc_of 0 bs], which CrcFusion shows
    it to be. *)

From Stdlib Require Import ZArith Lia.
From stdpp Require Import base numbers option list.
From S2P Require Import Prelude Bincode Messages Ids Gf256 Cauchy ReedSolomon Crc32c CrcFusion.

Definition TERN_PAGE_SIZE : Z := Z.shiftl 1 12.
Definition TERN_PAGE_WITH_CRC_SIZE : Z := TERN_PAGE_SIZE + 4.

(** * The parameters *)

Record SpanParameters := mkSpanParameters { sp_Parity : Z; sp_StorageClass : Z; sp_Stripes : Z; sp_CellSize : Z }.

Definition ComputeSpanParameters (spanPolicies : SpanPolicy) (blockPolicies : BlockPolicy) (stripePolicy : StripePolicy) (spanSize : Z) : outcome unit SpanParameters :=
  let! stripes := StripePolicy_Stripes stripePolicy spanSize in
  let! spanPolicy := SpanPolicy_Pick spanPolicies spanSize in
  let D := DataBlocks (SpanPolicyEntry_Parity spanPolicy) in
  if D =? 0 then Panic
  else
    let blockSize := (spanSize + D - 1) / D in
    let cellSize := (blockSize + stripes - 1) / stripes in
    let cellSize := TERN_PAGE_SIZE * ((cellSize + TERN_PAGE_SIZE - 1) / TERN_PAGE_SIZE) in
    let blockSize := cellSize * stripes in
    let! entry := BlockPolicy_Pick blockPolicies (wrap32 blockSize) in
    Ok (mkSpanParameters (SpanPolicyEntry_Parity spanPolicy) (BlockPolicyEntry_StorageClass entry) (wrap8 stripes) (wrap32 cellSize)).

(** * Buffers *)

Record buffer := mkBuffer { b_bytes : list byte; b_room : list byte }.

(** [clear(buf[from:])]. *)
Definition clear_from (bytes : list byte) (from : nat) : outcome rs_error (list byte) :=
  if (from <=? length bytes)%nat then Ok (take from bytes ++ replicate (length bytes - from) zero_byte) else Panic.

Definition ensureLen (buf : buffer) (l : nat) (room : list byte) : outcome rs_error buffer :=
  let whole := b_bytes buf ++ b_room buf in
  let lenBefore := length (b_bytes buf) in
  let buf :=
    if (l <=? length whole)%nat then mkBuffer (take l whole) (drop l whole)
    else mkBuffer (whole ++ replicate (l - length whole) zero_byte) room in
  let! bytes := clear_from (b_bytes buf) lenBefore in
  Ok (mkBuffer bytes (b_room buf)).

(** Storing into [data[a:b]]. *)
Definition store {E} (data : list byte) (a b : nat) (new : list byte) : outcome E (list byte) :=
  let! _ := sub data a b in Ok (take a data ++ new ++ drop b data).

(** * The request *)

Record AddSpanInitiateReq := mkAddSpanInitiateReq {
  as_FileId : Z;
  as_Cookie : Z;
  as_ByteOffset : Z;
  as_Size : Z;
  as_Crc : Z;
  as_StorageClass : Z;
  as_Blacklist : list Z; (* failure domains *)
  as_Parity : Z;
  as_Stripes : Z;
  as_CellSize : Z;
  as_Crcs : list Z;
}.

Fixpoint mapM_outcome {E A B} (f : A -> outcome E B) (l : list A) : outcome E (list B) :=
  match l with
  | [] => Ok []
  | a :: l => let! b := f a in let! bs := mapM_outcome f l in Ok (b :: bs)
  end.

Fixpoint foldM_outcome {E A B} (f : B -> A -> outcome E B) (b : B) (l : list A) : outcome E B :=
  match l with
  | [] => Ok b
  | a :: l => let! b := f b a in foldM_outcome f b l
  end.

(** [initiateReq.Crcs[i] = crc]. *)
Definition set_crc (crcs : list Z) (i : nat) (crc : Z) : outcome rs_error (list Z) :=
  if (i <? length crcs)%nat then Ok (<[i := crc]> crcs) else Panic.

(** One round of the loop over the stripes, for mirroring and for the code. *)
Definition mirror_stripe (B cellSize : nat) (data : list byte) (crcs : list Z) (s : nat) : outcome rs_error (list Z) :=
  let! cell := sub data (s * cellSize) ((s + 1) * cellSize) in
  foldM_outcome (fun crcs b => set_crc crcs (B * s + b) (crc_of 0 cell)) crcs (seq 0 B).

Definition rs_stripe (r : rs) (S D P B cellSize : nat) (st : list byte * list Z) (s : nat) : outcome rs_error (list byte * list Z) :=
  let '(data, crcs) := st in
  let! dataSrcs := mapM_outcome (fun d => sub data (D * cellSize * s + cellSize * d) (D * cellSize * s + cellSize * (d + 1))) (seq 0 D) in
  let! crcs := foldM_outcome (fun crcs q => set_crc crcs (B * s + q.1) (crc_of 0 q.2)) crcs (zip (seq 0 D) dataSrcs) in
  let! parities := ComputeParity r dataSrcs in
  let! data := foldM_outcome (fun data q =>
    store data (S * D * cellSize + P * cellSize * s + cellSize * q.1) (S * D * cellSize + P * cellSize * s + cellSize * (q.1 + 1)) q.2) data (zip (seq 0 P) parities) in
  let! crcs := foldM_outcome (fun crcs q => set_crc crcs (B * s + (D + q.1)) (crc_of 0 q.2)) crcs (zip (seq 0 P) parities) in
  Ok (data, crcs).

Definition prepareSpanInitiateReqWithParams (room room' : list byte) (blacklist : list Z) (params : SpanParameters) (id cookie offset sizeWithZeros : Z)
    (data : buffer) : outcome rs_error (AddSpanInitiateReq * buffer) :=
  let size := length (b_bytes data) in
  if sizeWithZeros <? Z.of_nat size then Panic
  else
    let crc := ZeroExtend (crc_of 0 (b_bytes data)) (sizeWithZeros - Z.of_nat size) in
    let S := Z.to_nat (sp_Stripes params) in
    let D := Z.to_nat (DataBlocks (sp_Parity params)) in
    let P := Z.to_nat (ParityBlocks (sp_Parity params)) in
    let B := Z.to_nat (Blocks (sp_Parity params)) in
    let cellSize := Z.to_nat (sp_CellSize params) in
    let blockSize := (cellSize * S)%nat in
    let! data := ensureLen data (S * D * cellSize) room in
    let req crcs := mkAddSpanInitiateReq id cookie offset sizeWithZeros crc (sp_StorageClass params) blacklist (sp_Parity params) (wrap8 (sp_Stripes params)) (wrap32 (sp_CellSize params)) crcs in
    let crcs := replicate (B * S) 0 in
    if (D =? 1)%nat then
      let! crcs := foldM_outcome (mirror_stripe B cellSize (b_bytes data)) crcs (seq 0 S) in
      Ok (req crcs, data)
    else
      let! data := ensureLen data (blockSize * B) room' in
      let! r := ReedSolomon.Get (sp_Parity params) in
      let! st := foldM_outcome (rs_stripe r S D P B cellSize) (b_bytes data, crcs) (seq 0 S) in
      Ok (req st.2, mkBuffer st.1 (b_room data)).

Definition prepareSpanInitiateReq (room room' : list byte) (blacklist : list Z) (spanPolicies : SpanPolicy) (blockPolicies : BlockPolicy) (stripePolicy : StripePolicy)
    (id cookie offset sizeWithZeros : Z) (data : buffer) : outcome rs_error (AddSpanInitiateReq * buffer) :=
  match ComputeSpanParameters spanPolicies blockPolicies stripePolicy (wrap32 (Z.of_nat (length (b_bytes data)))) with
  | Ok params => prepareSpanInitiateReqWithParams room room' blacklist params id cookie offset sizeWithZeros data
  | _ => Panic
  end.

(** * The inline spans *)

Record AddInlineSpanReq := mkAddInlineSpanReq { ai_FileId : Z; ai_Cookie : Z; ai_StorageClass : Z; ai_ByteOffset : Z; ai_Size : Z; ai_Body : list byte; ai_Crc : Z }.

Definition createInlineSpan (id cookie offset sizeWithZeros : Z) (data : list byte) : outcome rs_error AddInlineSpanReq :=
  if sizeWithZeros <? Z.of_nat (length data) then Panic
  else
    let crc := ZeroExtend (crc_of 0 data) (sizeWithZeros - Z.of_nat (length data)) in
    Ok (mkAddInlineSpanReq id cookie INLINE_STORAGE offset sizeWithZeros data crc).

(** * The readers of the blocks *)

Record blockReader := mkBlockReader_ { br_cells : Z; br_cellSize : Z; br_stride : Z; br_data : list byte; br_cursor : Z }.

Inductive reader_error := EndOfFile | InvalidWhence | NegativePosition.

Definition blockReader_Read (r : blockReader) (p : nat) : outcome reader_error (list byte * blockReader) :=
  if (br_cursor r <? 0) || (br_cells r * br_cellSize r <=? br_cursor r) then Err EndOfFile
  else
    let cell := br_cursor r / br_cellSize r in
    let cellCursor := br_cursor r mod br_cellSize r in
    let! src := sub (br_data r) (Z.to_nat (cell * br_stride r + cellCursor)) (Z.to_nat (cell * br_stride r + br_cellSize r)) in
    let read := take p src in
    Ok (read, mkBlockReader_ (br_cells r) (br_cellSize r) (br_stride r) (br_data r) (br_cursor r + Z.of_nat (length read))).

Definition SeekStart : Z := 0.
Definition SeekCurrent : Z := 1.
Definition SeekEnd : Z := 2.

Definition blockReader_Seek (r : blockReader) (offset whence : Z) : outcome reader_error (Z * blockReader) :=
  let! abs :=
    if whence =? SeekStart then Ok offset
    else if whence =? SeekCurrent then Ok (br_cursor r + offset)
    else if whence =? SeekEnd then Ok (br_cells r * br_cellSize r + offset)
    else Err InvalidWhence in
  if abs <? 0 then Err NegativePosition
  else Ok (abs, mkBlockReader_ (br_cells r) (br_cellSize r) (br_stride r) (br_data r) abs).

(** The reader of a block: bytes.NewReader for mirroring. *)
Inductive block_source := Whole (data : list byte) | Strided (r : blockReader).

Definition mkBlockReader (req : AddSpanInitiateReq) (data : list byte) (block : nat) : outcome rs_error (Z * block_source) :=
  let D := Z.to_nat (DataBlocks (as_Parity req)) in
  let P := Z.to_nat (ParityBlocks (as_Parity req)) in
  let B := Z.to_nat (Blocks (as_Parity req)) in
  let S := Z.to_nat (as_Stripes req) in
  let cellSize := Z.to_nat (as_CellSize req) in
  let! blockCrc := foldM_outcome (fun blockCrc s => let! crc := index (as_Crcs req) (B * s + block) in Append blockCrc crc (Z.of_nat cellSize)) 0 (seq 0 S) in
  if (D =? 1)%nat then Ok (blockCrc, Whole data)
  else if (block <? D)%nat then
    let! section := sub data (block * cellSize) (length data) in
    Ok (blockCrc, Strided (mkBlockReader_ (Z.of_nat S) (Z.of_nat cellSize) (Z.of_nat (cellSize * D)) section 0))
  else
    let! section := sub data (D * S * cellSize + (block - D) * cellSize) (length data) in
    Ok (blockCrc, Strided (mkBlockReader_ (Z.of_nat S) (Z.of_nat cellSize) (Z.of_nat (cellSize * P)) section 0)).

(** * Overwriting *)

Definition overwrite {A} (l : list A) (off : nat) (new : list A) : list A := take off l ++ new ++ drop (off + length new) l.

Lemma overwrite_app {A} (l1 l2 l3 new : list A) : length new = length l2 -> overwrite (l1 ++ l2 ++ l3) (length l1) new = l1 ++ new ++ l3.
Proof.
  intros Hl. unfold overwrite. rewrite take_app_length, <- drop_drop, drop_app_length, Hl, drop_app_length. done.
Qed.

Lemma overwrite_cons {A} (l : list A) off x new : (off < length l)%nat -> overwrite (<[off := x]> l) (off + 1) new = overwrite l off (x :: new).
Proof.
  intros Hoff. unfold overwrite. rewrite insert_take_drop by done. rewrite take_app_add', drop_app_ge; rewrite ?length_take; try lia.
  simpl. rewrite take_0, <- app_assoc. replace (off + 1 + length new - off `min` length l)%nat with (S (length new)) by lia. simpl. rewrite drop_drop. do 3 f_equal. f_equal. lia.
Qed.

Lemma overwrite_chunk (l x new : list byte) off : (off + length x <= length l)%nat ->
  overwrite (take off l ++ x ++ drop (off + length x) l) (off + length x) new = overwrite l off (x ++ new).
Proof.
  intros Hoff. unfold overwrite. rewrite (app_assoc (take off l) x (drop (off + length x) l)).
  assert (Hl : length (take off l ++ x) = (off + length x)%nat) by (rewrite length_app, length_take; lia).
  rewrite take_app_length' by done. rewrite drop_app_ge by lia. rewrite Hl, drop_drop, length_app, <- !app_assoc. do 4 f_equal. lia.
Qed.

Lemma overwrite_nil {A} (l : list A) off : overwrite l off [] = l.
Proof. unfold overwrite. rewrite Nat.add_0_r. apply take_drop. Qed.

Lemma length_overwrite {A} (l : list A) off new : (off + length new <= length l)%nat -> length (overwrite l off new) = length l.
Proof. intros H. unfold overwrite. rewrite !length_app, length_take, length_drop. lia. Qed.

Lemma set_crc_ok crcs i crc : (i < length crcs)%nat -> set_crc crcs i crc = Ok (<[i := crc]> crcs).
Proof. intros Hi. unfold set_crc. by rewrite (proj2 (Nat.ltb_lt _ _)). Qed.

Lemma sub_ok {E A} (l : list A) a b : (a <= b)%nat -> (b <= length l)%nat -> @sub E A l a b = Ok (take (b - a) (drop a l)).
Proof. intros Ha Hb. unfold sub. by rewrite decide_True. Qed.

Lemma sub_to_end {E} (l : list byte) a : (a <= length l)%nat -> @sub E _ l a (length l) = Ok (drop a l).
Proof. intros Ha. rewrite sub_ok by lia. f_equal. apply take_ge. rewrite length_drop. lia. Qed.

Lemma store_ok {E} data a b new : (a <= b)%nat -> (b <= length data)%nat -> @store E data a b new = Ok (take a data ++ new ++ drop b data).
Proof. intros Ha Hb. unfold store. by rewrite sub_ok. Qed.

(** The loops that fill the checksums and the parity cells. *)
Lemma set_crcs_ok {A} (f : A -> Z) (idx : nat -> nat) base l n : (forall i, idx i = base + i)%nat -> length l = n -> forall j crcs, (base + j + length l <= length crcs)%nat ->
  foldM_outcome (fun crcs q => set_crc crcs (idx q.1) (f q.2)) crcs (zip (seq j n) l) = Ok (overwrite crcs (base + j) (f <$> l)).
Proof.
  intros Hidx <-. induction l as [|x l IH]; intros j crcs Hl; [cbn; f_equal; symmetry; apply overwrite_nil|]. cbn [length] in *. cbn [seq zip zip_with foldM_outcome fst snd].
  rewrite Hidx, set_crc_ok by lia. cbn [mbind outcome_bind]. rewrite IH by (rewrite length_insert; lia).
  rewrite fmap_cons, <- overwrite_cons by lia. do 2 f_equal. lia.
Qed.

Lemma set_same_ok base v n : forall j crcs, (base + j + n <= length crcs)%nat ->
  foldM_outcome (fun crcs b => set_crc crcs (base + b) v) crcs (seq j n) = Ok (overwrite crcs (base + j) (replicate n v)).
Proof.
  induction n as [|n IH]; intros j crcs Hl; [cbn; f_equal; symmetry; apply overwrite_nil|]. cbn [seq foldM_outcome]. rewrite set_crc_ok by lia. cbn [mbind outcome_bind].
  rewrite IH by (rewrite length_insert; lia). cbn [replicate]. rewrite <- overwrite_cons by lia. do 2 f_equal. lia.
Qed.

Lemma stores_ok base c l n : length l = n -> forall j data, Forall (fun x => length x = c) l -> (base + c * (j + length l) <= length data)%nat ->
  foldM_outcome (fun data q => @store rs_error data (base + c * q.1) (base + c * (q.1 + 1)) q.2) data (zip (seq j n) l) = Ok (overwrite data (base + c * j) (concat l)).
Proof.
  intros <-. induction l as [|x l IH]; intros j data Hf Hl; [cbn; f_equal; symmetry; apply overwrite_nil|]. apply Forall_cons in Hf as [Hx Hf]. cbn [length] in *. cbn [seq zip zip_with foldM_outcome fst snd].
  rewrite store_ok by lia. cbn [mbind outcome_bind]. replace (base + c * (j + 1))%nat with (base + c * j + length x)%nat by lia.
  rewrite IH; [| done | rewrite !length_app, length_take, length_drop; lia]. replace (base + c * S j)%nat with (base + c * j + length x)%nat by lia.
  rewrite overwrite_chunk by lia. done.
Qed.

Lemma mapM_sub_ok {E} (g h : nat -> nat) (data : list byte) ds : (forall d, d ∈ ds -> (g d <= h d /\ h d <= length data)%nat) ->
  @mapM_outcome E _ _ (fun d => sub data (g d) (h d)) ds = Ok ((fun d => take (h d - g d) (drop (g d) data)) <$> ds).
Proof.
  induction ds as [|d ds IH]; intros H; [done|]. cbn [mapM_outcome]. rewrite sub_ok by (apply H; left). cbn [mbind outcome_bind].
  rewrite IH by (intros x Hx; apply H; by right). done.
Qed.

Lemma ensureLen_ok buf l room : (length (b_bytes buf) <= l)%nat ->
  exists room', ensureLen buf l room = Ok (mkBuffer (b_bytes buf ++ replicate (l - length (b_bytes buf)) zero_byte) room').
Proof.
  intros Hl. unfold ensureLen, clear_from. set (n := length (b_bytes buf)) in *. destruct (Nat.leb_spec l (length (b_bytes buf ++ b_room buf))) as [Hle|Hgt]; cbn [b_bytes b_room].
  - rewrite length_app in Hle. rewrite (proj2 (Nat.leb_le _ _)) by (rewrite length_take, length_app; lia). cbn [mbind outcome_bind]. eexists. repeat f_equal.
    + rewrite take_take, Nat.min_l by lia. by apply take_app_length'.
    + rewrite length_take, length_app. lia.
  - rewrite length_app in Hgt. rewrite (proj2 (Nat.leb_le _ _)) by (rewrite !length_app; lia). cbn [mbind outcome_bind]. eexists. repeat f_equal.
    + rewrite <- app_assoc. by apply take_app_length'.
    + rewrite !length_app, length_replicate. lia.
Qed.

(** * The cells of a span *)

Lemma length_concat_const {A B} (f : A -> list B) l n : (forall a, a ∈ l -> length (f a) = n) -> length (concat (f <$> l)) = (length l * n)%nat.
Proof.
  induction l as [|a l IH]; intros H; [done|]. csimpl. rewrite length_app, H, IH by (first [by left | intros b Hb; apply H; by right]). lia.
Qed.

Lemma foldM_app {E A B} (f : B -> A -> outcome E B) l1 l2 b : foldM_outcome f b (l1 ++ l2) = (let! b := foldM_outcome f b l1 in foldM_outcome f b l2).
Proof. revert b. induction l1 as [|a l1 IH]; intros b; [done|]. simpl. destruct (f b a); cbn [mbind outcome_bind]; [apply IH | done | done]. Qed.

(** A loop over [0 .. n] that keeps an invariant. *)
Lemma foldM_invariant {E B} (f : B -> nat -> outcome E B) (st : nat -> B) n : (forall k, (k < n)%nat -> f (st k) k = Ok (st (S k))) -> foldM_outcome f (st 0%nat) (seq 0 n) = Ok (st n).
Proof.
  induction n as [|n IH]; intros H; [done|]. rewrite seq_S, foldM_app, IH by (intros; apply H; lia). cbn [mbind outcome_bind foldM_outcome]. simpl. rewrite H by lia. done.
Qed.

(** A part of one of the pieces of a concatenation. *)
Lemma concat_piece {A} `{!Inhabited (list A)} (l : list (list A)) m k j q : Forall (fun x => length x = m) l -> (k < length l)%nat -> (j + q <= m)%nat ->
  take q (drop (m * k + j) (concat l)) = take q (drop j (l !!! k)).
Proof.
  intros Hl. revert k. induction Hl as [|x l Hx Hl IH]; intros k Hk Hj; [simpl in Hk; lia|]. destruct k as [|k]; simpl.
  - rewrite Nat.mul_0_r, Nat.add_0_l, drop_app_le, take_app_le by (rewrite ?length_drop; lia). done.
  - rewrite drop_app_ge by lia. rewrite <- IH by (simpl in Hk; lia). do 2 f_equal. lia.
Qed.

Lemma concat_piece_whole {A} `{!Inhabited (list A)} (l : list (list A)) m k : Forall (fun x => length x = m) l -> (k < length l)%nat ->
  take m (drop (m * k) (concat l)) = l !!! k.
Proof.
  intros Hl Hk. pose proof (concat_piece l m k 0 m Hl Hk ltac:(lia)) as H. rewrite Nat.add_0_r, drop_0 in H. rewrite H. apply take_ge.
  destruct (lookup_lt_is_Some_2 l k Hk) as [x Hx]. rewrite (list_lookup_total_correct _ _ _ Hx). by rewrite (Forall_lookup_1 _ _ _ _ Hl Hx).
Qed.

Lemma lookup_total_take_drop {A} `{!Inhabited A} (l : list A) off q k : (k < q)%nat -> take q (drop off l) !!! k = l !!! (off + k)%nat.
Proof. intros Hk. rewrite !list_lookup_total_alt. by rewrite lookup_take_lt, lookup_drop. Qed.

Lemma concat_lookup_total {A} `{!Inhabited A, !Inhabited (list A)} (l : list (list A)) m k j : Forall (fun x => length x = m) l -> (k < length l)%nat -> (j < m)%nat ->
  concat l !!! (m * k + j)%nat = (l !!! k) !!! j.
Proof.
  intros Hl Hk Hj. rewrite <- (concat_piece_whole l m k Hl Hk). by rewrite lookup_total_take_drop.
Qed.

Lemma concat_positions {A} (g : nat -> A) c n : concat ((fun s => (fun k => g (c * s + k)%nat) <$> seq 0 c) <$> seq 0 n) = g <$> seq 0 (n * c).
Proof.
  induction n as [|n IH]; [done|]. rewrite seq_S, fmap_app, concat_app, IH. simpl. rewrite app_nil_r. replace (c + n * c)%nat with (n * c + c)%nat by lia.
  rewrite seq_app, fmap_app. f_equal. apply list_eq. intros i. rewrite !list_lookup_fmap. destruct (decide (i < c)%nat).
  - rewrite !lookup_seq_lt by done. simpl. do 2 f_equal. lia.
  - rewrite !lookup_seq_ge by lia. done.
Qed.

Lemma concat_chunks {A} (l : list A) o c n : concat ((fun d => take c (drop (o + c * d) l)) <$> seq 0 n) = take (c * n) (drop o l).
Proof.
  induction n as [|n IH]; [by rewrite Nat.mul_0_r|]. rewrite seq_S, fmap_app, concat_app, IH. simpl. rewrite app_nil_r. replace (c * S n)%nat with (c * n + c)%nat by lia.
  by rewrite <- take_take_drop, drop_drop.
Qed.

Lemma fmap_seq_total {A} `{!Inhabited A} (f : nat -> A) n k : (k < n)%nat -> (f <$> seq 0 n) !!! k = f k.
Proof. intros Hk. apply list_lookup_total_correct. by rewrite list_lookup_fmap, lookup_seq_lt. Qed.

Lemma length_concat_cells c (m : matrix) : Forall (fun x => length x = c) m -> length (concat m) = (length m * c)%nat.
Proof. induction 1 as [|x m Hx _ IH]; [done|]. simpl. rewrite length_app, IH. lia. Qed.

(** Cell [d] of [s] rows of [D] cells. *)
Lemma cell_fits (n D c s d : nat) : (s < n)%nat -> (d < D)%nat -> (D * c * s + c * d + c <= n * D * c)%nat.
Proof. intros Hs Hd. assert (D * s + d + 1 <= D * n)%nat by nia. nia. Qed.

Section layout.
Context (parity : Z) (stripes c : nat) (data : list byte).
Let D := rs_data_blocks_core parity.
Let P := rs_parity_blocks_core parity.
Let r := rs_new_core parity.
Context (HD : (2 <= D)%nat) (Hc : (0 < c)%nat) (Hfit : (length data <= stripes * D * c)%nat).

Definition padded : list byte := data ++ replicate (stripes * rs_data_blocks_core parity * c - length data) zero_byte.
Definition cell_at (s d : nat) : list byte := take c (drop (rs_data_blocks_core parity * c * s + c * d) padded).
Definition stripe (s : nat) : matrix := cell_at s <$> seq 0 (rs_data_blocks_core parity).
Definition stripe_parity (s : nat) : matrix := rs_compute_parity (rs_new_core parity) c (stripe s).
Definition row (s : nat) : matrix := stripe s ++ stripe_parity s.

Lemma length_padded : length padded = (stripes * D * c)%nat.
Proof. clear HD Hc. unfold padded. fold D. rewrite length_app, length_replicate. lia. Qed.

Lemma length_cell s d : (s < stripes)%nat -> (d < D)%nat -> length (cell_at s d) = c.
Proof. intros Hs Hd. unfold cell_at. fold D. rewrite length_take, length_drop, length_padded. pose proof (cell_fits stripes D c s d Hs Hd). lia. Qed.

Lemma length_stripe s : length (stripe s) = D.
Proof. unfold stripe. by rewrite length_fmap, length_seq. Qed.

Lemma stripe_cells s : (s < stripes)%nat -> Forall (fun x => length x = c) (stripe s).
Proof. intros Hs. apply Forall_fmap, Forall_forall. intros d [_ Hd]%elem_of_seq. unfold compose. apply length_cell; [done | unfold D; lia]. Qed.

Lemma length_stripe_parity s : length (stripe_parity s) = P.
Proof. unfold stripe_parity, rs_compute_parity. by rewrite length_fmap, length_seq. Qed.

Lemma parity_cells s : Forall (fun x => length x = c) (stripe_parity s).
Proof. apply Forall_fmap, Forall_forall. intros p _. unfold compose. by rewrite length_fmap, length_seq. Qed.

Lemma length_stripe_row s : length (row s) = (D + P)%nat.
Proof. unfold row. by rewrite length_app, length_stripe, length_stripe_parity. Qed.

(** The buffer and the checksums once [k] stripes are done. *)
Definition stripes_done (k : nat) : list byte * list Z :=
  (padded ++ concat ((fun s => concat (stripe_parity s)) <$> seq 0 k) ++ replicate ((stripes - k) * (rs_parity_blocks_core parity * c)) zero_byte,
   concat ((fun s => crc_of 0 <$> row s) <$> seq 0 k) ++ replicate ((stripes - k) * (rs_data_blocks_core parity + rs_parity_blocks_core parity)) 0).

Lemma length_parities_done k : length (concat ((fun s => concat (stripe_parity s)) <$> seq 0 k)) = (k * (P * c))%nat.
Proof.
  rewrite (length_concat_const _ _ (P * c)%nat); [by rewrite length_seq|]. intros s _. rewrite (length_concat_cells c) by apply parity_cells. by rewrite length_stripe_parity.
Qed.

Lemma length_crcs_done k : length (concat ((fun s => crc_of 0 <$> row s) <$> seq 0 k)) = (k * (D + P))%nat.
Proof. rewrite (length_concat_const _ _ (D + P)%nat); [by rewrite length_seq|]. intros s _. by rewrite length_fmap, length_stripe_row. Qed.

Lemma concat_seq_S {A} (f : nat -> list A) k : concat (f <$> seq 0 (S k)) = concat (f <$> seq 0 k) ++ f k.
Proof. rewrite seq_S, fmap_app, concat_app. simpl. by rewrite app_nil_r. Qed.

(** Replacing the next zeros of a buffer. *)
Lemma overwrite_next {A} (l1 new : list A) (z : A) rest : overwrite (l1 ++ replicate (length new + rest) z) (length l1) new = l1 ++ new ++ replicate rest z.
Proof. rewrite replicate_add. apply overwrite_app. by rewrite length_replicate. Qed.

Lemma rs_stripe_ok k : (k < stripes)%nat -> rs_stripe r stripes D P (D + P) c (stripes_done k) k = Ok (stripes_done (S k)).
Proof.
  intros Hk. unfold stripes_done. fold D P. cbn [rs_stripe]. set (done_ := concat (_ <$> seq 0 k)). set (crcs := concat ((fun s => crc_of 0 <$> row s) <$> seq 0 k)).
  assert (Hdone : length done_ = (k * (P * c))%nat) by apply length_parities_done. assert (Hcrcs : length crcs = (k * (D + P))%nat) by apply length_crcs_done.
  assert (Hlen : length (padded ++ done_ ++ replicate ((stripes - k) * (P * c)) zero_byte) = (stripes * D * c + stripes * (P * c))%nat).
  { rewrite !length_app, length_replicate, length_padded, Hdone. nia. }
  rewrite mapM_sub_ok.
  2:{ intros d [_ Hd]%elem_of_seq. rewrite Hlen. pose proof (cell_fits stripes D c k d Hk Hd). lia. }
  cbn [mbind outcome_bind].
  replace ((fun d => take _ (drop _ (padded ++ _))) <$> seq 0 D) with (stripe k).
  2:{ apply list_fmap_ext. intros i d [-> Hd]%lookup_seq. unfold cell_at. fold D. simpl.
      pose proof (cell_fits stripes D c k i Hk Hd).
      rewrite drop_app_le by (rewrite length_padded; lia). rewrite take_app_le by (rewrite length_drop, length_padded; lia). f_equal. lia. }
  rewrite (set_crcs_ok (crc_of 0) (fun i => (D + P) * k + i)%nat ((D + P) * k)) by (first [done | apply length_stripe | rewrite length_app, length_replicate, length_stripe, Hcrcs; nia]). cbn [mbind outcome_bind].
  unfold ComputeParity, r. rewrite (checkBlockSize_ok parity (stripe k) c); [|by rewrite length_stripe | rewrite length_stripe; done | by apply stripe_cells | done].
  cbn [mbind outcome_bind]. fold (stripe_parity k).
  rewrite stores_ok by (first [apply length_stripe_parity | apply parity_cells | rewrite Hlen, length_stripe_parity; nia]). cbn [mbind outcome_bind].
  replace ((D + P) * k + 0)%nat with (length crcs) by lia. replace ((stripes - k) * (D + P))%nat with (length (crc_of 0 <$> stripe k) + (P + (stripes - S k) * (D + P)))%nat by (rewrite length_fmap, length_stripe; nia).
  rewrite overwrite_next.
  rewrite (set_crcs_ok (crc_of 0) (fun i => (D + P) * k + (D + i))%nat ((D + P) * k + D)); [|lia | apply length_stripe_parity |].
  2:{ rewrite !length_app, length_replicate, length_fmap, length_stripe, length_stripe_parity, Hcrcs. lia. }
  cbn [mbind outcome_bind]. f_equal. rewrite !concat_seq_S. f_equal.
  - rewrite app_assoc. replace (stripes * D * c + P * c * k + c * 0)%nat with (length (padded ++ done_)) by (rewrite length_app, length_padded, Hdone; lia).
    replace ((stripes - k) * (P * c))%nat with (length (concat (stripe_parity k)) + (stripes - S k) * (P * c))%nat by (rewrite (length_concat_cells c), length_stripe_parity by apply parity_cells; nia).
    rewrite overwrite_next. by rewrite <- !app_assoc.
  - rewrite app_assoc. replace ((D + P) * k + D + 0)%nat with (length (crcs ++ (crc_of 0 <$> stripe k))) by (rewrite length_app, length_fmap, length_stripe, Hcrcs; lia).
    replace P with (length (crc_of 0 <$> stripe_parity k)) at 1 by (rewrite length_fmap; apply length_stripe_parity).
    rewrite overwrite_next. unfold row. rewrite fmap_app. by rewrite <- !app_assoc.
Qed.

(** * The blocks of a span *)

Definition block_of (b : nat) : list byte := concat ((fun s => row s !!! b) <$> seq 0 stripes).
Definition data_blocks : matrix := block_of <$> seq 0 (rs_data_blocks_core parity).
Definition span_blocks : matrix := data_blocks ++ rs_compute_parity (rs_new_core parity) (stripes * c) data_blocks.

Lemma row_data s d : (d < D)%nat -> row s !!! d = cell_at s d.
Proof. intros Hd. unfold row. rewrite lookup_total_app_l by (by rewrite length_stripe). by apply fmap_seq_total. Qed.

Lemma row_parity s p : (p < P)%nat -> row s !!! (D + p)%nat = rs_compute_parity_single r (stripe s) p <$> seq 0 c.
Proof.
  intros Hp. unfold row. rewrite lookup_total_app_r by (rewrite length_stripe; lia). rewrite length_stripe. replace (D + p - D)%nat with p by lia.
  exact (fmap_seq_total (fun p => rs_compute_parity_single r (stripe s) p <$> seq 0 c) P p Hp).
Qed.

Lemma row_cell s b : (s < stripes)%nat -> (b < D + P)%nat -> length (row s !!! b) = c.
Proof.
  intros Hs Hb. destruct (decide (b < D)%nat); [rewrite row_data by done; by apply length_cell|]. replace b with (D + (b - D))%nat by lia.
  rewrite row_parity by lia. by rewrite length_fmap, length_seq.
Qed.

Lemma block_cells b : (b < D + P)%nat -> Forall (fun x => length x = c) ((fun s => row s !!! b) <$> seq 0 stripes).
Proof. intros Hb. apply Forall_fmap, Forall_forall. intros s [_ Hs]%elem_of_seq. by apply row_cell. Qed.

Lemma length_block_of b : (b < D + P)%nat -> length (block_of b) = (stripes * c)%nat.
Proof. intros Hb. unfold block_of. rewrite (length_concat_cells c) by (by apply block_cells). by rewrite length_fmap, length_seq. Qed.

Lemma block_byte_at b s k : (b < D + P)%nat -> (s < stripes)%nat -> (k < c)%nat -> block_of b !!! (c * s + k)%nat = (row s !!! b) !!! k.
Proof.
  intros Hb Hs Hk. unfold block_of. rewrite concat_lookup_total by (first [by apply block_cells | by rewrite length_fmap, length_seq | done]).
  by rewrite (fmap_seq_total (fun s => row s !!! b)).
Qed.

Lemma column_blocks s k : (s < stripes)%nat -> (k < c)%nat -> column data_blocks (c * s + k) = column (stripe s) k.
Proof.
  intros Hs Hk. unfold column, data_blocks, stripe. rewrite <- !list_fmap_compose. apply list_fmap_ext. intros ? d [-> Hd]%lookup_seq. unfold compose. simpl.
  rewrite block_byte_at, row_data by (done || (fold D; lia)). done.
Qed.

(** The parity blocks are the parities of the data blocks. *)
Lemma span_blocks_at b : (b < D + P)%nat -> span_blocks !!! b = block_of b.
Proof.
  intros Hb. unfold span_blocks. assert (Hl : length data_blocks = D) by (unfold data_blocks; by rewrite length_fmap, length_seq).
  destruct (decide (b < D)%nat) as [Hlt|Hge]; [rewrite lookup_total_app_l by lia; by apply fmap_seq_total|].
  rewrite lookup_total_app_r by lia. rewrite Hl. replace b with (D + (b - D))%nat at 2 by lia. set (p := (b - D)%nat). assert (Hp : (p < P)%nat) by (unfold p; lia).
  etransitivity; [exact (fmap_seq_total (fun p => rs_compute_parity_single r data_blocks p <$> seq 0 (stripes * c)) P p Hp)|].
  rewrite <- concat_positions. unfold block_of. f_equal. apply list_fmap_ext. intros ? s [-> Hs]%lookup_seq. simpl. rewrite row_parity by done. apply list_fmap_ext.
  intros ? k [-> Hk]%lookup_seq. simpl. unfold rs_compute_parity_single. by rewrite column_blocks.
Qed.

Lemma length_span_blocks : length span_blocks = (D + P)%nat.
Proof. unfold span_blocks, data_blocks, rs_compute_parity. by rewrite length_app, !length_fmap, !length_seq. Qed.

(** The data, stripe by stripe. *)
Lemma padded_cells : padded = concat ((fun s => concat (stripe s)) <$> seq 0 stripes).
Proof.
  transitivity (concat ((fun s => take (D * c) (drop (0 + (D * c) * s) padded)) <$> seq 0 stripes)).
  - rewrite concat_chunks, drop_0. symmetry. apply take_ge. rewrite length_padded. lia.
  - f_equal. apply list_fmap_ext. intros ? s _. unfold stripe, cell_at. fold D. rewrite (concat_chunks _ (D * c * s)). f_equal. lia.
Qed.

End layout.

(** * The request and its readers *)

Record valid_params (params : SpanParameters) : Prop := {
  vp_parity : is_u8 (sp_Parity params);
  vp_data : 1 <= DataBlocks (sp_Parity params);
  vp_code : 2 <= DataBlocks (sp_Parity params) -> 1 <= ParityBlocks (sp_Parity params);
  vp_stripes : 1 <= sp_Stripes params <= 15;
  vp_cell : 0 < sp_CellSize params < 2 ^ 32 }.

Section span.
Context (params : SpanParameters) (data : list byte).
Let parity := sp_Parity params.
Let stripes := Z.to_nat (sp_Stripes params).
Let c := Z.to_nat (sp_CellSize params).
Let D := rs_data_blocks_core parity.
Let P := rs_parity_blocks_core parity.
Context (Hv : valid_params params) (Hfit : (length data <= stripes * D * c)%nat).

Definition blocks_of : matrix :=
  if (rs_data_blocks_core (sp_Parity params) =? 1)%nat
  then replicate (1 + rs_parity_blocks_core (sp_Parity params)) (padded (sp_Parity params) (Z.to_nat (sp_Stripes params)) (Z.to_nat (sp_CellSize params)) data)
  else span_blocks (sp_Parity params) (Z.to_nat (sp_Stripes params)) (Z.to_nat (sp_CellSize params)) data.

Lemma cell_pos : (0 < c)%nat.
Proof. clear Hfit. destruct Hv. unfold c. lia. Qed.

Lemma blocks_nat : Z.to_nat (Blocks parity) = (D + P)%nat.
Proof.
  clear Hfit. destruct Hv as [[Hp _] Hd _ _ _]. unfold Blocks. fold parity in Hd, Hp. assert (0 <= ParityBlocks parity) by (unfold ParityBlocks; by apply Z.shiftr_nonneg). by rewrite Z2Nat.inj_add by lia.
Qed.

Definition reader_content (r : blockReader) : list byte :=
  concat ((fun k => take (Z.to_nat (br_cellSize r)) (drop (k * Z.to_nat (br_stride r)) (br_data r))) <$> seq 0 (Z.to_nat (br_cells r))).

Definition source_content (src : block_source) : list byte := match src with Whole d => d | Strided r => reader_content r end.

(** The checksum of a block from those of its cells. *)
Lemma block_crc_ok (crcs : list Z) B b (cells : nat -> list byte) n : (forall s, (s < n)%nat -> crcs !! (B * s + b)%nat = Some (crc_of 0 (cells s)) /\ length (cells s) = c) ->
  foldM_outcome (fun blockCrc s => let! crc := index crcs (B * s + b) in @Append rs_error blockCrc crc (Z.of_nat c)) 0 (seq 0 n) = Ok (crc_of 0 (concat (cells <$> seq 0 n))).
Proof.
  clear Hfit. intros H. set (f := fun (blockCrc : Z) (s : nat) => _). transitivity (foldM_outcome f (crc_of 0 (concat (cells <$> seq 0 0))) (seq 0 n)); [done|].
  apply (foldM_invariant f (fun k => crc_of 0 (concat (cells <$> seq 0 k)))). intros k Hk. unfold f. destruct (H k Hk) as [Hcrc Hlen].
  unfold index. rewrite Hcrc. cbn [mbind outcome_bind]. unfold Append. rewrite (proj2 (Z.ltb_ge _ 0)) by lia. f_equal. rewrite concat_seq_S, crc_of_app.
  rewrite <- Hlen. apply append_ok; [by apply crc_of_u32|]. rewrite Hlen. destruct Hv. unfold is_u64, c. lia.
Qed.

Context (room room' : list byte) (blacklist : list Z) (id cookie offset size : Z) (spare : list byte).
Context (Hsize : Z.of_nat (length data) <= size < 2 ^ 32).

(** The bytes a reader of the span is to get. *)
Definition span_bytes : list byte := data ++ replicate (Z.to_nat (size - Z.of_nat (length data))) zero_byte.

Definition request (crcs : list Z) : AddSpanInitiateReq :=
  mkAddSpanInitiateReq id cookie offset size (crc_of 0 span_bytes) (sp_StorageClass params) blacklist (sp_Parity params) (sp_Stripes params) (sp_CellSize params) crcs.

Lemma request_ok crcs : mkAddSpanInitiateReq id cookie offset size (ZeroExtend (crc_of 0 data) (size - Z.of_nat (length data))) (sp_StorageClass params) blacklist (sp_Parity params)
  (wrap8 (sp_Stripes params)) (wrap32 (sp_CellSize params)) crcs = request crcs.
Proof.
  destruct Hv as [_ _ _ Hs Hc]. unfold request, span_bytes, wrap8, wrap32. rewrite !Z.mod_small by lia. f_equal.
  rewrite crc_of_app, <- (zero_extend_ok true) by (first [by apply crc_of_u32 | unfold is_u64; lia]). unfold ZeroExtend. f_equal. lia.
Qed.

Lemma prepare_code : (2 <= D)%nat -> exists buf,
  prepareSpanInitiateReqWithParams room room' blacklist params id cookie offset size (mkBuffer data spare) = Ok (request (stripes_done parity stripes c data stripes).2, buf) /\
  b_bytes buf = (stripes_done parity stripes c data stripes).1.
Proof.
  intros HD. unfold prepareSpanInitiateReqWithParams. cbn [b_bytes]. rewrite (proj2 (Z.ltb_ge _ _)) by lia. pose proof blocks_nat as HB. unfold parity in HB. rewrite HB.
  change (Z.to_nat (DataBlocks (sp_Parity params))) with D. change (Z.to_nat (ParityBlocks (sp_Parity params))) with P. fold stripes c.
  destruct (ensureLen_ok (mkBuffer data spare) (stripes * D * c) room Hfit) as (spare1 & ->). cbn [mbind outcome_bind b_bytes].
  rewrite (proj2 (Nat.eqb_neq D 1)) by lia. pose proof (length_padded parity stripes c data Hfit) as Hlp. unfold padded in Hlp. fold D in Hlp.
  destruct (ensureLen_ok (mkBuffer (data ++ replicate (stripes * D * c - length data) zero_byte) spare1) (c * stripes * (D + P)) room') as (spare2 & ->); [cbn [b_bytes]; rewrite Hlp; nia|].
  cbn [mbind outcome_bind b_bytes]. rewrite Hlp. unfold ReedSolomon.Get. fold parity D P. rewrite (proj2 (Nat.ltb_ge D 2)) by done.
  assert (HP : (1 <= P)%nat).
  { destruct Hv as [_ _ Hcode _ _]. specialize (Hcode ltac:(change (DataBlocks (sp_Parity params)) with (Z.land parity 0x0F); unfold D, rs_data_blocks_core in HD; lia)).
    unfold P, rs_parity_blocks_core. change (Z.shiftr parity 4) with (ParityBlocks (sp_Parity params)). lia. }
  rewrite (proj2 (Nat.ltb_ge P 1)) by done. cbn [mbind outcome_bind].
  assert (H0 : ((data ++ replicate (stripes * D * c - length data) zero_byte) ++ replicate (c * stripes * (D + P) - stripes * D * c) zero_byte, replicate ((D + P) * stripes) 0) = stripes_done parity stripes c data 0).
  { unfold stripes_done. simpl. unfold padded. fold D P. f_equal; [do 2 f_equal; nia | f_equal; lia]. }
  rewrite H0. rewrite (foldM_invariant _ (stripes_done parity stripes c data)) by (intros k Hk; apply rs_stripe_ok; [done | apply cell_pos | done | done]).
  cbn [mbind outcome_bind]. eexists. rewrite request_ok. split; [done|done].
Qed.

Lemma prepare_mirror : D = 1%nat -> exists buf,
  prepareSpanInitiateReqWithParams room room' blacklist params id cookie offset size (mkBuffer data spare) =
    Ok (request (concat ((fun s => replicate (1 + P) (crc_of 0 (take c (drop (s * c) (padded parity stripes c data))))) <$> seq 0 stripes)), buf) /\
  b_bytes buf = padded parity stripes c data.
Proof.
  intros HD. unfold prepareSpanInitiateReqWithParams. cbn [b_bytes]. rewrite (proj2 (Z.ltb_ge _ _)) by lia. pose proof blocks_nat as HB. unfold parity in HB. rewrite HB.
  change (Z.to_nat (DataBlocks (sp_Parity params))) with D. fold stripes c.
  destruct (ensureLen_ok (mkBuffer data spare) (stripes * D * c) room Hfit) as (spare1 & ->). cbn [mbind outcome_bind b_bytes]. rewrite (proj2 (Nat.eqb_eq D 1)) by done.
  set (bytes := data ++ _). assert (Hb : bytes = padded parity stripes c data) by done. assert (Hlb : length bytes = (stripes * c)%nat) by (rewrite Hb, length_padded by done; fold D; nia).
  set (st k := concat ((fun s => replicate (1 + P) (crc_of 0 (take c (drop (s * c) bytes)))) <$> seq 0 k) ++ replicate ((stripes - k) * (1 + P)) 0).
  assert (Hst : forall k, (k < stripes)%nat -> mirror_stripe (D + P) c bytes (st k) k = Ok (st (S k))).
  { intros k Hk. unfold mirror_stripe. rewrite sub_ok by nia. cbn [mbind outcome_bind]. replace ((k + 1) * c - k * c)%nat with c by nia. unfold st. set (v := crc_of 0 _).
    assert (Hl : length (concat ((fun s => replicate (1 + P) (crc_of 0 (take c (drop (s * c) bytes)))) <$> seq 0 k)) = (k * (1 + P))%nat).
    { rewrite (length_concat_const _ _ (1 + P)%nat), length_seq; [done|]. intros. by rewrite length_replicate. }
    rewrite set_same_ok by (rewrite length_app, length_replicate, Hl; nia). f_equal. rewrite concat_seq_S, <- app_assoc. rewrite HD.
    replace ((1 + P) * k + 0)%nat with (length (concat ((fun s => replicate (1 + P) (crc_of 0 (take c (drop (s * c) bytes)))) <$> seq 0 k))) by lia.
    replace ((stripes - k) * (1 + P))%nat with (length (replicate (1 + P) v) + (stripes - S k) * (1 + P))%nat by (rewrite length_replicate; nia). apply overwrite_next. }
  replace (replicate ((D + P) * stripes) 0) with (st 0%nat) by (unfold st; simpl; f_equal; nia). rewrite (foldM_invariant _ st) by done. cbn [mbind outcome_bind].
  eexists. rewrite request_ok. unfold st. rewrite Nat.sub_diag, app_nil_r, Hb. split; [done|]. cbn [b_bytes]. done.
Qed.

Lemma crcs_lookup s b : (s < stripes)%nat -> (b < D + P)%nat ->
  (stripes_done parity stripes c data stripes).2 !! ((D + P) * s + b)%nat = Some (crc_of 0 (row parity stripes c data s !!! b)).
Proof.
  clear Hv Hfit Hsize. intros Hs Hb. unfold stripes_done. cbn [snd]. rewrite Nat.sub_diag, app_nil_r. set (f := fun s => _).
  assert (Hf : Forall (fun x => length x = (D + P)%nat) (f <$> seq 0 stripes)).
  { apply Forall_fmap, Forall_forall. intros k _. unfold compose, f. by rewrite length_fmap, length_stripe_row. }
  rewrite list_lookup_lookup_total_lt.
  - f_equal. rewrite concat_lookup_total by (first [done | by rewrite length_fmap, length_seq]). rewrite (fmap_seq_total f) by done. unfold f.
    destruct (lookup_lt_is_Some_2 (row parity stripes c data s) b) as [x Hx]; [by rewrite length_stripe_row|]. rewrite (list_lookup_total_correct _ _ _ Hx).
    apply list_lookup_total_correct. by rewrite list_lookup_fmap, Hx.
  - rewrite (length_concat_const _ _ (D + P)%nat), length_seq; [nia|]. intros. unfold f. by rewrite length_fmap, length_stripe_row.
Qed.

(** The pieces a strided reader goes through. *)
Lemma strided_content cells cs stride bytes : reader_content (mkBlockReader_ (Z.of_nat cells) (Z.of_nat cs) (Z.of_nat stride) bytes 0) = concat ((fun k => take cs (drop (k * stride) bytes)) <$> seq 0 cells).
Proof. unfold reader_content. cbn [br_cells br_cellSize br_stride br_data]. by rewrite !Nat2Z.id. Qed.

Lemma data_piece k b : (2 <= D)%nat -> (k < stripes)%nat -> (b < D)%nat ->
  take c (drop (k * (c * D)) (drop (b * c) (stripes_done parity stripes c data stripes).1)) = row parity stripes c data k !!! b.
Proof.
  clear Hv Hsize. intros HD Hk Hb. rewrite row_data by done. unfold stripes_done, cell_at. cbn [fst]. fold D. rewrite drop_drop. pose proof (cell_fits stripes D c k b Hk Hb).
  replace (b * c + k * (c * D))%nat with (D * c * k + c * b)%nat by lia. pose proof (length_padded parity stripes c data Hfit) as Hlp. fold D in Hlp.
  rewrite drop_app_le by lia. rewrite take_app_le by (rewrite length_drop; lia). done.
Qed.

Lemma parity_piece k p : (2 <= D)%nat -> (k < stripes)%nat -> (p < P)%nat ->
  take c (drop (k * (c * P)) (drop (D * stripes * c + p * c) (stripes_done parity stripes c data stripes).1)) = row parity stripes c data k !!! (D + p)%nat.
Proof.
  clear Hv Hsize. intros HD Hk Hp. unfold stripes_done. cbn [fst]. fold D P. pose proof (length_padded parity stripes c data Hfit) as Hlp. fold D in Hlp. rewrite drop_drop, Nat.sub_diag, app_nil_r.
  rewrite drop_app_ge by lia. rewrite Hlp. replace (D * stripes * c + p * c + k * (c * P) - stripes * D * c)%nat with (P * c * k + c * p)%nat by lia.
  set (f := fun s => concat (stripe_parity parity stripes c data s)).
  assert (Hf : Forall (fun x => length x = (P * c)%nat) (f <$> seq 0 stripes)).
  { apply Forall_fmap, Forall_forall. intros s _. unfold compose, f. rewrite (length_concat_cells c) by apply parity_cells. by rewrite length_stripe_parity. }
  rewrite concat_piece by (first [done | by rewrite length_fmap, length_seq | nia]). rewrite (fmap_seq_total f) by done. unfold f.
  rewrite concat_piece_whole by (first [apply parity_cells | by rewrite length_stripe_parity]).
  unfold row. rewrite lookup_total_app_r by (rewrite length_stripe; lia). rewrite length_stripe. f_equal. fold D. lia.
Qed.

End span.

(** * Reading a block *)

Inductive reads : blockReader -> list byte -> blockReader -> Prop :=
| reads_none r : reads r [] r
| reads_more r p out r' rest r'' : blockReader_Read r p = Ok (out, r') -> reads r' rest r'' -> reads r (out ++ rest) r''.

(** What is read is the content in order: never past its end, and more of it as
    long as there is some. *)
Definition delivers (src : block_source) (content : list byte) : Prop :=
  match src with
  | Whole d => d = content
  | Strided r =>
      br_cursor r = 0 /\
      forall out r', reads r out r' -> exists rest, content = out ++ rest /\
        forall p, (0 < p)%nat ->
          match blockReader_Read r' p with
          | Ok (more, _) => more <> [] /\ more `prefix_of` rest
          | Err e => e = EndOfFile /\ rest = []
          | Panic => False
          end
  end.

Section reader.
Context (cells cs stride : nat) (bytes : list byte) (Hcs : (0 < cs)%nat).
Context (Hfits : forall k, (k < cells)%nat -> (k * stride + cs <= length bytes)%nat).

Let at_cursor (n : nat) : blockReader := mkBlockReader_ (Z.of_nat cells) (Z.of_nat cs) (Z.of_nat stride) bytes (Z.of_nat n).
Let pieces : list (list byte) := (fun k => take cs (drop (k * stride) bytes)) <$> seq 0 cells.

Lemma pieces_length : Forall (fun x => length x = cs) pieces.
Proof. apply Forall_fmap, Forall_forall. intros k [_ Hk]%elem_of_seq. unfold compose. rewrite length_take, length_drop. specialize (Hfits k Hk). lia. Qed.

Lemma length_pieces : length (concat pieces) = (cells * cs)%nat.
Proof. rewrite (length_concat_cells cs) by apply pieces_length. unfold pieces. by rewrite length_fmap, length_seq. Qed.

Lemma read_at n p : (n < cells * cs)%nat -> exists q, (0 < q)%nat /\
  blockReader_Read (at_cursor n) p = Ok (take (p `min` q) (drop n (concat pieces)), at_cursor (n + length (take (p `min` q) (drop n (concat pieces))))).
Proof.
  intros Hn. exists (cs - n mod cs)%nat. pose proof (Nat.mod_upper_bound n cs ltac:(lia)) as Hm. pose proof (Nat.div_mod_eq n cs) as Hd. split; [lia|].
  assert (Hk : (n / cs < cells)%nat) by (apply Nat.Div0.div_lt_upper_bound; lia). pose proof (Hfits _ Hk) as Hfk.
  unfold blockReader_Read, at_cursor. cbn [br_cursor br_cells br_cellSize br_stride br_data]. rewrite (proj2 (Z.ltb_ge _ 0)), (proj2 (Z.leb_gt _ _)) by lia. cbn [orb].
  rewrite <- Nat2Z.inj_div, <- Nat2Z.inj_mod. replace (Z.to_nat (Z.of_nat (n / cs) * Z.of_nat stride + Z.of_nat (n mod cs))) with (n / cs * stride + n mod cs)%nat by lia.
  replace (Z.to_nat (Z.of_nat (n / cs) * Z.of_nat stride + Z.of_nat cs)) with (n / cs * stride + cs)%nat by lia.
  rewrite sub_ok by lia. cbn [mbind outcome_bind]. replace (n / cs * stride + cs - (n / cs * stride + n mod cs))%nat with (cs - n mod cs)%nat by lia.
  assert (Heq : take p (take (cs - n mod cs) (drop (n / cs * stride + n mod cs) bytes)) = take (p `min` (cs - n mod cs)) (drop n (concat pieces))).
  { rewrite take_take. replace (drop n (concat pieces)) with (drop (cs * (n / cs) + n mod cs) (concat pieces)) by (by rewrite <- Hd). rewrite concat_piece by (first [apply pieces_length | unfold pieces; by rewrite length_fmap, length_seq | lia]).
    unfold pieces. rewrite (fmap_seq_total (fun k => take cs (drop (k * stride) bytes))) by done.
    rewrite skipn_firstn_comm, take_take, drop_drop. f_equal. lia. }
  rewrite Heq. do 2 f_equal. f_equal. lia.
Qed.

Lemma read_end n p : (cells * cs <= n)%nat -> blockReader_Read (at_cursor n) p = Err EndOfFile.
Proof. intros Hn. unfold blockReader_Read, at_cursor. cbn [br_cursor br_cells br_cellSize]. rewrite (proj2 (Z.leb_le _ _)) by lia. by rewrite orb_true_r. Qed.

Lemma reads_at r out r' : reads r out r' -> forall n, r = at_cursor n -> (n <= cells * cs)%nat ->
  exists n', r' = at_cursor n' /\ (n' <= cells * cs)%nat /\ drop n (concat pieces) = out ++ drop n' (concat pieces).
Proof.
  induction 1 as [r|r p out r' rest r'' Hread _ IH]; intros n -> Hn; [by exists n|].
  destruct (decide (n < cells * cs)%nat) as [Hlt|Hge]; [|by rewrite read_end in Hread by lia].
  destruct (read_at n p Hlt) as (q & Hq & E). rewrite E in Hread. injection Hread as <- <-. set (m := (p `min` q)%nat) in *.
  destruct (IH _ eq_refl) as (n' & -> & Hn' & Hd); [rewrite length_take, length_drop, length_pieces; lia|]. exists n'. split_and!; [done|done|].
  rewrite <- app_assoc, <- Hd. rewrite <- drop_drop. rewrite <- (take_drop m (drop n (concat pieces))) at 1. f_equal.
  rewrite length_take. destruct (decide (m <= length (drop n (concat pieces)))%nat); [by rewrite Nat.min_l|]. rewrite Nat.min_r by lia. by rewrite !drop_ge by lia.
Qed.

Lemma strided_delivers : delivers (Strided (at_cursor 0)) (concat pieces).
Proof.
  split; [done|]. intros out r' Hr. destruct (reads_at _ _ _ Hr 0 eq_refl ltac:(lia)) as (n' & -> & Hn' & Hd). rewrite drop_0 in Hd.
  exists (drop n' (concat pieces)). split; [done|]. intros p Hp. destruct (decide (n' < cells * cs)%nat) as [Hlt|Hge].
  - destruct (read_at n' p Hlt) as (q & Hq & ->). split; [|apply prefix_take]. intros E. apply (f_equal length) in E. rewrite length_take, length_drop, length_pieces in E. simpl in E. lia.
  - rewrite read_end by lia. split; [done|]. apply drop_ge. rewrite length_pieces. lia.
Qed.

End reader.

(** * Claims *)

Section claims.
Context (params : SpanParameters) (data : list byte) (blacklist : list Z) (id cookie offset size : Z).
Let parity := sp_Parity params.
Let stripes := Z.to_nat (sp_Stripes params).
Let c := Z.to_nat (sp_CellSize params).
Let D := rs_data_blocks_core parity.
Let P := rs_parity_blocks_core parity.
Context (Hv : valid_params params) (Hfit : (length data <= stripes * D * c)%nat).

Lemma code_reader b : (2 <= D)%nat -> (b < D + P)%nat ->
  exists src, mkBlockReader (request params data blacklist id cookie offset size (stripes_done parity stripes c data stripes).2) (stripes_done parity stripes c data stripes).1 b
    = Ok (crc_of 0 (blocks_of params data !!! b), src) /\ delivers src (blocks_of params data !!! b).
Proof.
  intros HD Hb. assert (Hbl : blocks_of params data !!! b = block_of parity stripes c data b).
  { unfold blocks_of. fold parity D. rewrite (proj2 (Nat.eqb_neq D 1)) by lia. apply span_blocks_at; [done | by apply cell_pos | done | done]. }
  rewrite Hbl. unfold mkBlockReader, request. cbn [as_Parity as_Stripes as_CellSize as_Crcs]. pose proof (blocks_nat params Hv) as HB. rewrite HB. clear HB.
  change (Z.to_nat (DataBlocks (sp_Parity params))) with D. change (Z.to_nat (ParityBlocks (sp_Parity params))) with P. fold parity D P stripes c.
  rewrite (block_crc_ok params Hv _ (D + P) b (fun s => row parity stripes c data s !!! b) stripes).
  2:{ intros s Hs. split; [by apply crcs_lookup | apply row_cell; [done | by apply cell_pos | done | done | done]]. }
  cbn [mbind outcome_bind]. rewrite (proj2 (Nat.eqb_neq D 1)) by lia. unfold block_of. set (full := (stripes_done parity stripes c data stripes).1).
  pose proof (cell_pos params Hv) as Hc. fold c in Hc.
  assert (Hlen : length full = (stripes * D * c + stripes * (P * c))%nat).
  { unfold full, stripes_done. cbn [fst]. rewrite !length_app, length_padded by done. rewrite (length_parities_done parity stripes c data) by done. rewrite length_replicate. fold D P. lia. }
  assert (1 <= stripes)%nat by (destruct Hv; unfold stripes; lia).
  destruct (Nat.ltb_spec b D) as [Hlt|Hge].
  - assert (b * c <= D * c /\ D * c <= stripes * D * c)%nat by (split; nia).
    rewrite sub_to_end by (rewrite Hlen; lia). cbn [mbind outcome_bind]. eexists. split; [done|].
    replace ((fun s => row parity stripes c data s !!! b) <$> seq 0 stripes) with ((fun k => take c (drop (k * (c * D)) (drop (b * c) full))) <$> seq 0 stripes).
    2:{ apply list_fmap_ext. intros ? k [-> Hk]%lookup_seq. apply data_piece; done. }
    apply strided_delivers; [done|]. intros k Hk. rewrite length_drop, Hlen. pose proof (cell_fits stripes D c k b Hk Hlt). nia.
  - assert ((b - D) * c <= P * c /\ P * c <= stripes * (P * c))%nat by (split; nia).
    rewrite sub_to_end by (rewrite Hlen; lia). cbn [mbind outcome_bind]. eexists. split; [done|].
    replace ((fun s => row parity stripes c data s !!! b) <$> seq 0 stripes) with ((fun k => take c (drop (k * (c * P)) (drop (D * stripes * c + (b - D) * c) full))) <$> seq 0 stripes).
    2:{ apply list_fmap_ext. intros ? k [-> Hk]%lookup_seq. simpl. rewrite (parity_piece params data Hfit) by (done || (fold parity P D; lia)). fold parity D stripes c. f_equal. lia. }
    apply strided_delivers; [done|]. intros k Hk. rewrite length_drop, Hlen. pose proof (cell_fits stripes P c k (b - D) Hk ltac:(lia)). nia.
Qed.

Lemma mirror_reader b : D = 1%nat -> (b < 1 + P)%nat ->
  exists src, mkBlockReader (request params data blacklist id cookie offset size (concat ((fun s => replicate (1 + P) (crc_of 0 (take c (drop (s * c) (padded parity stripes c data))))) <$> seq 0 stripes)))
    (padded parity stripes c data) b = Ok (crc_of 0 (blocks_of params data !!! b), src) /\ delivers src (blocks_of params data !!! b).
Proof.
  intros HD Hb. assert (Hbl : blocks_of params data !!! b = padded parity stripes c data).
  { unfold blocks_of. fold parity D. rewrite (proj2 (Nat.eqb_eq D 1)) by done. apply list_lookup_total_correct, lookup_replicate_2. exact Hb. }
  rewrite Hbl. unfold mkBlockReader, request. cbn [as_Parity as_Stripes as_CellSize as_Crcs]. pose proof (blocks_nat params Hv) as HB. rewrite HB. clear HB.
  change (Z.to_nat (DataBlocks (sp_Parity params))) with D. fold parity D P stripes c. pose proof (length_padded parity stripes c data Hfit) as Hlp. fold D in Hlp.
  rewrite (block_crc_ok params Hv _ (D + P) b (fun s => take c (drop (s * c) (padded parity stripes c data))) stripes).
  2:{ intros s Hs. fold c. split; [|rewrite length_take, length_drop, Hlp; nia]. rewrite HD. set (f := fun s => replicate _ _).
      assert (Hf : Forall (fun x => length x = (1 + P)%nat) (f <$> seq 0 stripes)) by (apply Forall_fmap, Forall_forall; intros; apply length_replicate).
      rewrite list_lookup_lookup_total_lt; [|rewrite (length_concat_const _ _ (1 + P)%nat), length_seq by (intros; apply length_replicate); nia].
      rewrite concat_lookup_total by (first [done | by rewrite length_fmap, length_seq]). rewrite (fmap_seq_total f) by done. f_equal. apply list_lookup_total_correct. apply lookup_replicate_2. exact Hb. }
  cbn [mbind outcome_bind]. rewrite (proj2 (Nat.eqb_eq D 1)) by done. exists (Whole (padded parity stripes c data)). split; [|done]. do 3 f_equal.
  etransitivity; [|apply (take_ge _ (c * stripes)%nat); nia]. etransitivity; [|apply (concat_chunks _ 0)].
  f_equal. apply list_fmap_ext. intros ? s _. simpl. do 2 f_equal. lia.
Qed.

End claims.

(** C4: the blocks of a span. Whatever the data and the parameters, preparing a
    span that fits gives a request with the checksum of the data and its
    trailing zeros, and for each of its blocks a checksum and a reader: the
    reader delivers the block, in order and to its end, the checksum is that of
    the block; the data blocks hold the cells of the padded data stripe by
    stripe and the parity blocks are the parities of the data blocks (or every
    block is the padded data, for mirroring). *)
Theorem span_layout (params : SpanParameters) (data spare room room' : list byte) (blacklist : list Z) (id cookie offset size : Z) :
  valid_params params ->
  (length data <= Z.to_nat (sp_Stripes params) * rs_data_blocks_core (sp_Parity params) * Z.to_nat (sp_CellSize params))%nat ->
  Z.of_nat (length data) <= size < 2 ^ 32 ->
  exists req buf, prepareSpanInitiateReqWithParams room room' blacklist params id cookie offset size (mkBuffer data spare) = Ok (req, buf) /\
    as_Crc req = crc_of 0 (data ++ replicate (Z.to_nat (size - Z.of_nat (length data))) zero_byte) /\
    forall b, (b < rs_blocks_core (sp_Parity params))%nat ->
      exists src, mkBlockReader req (b_bytes buf) b = Ok (crc_of 0 (blocks_of params data !!! b), src) /\ delivers src (blocks_of params data !!! b).
Proof.
  intros Hv Hfit Hsize. destruct (decide (rs_data_blocks_core (sp_Parity params) = 1)%nat) as [HD|HD].
  - destruct (prepare_mirror params data Hv Hfit room room' blacklist id cookie offset size spare Hsize HD) as (buf & -> & Hbuf). eexists _, buf. split; [done|]. split; [done|].
    intros b Hb. rewrite Hbuf. apply mirror_reader; try done. unfold rs_blocks_core in Hb. lia.
  - assert (2 <= rs_data_blocks_core (sp_Parity params))%nat.
    { destruct Hv as [_ Hd _ _ _]. unfold rs_data_blocks_core in *. unfold DataBlocks in Hd. lia. }
    destruct (prepare_code params data Hv Hfit room room' blacklist id cookie offset size spare Hsize) as (buf & -> & Hbuf); [done|]. eexists _, buf. split; [done|]. split; [done|].
    intros b Hb. rewrite Hbuf. by apply code_reader.
Qed.

Lemma span_layout_witness : exists req buf,
  prepareSpanInitiateReqWithParams [] [] [] (mkSpanParameters 0x12 2 2 2) 7 8 0 9 (mkBuffer (byte_of <$> [1; 2; 3; 4; 5]) []) = Ok (req, buf) /\
  as_Crc req = crc_of 0 ((byte_of <$> [1; 2; 3; 4; 5]) ++ replicate (Z.to_nat (9 - Z.of_nat (length (byte_of <$> [1; 2; 3; 4; 5])))) zero_byte).
Proof.
  destruct (span_layout (mkSpanParameters 0x12 2 2 2) (byte_of <$> [1; 2; 3; 4; 5]) [] [] [] [] 7 8 0 9) as (req & buf & H1 & H2 & _);
    [constructor; vm_compute; intuition congruence | vm_compute; lia | vm_compute; intuition congruence |].
  exists req, buf. split; [exact H1 | exact H2].
Defined.

(** The parities of a policy, as [MkParity] accepts them. *)
Definition policy_parities (p : SpanPolicy) : Prop :=
  Forall (fun e => is_u8 (SpanPolicyEntry_Parity e) /\ (2 <= DataBlocks (SpanPolicyEntry_Parity e) -> 1 <= ParityBlocks (SpanPolicyEntry_Parity e))) (SpanPolicy_Entries p).

Lemma index_elem {E A} (l : list A) i x : @index E A l i = Ok x -> x ∈ l.
Proof. unfold index. destruct (l !! i) eqn:Hi; intros H; [|done]. injection H as <-. by eapply list_elem_of_lookup_2. Qed.

Lemma pick_elem p size e : SpanPolicy_Pick p size = Ok e -> e ∈ SpanPolicy_Entries p.
Proof.
  unfold SpanPolicy_Pick. case_decide; [done|]. destruct (index (SpanPolicy_Entries p) (length (SpanPolicy_Entries p) - 1)) as [e'| |]; cbn [mbind outcome_bind]; try done.
  destruct (SpanPolicyEntry_MaxSize e' <? size); [done|]. destruct (last_index _ _ _); apply index_elem.
Qed.

Lemma stripes_bounds p size n : StripePolicy_Stripes p size = Ok n -> 1 <= n <= 15.
Proof.
  unfold StripePolicy_Stripes. destruct (_ =? 0); [done|]. intros H. injection H as <-. unfold wrap8. set (s := size / _). rewrite Z.mod_small; destruct (Z.ltb_spec s 1), (Z.ltb_spec 15 s); simpl; try lia.
  all: destruct (Z.ltb_spec 15 1); lia.
Qed.

(** Rounding up twice. *)
Lemma round_up_bounds a n : 0 <= a -> 0 < n -> a <= n * ((a + n - 1) / n) <= a + n - 1.
Proof. intros Ha Hn. pose proof (Z.div_mod (a + n - 1) n ltac:(lia)). pose proof (Z.mod_pos_bound (a + n - 1) n Hn). lia. Qed.

(** C34: the size of the cells. The parameters computed for a span make cells of
    whole pages and stripes within their bounds, room for all of the data, and
    less padding than a page for each cell; nothing overflows for spans that
    leave a megabyte below 2^32. *)
Theorem span_parameters (spanPolicies : SpanPolicy) (blockPolicies : BlockPolicy) (stripePolicy : StripePolicy) (spanSize : Z) (params : SpanParameters) :
  ComputeSpanParameters spanPolicies blockPolicies stripePolicy spanSize = Ok params -> policy_parities spanPolicies -> 0 < spanSize < 2 ^ 32 - 2 ^ 20 ->
  let capacity := sp_Stripes params * DataBlocks (sp_Parity params) * sp_CellSize params in
  valid_params params /\ (TERN_PAGE_SIZE | sp_CellSize params) /\
  spanSize <= capacity < spanSize + sp_Stripes params * DataBlocks (sp_Parity params) * TERN_PAGE_SIZE.
Proof.
  unfold ComputeSpanParameters. intros H Hpol Hsize. destruct (StripePolicy_Stripes stripePolicy spanSize) as [n| |] eqn:Hst; cbn [mbind outcome_bind] in H; try done.
  destruct (SpanPolicy_Pick spanPolicies spanSize) as [e| |] eqn:Hpick; cbn [mbind outcome_bind] in H; try done. destruct (Z.eqb_spec (DataBlocks (SpanPolicyEntry_Parity e)) 0) as [|HD0]; [done|].
  destruct (BlockPolicy_Pick _ _) as [be| |]; cbn [mbind outcome_bind] in H; try done. injection H as <-. cbn [sp_Stripes sp_Parity sp_CellSize].
  apply stripes_bounds in Hst. apply pick_elem in Hpick. unfold policy_parities in Hpol. rewrite Forall_forall in Hpol. destruct (Hpol e Hpick) as [Hu Hcode].
  set (D := DataBlocks (SpanPolicyEntry_Parity e)) in *. assert (HD : 1 <= D <= 15).
  { unfold D, DataBlocks in *. pose proof (Z.land_ones (SpanPolicyEntry_Parity e) 4 ltac:(lia)) as Hl. change (Z.ones 4) with 15 in Hl. rewrite Hl in *. pose proof (Z.mod_pos_bound (SpanPolicyEntry_Parity e) (2 ^ 4) ltac:(lia)). lia. }
  set (bs := (spanSize + D - 1) / D). set (cs := (bs + n - 1) / n). set (cell := TERN_PAGE_SIZE * _).
  pose proof (round_up_bounds spanSize D ltac:(lia) ltac:(lia)) as R1. fold bs in R1. assert (Hbs : 0 < bs) by nia.
  pose proof (round_up_bounds bs n ltac:(lia) ltac:(lia)) as R2. fold cs in R2. assert (Hcs : 0 < cs) by nia.
  pose proof (round_up_bounds cs TERN_PAGE_SIZE ltac:(lia) ltac:(done)) as R3. fold cell in R3. assert (HP : TERN_PAGE_SIZE = 4096) by done. rewrite HP in R3.
  assert (Hcap : spanSize <= n * D * cell < spanSize + n * D * 4096).
  { assert (n * cs <= n * cell <= n * cs + n * 4095) by nia. assert (D * (n * cell) <= D * (bs + n - 1 + n * 4095)) by nia. assert (D * bs <= D * (n * cell)) by nia. nia. }
  assert (Hcell : 0 < cell < 2 ^ 32) by nia.
  unfold wrap8, wrap32. rewrite !Z.mod_small by lia. split_and!.
  - constructor; cbn [sp_Parity sp_Stripes sp_CellSize]; fold D; (done || lia).
  - exists ((cs + TERN_PAGE_SIZE - 1) / TERN_PAGE_SIZE). unfold cell. ring.
  - exact (proj1 Hcap).
  - rewrite HP. exact (proj2 Hcap).
Qed.

Lemma span_parameters_witness : exists params,
  ComputeSpanParameters (mkSpanPolicy [mkSpanPolicyEntry 1000000 0x4a]) (mkBlockPolicy [mkBlockPolicyEntry 2 0]) (mkStripePolicy 4096) 70000 = Ok params /\
  (TERN_PAGE_SIZE | sp_CellSize params).
Proof.
  eexists. split; [reflexivity|]. eapply (span_parameters (mkSpanPolicy [mkSpanPolicyEntry 1000000 0x4a]) (mkBlockPolicy [mkBlockPolicyEntry 2 0]) (mkStripePolicy 4096) 70000);
    [reflexivity | repeat constructor; vm_compute; congruence | lia].
Defined.
