(* ===== verification/BlockFetch.v ===== *)
(** Reading a block from a block service: CrcAccumulator, CellsCrcs and
    BlockReader of src/go/client/client.go.

    A service sends a block page by page, each followed by its checksum. The
    reader receives into a buffer with room for the checksums, behind pages that
    it was told to have already, checks each page and moves it to its place, in
    the same buffer. What the pool's buffer holds at first is an argument. The
    checksums a [CrcReader] is given are collected in a list. *)

From Stdlib Require Import ZArith Lia.
From stdpp Require Import base numbers option list.
From S2P Require Import Prelude Bincode Messages Ids Gf256 Cauchy ReedSolomon Crc32c CrcFusion Divide32 SpanLayout.

Definition page : nat := Z.to_nat TERN_PAGE_SIZE.

(** A page with its checksum. *)
Definition page_crc : nat := page + 4.

Lemma page_pos : (0 < page)%nat.
Proof. apply Nat2Z.inj_lt. unfold page. rewrite Z2Nat.id; done. Qed.

Lemma page_Z : Z.of_nat page = TERN_PAGE_SIZE.
Proof. unfold page. by rewrite Z2Nat.id. Qed.

#[global] Opaque page.

Inductive net_error := ECONNREFUSED | EPIPE | ECONNRESET | EndOfStream | ErrClosed | UnexpectedEnd | BAD_BLOCK_CRC | OtherError.

Definition retriableBlockError (err : net_error) : bool :=
  match err with ECONNREFUSED | EPIPE | ECONNRESET | EndOfStream | ErrClosed => true | _ => false end.

(** * Checksums of pages *)

Definition CrcAccumulator_Consume (acc crc : Z) : outcome net_error Z := Append acc crc TERN_PAGE_SIZE.

Record CellsCrcs := mkCellsCrcs { cc_crcs : list Z; (* [15]Crc *) cc_position : Z; cc_positionToCell : Divisor }.

Definition CellsCrcs_New (cellSize : Z) : outcome net_error CellsCrcs :=
  if negb (cellSize mod TERN_PAGE_SIZE =? 0) then Panic
  else match NewDivisor cellSize with Ok d => Ok (mkCellsCrcs (replicate 15 0) 0 d) | _ => Panic end.

Definition CellsCrcs_Consume (crcs : CellsCrcs) (crc : Z) : outcome net_error CellsCrcs :=
  let cellIx := Z.to_nat (Divisor_Div (cc_positionToCell crcs) (cc_position crcs)) in
  let! old := index (cc_crcs crcs) cellIx in
  let! new := Append old crc TERN_PAGE_SIZE in
  Ok (mkCellsCrcs (<[cellIx := new]> (cc_crcs crcs)) (wrap32 (cc_position crcs + TERN_PAGE_SIZE)) (cc_positionToCell crcs)).

(** * The reader *)

Record BlockReader := mkBlockReaderState { rd_buf : list byte; rd_offset : nat }.

(** [bufpool.Get] for a length. *)
Definition BlockReader_New (Get : nat -> list byte) (br : BlockReader) (offset count : nat) : outcome net_error BlockReader :=
  if negb (offset mod page =? 0)%nat then Panic
  else if negb (count mod page =? 0)%nat then Panic
  else Ok (mkBlockReaderState (Get (count / page * page_crc)%nat) (rd_offset br)).

Definition PagesWithCrcBuffer (br : BlockReader) : outcome net_error (list byte) := sub (rd_buf br) (rd_offset br) (length (rd_buf br)).

Definition BlockReader_Advance (br : BlockReader) (count : nat) : outcome net_error BlockReader :=
  if negb (count mod page =? 0)%nat then Panic
  else if (length (rd_buf br) <? (rd_offset br + count) / page * page_crc)%nat then Panic
  else Ok (mkBlockReaderState (rd_buf br) (rd_offset br + count)).

(** The bytes a connection delivers, and how it ends. *)
Record stream := mkStream { s_bytes : list byte; s_end : net_error }.

(** [io.ReadFull] into [n] bytes. *)
Definition ReadFull (n : nat) (r : stream) : list byte + (list byte * net_error) :=
  if (n <=? length (s_bytes r))%nat then inl (take n (s_bytes r))
  else inr (s_bytes r, match s_end r, s_bytes r with EndOfStream, _ :: _ => UnexpectedEnd | e, _ => e end).

(** One round of the loop over the pages. *)
Definition read_page (offset : nat) (st : list byte * list Z) (k : nat) : outcome (net_error * (list byte * list Z)) (list byte * list Z) :=
  let buf := st.1 in
  let consumed := st.2 in
  let pageBegin := (offset + k * page_crc)%nat in
  let pageEnd := (pageBegin + page)%nat in
  let! pageBytes := sub buf pageBegin pageEnd in
  let expectedCrc := crc_of 0 pageBytes in
  let! actual := sub buf pageEnd (pageEnd + 4) in
  if negb (expectedCrc =? le_val actual) then Err (BAD_BLOCK_CRC, st)
  else
    let! buf := store buf (offset + k * page) (offset + (k + 1) * page) pageBytes in
    Ok (buf, consumed ++ [expectedCrc]).

(** The reader, the checksums fed to the CrcReader and the bytes read; an error
    comes with the reader as it is left. *)
Definition BlockReader_ReadFrom (br : BlockReader) (r : stream) : outcome (net_error * (BlockReader * list Z)) (BlockReader * list Z * nat) :=
  let offset := rd_offset br in
  let origLen := length (rd_buf br) in
  let! buf := sub (rd_buf br) 0 (origLen - offset / page * (page_crc - page)) in
  let! tail := sub buf offset (length buf) in
  match ReadFull (length tail) r with
  | inr (bytes, err) => Err (err, (mkBlockReaderState (take offset buf ++ bytes ++ drop (offset + length bytes) buf) offset, []))
  | inl bytes =>
      let pagesWithCrc := (origLen / page_crc - offset / page)%nat in
      match foldM_outcome (read_page offset) (take offset buf ++ bytes, []) (seq 0 pagesWithCrc) with
      | Panic => Panic
      | Err (err, st) => Err (err, (mkBlockReaderState st.1 offset, st.2))
      | Ok st => let! buf := sub st.1 0 (offset + pagesWithCrc * page) in Ok (mkBlockReaderState buf offset, st.2, length bytes)
      end
  end.

(** * A request for a block *)

(** One request: sending it, or the response, may fail; then comes the body. *)
Inductive attempt := RequestFails (err : net_error) | Body (body : stream).

(** [io.LimitReader]. *)
Definition LimitReader (r : stream) (n : nat) : stream := if (n <=? length (s_bytes r))%nat then mkStream (take n (s_bytes r)) EndOfStream else r.

(** The completion of a request for [count] bytes, as the response processor
    makes it. *)
Definition fetch_response (br : BlockReader) (count : nat) (a : attempt) : outcome (net_error * (BlockReader * list Z)) (BlockReader * list Z) :=
  match a with
  | RequestFails err => Err (err, (br, []))
  | Body body =>
      let toRead := (count / page * page_crc)%nat in
      let! st := BlockReader_ReadFrom br (LimitReader body toRead) in
      if (st.2 =? toRead)%nat then Ok st.1 else Err (UnexpectedEnd, st.1)
  end.

(** The attempts made until time is up. *)
Fixpoint singleBlockReq (br : BlockReader) (count : nat) (consumed : list Z) (attempts : list attempt) (last : net_error) : outcome net_error (BlockReader * list Z) :=
  match attempts with
  | [] => Err last
  | a :: attempts =>
      match fetch_response br count a with
      | Ok (br, crcs) => Ok (br, consumed ++ crcs)
      | Err (err, (br, crcs)) => if retriableBlockError err then singleBlockReq br count (consumed ++ crcs) attempts err else Err err
      | Panic => Panic
      end
  end.

Definition FetchBlock (br : BlockReader) (offset count : nat) (attempts : list attempt) : outcome net_error (BlockReader * list Z) :=
  if negb (offset mod page =? 0)%nat then Panic
  else if negb (count mod page =? 0)%nat then Panic
  else singleBlockReq br count [] attempts OtherError.

(** * What a service sends *)

(** Pages with the four bytes after each. *)
Definition framed (chunks : list (list byte * list byte)) : list byte := concat ((fun q => q.1 ++ q.2) <$> chunks).
Definition intact (q : list byte * list byte) : bool := crc_of 0 q.1 =? le_val q.2.
Definition well_framed (chunks : list (list byte * list byte)) : Prop := Forall (fun q => length q.1 = page /\ length q.2 = 4%nat) chunks.

(** Pages with their checksums. *)
Definition with_crcs (pages : list (list byte)) : list byte := framed ((fun p => (p, le_bytes 4 (crc_of 0 p))) <$> pages).

Lemma length_framed chunks : well_framed chunks -> length (framed chunks) = (length chunks * page_crc)%nat.
Proof.
  unfold framed, page_crc. induction 1 as [|q chunks [H1 H2] _ IH]; [done|]. csimpl. rewrite !length_app, IH, H1, H2. lia.
Qed.

(** The loop over the pages, from the [k]th on: the pages before are in place,
    then what the moves left behind, then the chunks to come. *)
Lemma read_page_ok prefix p c rest done_ left_ k consumed : length p = page -> length c = 4%nat -> length done_ = (k * page)%nat -> length left_ = (4 * k)%nat ->
  read_page (length prefix) (prefix ++ done_ ++ left_ ++ p ++ c ++ rest, consumed) k =
  if intact (p, c) then Ok (prefix ++ (done_ ++ p) ++ drop page (left_ ++ p ++ c) ++ rest, consumed ++ [crc_of 0 p])
  else Err (BAD_BLOCK_CRC, (prefix ++ done_ ++ left_ ++ p ++ c ++ rest, consumed)).
Proof.
  intros Hp Hc Hd Hl. unfold read_page, intact, page_crc. cbn [fst snd]. cbv zeta. set (buf := prefix ++ done_ ++ left_ ++ p ++ c ++ rest).
  assert (Hlen : length buf = (length prefix + k * page + 4 * k + page + 4 + length rest)%nat) by (unfold buf; rewrite !length_app; lia).
  assert (H1 : forall m, drop (length prefix + k * (page + 4) + m) buf = drop m (p ++ c ++ rest)).
  { intros m. rewrite <- drop_drop. f_equal. replace buf with ((prefix ++ done_ ++ left_) ++ p ++ c ++ rest) by (unfold buf; by rewrite <- !app_assoc). apply drop_app_length'. rewrite !length_app. lia. }
  rewrite !(sub_ok buf) by lia. cbn [mbind outcome_bind]. pose proof (H1 0%nat) as H0. rewrite Nat.add_0_r, drop_0 in H0. rewrite H0.
  rewrite (take_app_length' p) by lia. rewrite (H1 page), (drop_app_length' p) by done. rewrite (take_app_length' c) by lia.
  destruct (_ =? _); cbn [negb]; [|done]. rewrite store_ok by lia. cbn [mbind outcome_bind]. do 2 f_equal. unfold buf.
  rewrite (app_assoc prefix done_), take_app_length' by (rewrite length_app; lia). rewrite <- !app_assoc. do 3 f_equal.
  replace (length prefix + (k + 1) * page)%nat with (length prefix + (length done_ + page))%nat by lia. rewrite <- !drop_drop, !drop_app_length.
  rewrite !app_assoc. apply drop_app_le. rewrite !length_app. lia.
Qed.

Lemma read_pages_ok prefix chunks : well_framed chunks -> forall k done_ left_ consumed, length done_ = (k * page)%nat -> length left_ = (4 * k)%nat ->
  exists left_' st, foldM_outcome (read_page (length prefix)) (prefix ++ done_ ++ left_ ++ framed chunks, consumed) (seq k (length chunks)) =
  if forallb intact chunks then Ok (prefix ++ done_ ++ concat (fst <$> chunks) ++ left_', consumed ++ (crc_of 0 <$> (fst <$> chunks))) else Err (BAD_BLOCK_CRC, st).
Proof.
  induction 1 as [|[p c] chunks [Hp Hc] Hw IH]; intros k done_ left_ consumed Hdone Hleft.
  - exists left_, ([], []). simpl. by rewrite !app_nil_r.
  - cbn [fst snd] in Hp, Hc. cbn [length seq foldM_outcome forallb]. unfold framed. csimpl. fold (framed chunks). rewrite <- (app_assoc p).
    rewrite read_page_ok by done. destruct (intact (p, c)); cbn [mbind outcome_bind andb]; [|by eexists [], _].
    destruct (IH (S k) (done_ ++ p) (drop page (left_ ++ p ++ c)) (consumed ++ [crc_of 0 p])) as (left_' & st & ->); [rewrite length_app; lia | rewrite length_drop, !length_app; lia |].
    exists left_', st. destruct (forallb intact chunks); [|done]. by rewrite <- !app_assoc.
Qed.

Lemma length_pages chunks : well_framed chunks -> length (concat (fst <$> chunks)) = (length chunks * page)%nat.
Proof. induction 1 as [|q chunks [H _] _ IH]; [done|]. csimpl. rewrite length_app, IH. lia. Qed.

(** Reading behind [m] pages that are there, of [n]: the pages that follow and
    their checksums when they are all intact, an error otherwise. *)
Lemma read_from_ok buf (m n : nat) chunks rest e : length buf = (n * page_crc)%nat -> (m <= n)%nat -> well_framed chunks -> length chunks = (n - m)%nat ->
  exists st, BlockReader_ReadFrom (mkBlockReaderState buf (m * page)) (mkStream (framed chunks ++ rest) e) =
  if forallb intact chunks
  then Ok (mkBlockReaderState (take (m * page) buf ++ concat (fst <$> chunks)) (m * page), crc_of 0 <$> (fst <$> chunks), length (framed chunks))
  else Err (BAD_BLOCK_CRC, st).
Proof.
  intros Hbuf Hm Hw Hn. pose proof page_pos as Hpp. unfold BlockReader_ReadFrom. cbn [rd_buf rd_offset]. rewrite Nat.div_mul by lia.
  replace (page_crc - page)%nat with 4%nat by (unfold page_crc; lia). rewrite Hbuf, Nat.div_mul by (unfold page_crc; lia).
  assert (Hlen : (m * 4 + m * page <= n * page_crc)%nat) by (unfold page_crc; nia).
  rewrite sub_ok by lia. cbn [mbind outcome_bind]. rewrite drop_0, Nat.sub_0_r. set (buf' := take _ buf).
  assert (Hbuf' : length buf' = (n * page_crc - m * 4)%nat) by (unfold buf'; rewrite length_take; lia).
  rewrite sub_to_end by lia. cbn [mbind outcome_bind]. rewrite length_drop, Hbuf'. pose proof (length_framed chunks Hw) as Hfr.
  assert (Hfl : (n * page_crc - m * 4 - m * page)%nat = length (framed chunks)) by (rewrite Hfr, Hn; unfold page_crc; nia). rewrite Hfl.
  unfold ReadFull. cbn [s_bytes]. rewrite (proj2 (Nat.leb_le _ _)) by (rewrite length_app; lia). rewrite take_app_length. set (prefix := take (m * page) buf').
  assert (Hpre : length prefix = (m * page)%nat) by (unfold prefix; rewrite length_take; lia).
  destruct (read_pages_ok prefix chunks Hw 0 [] [] [] eq_refl eq_refl) as (left_' & st & Hfold). rewrite Hpre, Hn in Hfold. cbn [app] in Hfold. rewrite Hfold.
  destruct (forallb intact chunks); [|by eexists]. exists (mkBlockReaderState [] 0, []). cbn [fst snd]. pose proof (length_pages chunks Hw) as Hcat.
  rewrite sub_ok by (rewrite ?length_app; lia). cbn [mbind outcome_bind]. rewrite drop_0, Nat.sub_0_r, app_assoc, take_app_length' by (rewrite length_app; lia).
  do 4 f_equal. unfold prefix, buf'. rewrite take_take. do 2 f_equal. lia.
Qed.

(** A stream that ends early is an error; what was read is in the buffer, which
    keeps its length when there were no pages before. *)
Lemma read_from_short buf (m n : nat) r : length buf = (n * page_crc)%nat -> (m <= n)%nat -> (length (s_bytes r) < (n - m) * page_crc)%nat ->
  exists buf' e, BlockReader_ReadFrom (mkBlockReaderState buf (m * page)) r = Err (e, (mkBlockReaderState buf' (m * page), [])) /\ (m = 0%nat -> length buf' = length buf).
Proof.
  intros Hbuf Hm Hr. pose proof page_pos as Hpp. unfold BlockReader_ReadFrom. cbn [rd_buf rd_offset]. rewrite Nat.div_mul by lia.
  replace (page_crc - page)%nat with 4%nat by (unfold page_crc; lia). rewrite Hbuf.
  assert (Hlen : (m * 4 + m * page <= n * page_crc)%nat) by (unfold page_crc; nia).
  rewrite sub_ok by lia. cbn [mbind outcome_bind]. rewrite drop_0, Nat.sub_0_r. set (buf' := take _ buf).
  assert (Hbuf' : length buf' = (n * page_crc - m * 4)%nat) by (unfold buf'; rewrite length_take; lia).
  rewrite sub_to_end by lia. cbn [mbind outcome_bind]. rewrite length_drop, Hbuf'. unfold ReadFull.
  rewrite (proj2 (Nat.leb_gt _ _)) by (unfold page_crc in *; nia). eexists _, _. split; [done|]. intros ->. rewrite Nat.mul_0_l, take_0, app_nil_l, length_app, length_drop, Hbuf'. cbn [Nat.add]. unfold page_crc in *. nia.
Qed.

(** * The two consumers of checksums *)

Lemma append_crc a b n : is_u32 a -> Z.of_nat (length b) < 2 ^ 63 -> Z.of_nat (length b) = n -> @Append net_error a (crc_of 0 b) n = Ok (crc_of a b).
Proof. intros Ha Hb <-. unfold Append. rewrite (proj2 (Z.ltb_ge _ _)) by lia. rewrite append_ok by (done || unfold is_u64; lia). done. Qed.

Lemma accumulate_ok pages : Forall (fun p => length p = page) pages -> forall acc, is_u32 acc ->
  foldM_outcome CrcAccumulator_Consume acc (crc_of 0 <$> pages) = Ok (crc_of acc (concat pages)).
Proof.
  pose proof page_Z as Hz. induction 1 as [|p pages Hp _ IH]; intros acc Ha; [cbn; by rewrite crc_of_nil|]. rewrite fmap_cons. cbn [foldM_outcome concat]. change (CrcAccumulator_Consume acc (crc_of 0 p)) with (@Append net_error acc (crc_of 0 p) TERN_PAGE_SIZE).
  rewrite append_crc; [|done | rewrite Hp, Hz; done | by rewrite Hp]. cbn [mbind outcome_bind]. rewrite IH by (by apply crc_of_u32). by rewrite crc_of_app.
Qed.

Lemma foldM_fmap {E A B C} (f : C -> B -> outcome E C) (g : A -> B) l c : foldM_outcome f c (g <$> l) = foldM_outcome (fun c a => f c (g a)) c l.
Proof. revert c. induction l as [|a l IH]; intros c; [done|]. rewrite fmap_cons. cbn [foldM_outcome]. destruct (f c (g a)); cbn [mbind outcome_bind]; [apply IH | done | done]. Qed.

Lemma consume_page crcs pos d j old pg : Z.to_nat (Divisor_Div d pos) = j -> crcs !! j = Some old -> is_u32 old -> length pg = page ->
  CellsCrcs_Consume (mkCellsCrcs crcs pos d) (crc_of 0 pg) = Ok (mkCellsCrcs (<[j := crc_of old pg]> crcs) (wrap32 (pos + TERN_PAGE_SIZE)) d).
Proof.
  intros Hj Hold Hu Hpg. assert (Hz : Z.of_nat (length pg) = TERN_PAGE_SIZE /\ TERN_PAGE_SIZE < 2 ^ 63) by (rewrite Hpg, page_Z; done).
  unfold CellsCrcs_Consume, index. cbn [cc_crcs cc_position cc_positionToCell]. revert Hz. generalize TERN_PAGE_SIZE as size. intros size [Hz Hsize].
  rewrite Hj, Hold. cbn [mbind outcome_bind]. by rewrite append_crc by (done || lia).
Qed.

Section cells_crcs.
Context (ppc n : nat) (X : list byte) (Hppc : (0 < ppc)%nat) (Hn : (n <= 15)%nat) (HX : length X = (n * (page * ppc))%nat) (Hsmall : Z.of_nat (length X) < 2 ^ 32).

Local Abbreviation c := (page * ppc)%nat.

(** Cell [i] of a block, and its first bytes among the first [k] pages. *)
Definition cell_of (c i : nat) : list byte := take c (drop (i * c) X).
Definition crcs_after (c k : nat) : list Z := (fun i => crc_of 0 (take (k * page - i * c) (cell_of c i))) <$> seq 0 15.

Lemma crcs_after_lookup k i : (i < 15)%nat -> crcs_after c k !! i = Some (crc_of 0 (take (k * page - i * c) (cell_of c i))).
Proof. intros Hi. unfold crcs_after. by rewrite list_lookup_fmap, lookup_seq_lt. Qed.

Lemma length_cell_of i : (i < n)%nat -> length (cell_of c i) = c.
Proof. intros Hi. unfold cell_of. rewrite length_take, length_drop, HX. assert (i * c + c <= n * c)%nat by nia. lia. Qed.

Lemma consumed_prefix i k : take ((k + 1) * page - i * c) (cell_of c i) =
  take (k * page - i * c) (cell_of c i) ++ (if decide (k / ppc = i)%nat then take page (drop (page * k) X) else []).
Proof.
  clear Hn Hsmall. pose proof page_pos as Hp. pose proof (Nat.div_mod_eq k ppc) as Hdm. pose proof (Nat.mod_upper_bound k ppc ltac:(lia)) as Hmu. destruct (decide (k / ppc = i)%nat) as [<-|Hne].
  - set (j := (k / ppc)%nat) in *. set (r := (k mod ppc)%nat) in *. replace (k * page - j * c)%nat with (r * page)%nat by nia. replace ((k + 1) * page - j * c)%nat with (r * page + page)%nat by nia.
    rewrite <- take_take_drop. f_equal. unfold cell_of. rewrite skipn_firstn_comm, take_take, drop_drop, Nat.min_l by nia. do 2 f_equal. nia.
  - rewrite app_nil_r. destruct (decide (i < k / ppc)%nat) as [Hlt|Hge].
    + rewrite !take_ge; [done | |]; unfold cell_of; rewrite length_take; nia.
    + assert (k + 1 <= i * ppc)%nat by nia. replace ((k + 1) * page - i * c)%nat with 0%nat by nia. replace (k * page - i * c)%nat with 0%nat by nia. done.
Qed.

Lemma consume_cell d k : NewDivisor (Z.of_nat c) = Ok d -> (k < n * ppc)%nat ->
  CellsCrcs_Consume (mkCellsCrcs (crcs_after c k) (wrap32 (Z.of_nat (k * page))) d) (crc_of 0 (take page (drop (page * k) X))) =
  Ok (mkCellsCrcs (crcs_after c (k + 1)) (wrap32 (Z.of_nat ((k + 1) * page))) d).
Proof.
  intros Hd Hk. pose proof page_pos as Hp. pose proof page_Z as Hz. assert (Hkp : (k * page + page <= length X)%nat) by nia.
  assert (H1n : (1 <= n)%nat) by (destruct n; lia). pose proof (Nat.mul_le_mono_r 1 n c H1n) as HcX. rewrite <- HX in HcX.
  assert (Hc2 : 2 <= Z.of_nat c < 2 ^ 32) by (split; [rewrite Nat2Z.inj_mul, Hz; change TERN_PAGE_SIZE with 4096; nia | lia]).
  destruct (divide32_exact (Z.of_nat c) (wrap32 (Z.of_nat (k * page))) Hc2) as (d' & Hd' & Hdiv & _); [apply Z.mod_pos_bound; lia|].
  rewrite Hd in Hd'. injection Hd' as <-. assert (Hw : wrap32 (Z.of_nat (k * page)) = Z.of_nat (k * page)) by (apply Z.mod_small; lia).
  rewrite Hw, <- Nat2Z.inj_div in Hdiv. rewrite Hw.
  assert (Hdp : (k * page / c = k / ppc)%nat) by (rewrite (Nat.mul_comm k); apply Nat.Div0.div_mul_cancel_l; lia).
  assert (Hj : (k / ppc < n)%nat) by (apply Nat.Div0.div_lt_upper_bound; lia).
  rewrite (consume_page _ _ _ (k / ppc) (crc_of 0 (take (k * page - k / ppc * c) (cell_of c (k / ppc))))); cycle 1.
  { by rewrite Hdiv, Nat2Z.id, Hdp. }
  { apply crcs_after_lookup. exact (Nat.lt_le_trans _ _ _ Hj Hn). }
  { by apply crc_of_u32. }
  { rewrite length_take, length_drop. lia. }
  do 2 f_equal.
  - apply list_eq. intros i. rewrite list_lookup_insert. assert (Hl : forall k, length (crcs_after c k) = 15%nat) by (intros; unfold crcs_after; by rewrite length_fmap, length_seq). rewrite Hl.
    destruct (decide (i < 15)%nat) as [Hi|Hi]; [|rewrite !lookup_ge_None_2 by (rewrite Hl; lia); case_decide; [lia | done]].
    rewrite !crcs_after_lookup, consumed_prefix by done. destruct (decide (k / ppc = i)%nat) as [<-|Hne].
    + rewrite decide_True by lia. by rewrite crc_of_app.
    + rewrite decide_False by lia. by rewrite app_nil_r.
  - rewrite <- Hz. f_equal. lia.
Qed.

Lemma crcs_after_none : crcs_after c 0 = replicate 15 0.
Proof.
  clear Hppc Hn HX Hsmall. transitivity ((fun _ : nat => 0) <$> seq 0 15); [|done]. apply list_fmap_ext. intros i x _.
  rewrite Nat.mul_0_l, Nat.sub_0_l, take_0. apply crc_of_nil.
Qed.

(** The checksums of the cells of a block, from those of its pages. *)
Lemma cells_crcs_ok cc : CellsCrcs_New (Z.of_nat c) = Ok cc -> exists cc',
  foldM_outcome CellsCrcs_Consume cc (crc_of 0 <$> ((fun k => take page (drop (page * k) X)) <$> seq 0 (n * ppc))) = Ok cc' /\
  forall i, (i < n)%nat -> cc_crcs cc' !! i = Some (crc_of 0 (cell_of c i)).
Proof.
  unfold CellsCrcs_New. destruct (negb _); [done|]. destruct (NewDivisor (Z.of_nat c)) as [d| |] eqn:Hd; intros H; try done. injection H as <-.
  exists (mkCellsCrcs (crcs_after c (n * ppc)) (wrap32 (Z.of_nat (n * ppc * page))) d). split.
  - rewrite <- list_fmap_compose, foldM_fmap. transitivity (foldM_outcome (fun st k => CellsCrcs_Consume st (crc_of 0 (take page (drop (page * k) X)))) (mkCellsCrcs (crcs_after c 0) (wrap32 (Z.of_nat (0 * page))) d) (seq 0 (n * ppc))); [rewrite crcs_after_none; exact eq_refl|].
    apply (foldM_invariant _ (fun k => mkCellsCrcs (crcs_after c k) (wrap32 (Z.of_nat (k * page))) d)). intros k Hk. rewrite consume_cell by done. by rewrite Nat.add_1_r.
  - intros i Hi. cbn [cc_crcs]. rewrite crcs_after_lookup by lia. do 2 f_equal. apply take_ge. rewrite length_cell_of by done. nia.
Qed.
End cells_crcs.

(** * Services *)

Definition pages_of (n : nat) (X : list byte) : list (list byte) := (fun k => take page (drop (page * k) X)) <$> seq 0 n.

(** What is relied on of a service: a body whose checksums all match is the
    block. And one that delivers it. *)
Definition genuine (n : nat) (X : list byte) (a : attempt) : Prop :=
  match a with
  | RequestFails _ => True
  | Body body => forall chunks rest, s_bytes body = framed chunks ++ rest -> well_framed chunks -> length chunks = n -> forallb intact chunks = true -> concat (fst <$> chunks) = X
  end.

Definition delivered (n : nat) (X : list byte) (a : attempt) : Prop := exists rest e, a = Body (mkStream (with_crcs (pages_of n X) ++ rest) e).

Lemma concat_pages n X : length X = (n * page)%nat -> concat (pages_of n X) = X.
Proof. intros HX. unfold pages_of. pose proof (concat_chunks X 0 page n) as H. cbn [Nat.add] in H. rewrite H, drop_0. apply take_ge. lia. Qed.

Lemma pages_framed n X : length X = (n * page)%nat -> well_framed ((fun p => (p, le_bytes 4 (crc_of 0 p))) <$> pages_of n X).
Proof.
  intros HX. unfold pages_of. rewrite <- list_fmap_compose. apply Forall_fmap, Forall_forall. intros k [_ Hk]%elem_of_seq. unfold compose. cbn [fst snd]. split; [|by rewrite length_le_bytes].
  rewrite length_take, length_drop. assert (page * k + page <= n * page)%nat by nia. lia.
Qed.

Lemma framed_split n bs : (n * page_crc <= length bs)%nat -> exists chunks, well_framed chunks /\ length chunks = n /\ bs = framed chunks ++ drop (n * page_crc) bs.
Proof.
  revert bs. induction n as [|n IH]; intros bs Hl; [exists []; split_and!; [constructor | done | by rewrite drop_0]|]. destruct (IH (drop page_crc bs)) as (chunks & Hw & Hn & Hbs); [rewrite length_drop; lia|].
  exists ((take page bs, take 4 (drop page bs)) :: chunks). assert (Hpc : (page_crc <= length bs)%nat) by lia. unfold page_crc in *. split_and!.
  - constructor; [|done]. cbn [fst snd]. rewrite !length_take, length_drop. lia.
  - simpl. by rewrite Hn.
  - unfold framed. csimpl. fold (framed chunks). rewrite <- (take_drop (page + 4) bs) at 1. rewrite Hbs at 1. rewrite drop_drop, <- take_take_drop, <- !app_assoc. do 4 f_equal.
Qed.

Lemma same_pages n X chunks : length X = (n * page)%nat -> well_framed chunks -> length chunks = n -> concat (fst <$> chunks) = X -> fst <$> chunks = pages_of n X.
Proof.
  intros HX Hw Hn <-. unfold pages_of. rewrite <- Hn. assert (Hf : Forall (fun x => length x = page) (fst <$> chunks)) by (apply Forall_fmap; eapply Forall_impl; [exact Hw | intros q [H _]; exact H]).
  apply list_eq. intros i. destruct (decide (i < length chunks)%nat) as [Hi|Hi]; [|rewrite !lookup_ge_None_2; [done | rewrite length_fmap, length_seq; lia | rewrite length_fmap; lia]].
  rewrite (list_lookup_fmap _ (seq _ _)), lookup_seq_lt by done. cbn [fmap option_fmap option_map Nat.add]. rewrite concat_piece_whole by (try rewrite length_fmap; done). apply list_lookup_lookup_total_lt. by rewrite length_fmap.
Qed.

Lemma limited n body : (n * page_crc <= length (s_bytes body))%nat ->
  exists chunks, well_framed chunks /\ length chunks = n /\ LimitReader body (n * page_crc) = mkStream (framed chunks ++ []) EndOfStream /\ exists rest, s_bytes body = framed chunks ++ rest.
Proof.
  intros Hl. destruct (framed_split n (s_bytes body) Hl) as (chunks & Hw & Hn & Hbs). exists chunks. split_and!; [done | done | | by eexists].
  unfold LimitReader. rewrite (proj2 (Nat.leb_le _ _)) by done. f_equal. rewrite app_nil_r, Hbs. apply take_app_length'. rewrite length_framed by done. by rewrite Hn.
Qed.

Lemma intact_pages ps : forallb intact ((fun p => (p, le_bytes 4 (crc_of 0 p))) <$> ps) = true.
Proof. induction ps as [|p ps IH]; [done|]. rewrite fmap_cons. cbn [forallb]. rewrite IH, andb_true_r. unfold intact. cbn [fst snd]. rewrite le_val_bytes_u32 by (by apply crc_of_u32). apply Z.eqb_refl. Qed.

(** * Reading what is missing *)

Section after.
Context (m n : nat) (Hm : (m <= n)%nat) (X : list byte) (HX : length X = ((n - m) * page)%nat).

(** A reader that has [m] of [n] pages, and what it has at the end. *)
Definition partial_reader (br : BlockReader) : Prop := length (rd_buf br) = (n * page_crc)%nat /\ rd_offset br = (m * page)%nat.

Definition completed (br : BlockReader) : BlockReader * list Z := (mkBlockReaderState (take (m * page) (rd_buf br) ++ X) (m * page), crc_of 0 <$> pages_of (n - m) X).

Lemma fetch_after_ok br a : partial_reader br -> genuine (n - m) X a ->
  fetch_response br ((n - m) * page) a = Ok (completed br) \/
  exists e br' crcs, fetch_response br ((n - m) * page) a = Err (e, (br', crcs)) /\ (retriableBlockError e = true -> m = 0%nat -> partial_reader br' /\ crcs = []).
Proof.
  destruct br as [buf off]. intros [Hbuf Hoff] Hg. cbn [rd_buf rd_offset] in *. subst off. destruct a as [e|body]; [right; by exists e, (mkBlockReaderState buf (m * page)), []|].
  unfold fetch_response. rewrite Nat.div_mul by (pose proof page_pos; lia). destruct (decide ((n - m) * page_crc <= length (s_bytes body))%nat) as [Hle|Hgt].
  - destruct (limited (n - m) body Hle) as (chunks & Hw & Hn & -> & rest & Hbs). destruct (read_from_ok buf m n chunks [] EndOfStream) as [st Hread]; [done | lia | done | lia |].
    rewrite Hread. destruct (forallb intact chunks) eqn:Hi; cbn [mbind outcome_bind]; [|destruct st; right; by eexists _, _, _].
    left. cbn [fst snd]. rewrite length_framed, Hn, Nat.eqb_refl by done. unfold completed. pose proof (Hg chunks rest Hbs Hw Hn Hi) as HXc. rewrite HXc. by rewrite (same_pages (n - m) X chunks).
  - unfold LimitReader. rewrite (proj2 (Nat.leb_gt _ _)) by lia. destruct (read_from_short buf m n body) as (buf' & e & Hread & Hlen); [done | lia | lia |].
    rewrite Hread. cbn [mbind outcome_bind]. right. exists e, (mkBlockReaderState buf' (m * page)), []. split; [done|]. intros _ H0. split; [|done]. split; [|done]. cbn [rd_buf]. rewrite Hlen; done.
Qed.

Lemma fetch_after_delivered br a : partial_reader br -> delivered (n - m) X a -> fetch_response br ((n - m) * page) a = Ok (completed br).
Proof.
  destruct br as [buf off]. intros [Hbuf Hoff] (rest & e & ->). cbn [rd_buf rd_offset] in *. subst off. unfold fetch_response. rewrite Nat.div_mul by (pose proof page_pos; lia).
  set (chunks := (fun p => (p, le_bytes 4 (crc_of 0 p))) <$> pages_of (n - m) X). pose proof (pages_framed (n - m) X HX) as Hw. fold chunks in Hw.
  assert (Hn : length chunks = (n - m)%nat) by (unfold chunks, pages_of; by rewrite !length_fmap, length_seq). pose proof (length_framed chunks Hw) as Hl. rewrite Hn in Hl.
  unfold LimitReader, with_crcs. cbn [s_bytes]. fold chunks. rewrite (proj2 (Nat.leb_le _ _)) by (rewrite length_app; lia). rewrite take_app_length' by done.
  destruct (read_from_ok buf m n chunks [] EndOfStream) as [st Hread]; [done | lia | done | lia |]. rewrite app_nil_r in Hread. rewrite Hread. unfold chunks at 1. rewrite intact_pages. cbn [mbind outcome_bind fst snd].
  rewrite Hl, Nat.eqb_refl. unfold completed, chunks. rewrite <- list_fmap_compose. change (fst ∘ _) with (fun p : list byte => p). by rewrite list_fmap_id, concat_pages by done.
Qed.
End after.

(** All of it is there: the buffer is cut to its pages. *)
Lemma read_nothing n br : partial_reader n n br -> exists crcs, BlockReader_ReadFrom br (mkStream [] EndOfStream) = Ok (mkBlockReaderState (take (n * page) (rd_buf br)) (n * page), crcs, 0%nat).
Proof.
  destruct br as [buf off]. intros [Hbuf Hoff]. cbn [rd_buf rd_offset] in *. subst off. destruct (read_from_ok buf n n [] [] EndOfStream) as [st Hread]; [done | lia | constructor | cbn [length]; lia |].
  cbn [forallb] in Hread. change (framed [] ++ []) with (@nil byte) in Hread. rewrite Hread. cbn [fmap list_fmap concat]. rewrite app_nil_r. eexists. done.
Qed.

Section block.
Context (n : nat) (X : list byte) (HX : length X = (n * page)%nat).

Definition block_read : BlockReader * list Z := (mkBlockReaderState X 0, crc_of 0 <$> pages_of n X).

(** A reader that is still empty: no pages, and room for all. *)
Definition empty_reader (br : BlockReader) : Prop := partial_reader 0 n br.

Lemma completed_all br : completed 0 n X br = block_read.
Proof. clear HX. unfold completed, block_read. by rewrite Nat.mul_0_l, take_0, app_nil_l, Nat.sub_0_r. Qed.

Lemma fetch_response_ok br a : empty_reader br -> genuine n X a ->
  fetch_response br (n * page) a = Ok block_read \/
  exists e br' crcs, fetch_response br (n * page) a = Err (e, (br', crcs)) /\ (retriableBlockError e = true -> empty_reader br' /\ crcs = []).
Proof.
  intros Hbr Hg. rewrite <- (completed_all br). destruct (fetch_after_ok 0 n ltac:(lia) X ltac:(by rewrite Nat.sub_0_r) br a Hbr ltac:(by rewrite Nat.sub_0_r)) as [E|(e & br' & crcs & E & H)]; rewrite Nat.sub_0_r in E; [by left|].
  right. exists e, br', crcs. split; [done|]. intros Hr. by apply H.
Qed.

Lemma fetch_response_delivered br a : empty_reader br -> delivered n X a -> fetch_response br (n * page) a = Ok block_read.
Proof.
  intros Hbr Hd. rewrite <- (completed_all br). pose proof (fetch_after_delivered 0 n ltac:(lia) X ltac:(by rewrite Nat.sub_0_r) br a Hbr ltac:(by rewrite Nat.sub_0_r)) as E. by rewrite Nat.sub_0_r in E.
Qed.

(** Repeated requests: the block, or an error. *)
Lemma single_block_req_ok attempts : Forall (genuine n X) attempts -> forall br last, empty_reader br ->
  (exists e, singleBlockReq br (n * page) [] attempts last = Err e) \/ singleBlockReq br (n * page) [] attempts last = Ok block_read.
Proof.
  induction 1 as [|a attempts Ha _ IH]; intros br last Hbr; [left; by exists last|]. cbn [singleBlockReq].
  destruct (fetch_response_ok br a Hbr Ha) as [->|(e & br' & crcs & -> & Hr)]; [by right|]. destruct (retriableBlockError e); [|left; by exists e]. destruct (Hr eq_refl) as [Hbr' ->]. by apply IH.
Qed.
End block.
