(* ===== verification/SpanFetch.v ===== *)
(** Reading a whole span back: fetchInlineSpan, fetchMirroredSpan, fetchRsSpan
    and FetchSpan of src/go/client/span.go.

    The replies of the block services are arguments: for a mirrored span the
    attempts to read each block, for a coded span whether the request for a block
    can be started and the one reply to it. The blocks in flight complete in any
    order: [pick] chooses the next one. What the buffers of the pool hold when
    they are handed out is an argument too. *)

From Stdlib Require Import ZArith Lia.
From stdpp Require Import base numbers option list.
From S2P Require Import Prelude Bincode Messages Ids Gf256 Cauchy ReedSolomon Crc32c CrcFusion Divide32 SpanLayout BlockFetch.

Definition TERNFS_BLOCK_SERVICE_STALE : Z := 0x1.
Definition TERNFS_BLOCK_SERVICE_NO_READ : Z := 0x2.
Definition TERNFS_BLOCK_SERVICE_DECOMMISSIONED : Z := 0x8.

Definition CanRead (flags : Z) : bool :=
  Z.land flags (Z.lor (Z.lor TERNFS_BLOCK_SERVICE_STALE TERNFS_BLOCK_SERVICE_NO_READ) TERNFS_BLOCK_SERVICE_DECOMMISSIONED) =? 0.

(** The addresses of a service only matter to its connections. *)
Record BlockService := mkBlockService { bs_Id : Z; bs_Flags : Z }.
Record SpanWithBlockServices := mkSpanWithBlockServices { sw_BlockServices : list BlockService; sw_Span : FetchedSpan }.

Definition sw_Size (span : SpanWithBlockServices) : nat := Z.to_nat (FetchedSpanHeader_Size (FetchedSpan_Header (sw_Span span))).
Definition sw_Crc (span : SpanWithBlockServices) : Z := FetchedSpanHeader_Crc (FetchedSpan_Header (sw_Span span)).

Definition service_of (span : SpanWithBlockServices) (block : FetchedBlock) : outcome net_error BlockService :=
  index (sw_BlockServices span) (Z.to_nat (FetchedBlock_BlockServiceIx block)).

Section fetch.
(** The bytes of the buffer the pool hands out for a length. *)
Context (Get : nat -> list byte).

(** * Inline and mirrored spans *)

Definition fetchInlineSpan (body : list byte) (crc : Z) : outcome net_error (list byte) :=
  if negb (crc_of 0 body =? crc) then Err OtherError else Ok body.

Definition block_size (body : FetchedBlocksSpan) : nat := Z.to_nat (wrap32 (FetchedBlocksSpan_Stripes body * FetchedBlocksSpan_CellSize body)).

Definition new_reader (blockSize : nat) : outcome net_error BlockReader := BlockReader_New Get (mkBlockReaderState [] 0) 0 blockSize.

Fixpoint mirrored_blocks (span : SpanWithBlockServices) (blockSize : nat) (attempts : nat -> list attempt) (i : nat) (blocks : list FetchedBlock) : outcome net_error (list byte) :=
  match blocks with
  | [] => Err OtherError
  | block :: blocks =>
      let! blockService := service_of span block in
      if negb (CanRead (bs_Flags blockService)) then mirrored_blocks span blockSize attempts (S i) blocks
      else
        let! br := new_reader blockSize in
        match FetchBlock br 0 blockSize (attempts i) with
        | Ok (br, crcs) =>
            let! crc := foldM_outcome CrcAccumulator_Consume 0 crcs in
            let zeros := Z.of_nat (sw_Size span) - Z.of_nat (length (rd_buf br)) in
            let! buf :=
              if 0 <=? zeros then Ok (rd_buf br ++ replicate (Z.to_nat zeros) zero_byte)
              else sub (rd_buf br) 0 (sw_Size span) in
            let crc := ZeroExtend crc zeros in
            if negb (crc =? sw_Crc span) then Panic else Ok buf
        | Err _ => mirrored_blocks span blockSize attempts (S i) blocks
        | Panic => Panic
        end
  end.

Definition fetchMirroredSpan (span : SpanWithBlockServices) (body : FetchedBlocksSpan) (attempts : nat -> list attempt) : outcome net_error (list byte) :=
  mirrored_blocks span (block_size body) attempts 0 (FetchedBlocksSpan_Blocks body).

(** * Coded spans: fetching the blocks *)

Record blockReaderWithIx := mkBlockReaderWithIx { ri_ix : nat; ri_br : BlockReader; ri_cellsCrcs : CellsCrcs }.

Record rs_fetch := mkRsFetch {
  rf_succeedBlocks : nat;
  rf_inFlight : list blockReaderWithIx; (* inFlightBlocks is its length *)
  rf_blockIdx : nat;
  rf_blockBufs : list (option (list byte));
  rf_blockCrcs : list (list Z); (* nil until the block is there *)
}.

Section code.
Context (span : SpanWithBlockServices) (body : FetchedBlocksSpan).
(** Whether StartFetchBlock succeeds, and the reply. *)
Context (starts : nat -> bool) (reply : nat -> attempt).
Context (pick : rs_fetch -> nat).

Definition dataBlocks : nat := Z.to_nat (DataBlocks (FetchedBlocksSpan_Parity body)).
Definition totalBlocks : nat := Z.to_nat (Blocks (FetchedBlocksSpan_Parity body)).

Definition init_fetch : rs_fetch := mkRsFetch 0 [] 0 (replicate totalBlocks None) (replicate totalBlocks []).

(** Each round looks at one block, so that as many rounds as there are blocks do. *)
Fixpoint scheduleMoreBlocks (fuel : nat) (st : rs_fetch) : outcome net_error rs_fetch :=
  if (rf_succeedBlocks st + length (rf_inFlight st) <? dataBlocks)%nat && (rf_blockIdx st <? totalBlocks)%nat then
    match fuel with
    | O => Panic
    | S fuel =>
        let! block := index (FetchedBlocksSpan_Blocks body) (rf_blockIdx st) in
        let! blockService := service_of span block in
        let next inFlight := mkRsFetch (rf_succeedBlocks st) inFlight (rf_blockIdx st + 1) (rf_blockBufs st) (rf_blockCrcs st) in
        if negb (CanRead (bs_Flags blockService)) then scheduleMoreBlocks fuel (next (rf_inFlight st))
        else
          let! br := new_reader (block_size body) in
          let! cellsCrcs := CellsCrcs_New (FetchedBlocksSpan_CellSize body) in
          scheduleMoreBlocks fuel (next (if starts (rf_blockIdx st) then rf_inFlight st ++ [mkBlockReaderWithIx (rf_blockIdx st) br cellsCrcs] else rf_inFlight st))
    end
  else Ok st.

(** The completion of the [k]th block in flight. *)
Definition complete (st : rs_fetch) (k : nat) : outcome net_error rs_fetch :=
  let! r := index (rf_inFlight st) k in
  let inFlight := delete k (rf_inFlight st) in
  match fetch_response (ri_br r) (block_size body) (reply (ri_ix r)) with
  | Ok (br, crcs) =>
      let! cellsCrcs := foldM_outcome CellsCrcs_Consume (ri_cellsCrcs r) crcs in
      if (ri_ix r <? length (rf_blockBufs st))%nat
      then Ok (mkRsFetch (rf_succeedBlocks st + 1) inFlight (rf_blockIdx st) (<[ri_ix r := Some (rd_buf br)]> (rf_blockBufs st)) (<[ri_ix r := cc_crcs cellsCrcs]> (rf_blockCrcs st)))
      else Panic
  | Err _ => scheduleMoreBlocks totalBlocks (mkRsFetch (rf_succeedBlocks st) inFlight (rf_blockIdx st) (rf_blockBufs st) (rf_blockCrcs st))
  | Panic => Panic
  end.

(** Until nothing is in flight: at most one completion for each block. *)
Fixpoint receive (fuel : nat) (st : rs_fetch) : outcome net_error rs_fetch :=
  match rf_inFlight st with
  | [] => Ok st
  | _ :: _ =>
      match fuel with
      | O => Panic
      | S fuel => let! st := complete st (pick st mod length (rf_inFlight st)) in receive fuel st
      end
  end.

(** * Coded spans: putting the span together *)

Definition blocks_at_hand (bufs : list (option (list byte))) : matrix * Z :=
  foldl (fun have q => match q.2 with Some b => (have.1 ++ [b], Z.lor have.2 (Z.shiftl 1 (Z.of_nat q.1))) | None => have end) ([], 0) (zip (seq 0 (length bufs)) bufs).

Definition lift_rs {A} (o : outcome rs_error A) : outcome net_error A := match o with Ok a => Ok a | _ => Panic end.

(** A missing data block and the checksums of its cells. *)
Definition recover_block (have : matrix * Z) (st : list (option (list byte)) * list (list Z)) (i : nat) : outcome net_error (list (option (list byte)) * list (list Z)) :=
  let! buf := index st.1 i in
  match buf with
  | Some _ => Ok st
  | None =>
      let! r := lift_rs (ReedSolomon.Get (FetchedBlocksSpan_Parity body)) in
      let! block := lift_rs (RecoverInto r have.2 have.1 i (Get (block_size body))) in
      let c := Z.to_nat (FetchedBlocksSpan_CellSize body) in
      let! crcs := foldM_outcome (fun crcs j =>
        let! cell := sub block (j * c) ((j + 1) * c) in
        if (j <? length crcs)%nat then Ok (<[j := crc_of 0 cell]> crcs) else Panic) (replicate 15 0) (seq 0 (Z.to_nat (FetchedBlocksSpan_Stripes body))) in
      Ok (<[i := Some block]> st.1, <[i := crcs]> st.2)
  end.

(** One cell copied to the buffer: [copy] stops at its end. *)
Definition copy_cell (bufs : list (option (list byte))) (crcs : list (list Z)) (blockOffset i : nat) (st : list byte * nat * Z) (j : nat) : outcome net_error (list byte * nat * Z) :=
  let c := Z.to_nat (FetchedBlocksSpan_CellSize body) in
  let buf := st.1.1 in
  let spanOffset := st.1.2 in
  if (length buf <=? spanOffset)%nat then Ok st
  else
    let! block := index bufs j in
    match block with
    | None => Panic
    | Some block =>
        let! cell := sub block blockOffset (blockOffset + c) in
        let cell' := take (length buf - spanOffset) cell in
        let! blockCrcs := index crcs j in
        let! cellCrc := index blockCrcs i in
        let! crc := Append st.2 cellCrc (FetchedBlocksSpan_CellSize body) in
        Ok (overwrite buf spanOffset cell', (spanOffset + c)%nat, crc)
    end.

Definition finish_fetch (st : rs_fetch) : outcome net_error (list byte) :=
  if (rf_succeedBlocks st <? dataBlocks)%nat then Err OtherError
  else
    let have := blocks_at_hand (rf_blockBufs st) in
    let! all := foldM_outcome (recover_block have) (rf_blockBufs st, rf_blockCrcs st) (seq 0 dataBlocks) in
    let c := Z.to_nat (FetchedBlocksSpan_CellSize body) in
    let! res := foldM_outcome (fun res i => foldM_outcome (copy_cell all.1 all.2 (i * c) i) res (seq 0 dataBlocks)) (Get (sw_Size span), 0%nat, 0) (seq 0 (Z.to_nat (FetchedBlocksSpan_Stripes body))) in
    let dataSize := Z.to_nat (wrap32 (Z.of_nat (block_size body) * wrap32 (Z.of_nat dataBlocks))) in
    let! _ := sub res.1.1 (sw_Size span `min` dataSize) (length res.1.1) in
    let buf := take (sw_Size span `min` dataSize) res.1.1 ++ replicate (length res.1.1 - sw_Size span `min` dataSize) zero_byte in
    let crc := ZeroExtend res.2 (Z.of_nat (sw_Size span) - Z.of_nat res.1.2) in
    if negb (crc =? sw_Crc span) then Panic else Ok buf.

Definition fetchRsSpan : outcome net_error (list byte) :=
  let! st := scheduleMoreBlocks totalBlocks init_fetch in
  let! st := receive totalBlocks st in
  finish_fetch st.
End code.

Definition FetchSpan (span : SpanWithBlockServices) (attempts : nat -> list attempt) (starts : nat -> bool) (reply : nat -> attempt) (pick : rs_fetch -> nat) : outcome net_error (list byte) :=
  if FetchedSpanHeader_StorageClass (FetchedSpan_Header (sw_Span span)) =? INLINE_STORAGE then
    match FetchedSpan_Body (sw_Span span) with
    | Some (InlineBody b) => fetchInlineSpan (FetchedInlineSpan_Body b) (sw_Crc span)
    | _ => Panic
    end
  else
    match FetchedSpan_Body (sw_Span span) with
    | Some (BlocksBody body) =>
        if DataBlocks (FetchedBlocksSpan_Parity body) =? 1 then fetchMirroredSpan span body attempts else fetchRsSpan span body starts reply pick
    | _ => Panic
    end.
End fetch.

(** * Loops *)

Lemma foldM_ind {E B} (f : B -> nat -> outcome E B) (P : nat -> B -> Prop) n b : P 0%nat b -> (forall k b, (k < n)%nat -> P k b -> exists b', f b k = Ok b' /\ P (S k) b') ->
  exists b', foldM_outcome f b (seq 0 n) = Ok b' /\ P n b'.
Proof.
  intros H0 Hs. induction n as [|n IH]; [by exists b|]. destruct IH as (b1 & H1 & P1); [intros k b1 Hk; apply Hs; lia|]. destruct (Hs n b1 ltac:(lia) P1) as (b2 & H2 & P2).
  exists b2. split; [|done]. rewrite seq_S, foldM_app, H1. cbn [mbind outcome_bind foldM_outcome]. simpl. by rewrite H2.
Qed.

(** A checksum carried from one number of trailing zeros to another. *)
Lemma zero_extend_to (X : list byte) p q : Z.of_nat (length X + p) < 2 ^ 63 -> Z.of_nat (length X + q) < 2 ^ 63 ->
  ZeroExtend (crc_of 0 (X ++ replicate p zero_byte)) (Z.of_nat (length X + q) - Z.of_nat (length X + p)) = crc_of 0 (X ++ replicate q zero_byte).
Proof.
  intros Hp Hq. unfold ZeroExtend. destruct (decide (p <= q)%nat) as [Hle|Hgt].
  - replace (_ - _) with (Z.of_nat (q - p)) by lia. rewrite zero_extend_ok by (first [by apply crc_of_u32 | unfold is_u64; lia]).
    rewrite <- crc_of_app, <- app_assoc, <- replicate_add. do 3 f_equal. lia.
  - replace (_ - _) with (- Z.of_nat (p - q)) by lia. replace (replicate p zero_byte) with (replicate q zero_byte ++ replicate (p - q) zero_byte) by (rewrite <- replicate_add; f_equal; lia).
    rewrite app_assoc, (crc_of_app 0 (X ++ _)). apply zero_extend_back; [by apply crc_of_u32 | unfold is_u64; lia].
Qed.

(** * The blocks at hand *)

Fixpoint present (o : nat) (bufs : list (option (list byte))) : list nat :=
  match bufs with
  | [] => []
  | Some _ :: bufs => o :: present (S o) bufs
  | None :: bufs => present (S o) bufs
  end.

Lemma present_elem o bufs i : i ∈ present o bufs <-> exists b, (o <= i)%nat /\ bufs !! (i - o)%nat = Some (Some b).
Proof.
  revert o. induction bufs as [|[b|] bufs IH]; intros o; cbn [present].
  - split; [by intros ?%elem_of_nil | intros (b & _ & H); by rewrite lookup_nil in H].
  - rewrite elem_of_cons, IH. split.
    + intros [->|(b' & Ho & Hb)]; [exists b; by rewrite Nat.sub_diag|]. exists b'. split; [lia|]. by replace (i - o)%nat with (S (i - S o)) by lia.
    + intros (b' & Ho & Hb). destruct (decide (i = o)) as [->|Hne]; [by left|]. right. exists b'. split; [lia|]. replace (i - o)%nat with (S (i - S o)) in Hb by lia. done.
  - rewrite IH. split.
    + intros (b' & Ho & Hb). exists b'. split; [lia|]. by replace (i - o)%nat with (S (i - S o)) by lia.
    + intros (b' & Ho & Hb). destruct (decide (i = o)) as [->|Hne]; [by rewrite Nat.sub_diag in Hb|]. exists b'. split; [lia|]. replace (i - o)%nat with (S (i - S o)) in Hb by lia. done.
Qed.

Lemma present_elem_0 bufs i : i ∈ present 0 bufs <-> exists b, bufs !! i = Some (Some b).
Proof. rewrite present_elem. setoid_rewrite Nat.sub_0_r. split; intros (b & H); exists b; [apply H | split; [lia | done]]. Qed.

Lemma present_insert bufs i b o : bufs !! i = Some None -> length (present o (<[i := Some b]> bufs)) = S (length (present o bufs)).
Proof.
  revert i o. induction bufs as [|x bufs IH]; intros i o Hi; [by rewrite lookup_nil in Hi|]. destruct i as [|i]; simpl in Hi.
  - injection Hi as ->. done.
  - change (<[S i := Some b]> (x :: bufs)) with (x :: <[i := Some b]> bufs). destruct x; cbn [present length]; by rewrite IH.
Qed.

Lemma present_NoDup o bufs : NoDup (present o bufs).
Proof.
  revert o. induction bufs as [|[b|] bufs IH]; intros o; cbn [present]; [constructor | | apply IH]. constructor; [|apply IH]. rewrite present_elem. intros (b' & Ho & _). lia.
Qed.

Lemma present_none o B : present o (replicate B None) = [].
Proof. revert o. induction B as [|B IH]; intros o; [done | apply IH]. Qed.

Lemma filter_ext_elem {A} (P Q : A -> Prop) `{!forall x, Decision (P x), !forall x, Decision (Q x)} (l : list A) : (forall x, x ∈ l -> P x <-> Q x) -> filter P l = filter Q l.
Proof.
  induction l as [|x l IH]; intros He; [done|]. rewrite !filter_cons, IH by (intros y Hy; apply He; by right). pose proof (He x ltac:(left)) as Hx. do 2 case_decide; tauto.
Qed.

Lemma present_filter o bufs : filter (fun i => i ∈ present o bufs) (seq o (length bufs)) = present o bufs.
Proof.
  revert o. induction bufs as [|x bufs IH]; intros o; [done|]. cbn [length seq]. rewrite filter_cons. rewrite (filter_ext_elem _ (fun i => i ∈ present (S o) bufs) (seq (S o) _)), IH.
  2:{ intros i [Hi _]%elem_of_seq. destruct x; cbn [present]; [rewrite elem_of_cons; intuition lia | done]. }
  destruct x; cbn [present]; [rewrite decide_True by left; done|]. rewrite decide_False; [done|]. rewrite present_elem. intros (b & Ho & _). lia.
Qed.

(** The bitmap and the list that are given to RecoverInto. *)
Lemma at_hand_from blk bufs : forall o acc z, (forall i b, bufs !! i = Some (Some b) -> b = blk (o + i)%nat) -> 0 <= z < 2 ^ Z.of_nat o ->
  exists z', foldl (fun have q => match q.2 with Some b => (have.1 ++ [b], Z.lor have.2 (Z.shiftl 1 (Z.of_nat q.1))) | None => have end) (acc, z) (zip (seq o (length bufs)) bufs)
    = (acc ++ (blk <$> present o bufs), z') /\ 0 <= z' < 2 ^ Z.of_nat (o + length bufs) /\
    forall i, Z.testbit z' (Z.of_nat i) = if decide (i < o)%nat then Z.testbit z (Z.of_nat i) else bool_decide (i ∈ present o bufs).
Proof.
  induction bufs as [|x bufs IH]; intros o acc z Hb Hz.
  - exists z. cbn. rewrite app_nil_r, Nat.add_0_r. split_and!; [done | lia | lia |]. intros i. case_decide as Hi; [done|]. rewrite bool_decide_false by apply not_elem_of_nil.
    destruct (decide (z = 0)) as [->|]; [apply Z.bits_0|]. apply Z.bits_above_log2; [lia|]. apply Z.log2_lt_pow2; [lia|]. eapply Z.lt_le_trans; [apply Hz|]. apply Z.pow_le_mono_r; lia.
  - cbn [length seq zip zip_with foldl]. cbn [fst snd]. rewrite Nat.add_succ_r. assert (Hb' : forall i b, bufs !! i = Some (Some b) -> b = blk (S o + i)%nat).
    { intros i b Hi. rewrite Nat.add_succ_l, <- Nat.add_succ_r. by apply Hb. } assert (Hp : 2 ^ Z.of_nat (S o) = 2 * 2 ^ Z.of_nat o) by (rewrite Nat2Z.inj_succ, Z.pow_succ_r by lia; done).
    assert (Hzo : forall i, (o <= i)%nat -> Z.testbit z (Z.of_nat i) = false).
    { intros i Hi. destruct (decide (z = 0)) as [->|]; [apply Z.bits_0|]. apply Z.bits_above_log2; [lia|]. apply Z.log2_lt_pow2; [lia|]. eapply Z.lt_le_trans; [apply Hz|]. apply Z.pow_le_mono_r; lia. }
    destruct x as [b|].
    + assert (Hlor : Z.lor z (Z.shiftl 1 (Z.of_nat o)) = z + 2 ^ Z.of_nat o).
      { rewrite Z.shiftl_1_l. symmetry. apply Z.add_nocarry_lor. apply Z.bits_inj'. intros n Hn. rewrite Z.land_spec, Z.bits_0, Z.pow2_bits_eqb by lia.
        destruct (Z.eqb_spec (Z.of_nat o) n) as [<-|]; [rewrite Hzo by lia; done | apply andb_false_r]. }
      destruct (IH (S o) (acc ++ [b]) (Z.lor z (Z.shiftl 1 (Z.of_nat o))) Hb' ltac:(rewrite Hlor; lia)) as (z' & -> & Hz' & Hbits). exists z'. split_and!; [|apply Hz'|apply Hz'|].
      * cbn [present]. rewrite fmap_cons, <- app_assoc. do 2 f_equal. simpl. f_equal. rewrite (Hb 0%nat b eq_refl). f_equal. lia.
      * intros i. rewrite Hbits. cbn [present]. destruct (decide (i < o)%nat) as [Hi|Hi]; [rewrite decide_True by lia; rewrite Z.lor_spec, Z.shiftl_1_l, Z.pow2_bits_eqb by lia; rewrite (proj2 (Z.eqb_neq _ _)) by lia; apply orb_false_r|].
        destruct (decide (i < S o)%nat) as [Hi'|Hi'].
        -- assert (i = o) as -> by lia. rewrite Z.lor_spec, Z.shiftl_1_l, Z.pow2_bits_eqb, Z.eqb_refl by lia. rewrite orb_true_r. symmetry. apply bool_decide_true. left.
        -- apply bool_decide_ext. rewrite elem_of_cons. split; [by right | intros [->|]; [lia | done]].
    + destruct (IH (S o) acc z Hb' ltac:(lia)) as (z' & -> & Hz' & Hbits). exists z'. split_and!; [done | apply Hz' | apply Hz' |]. intros i. rewrite Hbits. cbn [present].
      destruct (decide (i < S o)%nat) as [Hi|Hi], (decide (i < o)%nat) as [Hi'|Hi']; [done | | lia | done]. assert (i = o) as -> by lia. rewrite Hzo by lia. symmetry. apply bool_decide_false. rewrite present_elem. intros (b & Ho & _). lia.
Qed.

(** * Spans as they were written *)

(** Parameters and data that make a span, as ComputeSpanParameters computes them. *)
Record sized_span (params : SpanParameters) (data : list byte) (size : Z) : Prop := {
  sz_valid : valid_params params;
  sz_pages : (TERN_PAGE_SIZE | sp_CellSize params);
  sz_fit : Z.of_nat (length data) <= sp_Stripes params * DataBlocks (sp_Parity params) * sp_CellSize params < 2 ^ 32;
  sz_size : Z.of_nat (length data) <= size < 2 ^ 32 }.

(** The description of that span that a shard gives. *)
Record span_of (params : SpanParameters) (data : list byte) (size : Z) (span : SpanWithBlockServices) (body : FetchedBlocksSpan) : Prop := {
  so_size : FetchedSpanHeader_Size (FetchedSpan_Header (sw_Span span)) = size;
  so_crc : FetchedSpanHeader_Crc (FetchedSpan_Header (sw_Span span)) = crc_of 0 (span_bytes data size);
  so_class : FetchedSpanHeader_StorageClass (FetchedSpan_Header (sw_Span span)) <> INLINE_STORAGE;
  so_body : FetchedSpan_Body (sw_Span span) = Some (BlocksBody body);
  so_parity : FetchedBlocksSpan_Parity body = sp_Parity params;
  so_stripes : FetchedBlocksSpan_Stripes body = sp_Stripes params;
  so_cell : FetchedBlocksSpan_CellSize body = sp_CellSize params;
  so_blocks : length (FetchedBlocksSpan_Blocks body) = rs_blocks_core (sp_Parity params);
  so_services : Forall (fun b => (Z.to_nat (FetchedBlock_BlockServiceIx b) < length (sw_BlockServices span))%nat) (FetchedBlocksSpan_Blocks body) }.

(** A block whose service can be read. *)
Definition readable (span : SpanWithBlockServices) (body : FetchedBlocksSpan) (i : nat) : Prop :=
  exists block service, FetchedBlocksSpan_Blocks body !! i = Some block /\ service_of span block = Ok service /\ CanRead (bs_Flags service) = true.

(** The blocks at hand, as RecoverInto takes them. *)
Lemma at_hand_ok blk bufs : (forall i b, bufs !! i = Some (Some b) -> b = blk i) ->
  exists z, blocks_at_hand bufs = (blk <$> present 0 bufs, z) /\ 0 <= z < 2 ^ Z.of_nat (length bufs) /\ have_list (length bufs) z = present 0 bufs /\
    forall i, bufs !! i = Some None -> Z.testbit z (Z.of_nat i) = false.
Proof.
  intros Hb. destruct (at_hand_from blk bufs 0 [] 0 Hb ltac:(done)) as (z & E & Hz & Hbits). exists z. split_and!; [exact E | apply Hz | apply Hz | |].
  - unfold have_list. rewrite <- present_filter at 1. apply filter_ext_elem. intros i _. rewrite Hbits. simpl. by rewrite bool_decide_eq_true.
  - intros i Hi. rewrite Hbits. simpl. apply bool_decide_false. rewrite present_elem_0. intros [b Hb']. congruence.
Qed.

Section written.
Context (Get : nat -> list byte) (HGet : forall l, length (Get l) = l).
Context (params : SpanParameters) (data : list byte) (size : Z) (Hsz : sized_span params data size).
Context (span : SpanWithBlockServices) (body : FetchedBlocksSpan) (Hso : span_of params data size span body).

Let S := Z.to_nat (sp_Stripes params).
Let c := Z.to_nat (sp_CellSize params).
Let D := rs_data_blocks_core (sp_Parity params).
Let P := rs_parity_blocks_core (sp_Parity params).
Let ppc := (c / page)%nat.
Let n := (S * ppc)%nat.
Let blk i := blocks_of params data !!! i.

Lemma written_sizes : (1 <= D)%nat /\ (1 <= S <= 15)%nat /\ c = (page * ppc)%nat /\ (0 < ppc)%nat /\ (length data <= S * D * c)%nat /\ Z.of_nat (S * D * c) < 2 ^ 32.
Proof.
  clear HGet Hso. destruct Hsz as [[_ Hd _ Hs Hc] [q Hq] Hfit _]. pose proof page_pos as Hp. pose proof page_Z as Hz.
  assert (HD : Z.of_nat D = DataBlocks (sp_Parity params)) by (unfold D, rs_data_blocks_core; rewrite Z2Nat.id by (unfold DataBlocks in Hd; lia); done).
  assert (HS : Z.of_nat S = sp_Stripes params) by (unfold S; lia). assert (Hcz : Z.of_nat c = sp_CellSize params) by (unfold c; lia).
  assert (Hcq : c = (page * Z.to_nat q)%nat) by (unfold TERN_PAGE_SIZE in *; nia).
  assert (Hppc : ppc = Z.to_nat q) by (unfold ppc; rewrite Hcq, Nat.mul_comm; apply Nat.div_mul; lia). rewrite Hppc.
  rewrite <- HD, <- HS, <- Hcz in *. split_and!; [lia | lia | lia | done | | | ]; nia.
Qed.

Lemma block_size_written : block_size body = (n * page)%nat.
Proof.
  pose proof written_sizes as (HD & HS & Hc & Hp & _ & Hcap). destruct Hsz as [[_ _ _ HS' Hc'] _ _ _]. destruct Hso as [_ _ _ _ _ Est Ece _ _]. unfold block_size. rewrite Est, Ece.
  unfold wrap32. assert (HSZ : Z.of_nat S = sp_Stripes params) by (unfold S; lia). assert (Hcz : Z.of_nat c = sp_CellSize params) by (unfold c; lia).
  rewrite <- HSZ, <- Hcz, <- Nat2Z.inj_mul, Z.mod_small; [rewrite Nat2Z.id; unfold n; rewrite Hc; lia|]. split; [lia|]. assert (S * c <= S * D * c)%nat by nia. lia.
Qed.

Lemma total_written : totalBlocks body = (D + P)%nat /\ dataBlocks body = D.
Proof.
  destruct Hso as [_ _ _ _ Epar _ _ _ _]. unfold totalBlocks, dataBlocks. rewrite Epar. split; [|done].
  destruct Hsz as [Hv _ _ _]. by apply (blocks_nat params).
Qed.

Lemma block_written i : (i < D + P)%nat -> length (blk i) = (n * page)%nat.
Proof.
  pose proof written_sizes as (HD & HS & Hc & Hp & Hfit & _). intros Hi. unfold blk, blocks_of. fold D P S c. unfold n. replace (S * ppc * page)%nat with (S * c)%nat by (rewrite Hc; lia).
  destruct (Nat.eqb_spec D 1) as [E|E].
  - rewrite lookup_total_replicate_2 by lia. rewrite (length_padded (sp_Parity params) S c data Hfit). fold D. rewrite E. lia.
  - assert (Hc0 : (0 < c)%nat) by (pose proof page_pos; nia). assert (HD2 : (2 <= D)%nat) by lia. by rewrite span_blocks_at, length_block_of.
Qed.

Lemma service_found i : (i < D + P)%nat -> exists block service, FetchedBlocksSpan_Blocks body !! i = Some block /\ service_of span block = Ok service.
Proof.
  intros Hi. destruct Hso as [_ _ _ _ _ _ _ El Hs]. destruct (lookup_lt_is_Some_2 (FetchedBlocksSpan_Blocks body) i) as [b Hb]; [rewrite El; exact Hi|]. exists b.
  rewrite Forall_lookup in Hs. specialize (Hs i b Hb). destruct (lookup_lt_is_Some_2 _ _ Hs) as [s E]. exists s. split; [done|]. unfold service_of, index. by rewrite E.
Qed.

Lemma new_reader_ok : exists br, new_reader Get (block_size body) = Ok br /\ empty_reader n br.
Proof.
  pose proof page_pos as Hp. rewrite block_size_written. unfold new_reader, BlockReader_New. rewrite Nat.Div0.mod_0_l, Nat.Div0.mod_mul, Nat.div_mul by lia.
  eexists. split; [done|]. split; [apply HGet | done].
Qed.

Lemma cells_new_ok : exists cc, CellsCrcs_New (FetchedBlocksSpan_CellSize body) = Ok cc.
Proof.
  destruct Hso as [_ _ _ _ _ _ Ece _ _]. destruct Hsz as [[_ _ _ _ Hc] [q Hq] _ _]. rewrite Ece. unfold CellsCrcs_New. rewrite Hq, Z.mod_mul by done. cbn [negb Z.eqb].
  unfold NewDivisor. destruct (Z.eqb_spec (q * TERN_PAGE_SIZE) 0); [lia|]. by eexists.
Qed.

Section run.
Context (starts : nat -> bool) (reply : nat -> attempt) (pick : rs_fetch -> nat).
Context (Hgen : forall i, (i < D + P)%nat -> genuine n (blk i) (reply i)).

(** A block that will be had once it is asked for. *)
Definition obtainable (i : nat) : Prop := readable span body i /\ starts i = true /\ delivered n (blk i) (reply i).

(** The checksums of the cells of block [i]. *)
Definition cell_crcs (crcs : list (list Z)) (i : nat) : Prop :=
  exists l, crcs !! i = Some l /\ forall j, (j < S)%nat -> l !! j = Some (crc_of 0 (cell_of (blk i) c j)).

Definition right_bufs (bufs : list (option (list byte))) (crcs : list (list Z)) : Prop :=
  length bufs = (D + P)%nat /\ length crcs = (D + P)%nat /\ forall i b, bufs !! i = Some (Some b) -> b = blk i /\ cell_crcs crcs i.

Record fetch_inv (st : rs_fetch) : Prop := {
  fi_bufs : right_bufs (rf_blockBufs st) (rf_blockCrcs st);
  fi_idx : (rf_blockIdx st <= D + P)%nat;
  fi_nodup : NoDup (ri_ix <$> rf_inFlight st);
  fi_flight : forall r, r ∈ rf_inFlight st -> (ri_ix r < rf_blockIdx st)%nat /\ rf_blockBufs st !! ri_ix r = Some None /\ empty_reader n (ri_br r) /\
    CellsCrcs_New (FetchedBlocksSpan_CellSize body) = Ok (ri_cellsCrcs r);
  fi_ahead : forall i, (rf_blockIdx st <= i < D + P)%nat -> rf_blockBufs st !! i = Some None;
  fi_count : rf_succeedBlocks st = length (present 0 (rf_blockBufs st));
  fi_room : (rf_succeedBlocks st + length (rf_inFlight st) <= D)%nat;
  fi_got : forall i, (i < rf_blockIdx st)%nat -> obtainable i -> i ∈ ri_ix <$> rf_inFlight st \/ i ∈ present 0 (rf_blockBufs st) }.

(** Enough blocks, or none left to ask for. *)
Definition saturated (st : rs_fetch) : Prop := (D <= rf_succeedBlocks st + length (rf_inFlight st))%nat \/ rf_blockIdx st = (D + P)%nat.

Definition work_left (st : rs_fetch) : nat := length (rf_inFlight st) + (D + P - rf_blockIdx st).

(** The next block skipped, or asked for. *)
Lemma skip_inv st : fetch_inv st -> (rf_blockIdx st < D + P)%nat -> ~ obtainable (rf_blockIdx st) ->
  fetch_inv (mkRsFetch (rf_succeedBlocks st) (rf_inFlight st) (rf_blockIdx st + 1) (rf_blockBufs st) (rf_blockCrcs st)).
Proof.
  clear Hgen HGet. intros [H1 H2 H3 H4 H5 H6 H7 H8] Hlt Hno. constructor; cbn [rf_blockBufs rf_blockCrcs rf_blockIdx rf_inFlight rf_succeedBlocks]; try assumption; [lia | | |].
  - intros r Hr. destruct (H4 r Hr) as (? & ?). split; [lia | done].
  - intros i Hi. apply H5. lia.
  - intros i Hi Hob. destruct (decide (i = rf_blockIdx st)) as [->|]; [done|]. apply H8; [lia | done].
Qed.

Lemma start_inv st br cc : fetch_inv st -> (rf_blockIdx st < D + P)%nat -> (rf_succeedBlocks st + length (rf_inFlight st) < D)%nat -> empty_reader n br ->
  CellsCrcs_New (FetchedBlocksSpan_CellSize body) = Ok cc ->
  fetch_inv (mkRsFetch (rf_succeedBlocks st) (rf_inFlight st ++ [mkBlockReaderWithIx (rf_blockIdx st) br cc]) (rf_blockIdx st + 1) (rf_blockBufs st) (rf_blockCrcs st)).
Proof.
  clear Hgen HGet. intros [H1 H2 H3 H4 H5 H6 H7 H8] Hlt Hroom Hbr Hcc. constructor; cbn [rf_blockBufs rf_blockCrcs rf_blockIdx rf_inFlight rf_succeedBlocks]; try done; [lia | | | | |].
  - rewrite fmap_app. apply NoDup_app. split; [done|]. split; [|apply NoDup_singleton]. intros i (r & -> & Hr)%list_elem_of_fmap. cbn. rewrite list_elem_of_singleton. destruct (H4 r Hr). lia.
  - intros r [Hr|Hr%list_elem_of_singleton]%elem_of_app; [destruct (H4 r Hr) as (? & ?); split; [lia | done]|]. subst r. cbn [ri_ix ri_br ri_cellsCrcs]. split_and!; [lia | apply H5; lia | done | done].
  - intros i Hi. apply H5. lia.
  - rewrite length_app. cbn [length]. lia.
  - intros i Hi Hob. rewrite fmap_app. destruct (decide (i = rf_blockIdx st)) as [->|]; [left; apply elem_of_app; right; by left|].
    destruct (H8 i ltac:(lia) Hob); [left; apply elem_of_app; by left | by right].
Qed.

Lemma schedule_ok fuel st : fetch_inv st -> (D + P - rf_blockIdx st <= fuel)%nat ->
  exists st', scheduleMoreBlocks Get span body starts fuel st = Ok st' /\ fetch_inv st' /\ saturated st' /\ (work_left st' <= work_left st)%nat.
Proof.
  revert st. induction fuel as [|fuel IH]; intros st Hinv Hfuel; cbn [scheduleMoreBlocks]; destruct total_written as [-> ->]; unfold saturated, work_left.
  all: destruct (Nat.ltb_spec (rf_succeedBlocks st + length (rf_inFlight st)) D) as [Hroom|Hfull]; [|cbn [andb]; exists st; split_and!; [done | done | by left | done]].
  all: destruct (Nat.ltb_spec (rf_blockIdx st) (D + P)) as [Hlt|Hge]; [|cbn [andb]; exists st; split_and!; [done | done | right; pose proof (fi_idx st Hinv); lia | done]]; cbn [andb].
  1: lia.
  destruct (service_found (rf_blockIdx st) Hlt) as (block & service & Hb & Hs). unfold index. rewrite Hb. cbn [mbind outcome_bind]. rewrite Hs. cbn [mbind outcome_bind].
  assert (Hskip : ~ obtainable (rf_blockIdx st) -> exists st', scheduleMoreBlocks Get span body starts fuel (mkRsFetch (rf_succeedBlocks st) (rf_inFlight st) (rf_blockIdx st + 1) (rf_blockBufs st) (rf_blockCrcs st)) = Ok st' /\
    fetch_inv st' /\ saturated st' /\ (work_left st' <= work_left st)%nat).
  { intros Hno. destruct (IH _ (skip_inv st Hinv Hlt Hno)) as (st' & E & I' & Sat & W); [cbn [rf_blockIdx]; lia|]. exists st'. split_and!; [done | done | done|]. unfold work_left in *. cbn [rf_inFlight rf_blockIdx] in W. lia. }
  destruct (CanRead (bs_Flags service)) eqn:Hcan; cbn [negb].
  2:{ apply Hskip. intros [(b' & s' & Hb' & Hs' & Hc') _]. congruence. }
  destruct new_reader_ok as (br & -> & Hbr). cbn [mbind outcome_bind]. destruct cells_new_ok as (cc & Hcc). rewrite Hcc. cbn [mbind outcome_bind].
  destruct (starts (rf_blockIdx st)) eqn:Hst; [|apply Hskip; intros [_ [? _]]; congruence].
  destruct (IH _ (start_inv st br cc Hinv Hlt Hroom Hbr Hcc)) as (st' & E & I' & Sat & W); [cbn [rf_blockIdx]; lia|]. exists st'. split_and!; [done | done | done|].
  unfold work_left in W. cbn [rf_inFlight rf_blockIdx] in W. rewrite length_app in W. cbn [length] in W. lia.
Qed.

(** The checksums that reading block [i] leaves. *)
Lemma consume_block i cc : (i < D + P)%nat -> CellsCrcs_New (FetchedBlocksSpan_CellSize body) = Ok cc ->
  exists cc', foldM_outcome CellsCrcs_Consume cc (crc_of 0 <$> pages_of n (blk i)) = Ok cc' /\ forall j, (j < S)%nat -> cc_crcs cc' !! j = Some (crc_of 0 (cell_of (blk i) c j)).
Proof.
  clear Hgen. intros Hi Hcc. pose proof written_sizes as (HD & HS & Hc & Hp & _ & Hcap). pose proof (block_written i Hi) as Hl. destruct Hso as [_ _ _ _ _ _ Ece _ _].
  assert (Hcz : FetchedBlocksSpan_CellSize body = Z.of_nat (page * ppc)) by (rewrite Ece, <- Hc; destruct Hsz as [[_ _ _ _ H] _ _ _]; unfold c; lia). rewrite Hcz in Hcc.
  assert (Hlen : length (blk i) = (S * (page * ppc))%nat) by (rewrite Hl; unfold n; lia).
  assert (Hsm : Z.of_nat (length (blk i)) < 2 ^ 32) by (rewrite Hlen, <- Hc; assert (S * c <= S * D * c)%nat by nia; lia).
  destruct (cells_crcs_ok ppc S (blk i) Hp ltac:(lia) Hlen Hsm cc Hcc) as (cc' & E & H). exists cc'. split; [exact E|]. rewrite Hc. exact H.
Qed.

Lemma complete_ok st k : fetch_inv st -> saturated st -> (k < length (rf_inFlight st))%nat ->
  exists st', complete Get span body starts reply st k = Ok st' /\ fetch_inv st' /\ saturated st' /\ (work_left st' < work_left st)%nat.
Proof.
  intros Hinv Hsat Hk. destruct (lookup_lt_is_Some_2 (rf_inFlight st) k Hk) as [r Hr]. pose proof (delete_Permutation _ _ _ Hr) as Hperm. pose proof (Permutation_length Hperm) as Hpl. cbn [length] in Hpl.
  unfold complete, index. rewrite Hr. cbn [mbind outcome_bind]. set (rest := delete k (rf_inFlight st)) in *. rewrite block_size_written.
  destruct Hinv as [(L1 & L2 & Hright) H2 H3 H4 H5 H6 H7 H8]. destruct (H4 r) as (Hix & Hnone & Hbr & Hcc); [by eapply list_elem_of_lookup_2|].
  rewrite Hperm, fmap_cons in H3. apply NoDup_cons in H3 as [Hnotin Hnd]. assert (Hrest : forall r', r' ∈ rest -> r' ∈ rf_inFlight st /\ ri_ix r' <> ri_ix r).
  { intros r' Hr'. split; [rewrite Hperm; by right|]. intros E. apply Hnotin. rewrite <- E. by apply list_elem_of_fmap_2. }
  destruct (fetch_response_ok n (blk (ri_ix r)) ltac:(apply block_written; lia) (ri_br r) (reply (ri_ix r)) Hbr ltac:(apply Hgen; lia)) as [E|(e & br' & crcs & E & _)]; rewrite E.
  - unfold block_read. destruct (consume_block (ri_ix r) (ri_cellsCrcs r) ltac:(lia) Hcc) as (cc' & -> & Hcells). cbn [mbind outcome_bind rd_buf]. rewrite L1, (proj2 (Nat.ltb_lt _ _)) by lia.
    pose proof (present_insert (rf_blockBufs st) (ri_ix r) (blk (ri_ix r)) 0 Hnone) as Hcount. eexists. split; [done|]. unfold saturated, work_left in *. cbn [rf_succeedBlocks rf_inFlight rf_blockIdx]. split; [|split; [destruct Hsat; [left | right]; lia | lia]].
    constructor; cbn [rf_blockBufs rf_blockCrcs rf_blockIdx rf_inFlight rf_succeedBlocks]; try done; [| | | lia | lia |].
    + split_and!; [by rewrite length_insert | by rewrite length_insert |]. intros i b Hi. apply list_lookup_insert_Some in Hi as [(<- & E' & _)|[Hne Hi]].
      * injection E' as <-. split; [done|]. exists (cc_crcs cc'). split; [by apply list_lookup_insert_eq; lia | done].
      * destruct (Hright i b Hi) as [-> (l & Hl1 & Hl2)]. split; [done|]. exists l. split; [by rewrite list_lookup_insert_ne | done].
    + intros r' Hr'. destruct (Hrest r' Hr') as [Hin Hne]. destruct (H4 r' Hin) as (A1 & A2 & A3). split; [done|]. split; [by rewrite list_lookup_insert_ne | done].
    + intros i Hi. rewrite list_lookup_insert_ne by lia. by apply H5.
    + intros i Hi Hob. rewrite present_elem_0. destruct (decide (i = ri_ix r)) as [->|Hne]; [right; eexists; apply list_lookup_insert_eq; lia|].
      destruct (H8 i Hi Hob) as [Hin|Hin]; [left; rewrite Hperm, fmap_cons, elem_of_cons in Hin; by destruct Hin|]. right. apply present_elem_0 in Hin as [b Hb]. exists b. by rewrite list_lookup_insert_ne.
  - destruct total_written as [-> _]. destruct (schedule_ok (D + P) (mkRsFetch (rf_succeedBlocks st) rest (rf_blockIdx st) (rf_blockBufs st) (rf_blockCrcs st))) as (st' & E' & I' & Sat & W);
      [|cbn [rf_blockIdx]; lia | exists st'; split_and!; [done | done | done | unfold work_left in *; cbn [rf_inFlight rf_blockIdx] in W; lia]].
    constructor; cbn [rf_blockBufs rf_blockCrcs rf_blockIdx rf_inFlight rf_succeedBlocks]; try done; [| lia |].
    + intros r' Hr'. apply H4. by apply Hrest.
    + intros i Hi Hob. destruct (H8 i Hi Hob) as [Hin|Hin]; [|by right]. rewrite Hperm, fmap_cons, elem_of_cons in Hin. destruct Hin as [->|Hin]; [|by left].
      destruct Hob as (_ & _ & Hdel). rewrite (fetch_response_delivered n (blk (ri_ix r)) ltac:(apply block_written; lia) (ri_br r) _ Hbr Hdel) in E. done.
Qed.

Lemma receive_ok fuel st : fetch_inv st -> saturated st -> (work_left st <= fuel)%nat ->
  exists st', receive Get span body starts reply pick fuel st = Ok st' /\ fetch_inv st' /\ saturated st' /\ rf_inFlight st' = [].
Proof.
  revert st. induction fuel as [|fuel IH]; intros st Hinv Hsat Hfuel; cbn [receive]; destruct (rf_inFlight st) as [|r fl] eqn:E; try (exists st; done).
  - exfalso. unfold work_left in Hfuel. rewrite E in Hfuel. cbn [length] in Hfuel. lia.
  - destruct (complete_ok st (pick st mod length (r :: fl)) Hinv Hsat) as (st' & -> & I' & Sat & W); [rewrite E; apply Nat.mod_upper_bound; done|]. cbn [mbind outcome_bind]. apply IH; [done | done | lia].
Qed.

Lemma init_inv : fetch_inv (init_fetch body).
Proof.
  unfold init_fetch. destruct total_written as [-> _]. constructor; cbn [rf_blockBufs rf_blockCrcs rf_blockIdx rf_inFlight rf_succeedBlocks].
  - split_and!; [by rewrite length_replicate | by rewrite length_replicate |]. intros i b [? _]%lookup_replicate. done.
  - lia.
  - constructor.
  - intros r Hr. by apply not_elem_of_nil in Hr.
  - intros i Hi. apply lookup_replicate. split; [done | lia].
  - by rewrite present_none.
  - cbn [length]. lia.
  - intros i Hi. lia.
Qed.

(** The blocks that the fetch ends with: enough of them whenever enough can be had. *)
Lemma blocks_fetched : exists st, (let! st := scheduleMoreBlocks Get span body starts (totalBlocks body) (init_fetch body) in receive Get span body starts reply pick (totalBlocks body) st) = Ok st /\
  right_bufs (rf_blockBufs st) (rf_blockCrcs st) /\ rf_succeedBlocks st = length (present 0 (rf_blockBufs st)) /\ (rf_succeedBlocks st <= D)%nat /\
  forall gs, NoDup gs -> (D <= length gs)%nat -> Forall (fun i => (i < D + P)%nat /\ obtainable i) gs -> rf_succeedBlocks st = D.
Proof.
  destruct total_written as [-> _]. destruct (schedule_ok (D + P) (init_fetch body) init_inv) as (st1 & -> & I1 & S1 & W1); [cbn; lia|]. cbn [mbind outcome_bind].
  destruct (receive_ok (D + P) st1 I1 S1) as (st & -> & I & Sat & Hfl); [unfold work_left in W1 |- *; cbn [init_fetch rf_inFlight rf_blockIdx length] in W1; lia|].
  exists st. split; [done|]. destruct I as [H1 H2 H3 H4 H5 H6 H7 H8]. rewrite Hfl in *. cbn [length] in *. split_and!; [done | done | lia |].
  intros gs Hnd Hlen Hgs. destruct Sat as [Sat|Sat]; rewrite Hfl in Sat || idtac; cbn [length] in Sat; [lia|]. assert (Hsub : gs ⊆ present 0 (rf_blockBufs st)).
  { intros i Hi. rewrite Forall_forall in Hgs. destruct (Hgs i Hi) as [Hlt Hob]. destruct (H8 i) as [Hin|Hin]; [lia | done | by apply not_elem_of_nil in Hin | done]. }
  pose proof (NoDup_submseteq gs _ Hnd Hsub) as Hle%submseteq_length. lia.
Qed.

Section assemble.
Context (HD2 : (2 <= D)%nat).

Lemma code_blocks i : (i < D + P)%nat -> blk i = block_of (sp_Parity params) S c data i.
Proof.
  clear Hgen Hso. intros Hi. pose proof written_sizes as (_ & HS & Hc & Hp & Hfit & _). unfold blk, blocks_of. fold D S c. rewrite (proj2 (Nat.eqb_neq _ _)) by lia.
  apply span_blocks_at; [done | pose proof page_pos; nia | done | done].
Qed.

Lemma recovered_crcs block : length block = (S * c)%nat -> exists crcs,
  foldM_outcome (fun crcs j => let! cell := @sub net_error _ block (j * c) ((j + 1) * c) in if (j <? length crcs)%nat then Ok (<[j := crc_of 0 cell]> crcs) else Panic) (replicate 15 0) (seq 0 S) = Ok crcs /\
  forall j, (j < S)%nat -> crcs !! j = Some (crc_of 0 (cell_of block c j)).
Proof.
  clear Hgen Hso. intros Hl. pose proof written_sizes as (_ & HS & _).
  destruct (foldM_ind (fun crcs j => let! cell := @sub net_error _ block (j * c) ((j + 1) * c) in if (j <? length crcs)%nat then Ok (<[j := crc_of 0 cell]> crcs) else Panic)
    (fun k crcs => length crcs = 15%nat /\ forall j, (j < k)%nat -> crcs !! j = Some (crc_of 0 (cell_of block c j))) S (replicate 15 0)) as (crcs & E & _ & H).
  - split; [done|]. intros j Hj. lia.
  - intros k crcs Hk [Hlen H]. assert (k * c + c <= S * c)%nat by nia. rewrite sub_ok by lia. cbn [mbind outcome_bind]. rewrite Hlen, (proj2 (Nat.ltb_lt _ _)) by lia. eexists. split; [done|].
    split; [by rewrite length_insert|]. intros j Hj. replace ((k + 1) * c - k * c)%nat with c by lia. destruct (decide (j = k)) as [->|]; [apply list_lookup_insert_eq; lia|]. rewrite list_lookup_insert_ne by lia. apply H. lia.
  - exists crcs. split; [exact E | exact H].
Qed.

(** One block recovered from those at hand. *)
Lemma recover_one bufs crcs z k : (forall i b, bufs !! i = Some (Some b) -> b = blk i) -> length bufs = (D + P)%nat -> length (present 0 bufs) = D ->
  0 <= z < 2 ^ Z.of_nat (D + P) -> have_list (D + P) z = present 0 bufs -> (k < D)%nat -> Z.testbit z (Z.of_nat k) = false -> crcs.1 !! k = Some None ->
  exists l, recover_block Get body (blk <$> present 0 bufs, z) crcs k = Ok (<[k := Some (blk k)]> crcs.1, <[k := l]> crcs.2) /\
    forall j, (j < S)%nat -> l !! j = Some (crc_of 0 (cell_of (blk k) c j)).
Proof.
  clear Hgen. intros Hb Lb Hcount Hz Hlist Hk Hbit Hnone. pose proof written_sizes as (_ & HS & Hc & Hp & Hfit & _). pose proof page_pos as Hpp. assert (Hc0 : (0 < c)%nat) by nia.
  destruct Hso as [_ _ _ _ Epar Est Ece _ _]. pose proof block_size_written as Hbs. unfold recover_block, index. rewrite Hnone, Hbs, Epar, Est, Ece. cbn [mbind outcome_bind fst snd]. fold S c.
  destruct Hsz as [[Hu8 _ Hcode _ _] _ _ _]. assert (HP : (1 <= P)%nat) by (unfold D, P, rs_data_blocks_core, rs_parity_blocks_core, DataBlocks, ParityBlocks in *; lia).
  unfold ReedSolomon.Get. fold D P. rewrite (proj2 (Nat.ltb_ge _ _)), (proj2 (Nat.ltb_ge _ _)) by lia. cbn [lift_rs mbind outcome_bind].
  replace (n * page)%nat with (S * c)%nat by (unfold n; rewrite Hc; lia).
  pose proof (recover_into_ok (sp_Parity params) (data_blocks (sp_Parity params) S c data) (S * c) z k (Get (S * c)) Hu8) as Hrec. cbv zeta in Hrec. fold (span_blocks (sp_Parity params) S c data) in Hrec.
  unfold rs_blocks_core in Hrec. fold D P in Hrec. rewrite Hlist in Hrec.
  replace (blk <$> present 0 bufs) with ((fun b => span_blocks (sp_Parity params) S c data !!! b) <$> present 0 bufs).
  2:{ apply list_fmap_ext. intros ? i [b Hi]%list_elem_of_lookup_2%present_elem_0. pose proof (lookup_lt_Some _ _ _ Hi) as Hlt. rewrite code_blocks by lia. apply span_blocks_at; (done || (fold D P; lia)). }
  rewrite Hrec; clear Hrec; try done; [| unfold data_blocks; by rewrite length_fmap, length_seq | | nia | lia].
  2:{ apply Forall_fmap, Forall_forall. intros d [_ Hd]%elem_of_seq. unfold compose. apply length_block_of; (done || (fold D P; lia)). }
  cbn [lift_rs mbind outcome_bind]. rewrite span_blocks_at by (done || (fold D P; lia)). rewrite <- code_blocks by lia.
  destruct (recovered_crcs (blk k)) as (l & -> & Hl); [rewrite block_written by lia; unfold n; rewrite Hc; lia|]. by exists l.
Qed.

Lemma recover_blocks_ok bufs crcs : right_bufs bufs crcs -> length (present 0 bufs) = D ->
  exists st, foldM_outcome (recover_block Get body (blocks_at_hand bufs)) (bufs, crcs) (seq 0 D) = Ok st /\ right_bufs st.1 st.2 /\ forall i, (i < D)%nat -> st.1 !! i = Some (Some (blk i)).
Proof.
  clear Hgen. intros Hright Hcount. pose proof Hright as (Lb & _ & Hb). assert (Hb' : forall i b, bufs !! i = Some (Some b) -> b = blk i) by (intros i b Hi; by apply Hb in Hi as [? _]).
  destruct (at_hand_ok blk bufs Hb') as (z & -> & Hz & Hlist & Hno). rewrite Lb in *.
  destruct (foldM_ind (recover_block Get body (blk <$> present 0 bufs, z)) (fun k st => right_bufs st.1 st.2 /\ (forall i, (i < k)%nat -> st.1 !! i = Some (Some (blk i))) /\ forall i, st.1 !! i = Some None -> bufs !! i = Some None) D (bufs, crcs)) as (st & E & H1 & H2 & _).
  - split_and!; [done | lia | done].
  - intros k st Hk (Hr & Hdone & Horig). destruct Hr as (L1 & L2 & Hr). destruct (lookup_lt_is_Some_2 st.1 k) as [x Hx]; [lia|]. destruct x as [b|].
    + exists st. unfold recover_block, index. rewrite Hx. split_and!; [done | by split_and! | | done]. intros i Hi. destruct (decide (i = k)) as [->|]; [|apply Hdone; lia]. destruct (Hr k b Hx) as [-> _]. done.
    + destruct (recover_one bufs st z k) as (l & E & Hl); try done; [by apply Hno, Horig|]. rewrite E. eexists. split; [done|]. cbn [fst snd]. split_and!.
      * split_and!; [by rewrite length_insert | by rewrite length_insert |]. intros i b Hi. apply list_lookup_insert_Some in Hi as [(<- & E' & _)|[Hne Hi]].
        -- injection E' as <-. split; [done|]. exists l. split; [apply list_lookup_insert_eq; lia | done].
        -- destruct (Hr i b Hi) as [-> (l' & Hl1 & Hl2)]. split; [done|]. exists l'. split; [by rewrite list_lookup_insert_ne | done].
      * intros i Hi. destruct (decide (i = k)) as [->|]; [apply list_lookup_insert_eq; lia|]. rewrite list_lookup_insert_ne by lia. apply Hdone. lia.
      * intros i Hi. apply list_lookup_insert_Some in Hi as [(_ & E' & _)|[_ Hi]]; [done | by apply Horig].
  - exists st. split_and!; [exact E | exact H1 | exact H2].
Qed.

Let X := padded (sp_Parity params) S c data.
Let sizeN := Z.to_nat size.

(** The cell of stripe [i] in block [j] is a piece of the data. *)
Lemma cell_written i j : (i < S)%nat -> (j < D)%nat -> cell_of (blk j) c i = take c (drop ((D * i + j) * c) X).
Proof.
  clear Hgen Hso. intros Hi Hj. pose proof written_sizes as (_ & HS & Hc & Hp & Hfit & _). pose proof page_pos as Hpp. assert (Hc0 : (0 < c)%nat) by nia. unfold cell_of. rewrite code_blocks by lia. unfold block_of.
  rewrite (Nat.mul_comm i c), concat_piece_whole; [| apply block_cells; (done || (fold D P; lia)) | by rewrite length_fmap, length_seq].
  rewrite (fmap_seq_total (fun s => row (sp_Parity params) S c data s !!! j)) by done. rewrite row_data by done. unfold cell_at. fold D X. do 2 f_equal. lia.
Qed.

(** After [t] rounds, [m] cells are copied. *)
Definition copied (t : nat) (st : list byte * nat * Z) : Prop :=
  exists m, (m <= t)%nat /\ st.1.2 = (m * c)%nat /\ (m = t \/ (sizeN <= m * c)%nat) /\ length st.1.1 = sizeN /\ take (m * c) st.1.1 = take sizeN (take (m * c) X) /\ st.2 = crc_of 0 (take (m * c) X).

Lemma overwrite_piece (buf : list byte) t : length buf = sizeN -> (t * c < sizeN)%nat -> take (t * c) buf = take sizeN (take (t * c) X) -> (t * c + c <= length X)%nat ->
  let cell := take c (drop (t * c) X) in
  length (overwrite buf (t * c) (take (sizeN - t * c) cell)) = sizeN /\
  take ((t + 1) * c) (overwrite buf (t * c) (take (sizeN - t * c) cell)) = take sizeN (take ((t + 1) * c) X).
Proof.
  clear Hgen Hso. intros Hl Hlt Hpre Hfits cell. replace ((t + 1) * c)%nat with (t * c + c)%nat by lia. assert (Hcl : length cell = c) by (unfold cell; rewrite length_take, length_drop; lia).
  rewrite take_take, Nat.min_r in Hpre by lia. split; [rewrite length_overwrite; [done | rewrite length_take; lia]|]. unfold overwrite. rewrite Hpre.
  assert (Hx : take (t * c + c) X = take (t * c) X ++ cell) by (unfold cell; by rewrite take_take_drop). assert (Htl : length (take (t * c) X) = (t * c)%nat) by (rewrite length_take; lia).
  destruct (decide (c <= sizeN - t * c)%nat) as [Hle|Hgt].
  - rewrite (take_ge cell) by lia. rewrite app_assoc, <- Hx. rewrite take_app_length' by (rewrite length_take; symmetry; exact (Nat.min_l _ _ Hfits)). rewrite take_take, Nat.min_r by lia. done.
  - rewrite length_take, drop_ge, app_nil_r, Hx by lia. rewrite (take_ge (take (t * c) X ++ take (sizeN - t * c) cell)) by (rewrite length_app, !length_take; lia). rewrite take_app_ge by lia. by rewrite Htl.
Qed.

Lemma copy_cell_ok bufs crcs i j st : right_bufs bufs crcs -> (forall i, (i < D)%nat -> bufs !! i = Some (Some (blk i))) -> (i < S)%nat -> (j < D)%nat -> copied (D * i + j) st ->
  exists st', copy_cell body bufs crcs (i * c) i st j = Ok st' /\ copied (D * i + (j + 1)) st'.
Proof.
  clear Hgen. intros (_ & _ & Hright) Hall Hi Hj (m & Hm & Hoff & Hor & Hl & Hbuf & Hcrc). pose proof written_sizes as (_ & HS & Hc & Hp & Hfit & Hcap). unfold copy_cell. rewrite Hl, Hoff.
  destruct (Nat.leb_spec sizeN (m * c)) as [Hge|Hlt]; [exists st; split; [done|]; exists m; split_and!; (done || lia || (right; lia))|].
  destruct Hor as [->|]; [|lia]. unfold index. rewrite Hall by done. cbn [mbind outcome_bind]. destruct Hso as [_ _ _ _ _ _ Ece _ _]. rewrite Ece. fold c.
  assert (HX : length X = (S * D * c)%nat) by apply (length_padded (sp_Parity params) S c data Hfit). pose proof (cell_fits S D c i j Hi Hj) as Hf. assert (Hpos : ((D * i + j) * c + c <= length X)%nat) by lia.
  assert (Hbl : length (blk j) = (S * c)%nat) by (rewrite block_written by lia; unfold n; rewrite Hc; lia). assert (Hic : (i * c + c <= S * c)%nat) by (pose proof (Nat.mul_le_mono_r (i + 1) S c ltac:(lia)); lia).
  rewrite sub_ok by lia. cbn [mbind outcome_bind]. replace (i * c + c - i * c)%nat with c by lia. destruct (Hright j _ (Hall j Hj)) as [_ (l & Hcl & Hcell)]. rewrite Hcl. cbn [mbind outcome_bind]. rewrite Hcell by done. cbn [mbind outcome_bind].
  fold (cell_of (blk j) c i). rewrite cell_written by done. set (t := (D * i + j)%nat) in *. set (cell := take c (drop (t * c) X)).
  assert (Hlen : length cell = c) by (unfold cell; rewrite length_take, length_drop; lia). rewrite Hcrc.
  rewrite append_crc; cycle 1; [by apply crc_of_u32 | rewrite Hlen; assert (c <= S * D * c)%nat by nia; lia | rewrite Hlen; destruct Hsz as [[_ _ _ _ Hcz] _ _ _]; unfold c; lia|]. cbn [mbind outcome_bind].
  destruct (overwrite_piece st.1.1 t Hl Hlt Hbuf Hpos) as [O1 O2]. eexists. split; [done|]. exists (t + 1)%nat. cbn [fst snd]. split_and!; [lia | lia | left; lia | exact O1 | exact O2 |].
  rewrite <- crc_of_app. unfold cell. rewrite take_take_drop. do 2 f_equal. lia.
Qed.

Lemma copy_stripes_ok bufs crcs st : right_bufs bufs crcs -> (forall i, (i < D)%nat -> bufs !! i = Some (Some (blk i))) -> copied 0 st ->
  exists st', foldM_outcome (fun res i => foldM_outcome (copy_cell body bufs crcs (i * c) i) res (seq 0 D)) st (seq 0 S) = Ok st' /\ copied (D * S) st'.
Proof.
  clear Hgen. intros Hr Hall Hst. apply (foldM_ind _ (fun i => copied (D * i))); [by rewrite Nat.mul_0_r|]. intros i st1 Hi H1.
  replace (D * Datatypes.S i)%nat with (D * i + D)%nat by lia. apply (foldM_ind _ (fun j => copied (D * i + j))); [by rewrite Nat.add_0_r|].
  intros j st2 Hj H2. replace (Datatypes.S j) with (j + 1)%nat by lia. by apply copy_cell_ok.
Qed.

(** The data, padded to a number of bytes that holds it. *)
Lemma padded_prefix k : (length data <= k)%nat -> (k <= length X)%nat -> take k X = data ++ replicate (k - length data) zero_byte.
Proof.
  clear Hgen Hso. intros H1 H2. unfold X, padded in *. rewrite length_app, length_replicate in H2. rewrite take_app_ge by lia. f_equal. rewrite take_replicate. f_equal. lia.
Qed.

Lemma finish_bytes buf m : length buf = sizeN -> (m <= D * S)%nat -> (m = (D * S)%nat \/ (sizeN <= m * c)%nat) -> take (m * c) buf = take sizeN (take (m * c) X) ->
  take (sizeN `min` (S * D * c)) buf ++ replicate (sizeN - sizeN `min` (S * D * c)) zero_byte = span_bytes data size.
Proof.
  clear Hgen Hso. intros Hl Hm Hor Hbuf. pose proof written_sizes as (_ & HS & Hc & Hp & Hfit & Hcap). destruct Hsz as [_ _ _ Hsize].
  assert (HX : length X = (S * D * c)%nat) by apply (length_padded (sp_Parity params) S c data Hfit). assert (Hmc : (m * c <= S * D * c)%nat) by nia.
  assert (Hpre : take (sizeN `min` (S * D * c)) buf = take (sizeN `min` (S * D * c)) X).
  { transitivity (take (sizeN `min` (S * D * c)) (take (m * c) buf)).
    - rewrite take_take. destruct Hor as [->|Hge]; [f_equal; lia|]. f_equal. lia.
    - rewrite Hbuf, !take_take. f_equal. destruct Hor as [->|Hge]; lia. }
  rewrite Hpre, padded_prefix by (rewrite ?HX; unfold sizeN; lia). unfold span_bytes. rewrite <- app_assoc, <- replicate_add. do 2 f_equal. unfold sizeN. lia.
Qed.

Lemma finish_crc m : (m <= D * S)%nat -> (m = (D * S)%nat \/ (sizeN <= m * c)%nat) -> ZeroExtend (crc_of 0 (take (m * c) X)) (Z.of_nat sizeN - Z.of_nat (m * c)) = crc_of 0 (span_bytes data size).
Proof.
  clear Hgen Hso. intros Hm Hor. pose proof written_sizes as (_ & HS & Hc & Hp & Hfit & Hcap). destruct Hsz as [_ _ _ Hsize].
  assert (HX : length X = (S * D * c)%nat) by apply (length_padded (sp_Parity params) S c data Hfit). assert (Hmc : (m * c <= S * D * c)%nat) by nia.
  assert (Hdm : (length data <= m * c)%nat) by (destruct Hor as [->|]; [replace (D * S * c)%nat with (S * D * c)%nat by lia; exact Hfit | unfold sizeN in *; lia]).
  rewrite padded_prefix by lia. unfold span_bytes. pose proof (zero_extend_to data (m * c - length data) (Z.to_nat (size - Z.of_nat (length data))) ltac:(lia) ltac:(lia)) as H.
  rewrite <- H. f_equal. unfold sizeN. lia.
Qed.

Lemma finish_ok st : right_bufs (rf_blockBufs st) (rf_blockCrcs st) -> rf_succeedBlocks st = length (present 0 (rf_blockBufs st)) -> rf_succeedBlocks st = D ->
  finish_fetch Get span body st = Ok (span_bytes data size).
Proof.
  clear Hgen. intros Hright Hcount HD. pose proof written_sizes as (_ & HS & Hc & Hp & Hfit & Hcap). destruct total_written as [_ HdD]. unfold finish_fetch. rewrite HdD, HD, Nat.ltb_irrefl.
  destruct (recover_blocks_ok _ _ Hright ltac:(lia)) as (all & -> & Hr & Hall). cbn [mbind outcome_bind].
  pose proof block_size_written as Hbs. destruct Hso as [Esize Ecrc _ _ _ Est Ece _ _]. rewrite Est, Ece. fold S c. unfold sw_Size, sw_Crc. rewrite Esize, Ecrc. fold sizeN.
  destruct (copy_stripes_ok all.1 all.2 (Get sizeN, 0%nat, 0) Hr Hall) as (res & -> & m & Hm & Hoff & Hor & Hl & Hbuf & Hcrc).
  { exists 0%nat. cbn [fst snd]. rewrite Nat.mul_0_l, !take_0, take_nil, crc_of_nil. split_and!; [done | done | by left | apply HGet | done | done]. }
  cbn [mbind outcome_bind]. assert (Hds : Z.to_nat (wrap32 (Z.of_nat (block_size body) * wrap32 (Z.of_nat D))) = (S * D * c)%nat).
  { rewrite Hbs. replace (n * page)%nat with (S * c)%nat by (unfold n; rewrite Hc; lia). unfold wrap32.
    assert (1 <= S * c)%nat by (pose proof page_pos; nia). assert (D * 1 <= D * (S * c))%nat by (by apply Nat.mul_le_mono_l). rewrite (Z.mod_small (Z.of_nat D)) by lia.
    rewrite <- Nat2Z.inj_mul, Z.mod_small, Nat2Z.id by lia. lia. }
  rewrite Hds, sub_ok by lia. cbn [mbind outcome_bind]. rewrite Hcrc, Hoff, finish_crc, Z.eqb_refl by done. cbn [negb]. rewrite Hl. f_equal. by apply (finish_bytes _ m).
Qed.

(** The whole fetch of a coded span. *)
Lemma fetch_rs_ok : (fetchRsSpan Get span body starts reply pick = Err OtherError \/ fetchRsSpan Get span body starts reply pick = Ok (span_bytes data size)) /\
  forall gs, NoDup gs -> (D <= length gs)%nat -> Forall (fun i => (i < D + P)%nat /\ obtainable i) gs -> fetchRsSpan Get span body starts reply pick = Ok (span_bytes data size).
Proof.
  destruct blocks_fetched as (st & E & Hright & Hcount & Hle & Hall). destruct total_written as [_ HdD].
  assert (Efetch : fetchRsSpan Get span body starts reply pick = finish_fetch Get span body st).
  { unfold fetchRsSpan. destruct (scheduleMoreBlocks _ _ _ _ _ _) as [st1| |]; cbn [mbind outcome_bind] in *; [by rewrite E | done | done]. }
  rewrite Efetch. split; [|intros gs H1 H2 H3; apply finish_ok; [done | done | by apply (Hall gs)]].
  destruct (decide (rf_succeedBlocks st = D)) as [HD|HD]; [right; by apply finish_ok | left]. unfold finish_fetch. by rewrite HdD, (proj2 (Nat.ltb_lt _ _)) by lia.
Qed.
End assemble.
End run.

(** The fetch of a mirrored span: the first block that can be had. *)
Section mirrored.
Context (HD1 : D = 1%nat) (attempts : nat -> list attempt).
Context (Hgen : forall i, (i < D + P)%nat -> Forall (genuine n (blk i)) (attempts i)).

Lemma mirrored_content i : (i < D + P)%nat -> blk i = padded (sp_Parity params) S c data.
Proof. clear Hgen Hso. intros Hi. unfold blk, blocks_of. fold D P S c. rewrite (proj2 (Nat.eqb_eq D 1) HD1). by rewrite lookup_total_replicate_2 by lia. Qed.

Lemma mirrored_bytes i : (i < D + P)%nat ->
  (let! crc := foldM_outcome CrcAccumulator_Consume 0 (crc_of 0 <$> pages_of n (blk i)) in
   let zeros := Z.of_nat (sw_Size span) - Z.of_nat (length (blk i)) in
   let! buf := if 0 <=? zeros then Ok (blk i ++ replicate (Z.to_nat zeros) zero_byte) else sub (blk i) 0 (sw_Size span) in
   if negb (ZeroExtend crc zeros =? sw_Crc span) then Panic else Ok buf) = Ok (span_bytes data size).
Proof.
  clear Hgen. intros Hi. pose proof written_sizes as (_ & HS & Hc & Hp & Hfit & Hcap). destruct Hsz as [_ _ _ Hsize]. destruct Hso as [Esize Ecrc _ _ _ _ _ _ _]. pose proof (block_written i Hi) as Hlen.
  rewrite accumulate_ok; [| | done].
  2:{ apply Forall_fmap, Forall_forall. intros k [_ Hk]%elem_of_seq. unfold compose. rewrite length_take, length_drop, Hlen. assert (page * k + page <= n * page)%nat by nia. lia. }
  rewrite concat_pages by done. cbn [mbind outcome_bind]. unfold sw_Size, sw_Crc. rewrite Esize, Ecrc. set (sizeN := Z.to_nat size).
  assert (HX : blk i = data ++ replicate (length (blk i) - length data) zero_byte).
  { rewrite mirrored_content at 1 by done. rewrite Hlen. unfold padded. fold D. do 2 f_equal. unfold n. rewrite Hc. nia. }
  assert (Hcap' : (length data <= length (blk i))%nat) by (rewrite Hlen; unfold n; rewrite HD1, Hc in Hfit; nia).
  assert (Hcap2 : Z.of_nat (length (blk i)) < 2 ^ 32) by (rewrite Hlen; unfold n; rewrite HD1, Hc in Hcap; nia).
  pose proof (zero_extend_to data (length (blk i) - length data) (Z.to_nat (size - Z.of_nat (length data))) ltac:(lia) ltac:(lia)) as Hz. rewrite <- HX in Hz.
  replace (Z.of_nat (length data + Z.to_nat (size - Z.of_nat (length data))) - Z.of_nat (length data + (length (blk i) - length data))) with (Z.of_nat sizeN - Z.of_nat (length (blk i))) in Hz by (unfold sizeN; lia).
  fold (span_bytes data size) in Hz. rewrite Hz, Z.eqb_refl. cbn [negb]. destruct (Z.leb_spec 0 (Z.of_nat sizeN - Z.of_nat (length (blk i)))) as [Hle|Hgt].
  - cbn [mbind outcome_bind]. f_equal. unfold span_bytes. rewrite HX at 1. rewrite <- app_assoc, <- replicate_add. do 2 f_equal. unfold sizeN in *. lia.
  - rewrite sub_ok by lia. cbn [mbind outcome_bind]. f_equal. rewrite drop_0, Nat.sub_0_r. rewrite HX. rewrite take_app_ge by (unfold sizeN; lia). unfold span_bytes. f_equal. rewrite take_replicate. f_equal. unfold sizeN in *. lia.
Qed.

Definition mirror_obtainable (i : nat) : Prop :=
  readable span body i /\ exists errs a rest, attempts i = (RequestFails <$> errs) ++ a :: rest /\ Forall (fun e => retriableBlockError e = true) errs /\ delivered n (blk i) a.

Lemma fetch_block_delivered i br : (i < D + P)%nat -> empty_reader n br -> mirror_obtainable i -> FetchBlock br 0 (n * page) (attempts i) = Ok (block_read n (blk i)).
Proof.
  clear Hgen. intros Hi Hbr (_ & errs & a & rest & -> & Herrs & Hdel). unfold FetchBlock. rewrite Nat.Div0.mod_0_l, Nat.Div0.mod_mul. cbn [negb Nat.eqb].
  generalize OtherError. induction Herrs as [|e errs He _ IH]; intros last; cbn [fmap list_fmap app singleBlockReq].
  - by rewrite (fetch_response_delivered n (blk i) (block_written i Hi) br a Hbr Hdel).
  - cbn [fetch_response]. rewrite He. cbn [app]. apply IH.
Qed.

Lemma fetch_mirrored_from blocks i : blocks = drop i (FetchedBlocksSpan_Blocks body) -> (i <= D + P)%nat ->
  let result := mirrored_blocks Get span (n * page) attempts i blocks in
  (result = Err OtherError \/ result = Ok (span_bytes data size)) /\ forall j, (i <= j < D + P)%nat -> mirror_obtainable j -> result = Ok (span_bytes data size).
Proof.
  assert (El : length (FetchedBlocksSpan_Blocks body) = (D + P)%nat) by apply Hso.
  revert i. induction blocks as [|block blocks IH]; intros i Hdrop Hi; cbn [mirrored_blocks].
  { assert (length (drop i (FetchedBlocksSpan_Blocks body)) = 0%nat) as E by (by rewrite <- Hdrop). rewrite length_drop in E. split; [by left | lia]. }
  assert (Hb : FetchedBlocksSpan_Blocks body !! i = Some block) by (rewrite <- (Nat.add_0_r i), <- lookup_drop, <- Hdrop; done). pose proof (lookup_lt_Some _ _ _ Hb) as Hlt. rewrite El in Hlt.
  assert (Hdrop' : blocks = drop (Datatypes.S i) (FetchedBlocksSpan_Blocks body)) by (rewrite (drop_S _ block i Hb) in Hdrop; by injection Hdrop).
  destruct (IH (Datatypes.S i) Hdrop' ltac:(lia)) as [Hres Hgot]. destruct (service_found i Hlt) as (block' & service & Hb' & Hs). assert (block' = block) as -> by congruence. rewrite Hs. cbn [mbind outcome_bind].
  assert (Hnext : ~ mirror_obtainable i -> forall j, (i <= j < D + P)%nat -> mirror_obtainable j -> mirrored_blocks Get span (n * page) attempts (Datatypes.S i) blocks = Ok (span_bytes data size)).
  { intros Hno j Hj Hob. apply (Hgot j); [|done]. destruct (decide (j = i)) as [->|]; [done | lia]. }
  destruct (CanRead (bs_Flags service)) eqn:Hcan; cbn [negb].
  2:{ split; [done|]. apply Hnext. intros [(b2 & s2 & Hb2 & Hs2 & Hc2) _]. congruence. }
  destruct new_reader_ok as (br & Hnew & Hbr). rewrite block_size_written in Hnew. rewrite Hnew. cbn [mbind outcome_bind].
  assert (Hcase : (exists e, FetchBlock br 0 (n * page) (attempts i) = Err e) \/ FetchBlock br 0 (n * page) (attempts i) = Ok (block_read n (blk i))).
  { unfold FetchBlock. rewrite Nat.Div0.mod_0_l, Nat.Div0.mod_mul. cbn [negb Nat.eqb]. apply single_block_req_ok; [by apply block_written | by apply Hgen | done]. }
  destruct Hcase as [[e E]|E]; rewrite E.
  - split; [done|]. apply Hnext. intros Hob. rewrite (fetch_block_delivered i br Hlt Hbr Hob) in E. done.
  - unfold block_read. cbn [rd_buf]. pose proof (mirrored_bytes i Hlt) as Hm. cbv zeta in Hm. split; [by right | done].
Qed.
End mirrored.
End written.

Definition block_pages (params : SpanParameters) : nat := Z.to_nat (sp_Stripes params) * (Z.to_nat (sp_CellSize params) / page).

(** Enough blocks can be read: one of a mirrored span, as many as there are data
    blocks of a coded one. *)
Definition enough_blocks (params : SpanParameters) (data : list byte) (span : SpanWithBlockServices) (body : FetchedBlocksSpan) (attempts : nat -> list attempt) (starts : nat -> bool) (reply : nat -> attempt) : Prop :=
  if (rs_data_blocks_core (sp_Parity params) =? 1)%nat
  then exists i, (i < rs_blocks_core (sp_Parity params))%nat /\ mirror_obtainable params data span body attempts i
  else exists gs, NoDup gs /\ (rs_data_blocks_core (sp_Parity params) <= length gs)%nat /\
    Forall (fun i => (i < rs_blocks_core (sp_Parity params))%nat /\ obtainable params data span body starts reply i) gs.

(** The fetch of a span. *)
Section whole_span.
Context (Get : nat -> list byte) (HGet : forall l, length (Get l) = l) (params : SpanParameters) (data : list byte) (size : Z) (Hsz : sized_span params data size).
Context (span : SpanWithBlockServices) (body : FetchedBlocksSpan) (Hso : span_of params data size span body).
Context (attempts : nat -> list attempt) (starts : nat -> bool) (reply : nat -> attempt) (pick : rs_fetch -> nat).
Context (Hgen : forall i, (i < rs_blocks_core (sp_Parity params))%nat -> Forall (genuine (block_pages params) (blocks_of params data !!! i)) (reply i :: attempts i)).

Lemma fetch_span_ok :
  let result := FetchSpan Get span attempts starts reply pick in
  (result = Err OtherError \/ result = Ok (span_bytes data size)) /\ (enough_blocks params data span body attempts starts reply -> result = Ok (span_bytes data size)).
Proof.
  unfold FetchSpan, enough_blocks, rs_blocks_core in *. pose proof Hso as [_ _ Hclass -> -> _ _ _ _]. rewrite (proj2 (Z.eqb_neq _ _)) by done.
  fold (span_bytes data size). destruct (Nat.eqb_spec (rs_data_blocks_core (sp_Parity params)) 1) as [HD|HD].
  - replace (DataBlocks (sp_Parity params) =? 1) with true by (symmetry; apply Z.eqb_eq; unfold rs_data_blocks_core in HD; unfold DataBlocks; lia).
    destruct (fetch_mirrored_from Get HGet params data size Hsz span body Hso HD attempts) with (blocks := FetchedBlocksSpan_Blocks body) (i := 0%nat) as [H1 H2]; [|done|lia|].
    { intros i Hi. specialize (Hgen i Hi). by inversion Hgen. }
    rewrite <- (block_size_written params data size Hsz span body Hso) in H1, H2. split; [exact H1|]. intros (i & Hi & Hob). apply (H2 i); [lia | done].
  - assert (Hd : 1 <= DataBlocks (sp_Parity params)) by apply Hsz. rewrite (proj2 (Z.eqb_neq _ _)) by (unfold rs_data_blocks_core in HD; unfold DataBlocks in *; lia).
    destruct (fetch_rs_ok Get HGet params data size Hsz span body Hso starts reply pick) as [H1 H2]; [|unfold rs_data_blocks_core in *; unfold DataBlocks in *; lia|].
    { intros i Hi. specialize (Hgen i Hi). by inversion Hgen. }
    split; [exact H1|]. intros (gs & Hnd & Hl & Hgs). by apply (H2 gs).
Qed.
End whole_span.

(** * Claims *)

(** A body that is framed in two ways is framed by the same chunks. *)
Lemma framed_same cs : well_framed cs -> forall ds rest, well_framed ds -> length ds = length cs -> framed cs = framed ds ++ rest -> ds = cs.
Proof.
  induction 1 as [|[p q] cs [Hp Hq] _ IH]; intros ds rest Hds Hl E; [by apply nil_length_inv in Hl|]. destruct Hds as [|[p' q'] ds [Hp' Hq'] Hds]; [done|]. cbn [fst snd] in *.
  unfold framed in E. cbn [fmap list_fmap concat fst snd] in E. fold (framed cs) (framed ds) in E. rewrite <- !app_assoc in E. apply app_inj_1 in E as [-> E]; [|lia]. apply app_inj_1 in E as [-> E]; [|lia].
  f_equal. injection Hl as Hl. by apply (IH ds rest).
Qed.

(** The reply that holds a block, and nothing else. *)
Definition block_reply (n : nat) (X : list byte) : attempt := Body (mkStream (with_crcs (pages_of n X)) EndOfStream).

Lemma block_reply_genuine n X : length X = (n * page)%nat -> genuine n X (block_reply n X).
Proof.
  intros HX chunks rest E Hw Hn Hi. cbn [s_bytes] in E. unfold with_crcs in E. pose proof (framed_same _ (pages_framed n X HX) chunks rest Hw) as H. rewrite (H ltac:(unfold pages_of; rewrite !length_fmap, length_seq; done) E).
  rewrite <- list_fmap_compose. change (fst ∘ _) with (fun p : list byte => p). by rewrite list_fmap_id, concat_pages.
Qed.

Lemma block_reply_delivered n X : delivered n X (block_reply n X).
Proof. exists [], EndOfStream. unfold block_reply. by rewrite app_nil_r. Qed.

(** C5: a span is read back as it was written. Whatever the parameters, the data,
    the trailing zeros, the garbage in the buffers, the services that fail or
    cannot be read and the order in which the blocks arrive: fetching the span
    ends, without panicking, with exactly the written bytes and their zeros or
    with an error; and with the bytes whenever enough blocks can be had - one of
    a mirrored span, as many as there are data blocks of a coded one, any of
    them. *)
Theorem span_read_back (Get : nat -> list byte) (params : SpanParameters) (data : list byte) (size : Z) (span : SpanWithBlockServices) (body : FetchedBlocksSpan)
    (attempts : nat -> list attempt) (starts : nat -> bool) (reply : nat -> attempt) (pick : rs_fetch -> nat) :
  (forall l, length (Get l) = l) -> sized_span params data size -> span_of params data size span body ->
  (forall i, (i < rs_blocks_core (sp_Parity params))%nat -> Forall (genuine (block_pages params) (blocks_of params data !!! i)) (reply i :: attempts i)) ->
  let result := FetchSpan Get span attempts starts reply pick in
  (result = Err OtherError \/ result = Ok (data ++ replicate (Z.to_nat (size - Z.of_nat (length data))) zero_byte)) /\
  (enough_blocks params data span body attempts starts reply -> result = Ok (data ++ replicate (Z.to_nat (size - Z.of_nat (length data))) zero_byte)).
Proof.
  intros HGet Hsz Hso Hgen. exact (fetch_span_ok Get HGet params data size Hsz span body Hso attempts starts reply pick Hgen).
Qed.

Definition example_params : SpanParameters := mkSpanParameters 0x12 2 1 4096.
Definition example_data : list byte := byte_of <$> [104; 101; 108; 108; 111].
Definition example_body : FetchedBlocksSpan := mkFetchedBlocksSpan 0x12 1 4096 [mkFetchedBlock 0 1 0; mkFetchedBlock 1 2 0; mkFetchedBlock 0 3 0] [].
Definition example_span : SpanWithBlockServices :=
  mkSpanWithBlockServices [mkBlockService 1 0; mkBlockService 2 0x2] (mkFetchedSpan (mkFetchedSpanHeader 0 7 (crc_of 0 (span_bytes example_data 7)) 2) (Some (BlocksBody example_body))).

Lemma example_sized : sized_span example_params example_data 7.
Proof. constructor; [constructor; vm_compute; intuition congruence | by exists 1 | vm_compute; intuition congruence | vm_compute; intuition congruence]. Qed.

Lemma example_described : span_of example_params example_data 7 example_span example_body.
Proof. constructor; try reflexivity; [done | repeat constructor; vm_compute; lia]. Qed.

(** The service of the second block cannot be read: its data is recovered from
    the parity. *)
Lemma span_read_back_witness :
  FetchSpan (fun l => replicate l zero_byte) example_span (fun _ => []) (fun _ => true) (fun i => block_reply (block_pages example_params) (blocks_of example_params example_data !!! i)) (fun _ => 0%nat)
  = Ok (example_data ++ replicate 2 zero_byte).
Proof.
  destruct (span_read_back (fun l => replicate l zero_byte) example_params example_data 7 example_span example_body (fun _ => []) (fun _ => true)
    (fun i => block_reply (block_pages example_params) (blocks_of example_params example_data !!! i)) (fun _ => 0%nat)) as [_ H].
  - intros l. apply length_replicate.
  - exact example_sized.
  - exact example_described.
  - intros i Hi. constructor; [|constructor]. apply block_reply_genuine. exact (block_written example_params example_data 7 example_sized i Hi).
  - apply H. exists [0%nat; 2%nat]. split; [by apply (bool_decide_unpack _)|]. split; [exact (le_n 2)|].
    repeat constructor; try (simpl; lia); try (eexists _, _; split_and!; reflexivity); apply block_reply_delivered.
Defined.
