(* ===== verification/Bitmap.v ===== *)
(** The uint32 bitmaps of blocks of src/go/client/span.go: setting and clearing a
    bit, bits.OnesCount32, and the counting arguments about them. *)

From Stdlib Require Import ZArith Lia.
From stdpp Require Import base numbers option list.
From S2P Require Import Prelude Gf256 Cauchy ReedSolomon.

Definition bit (b : Z) (i : nat) : bool := Z.testbit b (Z.of_nat i).

(** [b |= uint32(1) << i] and [b &= ^(uint32(1) << i)]. *)
Definition set_bit (b : Z) (i : nat) : Z := Z.lor b (Z.shiftl 1 (Z.of_nat i)).
Definition clear_bit (b : Z) (i : nat) : Z := Z.land b (Z.lnot (Z.shiftl 1 (Z.of_nat i))).

(** [bits.OnesCount32]. *)
Definition OnesCount32 (b : Z) : nat := length (have_list 32 b).

Lemma bit_set b i j : bit (set_bit b i) j = bit b j || (i =? j)%nat.
Proof.
  unfold bit, set_bit. rewrite Z.lor_spec, Z.shiftl_1_l, Z.pow2_bits_eqb by lia. f_equal. destruct (Z.eqb_spec (Z.of_nat i) (Z.of_nat j)), (Nat.eqb_spec i j); (done || lia).
Qed.

Lemma bit_clear b i j : bit (clear_bit b i) j = bit b j && negb (i =? j)%nat.
Proof.
  unfold bit, clear_bit. rewrite Z.land_spec, Z.lnot_spec, Z.shiftl_1_l, Z.pow2_bits_eqb by lia. do 2 f_equal. destruct (Z.eqb_spec (Z.of_nat i) (Z.of_nat j)), (Nat.eqb_spec i j); (done || lia).
Qed.

Lemma bit_lor a b j : bit (Z.lor a b) j = bit a j || bit b j.
Proof. apply Z.lor_spec. Qed.

Lemma bit_0 j : bit 0 j = false.
Proof. apply Z.bits_0. Qed.

(** A bitmap of [n] blocks. *)
Definition bits_below (n : nat) (b : Z) : Prop := 0 <= b /\ forall j, bit b j = true -> (j < n)%nat.

Lemma bits_below_range n b : bits_below n b -> 0 <= b < 2 ^ Z.of_nat n.
Proof.
  intros [H0 H]. split; [done|]. destruct (decide (b = 0)) as [->|Hb]; [apply Z.pow_pos_nonneg; lia|]. apply Z.log2_lt_pow2; [lia|].
  specialize (H (Z.to_nat (Z.log2 b))). unfold bit in H. rewrite Z2Nat.id in H by apply Z.log2_nonneg. specialize (H (Z.bit_log2 b ltac:(lia))). pose proof (Z.log2_nonneg b). lia.
Qed.

Lemma bits_below_0 n : bits_below n 0.
Proof. split; [done|]. intros j Hj. by rewrite bit_0 in Hj. Qed.

Lemma bits_below_set n b i : bits_below n b -> (i < n)%nat -> bits_below n (set_bit b i).
Proof.
  intros [H0 H] Hi. split; [apply Z.lor_nonneg; split; [done | apply Z.shiftl_nonneg; lia]|]. intros j. rewrite bit_set. intros [Hj|Hj%Nat.eqb_eq]%orb_true_iff; [by apply H | lia].
Qed.

Lemma bits_below_clear n b i : bits_below n b -> bits_below n (clear_bit b i).
Proof. intros [H0 H]. split; [apply Z.land_nonneg; by left|]. intros j. rewrite bit_clear. intros [Hj _]%andb_true_iff. by apply H. Qed.

Create HintDb bitmaps.
#[export] Hint Resolve bits_below_0 bits_below_set bits_below_clear : bitmaps.

(** * Members and counts *)

Lemma elem_of_have_list n b i : i ∈ have_list n b <-> bit b i = true /\ (i < n)%nat.
Proof. unfold have_list, bit. rewrite list_elem_of_filter, elem_of_seq. intuition lia. Qed.

Lemma have_list_NoDup n b : NoDup (have_list n b).
Proof. apply NoDup_filter, NoDup_seq. Qed.

Lemma have_list_ext n a b : (forall i, (i < n)%nat -> bit a i = bit b i) -> have_list n a = have_list n b.
Proof.
  intros H. unfold have_list. assert (Hs : forall i, i ∈ seq 0 n -> bit a i = bit b i) by (intros i [_ Hi]%elem_of_seq; by apply H). revert Hs. generalize (seq 0 n). intros l Hl.
  induction l as [|i l IH]; [done|]. rewrite !filter_cons, IH by (intros j Hj; apply Hl; by right). pose proof (Hl i ltac:(left)) as E. unfold bit in E. rewrite E. done.
Qed.

(** The members of a bitmap of few blocks are found among the first ones. *)
Lemma have_list_below n b : bits_below n b -> (n <= 32)%nat -> have_list 32 b = have_list n b.
Proof.
  intros [_ H] Hn. unfold have_list. replace 32%nat with (n + (32 - n))%nat by lia. rewrite seq_app, filter_app. rewrite <- (app_nil_r (filter _ (seq 0 n))) at 2. f_equal.
  apply elem_of_nil_inv. intros i [Hi Hs%elem_of_seq]%list_elem_of_filter. apply H in Hi. lia.
Qed.

Lemma count_le l b : NoDup l -> (forall i, i ∈ l -> bit b i = true /\ (i < 32)%nat) -> (length l <= OnesCount32 b)%nat.
Proof. intros Hl H. apply submseteq_length, NoDup_submseteq; [done|]. intros i Hi. by apply elem_of_have_list, H. Qed.

Lemma ones_mono a b : (forall i, bit a i = true -> bit b i = true) -> (OnesCount32 a <= OnesCount32 b)%nat.
Proof. intros H. apply count_le; [apply have_list_NoDup|]. intros i [Hi ?]%elem_of_have_list. split; [by apply H | done]. Qed.

Lemma ones_set b i : bit b i = false -> (i < 32)%nat -> OnesCount32 (set_bit b i) = S (OnesCount32 b).
Proof.
  intros Hb Hi. unfold OnesCount32. change (S (length (have_list 32 b))) with (length (i :: have_list 32 b)). apply Permutation_length, NoDup_Permutation.
  - apply have_list_NoDup.
  - constructor; [|apply have_list_NoDup]. rewrite elem_of_have_list. intros [? _]. congruence.
  - intros j. rewrite elem_of_cons, !elem_of_have_list, bit_set, orb_true_iff, Nat.eqb_eq. intuition lia.
Qed.

Lemma ones_clear b i : bit b i = true -> (i < 32)%nat -> S (OnesCount32 (clear_bit b i)) = OnesCount32 b.
Proof.
  intros Hb Hi. rewrite <- (ones_set (clear_bit b i) i) by (first [rewrite bit_clear, Nat.eqb_refl; apply andb_false_r | done]). unfold OnesCount32. f_equal. apply have_list_ext. intros j Hj.
  rewrite bit_set, bit_clear. destruct (Nat.eqb_spec i j) as [->|]; [by rewrite Hb|]. by rewrite andb_true_r, orb_false_r.
Qed.

(** Bitmaps that share no block. *)
Lemma ones_disjoint a b : (forall i, bit a i = true -> bit b i = false) -> OnesCount32 (Z.lor a b) = (OnesCount32 a + OnesCount32 b)%nat.
Proof.
  intros H. unfold OnesCount32. rewrite <- length_app. apply Permutation_length, NoDup_Permutation.
  - apply have_list_NoDup.
  - apply NoDup_app. split_and!; [apply have_list_NoDup | | apply have_list_NoDup]. intros i [Hi _]%elem_of_have_list [Hj _]%elem_of_have_list. rewrite (H i Hi) in Hj. done.
  - intros j. rewrite elem_of_app, !elem_of_have_list, bit_lor, orb_true_iff. tauto.
Qed.

Lemma ones_cover n a b : (n <= 32)%nat -> (forall i, (i < n)%nat -> bit a i = true \/ bit b i = true) -> (n <= OnesCount32 a + OnesCount32 b)%nat.
Proof.
  intros Hn H. unfold OnesCount32. rewrite <- length_app. etransitivity; [apply Nat.eq_le_incl; symmetry; exact (length_seq n 0)|]. apply submseteq_length, NoDup_submseteq; [apply NoDup_seq|]. intros i [_ Hi]%elem_of_seq.
  rewrite elem_of_app, !elem_of_have_list. destruct (H i Hi); [left | right]; (split; [done | lia]).
Qed.

(** As many blocks as there are, or one is missing. *)
Lemma ones_le n b : bits_below n b -> (OnesCount32 b <= n)%nat.
Proof.
  intros [_ H]. rewrite <- (length_seq n 0). apply submseteq_length, NoDup_submseteq; [apply have_list_NoDup|]. intros i [Hi _]%elem_of_have_list. apply elem_of_seq. apply H in Hi. lia.
Qed.

Lemma ones_full n b : bits_below n b -> (n <= 32)%nat -> OnesCount32 b = n -> forall i, (i < n)%nat -> bit b i = true.
Proof.
  intros [H0 H] Hn Hc i Hi. destruct (bit b i) eqn:E; [done|]. exfalso. assert (Hle : (length (i :: have_list 32 b) <= length (seq 0 n))%nat).
  { apply submseteq_length, NoDup_submseteq; [constructor; [|apply have_list_NoDup]; rewrite elem_of_have_list; intros [? _]; congruence|].
    intros j. rewrite elem_of_cons, elem_of_have_list, elem_of_seq. intros [->|[Hj _]]; [lia|]. apply H in Hj. lia. }
  rewrite length_seq in Hle. cbn [length] in Hle. unfold OnesCount32 in Hc. lia.
Qed.

Lemma ones_0 : OnesCount32 0 = 0%nat.
Proof. done. Qed.
