(* ===== verification/CellRange.v ===== *)
(** Which part of each block of a coded span a read needs, and where it goes:
    readRsState.cell, blockToDownload and copyToOut of src/go/client/span.go.

    The span is cut into cells that go round the data blocks, stripe by stripe.
    A read of a range of the span takes from each cell what the range covers,
    widened to whole pages. All offsets are uint32 in the source; the arithmetic
    is written out with its wrap-around, and [cell_exact] shows that nothing
    wraps for a span below 2^32 bytes. *)

From Stdlib Require Import ZArith Lia.
From stdpp Require Import base numbers option list.
From S2P Require Import Prelude Bincode Messages Ids Gf256 Cauchy ReedSolomon Crc32c CrcFusion SpanLayout.

(** * The code *)

Record cell_range := mkCellRange { cl_blockStart : Z; cl_blockFrom : Z; cl_blockTo : Z; cl_outFrom : Z; cl_outTo : Z }.

(** The span and the range of it that is read. *)
Record read_range := mkReadRange { rg_D : Z; rg_Stripes : Z; rg_CellSize : Z; rg_spanStart : Z; rg_spanEnd : Z }.

Definition cell (rs : read_range) (stripeIx blockIx : Z) : cell_range :=
  let c := rg_CellSize rs in
  let stripeSize := wrap32 (c * rg_D rs) in
  let cellIx := wrap32 (wrap32 (stripeIx * rg_D rs) + blockIx) in
  let cellStart := wrap32 (cellIx * c) in
  let cellEnd := wrap32 (wrap32 (cellIx + 1) * c) in
  if (rg_spanEnd rs <=? cellStart) || (cellEnd <=? rg_spanStart rs) then mkCellRange 0 0 0 0 0
  else
    let blockAdjustment := wrap32 (wrap32 (wrap32 (stripeIx * stripeSize) + wrap32 (blockIx * c)) - wrap32 (stripeIx * c)) in
    let '(blockStart, blockFrom, outFrom) :=
      if cellStart <=? rg_spanStart rs then
        let cellStart := wrap32 (rg_spanStart rs / TERN_PAGE_SIZE * TERN_PAGE_SIZE) in
        (wrap32 (cellStart - blockAdjustment), wrap32 (rg_spanStart rs - blockAdjustment), 0)
      else
        let blockFrom := wrap32 (cellStart - blockAdjustment) in
        (blockFrom, blockFrom, wrap32 (cellStart - rg_spanStart rs)) in
    let '(cellEnd, outTo) :=
      if rg_spanEnd rs <? cellEnd then
        (wrap32 (wrap32 (rg_spanEnd rs + TERN_PAGE_SIZE - 1) / TERN_PAGE_SIZE * TERN_PAGE_SIZE), wrap32 (rg_spanEnd rs - rg_spanStart rs))
      else (cellEnd, wrap32 (cellEnd - rg_spanStart rs)) in
    mkCellRange blockStart blockFrom (wrap32 (cellEnd - blockAdjustment)) outFrom outTo.

Definition max32 : Z := 2 ^ 32 - 1.

Definition stripe_numbers (rs : read_range) : list Z := Z.of_nat <$> seq 0 (Z.to_nat (rg_Stripes rs)).

Definition widen (rs : read_range) (blockIx : Z) (acc : Z * Z * Z) (stripeIx : Z) : Z * Z * Z :=
  let this := cell rs stripeIx blockIx in
  if cl_blockFrom this =? cl_blockTo this then acc
  else (Z.min (cl_blockStart this) acc.1.1, Z.min (cl_blockFrom this) acc.1.2, Z.max acc.2 (cl_blockTo this)).

(** blockStart, blockFrom and blockTo; all zero when nothing is needed. *)
Definition blockToDownload (rs : read_range) (blockIx : Z) : Z * Z * Z :=
  let '(blockStart, blockFrom, blockTo) := foldl (widen rs blockIx) (max32, max32, 0) (stripe_numbers rs) in
  (if blockStart =? max32 then 0 else blockStart, if blockFrom =? max32 then 0 else blockFrom, blockTo).

(** [copy(out[a:b], from)]. *)
Definition copy_into {E} (out : list byte) (a b : nat) (from : list byte) : outcome E (list byte) :=
  let! to := sub out a b in Ok (overwrite out a (take (length to) from)).

Definition copy_stripe {E} (rs : read_range) (blockIx blockStart : Z) (buf : list byte) (out : list byte) (stripeIx : Z) : outcome E (list byte) :=
  let this := cell rs stripeIx blockIx in
  if cl_blockFrom this =? cl_blockTo this then Ok out
  else
    let! from := sub buf (Z.to_nat (wrap32 (cl_blockFrom this - blockStart))) (Z.to_nat (wrap32 (cl_blockTo this - blockStart))) in
    copy_into out (Z.to_nat (cl_outFrom this)) (Z.to_nat (cl_outTo this)) from.

Definition copyToOut {E} (rs : read_range) (blockIx blockStart : Z) (buf out : list byte) : outcome E (list byte) :=
  foldM_outcome (copy_stripe rs blockIx blockStart buf) out (stripe_numbers rs).

(** * A cell *)

Definition round_down (x : Z) : Z := x / TERN_PAGE_SIZE * TERN_PAGE_SIZE.
Definition round_up (x : Z) : Z := (x + TERN_PAGE_SIZE - 1) / TERN_PAGE_SIZE * TERN_PAGE_SIZE.

Lemma wrap32_small x : 0 <= x < 2 ^ 32 -> wrap32 x = x.
Proof. apply Z.mod_small. Qed.

Lemma round_down_bounds x : x - TERN_PAGE_SIZE < round_down x <= x.
Proof. unfold round_down. pose proof (Z.div_mod x TERN_PAGE_SIZE ltac:(done)). pose proof (Z.mod_pos_bound x TERN_PAGE_SIZE ltac:(done)). lia. Qed.

Lemma round_up_bounds' x : x <= round_up x < x + TERN_PAGE_SIZE.
Proof. unfold round_up. pose proof (Z.div_mod (x + TERN_PAGE_SIZE - 1) TERN_PAGE_SIZE ltac:(done)). pose proof (Z.mod_pos_bound (x + TERN_PAGE_SIZE - 1) TERN_PAGE_SIZE ltac:(done)). lia. Qed.

(** Rounding stays within multiples of a page. *)
Lemma round_down_ge m x : (TERN_PAGE_SIZE | m) -> m <= x -> m <= round_down x.
Proof. intros [q ->] H. unfold round_down. apply Z.mul_le_mono_nonneg_r; [done|]. apply Z.div_le_lower_bound; [done | lia]. Qed.

Lemma round_up_le m x : (TERN_PAGE_SIZE | m) -> x <= m -> round_up x <= m.
Proof.
  intros [q ->] H. unfold round_up. apply Z.mul_le_mono_nonneg_r; [done|]. assert (HP : 0 < TERN_PAGE_SIZE) by done. pose proof (Z.div_lt_upper_bound (x + TERN_PAGE_SIZE - 1) TERN_PAGE_SIZE (q + 1) HP ltac:(lia)). lia.
Qed.

(** A range of a span of whole pages, below 2^32 bytes. *)
Record valid_range (rs : read_range) : Prop := {
  vr_D : 1 <= rg_D rs;
  vr_S : 1 <= rg_Stripes rs;
  vr_c : 0 < rg_CellSize rs;
  vr_pages : (TERN_PAGE_SIZE | rg_CellSize rs);
  vr_capacity : rg_Stripes rs * rg_D rs * rg_CellSize rs < 2 ^ 32;
  vr_range : 0 <= rg_spanStart rs < rg_spanEnd rs /\ rg_spanEnd rs <= rg_Stripes rs * rg_D rs * rg_CellSize rs }.

(** The stripes of a block end within it, and a block is shorter than 2^32. *)
Lemma stripe_in_block rs s : valid_range rs -> 0 <= s < rg_Stripes rs -> s * rg_CellSize rs + rg_CellSize rs <= rg_Stripes rs * rg_CellSize rs /\ rg_Stripes rs * rg_CellSize rs < 2 ^ 32.
Proof.
  intros [V1 V2 V3 _ V5 _] Hs. pose proof (Z.mul_le_mono_nonneg_r (s + 1) (rg_Stripes rs) (rg_CellSize rs) ltac:(lia) ltac:(lia)) as H1. split; [lia|]. rewrite <- Z.mul_assoc, (Z.mul_comm (rg_D rs)), Z.mul_assoc in V5.
  pose proof (Z.mul_le_mono_nonneg_l 1 (rg_D rs) (rg_Stripes rs * rg_CellSize rs) ltac:(apply Z.mul_nonneg_nonneg; lia) V1) as H2. lia.
Qed.

Section cells.
Context (rs : read_range) (Hrs : valid_range rs).
Let D := rg_D rs.
Let c := rg_CellSize rs.
Let st := rg_spanStart rs.
Let en := rg_spanEnd rs.

(** Where the cell of block [i] in stripe [s] starts, in the span. *)
Definition cell_pos_in_span (s i : Z) : Z := (s * rg_D rs + i) * rg_CellSize rs.

Definition covered (s i : Z) : Prop := cell_pos_in_span s i < rg_spanEnd rs /\ rg_spanStart rs < cell_pos_in_span s i + rg_CellSize rs.

Lemma cell_bounds s i : 0 <= s < rg_Stripes rs -> 0 <= i < D ->
  0 <= s * D /\ 0 <= s * D + i /\ 0 <= s * c /\ 0 <= i * c /\ s * (c * D) + i * c = cell_pos_in_span s i /\ s * c <= cell_pos_in_span s i /\ cell_pos_in_span s i + c <= rg_Stripes rs * D * c.
Proof.
  destruct Hrs as [HD HS Hc _ _ _]. fold D in HD. fold c in Hc. intros Hs Hi. unfold cell_pos_in_span. fold D c. assert (s * D + i + 1 <= rg_Stripes rs * D) by nia. split_and!; nia.
Qed.

Lemma cell_exact s i : 0 <= s < rg_Stripes rs -> 0 <= i < D ->
  let a := cell_pos_in_span s i in
  cell rs s i = if (en <=? a) || (a + c <=? st) then mkCellRange 0 0 0 0 0
    else mkCellRange (s * c + (if a <=? st then round_down st - a else 0)) (s * c + (Z.max a st - a)) (s * c + (if en <? a + c then round_up en - a else c))
           (Z.max a st - st) (Z.min (a + c) en - st).
Proof.
  intros Hs Hi a. destruct (cell_bounds s i Hs Hi) as (B1 & B2 & B3 & B4 & B5 & B6 & B7). destruct Hrs as [HD HS Hc Hp Hcap [Hst Hen]]. fold D in HD, Hcap, Hen. fold c in Hc, Hp, Hcap, Hen. fold st en in Hst. fold en in Hen. fold a in B5, B6, B7.
  assert (HDc : 0 <= c * D < 2 ^ 32) by nia. assert (Hm : 0 <= s * D + i < 2 ^ 32 - 1) by (unfold a, cell_pos_in_span in B7; fold D c in B7; nia).
  unfold cell. fold D c st en. rewrite (wrap32_small (c * D)), (wrap32_small (s * D)), (wrap32_small (s * D + i)), (wrap32_small (s * D + i + 1)) by lia.
  change ((s * D + i) * c) with a. replace ((s * D + i + 1) * c) with (a + c) by (unfold a, cell_pos_in_span; fold D c; lia). rewrite (wrap32_small a), (wrap32_small (a + c)) by lia.
  destruct ((en <=? a) || (a + c <=? st)) eqn:E; [done|]. apply orb_false_iff in E as [E1%Z.leb_gt E2%Z.leb_gt].
  rewrite (wrap32_small (s * (c * D))), (wrap32_small (i * c)), B5, (wrap32_small a), (wrap32_small (s * c)), (wrap32_small (a - s * c)) by lia.
  assert (HP : TERN_PAGE_SIZE = 4096) by done.
  assert (Hpa : (TERN_PAGE_SIZE | a)) by (unfold a, cell_pos_in_span; by apply Z.divide_mul_r). assert (Hpac : (TERN_PAGE_SIZE | a + c)) by (by apply Z.divide_add_r).
  pose proof (round_down_bounds st) as Rd. pose proof (round_down_ge 0 st (Z.divide_0_r _) ltac:(lia)) as Rd0. pose proof (round_up_bounds' en) as Ru.
  assert (Hcapp : (TERN_PAGE_SIZE | rg_Stripes rs * D * c)) by (by apply Z.divide_mul_r). pose proof (round_up_le _ en Hcapp Hen) as Ru2.
  assert (Hen2 : en + TERN_PAGE_SIZE - 1 < 2 ^ 32).
  { destruct Hcapp as [q Hq]. rewrite Hq in Hcap, Hen. rewrite HP in *. assert (q < 1048576) by lia. lia. }
  rewrite (wrap32_small (en + TERN_PAGE_SIZE - 1)) by lia. fold (round_down st) (round_up en). rewrite (wrap32_small (round_down st)), (wrap32_small (round_up en)) by lia.
  destruct (Z.leb_spec a st) as [L1|L1]; destruct (Z.ltb_spec en (a + c)) as [L2|L2].
  all: try (pose proof (round_down_ge a st Hpa ltac:(lia)) as Rd2); try (pose proof (round_up_le (a + c) en Hpac ltac:(lia)) as Ru3).
  all: rewrite !wrap32_small by lia; f_equal; lia.
Qed.

Record cell_covers (s i : Z) (r : cell_range) : Prop := {
  cv_start : (TERN_PAGE_SIZE | cl_blockStart r);
  cv_to : (TERN_PAGE_SIZE | cl_blockTo r);
  cv_order : s * rg_CellSize rs <= cl_blockStart r <= cl_blockFrom r /\ cl_blockFrom r < cl_blockTo r <= s * rg_CellSize rs + rg_CellSize rs;
  cv_out : 0 <= cl_outFrom r < cl_outTo r /\ cl_outTo r <= rg_spanEnd rs - rg_spanStart rs /\ cl_outTo r - cl_outFrom r <= cl_blockTo r - cl_blockFrom r;
  cv_from : cl_blockFrom r - s * rg_CellSize rs = rg_spanStart rs + cl_outFrom r - cell_pos_in_span s i;
  cv_outs : cl_outFrom r = Z.max (cell_pos_in_span s i) (rg_spanStart rs) - rg_spanStart rs /\ cl_outTo r = Z.min (cell_pos_in_span s i + rg_CellSize rs) (rg_spanEnd rs) - rg_spanStart rs }.

#[local] Instance covered_dec s i : Decision (covered s i).
Proof. unfold covered. apply _. Defined.

(** A cell that the range touches, and one that it does not. *)
Lemma cell_cases s i : 0 <= s < rg_Stripes rs -> 0 <= i < rg_D rs ->
  (covered s i /\ cell_covers s i (cell rs s i)) \/ (~ covered s i /\ cell rs s i = mkCellRange 0 0 0 0 0).
Proof.
  intros Hs Hi. destruct (cell_bounds s i Hs Hi) as (B1 & B2 & B3 & B4 & B5 & B6 & B7). rewrite (cell_exact s i Hs Hi). unfold covered. destruct Hrs as [HD HS Hc Hp Hcap [Hst Hen]].
  set (a := cell_pos_in_span s i) in *. assert (Hpa : (TERN_PAGE_SIZE | a)) by (unfold a, cell_pos_in_span; by apply Z.divide_mul_r).
  assert (Hpac : (TERN_PAGE_SIZE | a + c)) by (by apply Z.divide_add_r). assert (Hsc : (TERN_PAGE_SIZE | s * c)) by (by apply Z.divide_mul_r).
  destruct (Z.leb_spec en a) as [E1|E1]; [right; cbn [orb]; split; [unfold en in *; lia | done]|]. destruct (Z.leb_spec (a + c) st) as [E2|E2]; [right; cbn [orb]; split; [unfold st, c in *; lia | done]|].
  left. cbn [orb]. split; [unfold st, en, c in *; lia|]. pose proof (round_down_bounds st) as Rd. pose proof (round_up_bounds' en) as Ru.
  assert (Hd : (TERN_PAGE_SIZE | round_down st)) by (exists (st / TERN_PAGE_SIZE); done). assert (Hu : (TERN_PAGE_SIZE | round_up en)) by (by eexists).
  fold c st en. constructor; cbn [cl_blockStart cl_blockFrom cl_blockTo cl_outFrom cl_outTo]; fold c st en a.
  - apply Z.divide_add_r; [done|]. destruct (_ <=? _); [by apply Z.divide_sub_r | apply Z.divide_0_r].
  - apply Z.divide_add_r; [done|]. destruct (_ <? _); [by apply Z.divide_sub_r | done].
  - destruct (Z.leb_spec a st); destruct (Z.ltb_spec en (a + c)).
    all: try (pose proof (round_down_ge a st Hpa ltac:(lia))); try (pose proof (round_up_le (a + c) en Hpac ltac:(lia))); lia.
  - destruct (Z.ltb_spec en (a + c)); lia.
  - lia.
  - lia.
Qed.

(** * The part of a block *)

(** What a block needs, over some of the stripes. *)
Definition needed (i : Z) (stripes : list Z) (acc : Z * Z * Z) : Prop :=
  ((forall s, s ∈ stripes -> ~ covered s i) /\ acc = (max32, max32, 0)) \/
  ((exists s, s ∈ stripes /\ covered s i) /\ (forall s, s ∈ stripes -> covered s i -> acc.1.1 <= cl_blockStart (cell rs s i) /\ cl_blockTo (cell rs s i) <= acc.2) /\
   0 <= acc.1.1 <= acc.1.2 /\ acc.1.2 < acc.2 <= rg_Stripes rs * rg_CellSize rs /\ (TERN_PAGE_SIZE | acc.1.1) /\ (TERN_PAGE_SIZE | acc.2)).

Lemma needed_all i stripes : 0 <= i < rg_D rs -> (forall s, s ∈ stripes -> 0 <= s < rg_Stripes rs) -> needed i stripes (foldl (widen rs i) (max32, max32, 0) stripes).
Proof.
  intros Hi. induction stripes as [|s stripes IH] using rev_ind; intros Hs.
  { left. split; [|done]. intros s Hs'. by apply not_elem_of_nil in Hs'. }
  rewrite foldl_app. cbn [foldl]. assert (Hs' : 0 <= s < rg_Stripes rs) by (apply Hs, elem_of_app; right; by left).
  specialize (IH ltac:(intros s' H; apply Hs, elem_of_app; by left)). set (acc := foldl _ _ stripes) in *. unfold widen. destruct (cell_cases s i Hs' Hi) as [[Hcov [C1 C2 C3 C4 _ _]]|[Hcov ->]].
  - rewrite (proj2 (Z.eqb_neq _ _)) by lia. destruct (cell_bounds s i Hs' Hi) as (_ & _ & B3 & _ & _ & B6 & B7). pose proof Hrs as [HD HS Hc _ Hcap _].
    destruct (stripe_in_block rs s Hrs ltac:(lia)) as [Hsc Hlt]. fold c in B3.
    right. cbn [fst snd]. destruct IH as [[Hno ->]|((s0 & Hs0 & Hc0) & Hall & Hb1 & Hb2 & Hd1 & Hd2)]; cbn [fst snd]; unfold max32, c in *.
    + split; [exists s; split; [apply elem_of_app; right; by left | done]|]. split.
      { intros s' [H|H%list_elem_of_singleton]%elem_of_app Hcov'; [by apply Hno in H|]. subst s'. lia. }
      rewrite !Z.min_l, Z.max_r by lia. split_and!; try lia; done.
    + split; [exists s; split; [apply elem_of_app; right; by left | done]|]. split.
      { intros s' [H|H%list_elem_of_singleton]%elem_of_app Hcov'; [specialize (Hall s' H Hcov'); lia|]. subst s'. lia. }
      split_and!; try lia; [destruct (Z.min_dec (cl_blockStart (cell rs s i)) acc.1.1) as [->| ->]; done | destruct (Z.max_dec acc.2 (cl_blockTo (cell rs s i))) as [->| ->]; done].
  - cbn [cl_blockFrom cl_blockTo Z.eqb]. destruct IH as [[Hno ->]|((s0 & Hs0 & Hc0) & Hall & Hrest)].
    + left. split; [|done]. intros s' [H|H%list_elem_of_singleton]%elem_of_app; [by apply Hno|]. by subst s'.
    + right. split; [exists s0; split; [apply elem_of_app; by left | done]|]. split; [|done]. intros s' [H|H%list_elem_of_singleton]%elem_of_app Hcov'; [by apply Hall|]. by subst s'.
Qed.

Lemma elem_of_stripes s : s ∈ stripe_numbers rs <-> 0 <= s < rg_Stripes rs.
Proof.
  unfold stripe_numbers. rewrite list_elem_of_fmap. split.
  - intros (k & -> & [_ Hk]%elem_of_seq). lia.
  - intros Hs. exists (Z.to_nat s). split; [lia|]. apply elem_of_seq. lia.
Qed.

(** Nothing of the block is needed, or a range of whole pages with every cell that the read touches. *)
Lemma download_range i : 0 <= i < rg_D rs ->
  ((forall s, 0 <= s < rg_Stripes rs -> ~ covered s i) /\ blockToDownload rs i = (0, 0, 0)) \/
  exists bs bf bt, blockToDownload rs i = (bs, bf, bt) /\ 0 <= bs <= bf /\ bf < bt <= rg_Stripes rs * rg_CellSize rs /\ (TERN_PAGE_SIZE | bs) /\ (TERN_PAGE_SIZE | bt) /\
    (exists s, 0 <= s < rg_Stripes rs /\ covered s i) /\
    forall s, 0 <= s < rg_Stripes rs -> covered s i -> bs <= cl_blockStart (cell rs s i) /\ cl_blockTo (cell rs s i) <= bt.
Proof.
  intros Hi. pose proof (needed_all i (stripe_numbers rs) Hi ltac:(intros s; apply elem_of_stripes)) as H. unfold blockToDownload. destruct (foldl _ _ _) as [[bs bf] bt]. cbn [fst snd] in *.
  destruct H as [[Hno E]|((s & Hs & Hcov) & Hall & Hb & Hb2 & Hd1 & Hd2)].
  - left. split; [intros s Hs; apply Hno; by apply elem_of_stripes|]. injection E as -> -> ->. done.
  - right. cbn [fst snd] in *. assert (Hlt : rg_Stripes rs * rg_CellSize rs < 2 ^ 32) by (destruct Hrs as [HD HS Hc _ Hcap _]; nia). exists bs, bf, bt.
    rewrite (proj2 (Z.eqb_neq bs _)), (proj2 (Z.eqb_neq bf _)) by (unfold max32; lia). split_and!; try done; try lia; [exists s; split; [by apply elem_of_stripes | done]|].
    intros s' Hs'. apply Hall. by apply elem_of_stripes.
Qed.
End cells.

(** * Copying to the output *)

Lemma lookup_overwrite {A} (l : list A) off new k : (off + length new <= length l)%nat ->
  overwrite l off new !! k = if decide (off <= k < off + length new)%nat then new !! (k - off)%nat else l !! k.
Proof.
  intros Hl. unfold overwrite. assert (Ht : length (take off l) = off) by (rewrite length_take; lia). case_decide as Hk.
  - rewrite lookup_app_r, Ht, lookup_app_l by lia. done.
  - destruct (decide (k < off)%nat) as [Hlt|Hge]; [rewrite lookup_app_l, lookup_take_lt by lia; done|]. rewrite lookup_app_r, Ht, lookup_app_r, lookup_drop by lia. f_equal. lia.
Qed.

Section copying.
Context (rs : read_range) (Hrs : valid_range rs) (X B : list byte) (i : Z) (Hi : 0 <= i < rg_D rs).
Context (HX : length X = Z.to_nat (rg_Stripes rs * rg_D rs * rg_CellSize rs)) (HB : length B = Z.to_nat (rg_Stripes rs * rg_CellSize rs)).
(** [B] holds the cells of block [i] of [X]. *)
Context (HBX : forall s, 0 <= s < rg_Stripes rs ->
  take (Z.to_nat (rg_CellSize rs)) (drop (Z.to_nat (s * rg_CellSize rs)) B) = take (Z.to_nat (rg_CellSize rs)) (drop (Z.to_nat (cell_pos_in_span rs s i)) X)).

(** A piece of a cell, in the block and in the span. *)
Lemma piece_in_span s k m : 0 <= s < rg_Stripes rs -> 0 <= k -> 0 <= m -> k + m <= rg_CellSize rs ->
  take (Z.to_nat m) (drop (Z.to_nat (s * rg_CellSize rs + k)) B) = take (Z.to_nat m) (drop (Z.to_nat (cell_pos_in_span rs s i + k)) X).
Proof.
  intros Hs Hk Hm Hkm. destruct (cell_bounds rs Hrs s i Hs Hi) as (B1 & B2 & B3 & B4 & B5 & B6 & B7). specialize (HBX s Hs). apply (f_equal (fun l => take (Z.to_nat m) (drop (Z.to_nat k) l))) in HBX.
  rewrite !skipn_firstn_comm, !take_take, !drop_drop in HBX. rewrite !Nat.min_l in HBX by lia. rewrite !Z2Nat.inj_add by lia. exact HBX.
Qed.

(** Block [i] holds position [p] of the span. *)
Definition owns (i p : Z) : Prop := (p / rg_CellSize rs) mod rg_D rs = i.

Lemma cell_owns s p : 0 <= s < rg_Stripes rs -> cell_pos_in_span rs s i <= p < cell_pos_in_span rs s i + rg_CellSize rs -> owns i p /\ p / rg_CellSize rs / rg_D rs = s.
Proof.
  intros Hs Hp. destruct Hrs as [HD HS Hc _ _ _]. unfold owns, cell_pos_in_span in *. assert (p / rg_CellSize rs = s * rg_D rs + i) as ->.
  { symmetry. apply (Z.div_unique_pos _ _ _ (p - (s * rg_D rs + i) * rg_CellSize rs)); lia. }
  split; [rewrite Z.add_comm, Z.mod_add, Z.mod_small by lia; done|]. rewrite Z.div_add_l, Z.div_small by lia. lia.
Qed.

Lemma owner_cell p : 0 <= p < rg_Stripes rs * rg_D rs * rg_CellSize rs -> owns i p ->
  let s := p / rg_CellSize rs / rg_D rs in 0 <= s < rg_Stripes rs /\ cell_pos_in_span rs s i <= p < cell_pos_in_span rs s i + rg_CellSize rs.
Proof.
  intros Hp Ho s. destruct Hrs as [HD HS Hc _ _ _]. unfold owns in Ho. pose proof (Z.div_mod p (rg_CellSize rs) ltac:(lia)) as E1. pose proof (Z.mod_pos_bound p (rg_CellSize rs) ltac:(lia)).
  pose proof (Z.div_mod (p / rg_CellSize rs) (rg_D rs) ltac:(lia)) as E2. rewrite Ho in E2. fold s in E2. unfold cell_pos_in_span. rewrite (Z.mul_comm s), <- E2. split; [|lia]. split.
  - apply Z.div_pos; [apply Z.div_pos; lia | lia].
  - apply Z.div_lt_upper_bound; [lia|]. apply Z.div_lt_upper_bound; [lia|]. lia.
Qed.

(** The output has the bytes of block [i] in the stripes [done], and is unchanged elsewhere. *)
Definition copied_from (stripes : list Z) (out out' : list byte) : Prop :=
  length out' = length out /\ forall o : nat,
    (Z.of_nat o < rg_spanEnd rs - rg_spanStart rs -> owns i (rg_spanStart rs + Z.of_nat o) -> (rg_spanStart rs + Z.of_nat o) / rg_CellSize rs / rg_D rs ∈ stripes ->
      out' !! o = X !! Z.to_nat (rg_spanStart rs + Z.of_nat o)) /\
    (~ (Z.of_nat o < rg_spanEnd rs - rg_spanStart rs /\ owns i (rg_spanStart rs + Z.of_nat o) /\ (rg_spanStart rs + Z.of_nat o) / rg_CellSize rs / rg_D rs ∈ stripes) -> out' !! o = out !! o).

(** What the buffer holds: [B] from [blockStart] on, with every cell that is needed. *)
Context (blockStart : Z) (buf : list byte) (Hbs : 0 <= blockStart) (Hbuf : buf = take (length buf) (drop (Z.to_nat blockStart) B)).
Context (Hneed : forall s, 0 <= s < rg_Stripes rs -> covered rs s i -> blockStart <= cl_blockFrom (cell rs s i) /\ cl_blockTo (cell rs s i) <= blockStart + Z.of_nat (length buf)).

Lemma copy_stripe_ok {E} out s : 0 <= s < rg_Stripes rs -> rg_spanEnd rs - rg_spanStart rs <= Z.of_nat (length out) ->
  exists out', @copy_stripe E rs i blockStart buf out s = Ok out' /\ copied_from [s] out out'.
Proof.
  intros Hs Hout. pose proof Hrs as [HD HS Hc _ Hcap [Hst Hen]]. unfold copy_stripe. destruct (cell_bounds rs Hrs s i Hs Hi) as (_ & _ & B3 & _ & _ & B6 & B7).
  assert (Hother : forall out' : list byte, (forall o : nat, ~ (Z.of_nat o < rg_spanEnd rs - rg_spanStart rs /\ cell_pos_in_span rs s i <= rg_spanStart rs + Z.of_nat o < cell_pos_in_span rs s i + rg_CellSize rs) -> out' !! o = out !! o) ->
    forall o : nat, ~ (Z.of_nat o < rg_spanEnd rs - rg_spanStart rs /\ owns i (rg_spanStart rs + Z.of_nat o) /\ (rg_spanStart rs + Z.of_nat o) / rg_CellSize rs / rg_D rs ∈ [s]) -> out' !! o = out !! o).
  { intros out' H o Ho. apply H. intros [H1 H2]. apply Ho. destruct (cell_owns s _ Hs H2) as [O1 O2]. split_and!; [done | done|]. rewrite O2. by left. }
  destruct (cell_cases rs Hrs s i Hs Hi) as [[Hcov Hcell]|[Hno ->]].
  - destruct (Hneed s Hs Hcov) as [Hn1 Hn2]. destruct Hcell as [_ _ Hord Hco Hfrom [Hof Hot]]. set (r := cell rs s i) in *. rewrite (proj2 (Z.eqb_neq _ _)) by lia.
    destruct (stripe_in_block rs s Hrs Hs) as [Hblt Hblt'].
    rewrite !wrap32_small by lia. rewrite sub_ok by lia. cbn [mbind outcome_bind]. unfold copy_into. rewrite sub_ok by lia. cbn [mbind outcome_bind].
    set (n := cl_outTo r - cl_outFrom r). assert (Hpiece : take (Z.to_nat n) (take (Z.to_nat (cl_blockTo r - blockStart) - Z.to_nat (cl_blockFrom r - blockStart)) (drop (Z.to_nat (cl_blockFrom r - blockStart)) buf)) =
      take (Z.to_nat n) (drop (Z.to_nat (rg_spanStart rs + cl_outFrom r)) X)).
    { rewrite take_take, Nat.min_l by lia. rewrite Hbuf, skipn_firstn_comm, take_take, drop_drop, Nat.min_l by lia. rewrite <- Z2Nat.inj_add by lia.
      replace (blockStart + (cl_blockFrom r - blockStart)) with (s * rg_CellSize rs + (cl_blockFrom r - s * rg_CellSize rs)) by lia. rewrite piece_in_span by lia. do 3 f_equal. lia. }
    assert (Hlen : length (take (Z.to_nat n) (drop (Z.to_nat (rg_spanStart rs + cl_outFrom r)) X)) = Z.to_nat n) by (rewrite length_take, length_drop, HX; lia).
    eexists. split; [done|]. rewrite length_take, length_drop. replace ((Z.to_nat (cl_outTo r) - Z.to_nat (cl_outFrom r)) `min` (length out - Z.to_nat (cl_outFrom r)))%nat with (Z.to_nat n) by lia. rewrite Hpiece.
    set (new := take _ _) in *. split; [apply length_overwrite; lia|]. intros o. split.
    + intros Ho Hown Hin%list_elem_of_singleton. destruct (owner_cell (rg_spanStart rs + Z.of_nat o) ltac:(lia) Hown) as [_ Hpos]. rewrite Hin in Hpos.
      rewrite lookup_overwrite, decide_True by lia. unfold new. rewrite lookup_take_lt, lookup_drop by lia. f_equal. lia.
    + revert o. apply Hother. intros o Ho. rewrite lookup_overwrite, decide_False by lia. done.
  - cbn [cl_blockFrom cl_blockTo Z.eqb]. exists out. split; [done|]. split; [done|]. intros o. split; [|by revert o; apply Hother].
    intros Ho Hown Hin%list_elem_of_singleton. exfalso. destruct (owner_cell (rg_spanStart rs + Z.of_nat o) ltac:(lia) Hown) as [_ Hpos]. rewrite Hin in Hpos. apply Hno. unfold covered. lia.
Qed.

Lemma copied_app l s out out1 out2 : copied_from l out out1 -> copied_from [s] out1 out2 -> copied_from (l ++ [s]) out out2.
Proof.
  intros [L1 H1] [L2 H2]. split; [by rewrite L2|]. intros o. destruct (H1 o) as [A1 A2], (H2 o) as [C1 C2]. set (p := rg_spanStart rs + Z.of_nat o) in *. set (q := p / rg_CellSize rs / rg_D rs) in *. split.
  - intros Ho Hown Hin. destruct (decide (q ∈ [s])) as [Hq|Hq]; [by apply C1|]. rewrite C2 by (intros (_ & _ & ?); done). apply elem_of_app in Hin as [Hin|?]; [by apply A1 | done].
  - intros Hno. rewrite C2, A2; [done | |]; intros (? & ? & ?); apply Hno; (split_and!; [done | done|]; apply elem_of_app; auto).
Qed.

Lemma copy_stripes {E} l out : (forall s, s ∈ l -> 0 <= s < rg_Stripes rs) -> rg_spanEnd rs - rg_spanStart rs <= Z.of_nat (length out) ->
  exists out', foldM_outcome (@copy_stripe E rs i blockStart buf) out l = Ok out' /\ copied_from l out out'.
Proof.
  intros Hl Hout. induction l as [|s l IH] using rev_ind.
  { exists out. split; [done|]. split; [done|]. intros o. split; [|done]. intros _ _ Hin. by apply not_elem_of_nil in Hin. }
  destruct IH as (out1 & E1 & H1); [intros s' Hs'; apply Hl, elem_of_app; by left|]. rewrite foldM_app, E1. cbn [mbind outcome_bind foldM_outcome].
  destruct (copy_stripe_ok (E := E) out1 s) as (out2 & -> & H2); [apply Hl, elem_of_app; right; by left | destruct H1 as [-> _]; done |]. cbn [mbind outcome_bind]. exists out2. split; [done|]. by eapply copied_app.
Qed.

(** Everything of block [i] in the range, and nothing else. *)
Lemma copy_to_out {E} out : rg_spanEnd rs - rg_spanStart rs <= Z.of_nat (length out) ->
  exists out', @copyToOut E rs i blockStart buf out = Ok out' /\ length out' = length out /\ forall o : nat,
    (Z.of_nat o < rg_spanEnd rs - rg_spanStart rs -> owns i (rg_spanStart rs + Z.of_nat o) -> out' !! o = X !! Z.to_nat (rg_spanStart rs + Z.of_nat o)) /\
    (~ (Z.of_nat o < rg_spanEnd rs - rg_spanStart rs /\ owns i (rg_spanStart rs + Z.of_nat o)) -> out' !! o = out !! o).
Proof.
  intros Hout. destruct (copy_stripes (E := E) (stripe_numbers rs) out) as (out' & E1 & L & H); [intros s; apply elem_of_stripes | done|]. exists out'. split; [exact E1|]. split; [done|].
  intros o. destruct (H o) as [A1 A2]. split.
  - intros Ho Hown. apply A1; [done | done|]. apply elem_of_stripes. destruct Hrs as [_ _ _ _ _ [Hst Hen]]. apply owner_cell; [lia | done].
  - intros Hno. apply A2. intros (? & ? & _). by apply Hno.
Qed.
End copying.
