(* ===== verification/ReadRs.v ===== *)
(** Reading a range of a coded span: readRs, readRsRecover and the page cache
    around them, of src/go/client/span.go.

    First the pages of the data blocks that the range needs are asked for; once
    one of them fails, more blocks are asked for - from the page cache as far as
    it goes, then from the services - until any D are there and the missing data
    can be recovered. The requests complete in any order: [pick] and
    [pick_recover] choose the next one. The replies, whether a request can be
    started, the page cache and the contents of the buffers of the pool are
    arguments. Waiting when nothing is in flight is [Panic]: the code would wait
    for ever. The goroutines that write to the page cache are the list of their
    writes; freeing the buffers when all requests are done is left out. *)

From Stdlib Require Import ZArith Lia.
From stdpp Require Import base numbers option list.
From S2P Require Import Prelude Bincode Messages Ids Gf256 Cauchy ReedSolomon Crc32c CrcFusion Divide32 SpanLayout BlockFetch SpanFetch Bitmap CellRange.

Inductive phase := Reading | Recovering.

(** * The code *)

Record readRsState := mkReadRsState {
  rr_blocks : list (option BlockReader);
  rr_fetching : Z;
  rr_succeeded : Z;
  rr_failed : Z;
  rr_out : list byte;
}.

Record readRsStateRecover := mkReadRsStateRecover {
  rc_state : readRsState;
  rc_start : Z;
  rc_end : Z;
  rc_blocks : list (option BlockReader);
  rc_fetching : Z;
  rc_succeeded : Z;
  rc_failed : Z;
  rc_written : list (Z * list byte); (* the writes to the page cache *)
}.

Section code.
Context (Get : nat -> list byte) (span : SpanWithBlockServices) (body : FetchedBlocksSpan) (rs : read_range).
Context (starts : phase -> nat -> bool) (reply : phase -> nat -> nat -> nat -> attempt).
Context (ReadCache : option (Z -> nat -> list byte)).
Context (pick : readRsState -> nat) (pick_recover : readRsStateRecover -> nat).

Let byteOffset : Z := FetchedSpanHeader_ByteOffset (FetchedSpan_Header (sw_Span span)).
Let size : Z := FetchedSpanHeader_Size (FetchedSpan_Header (sw_Span span)).

Definition can_read (i : nat) : outcome net_error bool :=
  let! block := index (FetchedBlocksSpan_Blocks body) i in
  let! blockService := service_of span block in
  Ok (CanRead (bs_Flags blockService)).

Definition fresh_reader (start count : Z) : outcome net_error BlockReader := BlockReader_New Get (mkBlockReaderState [] 0) (Z.to_nat start) (Z.to_nat count).

(** Asking for what is needed of data block [i]. *)
Definition start_read (st : readRsState) (i : nat) : outcome net_error readRsState :=
  let '(start, from, to) := blockToDownload rs (Z.of_nat i) in
  if from =? to then Ok (mkReadRsState (rr_blocks st) (rr_fetching st) (set_bit (rr_succeeded st) i) (rr_failed st) (rr_out st))
  else
    let! br := fresh_reader start (wrap32 (to - start)) in
    let blocks := <[i := Some br]> (rr_blocks st) in
    let! readable := can_read i in
    if negb readable then Ok (mkReadRsState blocks (rr_fetching st) (rr_succeeded st) (set_bit (rr_failed st) i) (rr_out st))
    else if negb (starts Reading i) then Ok (mkReadRsState blocks (rr_fetching st) (rr_succeeded st) (set_bit (rr_failed st) i) (rr_out st))
    else Ok (mkReadRsState blocks (set_bit (rr_fetching st) i) (rr_succeeded st) (rr_failed st) (rr_out st)).

Definition reader_at (blocks : list (option BlockReader)) (i : nat) : outcome net_error BlockReader :=
  match blocks !! i with Some (Some br) => Ok br | _ => Panic end.

(** The completion of the request for data block [i]: whether it succeeded. *)
Definition finish_read (st : readRsState) (i : nat) : outcome net_error (bool * readRsState) :=
  let '(start, _, to) := blockToDownload rs (Z.of_nat i) in
  let count := wrap32 (to - start) in
  let! br := reader_at (rr_blocks st) i in
  let fetching := clear_bit (rr_fetching st) i in
  match fetch_response br (Z.to_nat count) (reply Reading i (Z.to_nat start) (Z.to_nat count)) with
  | Ok (br, _) =>
      let! out := copyToOut rs (Z.of_nat i) start (rd_buf br) (rr_out st) in
      Ok (true, mkReadRsState (<[i := Some br]> (rr_blocks st)) fetching (set_bit (rr_succeeded st) i) (rr_failed st) out)
  | Err (_, (br, _)) => Ok (false, mkReadRsState (<[i := Some br]> (rr_blocks st)) fetching (rr_succeeded st) (set_bit (rr_failed st) i) (rr_out st))
  | Panic => Panic
  end.

Let D : nat := dataBlocks body.
Let B : nat := totalBlocks body.

(** One completion a round, and no more of them than data blocks. *)
Fixpoint read_loop (fuel : nat) (st : readRsState) : outcome net_error readRsState :=
  if (OnesCount32 (rr_succeeded st) <? dataBlocks body)%nat && (OnesCount32 (rr_failed st) =? 0)%nat then
    match fuel with
    | O => Panic
    | S fuel =>
        let inFlight := have_list 32 (rr_fetching st) in
        let! i := index inFlight (pick st mod length inFlight) in
        let! r := finish_read st i in
        read_loop fuel r.2
    end
  else Ok st.

(** The page cache, stripe by stripe: how much was read, the buffer, and whether
    the loop is left. *)
Definition cache_stripe (cache : Z -> nat -> list byte) (offset count : Z) (blockIx : Z) (st : Z * list byte * bool) (stripeIx : Z) : outcome net_error (Z * list byte * bool) :=
  let c := FetchedBlocksSpan_CellSize body in
  let stripeSize := wrap32 (DataBlocks (FetchedBlocksSpan_Parity body) * c) in
  let blockCellStart := wrap32 (stripeIx * c) in
  let blockCellEnd := wrap32 (blockCellStart + c) in
  if st.2 then Ok st
  else if blockCellEnd <=? offset then Ok st
  else if wrap32 (offset + count) <=? blockCellStart then Ok (st.1, true)
  else
    let fileStart := wrap64 (wrap64 (byteOffset + wrap32 (stripeSize * stripeIx)) + wrap32 (blockIx * c)) in
    let '(fileStart, readCount) := if blockCellStart <? offset then (wrap64 (fileStart + wrap32 (offset - blockCellStart)), wrap32 (c - wrap32 (offset - blockCellStart))) else (fileStart, c) in
    let readCount := if wrap32 (offset + count) <? blockCellEnd then wrap32 (readCount - wrap32 (blockCellEnd - wrap32 (offset + count))) else readCount in
    let spanEnd := wrap64 (byteOffset + size) in
    let fileEnd := spanEnd / TERN_PAGE_SIZE * TERN_PAGE_SIZE in
    let spills := spanEnd <? wrap64 (fileStart + readCount) in
    if spills && (fileEnd <=? fileStart) then Ok (st.1, true)
    else
      let readCount := if spills then wrap32 (wrap64 (fileEnd - fileStart)) else readCount in
      let read := st.1.1 in
      let! _ := sub st.1.2 (Z.to_nat read) (Z.to_nat (wrap32 (read + readCount))) in
      let got := cache fileStart (Z.to_nat readCount) in
      let buf := overwrite st.1.2 (Z.to_nat read) got in
      let r := (Z.of_nat (length got) / TERN_PAGE_SIZE * TERN_PAGE_SIZE) in
      Ok (wrap32 (read + wrap32 r), buf, r <? readCount).

Definition uses_cache (i : nat) : bool := match ReadCache with Some _ => (i <? D)%nat | None => false end.

(** readRsStartFetchBlockWithCache; the goroutine's work up to its request. *)
Definition start_recover (st : readRsStateRecover) (i : nat) : outcome net_error readRsStateRecover :=
  let offset := rc_start st in
  let count := wrap32 (rc_end st - rc_start st) in
  let! br := fresh_reader offset count in
  let! _ := index (FetchedBlocksSpan_Blocks body) i in
  let with_reader br fetching failed := mkReadRsStateRecover (rc_state st) (rc_start st) (rc_end st) (<[i := Some br]> (rc_blocks st)) fetching (rc_succeeded st) failed (rc_written st) in
  match ReadCache with
  | Some cache =>
      if (i <? dataBlocks body)%nat then
        let! readerBuf := PagesWithCrcBuffer br in
        let! cached := foldM_outcome (cache_stripe cache offset count (Z.of_nat i)) (0, readerBuf, false) (stripe_numbers rs) in
        let br := mkBlockReaderState (take (rd_offset br) (rd_buf br) ++ cached.1.2) (rd_offset br) in
        let! br := BlockReader_Advance br (Z.to_nat cached.1.1) in
        Ok (with_reader br (set_bit (rc_fetching st) i) (rc_failed st))
      else if starts Recovering i then Ok (with_reader br (set_bit (rc_fetching st) i) (rc_failed st))
      else Ok (with_reader br (rc_fetching st) (set_bit (rc_failed st) i))
  | None =>
      if starts Recovering i then Ok (with_reader br (set_bit (rc_fetching st) i) (rc_failed st))
      else Ok (with_reader br (rc_fetching st) (set_bit (rc_failed st) i))
  end.

(** The writes to the page cache after the block is there. *)
Definition write_stripe (i : nat) (noFetch : bool) (blockStart blockTo pageCacheFrom pageCacheTo start : Z) (buf : list byte) (st : list (Z * list byte) * bool) (stripeIx : Z) :
    outcome net_error (list (Z * list byte) * bool) :=
  let c := FetchedBlocksSpan_CellSize body in
  let stripeSize := wrap32 (DataBlocks (FetchedBlocksSpan_Parity body) * c) in
  let blockCellStart := wrap32 (stripeIx * c) in
  let blockCellEnd := wrap32 (blockCellStart + c) in
  if st.2 then Ok st
  else if blockCellEnd <=? pageCacheFrom then Ok st
  else if pageCacheTo <=? blockCellStart then Ok (st.1, true)
  else
    let blockCellStart := if blockCellStart <? pageCacheFrom then pageCacheFrom else blockCellStart in
    let blockCellEnd := if pageCacheTo <? blockCellEnd then pageCacheTo else blockCellEnd in
    let fileAdjustment := wrap32 (wrap32 (wrap32 (- stripeIx * c) + wrap32 (stripeIx * stripeSize)) + wrap32 (Z.of_nat i * c)) in
    let fileStart := wrap64 (wrap64 (byteOffset + blockCellStart) + fileAdjustment) in
    let fileEnd := wrap64 (wrap64 (byteOffset + blockCellEnd) + fileAdjustment) in
    let clippedFileEnd := Z.min fileEnd (wrap64 (byteOffset + size)) in
    let clippedLen := clippedFileEnd - fileStart in
    if clippedLen <? 0 then Ok (st.1, true)
    else
      let blockCellEnd := Z.min blockCellEnd (wrap32 (blockCellStart + wrap32 clippedLen)) in
      let piece a b := sub buf (Z.to_nat (wrap32 (a - start))) (Z.to_nat (wrap32 (b - start))) in
      if noFetch then
        let! data := piece blockCellStart blockCellEnd in Ok (st.1 ++ [(fileStart, data)], false)
      else
        let! before := if blockCellStart <? blockStart then let! data := piece blockCellStart (Z.min blockCellEnd blockStart) in Ok [(fileStart, data)] else Ok [] in
        let begin := Z.max blockTo blockCellStart in
        let! after := if blockTo <? blockCellEnd then let! data := piece begin blockCellEnd in Ok [(wrap64 (fileStart + wrap32 (begin - blockCellStart)), data)] else Ok [] in
        Ok (st.1 ++ before ++ after, false).

Definition readRsWriteToPageCache (st : readRsStateRecover) (i : nat) (readFromPageCache : Z) (buf : list byte) : outcome net_error (list (Z * list byte)) :=
  if uses_cache i && (readFromPageCache <? wrap32 (rc_end st - rc_start st)) then
    let '(blockStart, _, blockTo) := blockToDownload rs (Z.of_nat i) in
    let! r := foldM_outcome (write_stripe i (blockStart =? blockTo) blockStart blockTo (wrap32 (rc_start st + readFromPageCache)) (rc_end st) (rc_start st) buf) ([], false) (stripe_numbers rs) in
    Ok r.1
  else Ok [].

(** What the request for recovery block [i] completes with. *)
Definition recover_response (st : readRsStateRecover) (br : BlockReader) (i : nat) : outcome (net_error * (BlockReader * list Z)) (BlockReader * list Z) :=
  let count := Z.to_nat (wrap32 (rc_end st - rc_start st)) in
  let cached := rd_offset br in
  if uses_cache i then
    if (cached =? count)%nat then let! r := BlockReader_ReadFrom br (mkStream [] EndOfStream) in Ok r.1
    else if negb (starts Recovering i) then Err (OtherError, (br, []))
    else fetch_response br (count - cached) (reply Recovering i (Z.to_nat (rc_start st) + cached) (count - cached))
  else fetch_response br count (reply Recovering i (Z.to_nat (rc_start st)) count).

Definition finish_recover (st : readRsStateRecover) (i : nat) : outcome net_error readRsStateRecover :=
  let! br := reader_at (rc_blocks st) i in
  let fetching := clear_bit (rc_fetching st) i in
  match recover_response st br i with
  | Ok (br', _) =>
      let! writes := readRsWriteToPageCache st i (Z.of_nat (rd_offset br)) (rd_buf br') in
      Ok (mkReadRsStateRecover (rc_state st) (rc_start st) (rc_end st) (<[i := Some br']> (rc_blocks st)) fetching (set_bit (rc_succeeded st) i) (rc_failed st) (rc_written st ++ writes))
  | Err (_, (br', _)) =>
      Ok (mkReadRsStateRecover (rc_state st) (rc_start st) (rc_end st) (<[i := Some br']> (rc_blocks st)) fetching (rc_succeeded st) (set_bit (rc_failed st) i) (rc_written st))
  | Panic => Panic
  end.

(** The range that every recovery block covers. *)
Definition recover_bounds : Z * Z :=
  foldl (fun acc i => let '(blockStart, _, blockTo) := blockToDownload rs (Z.of_nat i) in
    if blockStart =? blockTo then acc else (Z.min acc.1 blockStart, Z.max blockTo acc.2)) (0, 0) (seq 0 D).

Definition subsumes (start end_ : Z) (i : nat) : bool :=
  let '(blockStart, _, blockTo) := blockToDownload rs (Z.of_nat i) in (blockStart <=? start) && (end_ <=? blockTo).

Definition mark_data (st : readRsState) (start end_ : Z) (acc : Z * Z) (i : nat) : outcome net_error (Z * Z) :=
  if bit (rr_failed st) i then Ok (acc.1, set_bit acc.2 i)
  else
    let! readable := can_read i in
    if negb readable then Ok (acc.1, set_bit acc.2 i)
    else if bit (rr_succeeded st) i && subsumes start end_ i then Ok (set_bit acc.1 i, acc.2)
    else Ok acc.

Definition mark_parity (failed : Z) (i : nat) : outcome net_error Z :=
  let! readable := can_read i in if negb readable then Ok (set_bit failed i) else Ok failed.

Definition init_recover (st : readRsState) : outcome net_error readRsStateRecover :=
  let '(start, end_) := recover_bounds in
  let! marks := foldM_outcome (mark_data st start end_) (0, 0) (seq 0 D) in
  let! failed := foldM_outcome mark_parity marks.2 (seq D (B - D)) in
  Ok (mkReadRsStateRecover st start end_ (replicate B None) 0 marks.1 failed []).

Definition busy (st : readRsStateRecover) : Z := Z.lor (Z.lor (rr_fetching (rc_state st)) (rc_succeeded st)) (rc_fetching st).

Definition schedule_block (st : readRsStateRecover) (i : nat) : outcome net_error readRsStateRecover :=
  if (dataBlocks body <=? OnesCount32 (busy st))%nat then Ok st
  else if bit (Z.lor (busy st) (rc_failed st)) i then Ok st
  else start_recover st i.

Definition with_state (st : readRsStateRecover) (s : readRsState) (succeeded failed : Z) : readRsStateRecover :=
  mkReadRsStateRecover s (rc_start st) (rc_end st) (rc_blocks st) (rc_fetching st) succeeded failed (rc_written st).

(** A data block arrives during the recovery. *)
Definition late_read (st : readRsStateRecover) (i : nat) : outcome net_error readRsStateRecover :=
  let! r := finish_read (rc_state st) i in
  if negb r.1 then Ok (with_state st r.2 (rc_succeeded st) (set_bit (rc_failed st) i))
  else Ok (with_state st r.2 (if subsumes (rc_start st) (rc_end st) i then set_bit (rc_succeeded st) i else rc_succeeded st) (rc_failed st)).

Definition in_flight (st : readRsStateRecover) : list (phase * nat) :=
  ((fun i => (Reading, i)) <$> have_list 32 (rr_fetching (rc_state st))) ++ ((fun i => (Recovering, i)) <$> have_list 32 (rc_fetching st)).

(** One completion a round: at most one for each data block and one for each
    recovery block. *)
Fixpoint recover_loop (fuel : nat) (st : readRsStateRecover) : outcome net_error readRsStateRecover :=
  if (OnesCount32 (rc_succeeded st) <? dataBlocks body)%nat && (OnesCount32 (rc_failed st) <=? totalBlocks body - dataBlocks body)%nat then
    match fuel with
    | O => Panic
    | S fuel =>
        let! st := foldM_outcome schedule_block st (seq 0 (totalBlocks body)) in
        let! q := index (in_flight st) (pick_recover st mod length (in_flight st)) in
        let! st := match q.1 with Reading => late_read st q.2 | Recovering => finish_recover st q.2 end in
        recover_loop fuel st
    end
  else Ok st.

(** The bytes of a block that is there, over the range of the recovery. *)
Definition have_block (st : readRsStateRecover) (i : nat) : outcome net_error (list byte) :=
  match rc_blocks st !! i with
  | Some (Some br) => Ok (rd_buf br)
  | _ =>
      let '(blockStart, _, _) := blockToDownload rs (Z.of_nat i) in
      let! br := reader_at (rr_blocks (rc_state st)) i in
      sub (rd_buf br) (Z.to_nat (wrap32 (rc_start st - blockStart))) (Z.to_nat (wrap32 (rc_end st - blockStart)))
  end.

Definition recover_data (st : readRsStateRecover) (haveBlocks : matrix) (r : ReedSolomon.rs) (out : list byte) (i : nat) : outcome net_error (list byte) :=
  if bit (rr_failed (rc_state st)) i then
    let! recoverBuf := lift_rs (RecoverInto r (rc_succeeded st) haveBlocks i (Get (Z.to_nat (wrap32 (rc_end st - rc_start st))))) in
    copyToOut rs (Z.of_nat i) (rc_start st) recoverBuf out
  else Ok out.

Definition readRsRecover (st : readRsState) : outcome net_error (nat * list byte * list (Z * list byte)) :=
  let! st := init_recover st in
  let! st := recover_loop (D + B) st in
  if (OnesCount32 (rc_succeeded st) =? D)%nat then
    let! haveBlocks := mapM_outcome (have_block st) (have_list B (rc_succeeded st)) in
    let! r := lift_rs (ReedSolomon.Get (FetchedBlocksSpan_Parity body)) in
    let! out := foldM_outcome (recover_data st haveBlocks r) (rr_out (rc_state st)) (seq 0 D) in
    Ok (Z.to_nat (wrap32 (rg_spanEnd rs - rg_spanStart rs)), out, rc_written st)
  else Err OtherError.

Definition read_range_blocks (out : list byte) : outcome net_error (nat * list byte * list (Z * list byte)) :=
  let! st := foldM_outcome start_read (mkReadRsState (replicate D None) 0 0 0 out) (seq 0 D) in
  let! st := read_loop D st in
  if (OnesCount32 (rr_succeeded st) =? D)%nat then Ok (Z.to_nat (wrap32 (rg_spanEnd rs - rg_spanStart rs)), rr_out st, [])
  else readRsRecover st.
End code.

(** The number of bytes read, the output and the writes to the page cache. *)
Definition readRs (Get : nat -> list byte) (span : SpanWithBlockServices) (body : FetchedBlocksSpan) (starts : phase -> nat -> bool) (reply : phase -> nat -> nat -> nat -> attempt)
    (ReadCache : option (Z -> nat -> list byte)) (pick : readRsState -> nat) (pick_recover : readRsStateRecover -> nat) (offset : Z) (out : list byte) :
    outcome net_error (nat * list byte * list (Z * list byte)) :=
  let c := FetchedBlocksSpan_CellSize body in
  let size := FetchedSpanHeader_Size (FetchedSpan_Header (sw_Span span)) in
  let spanDataSize := wrap32 (wrap32 (c * FetchedBlocksSpan_Stripes body) * DataBlocks (FetchedBlocksSpan_Parity body)) in
  if spanDataSize <? size then Panic
  else
    let spanEnd := wrap32 (offset + wrap32 (Z.min (Z.of_nat (length out)) (wrap32 (size - offset)))) in
    read_range_blocks Get span body (mkReadRange (DataBlocks (FetchedBlocksSpan_Parity body)) (FetchedBlocksSpan_Stripes body) c offset spanEnd)
      starts reply ReadCache pick pick_recover out.

(** * The blocks of the span *)

Lemma whole_pages z : (TERN_PAGE_SIZE | z) -> 0 <= z -> exists k, z = Z.of_nat (k * page).
Proof. intros [q ->] Hz. exists (Z.to_nat q). rewrite Nat2Z.inj_mul, page_Z. change TERN_PAGE_SIZE with 4096 in *. lia. Qed.

(** A new reader is empty. *)
Lemma fresh_ok (Get : nat -> list byte) (HGet : forall l, length (Get l) = l) a k : exists br, fresh_reader Get (Z.of_nat (a * page)) (Z.of_nat (k * page)) = Ok br /\ empty_reader k br.
Proof.
  pose proof page_pos as Hp. unfold fresh_reader, BlockReader_New. rewrite !Nat2Z.id, !Nat.Div0.mod_mul, Nat.div_mul by lia. eexists. split; [done|]. split; [apply HGet | done].
Qed.

Section reading.
Context (Get : nat -> list byte) (HGet : forall l, length (Get l) = l).
Context (span : SpanWithBlockServices) (body : FetchedBlocksSpan) (rs : read_range) (Hrs : valid_range rs).
Context (D P : nat) (HdD : dataBlocks body = D) (HdB : totalBlocks body = (D + P)%nat) (HD : rg_D rs = Z.of_nat D) (HB32 : (D + P <= 32)%nat).
Let len : nat := Z.to_nat (rg_Stripes rs * rg_CellSize rs).
Context (blk : nat -> list byte) (X : list byte).
Context (Hblk : forall i, (i < D + P)%nat -> length (blk i) = len).
Context (HX : length X = Z.to_nat (rg_Stripes rs * rg_D rs * rg_CellSize rs)).
Context (HBX : forall i s, (i < D)%nat -> 0 <= s < rg_Stripes rs ->
  take (Z.to_nat (rg_CellSize rs)) (drop (Z.to_nat (s * rg_CellSize rs)) (blk i)) = take (Z.to_nat (rg_CellSize rs)) (drop (Z.to_nat (cell_pos_in_span rs s (Z.of_nat i))) X)).
Context (Hserv : forall i, (i < D + P)%nat -> exists b, can_read span body i = Ok b).
Context (starts : phase -> nat -> bool) (reply : phase -> nat -> nat -> nat -> attempt).

(** [k] pages of block [i] from page [a] on. *)
Definition part (i a k : nat) : list byte := take (k * page) (drop (a * page) (blk i)).

Context (Hgen : forall ph i a k, (i < D + P)%nat -> ((a + k) * page <= len)%nat -> genuine k (part i a k) (reply ph i (a * page) (k * page))).

(** A block that is had whenever it is asked for. *)
Definition dependable (i : nat) : Prop :=
  can_read span body i = Ok true /\ (forall ph, starts ph i = true) /\ forall ph a k, ((a + k) * page <= len)%nat -> delivered k (part i a k) (reply ph i (a * page) (k * page)).

Lemma length_part i a k : (i < D + P)%nat -> ((a + k) * page <= len)%nat -> length (part i a k) = (k * page)%nat.
Proof. intros Hi Hk. unfold part. rewrite length_take, length_drop, Hblk by done. lia. Qed.

(** [k] pages of data block [i] from page [a] on are needed, with every cell that the range touches. *)
Definition needs (i a k : nat) (bf : Z) : Prop :=
  (0 < k)%nat /\ ((a + k) * page <= len)%nat /\ bf <> Z.of_nat ((a + k) * page) /\ blockToDownload rs (Z.of_nat i) = (Z.of_nat (a * page), bf, Z.of_nat ((a + k) * page)) /\
  wrap32 (Z.of_nat ((a + k) * page) - Z.of_nat (a * page)) = Z.of_nat (k * page) /\
  forall s, 0 <= s < rg_Stripes rs -> covered rs s (Z.of_nat i) -> Z.of_nat (a * page) <= cl_blockFrom (cell rs s (Z.of_nat i)) /\ cl_blockTo (cell rs s (Z.of_nat i)) <= Z.of_nat (a * page) + Z.of_nat (k * page).

Lemma block_needs i : (i < D)%nat ->
  ((forall s, 0 <= s < rg_Stripes rs -> ~ covered rs s (Z.of_nat i)) /\ blockToDownload rs (Z.of_nat i) = (0, 0, 0)) \/ exists a k bf, needs i a k bf.
Proof.
  intros Hi. pose proof Hrs as [V1 V2 V3 _ V5 _]. destruct (download_range rs Hrs (Z.of_nat i) ltac:(lia)) as [H|(bs & bf & bt & E & B1 & B2 & P1 & P2 & _ & Hcov)]; [by left | right].
  destruct (whole_pages bs P1 ltac:(lia)) as [a ->], (whole_pages bt P2 ltac:(lia)) as [b ->]. pose proof page_pos as Hp. assert (Hab : (a < b)%nat) by nia. exists a, (b - a)%nat, bf. unfold needs.
  replace (a + (b - a))%nat with b by lia. assert (Hlt : rg_Stripes rs * rg_CellSize rs < 2 ^ 32) by nia. split_and!; [lia | unfold len; lia | lia | exact E | rewrite wrap32_small; nia |].
  intros s Hs Hc. destruct (Hcov s Hs Hc) as [C1 C2]. destruct (cell_cases rs Hrs s (Z.of_nat i) Hs ltac:(lia)) as [[_ [_ _ C3 _ _ _]]|[? _]]; [|done]. nia.
Qed.

(** A copy of a block to the output. *)
Lemma copy_block {E} i a k out : (i < D)%nat -> ((a + k) * page <= len)%nat -> rg_spanEnd rs - rg_spanStart rs <= Z.of_nat (length out) ->
  (forall s, 0 <= s < rg_Stripes rs -> covered rs s (Z.of_nat i) -> Z.of_nat (a * page) <= cl_blockFrom (cell rs s (Z.of_nat i)) /\ cl_blockTo (cell rs s (Z.of_nat i)) <= Z.of_nat (a * page) + Z.of_nat (k * page)) ->
  exists out', @copyToOut E rs (Z.of_nat i) (Z.of_nat (a * page)) (part i a k) out = Ok out' /\ length out' = length out /\ forall o : nat,
    (Z.of_nat o < rg_spanEnd rs - rg_spanStart rs -> owns rs (Z.of_nat i) (rg_spanStart rs + Z.of_nat o) -> out' !! o = X !! Z.to_nat (rg_spanStart rs + Z.of_nat o)) /\
    (~ (Z.of_nat o < rg_spanEnd rs - rg_spanStart rs /\ owns rs (Z.of_nat i) (rg_spanStart rs + Z.of_nat o)) -> out' !! o = out !! o).
Proof.
  intros Hi Hk Hout Hcov. pose proof (length_part i a k ltac:(lia) Hk) as Hl. apply (copy_to_out rs Hrs X (blk i)); [lia | done | by apply Hblk; lia | intros s Hs; by apply HBX | lia | | | done].
  - rewrite Hl, Nat2Z.id. done.
  - by rewrite Hl.
Qed.

(** * The first requests *)

Context (out0 : list byte) (Hout0 : rg_spanEnd rs - rg_spanStart rs <= Z.of_nat (length out0)).

(** The bytes of block [i] are in the output. *)
Definition in_out (out : list byte) (i : nat) : Prop :=
  forall o : nat, Z.of_nat o < rg_spanEnd rs - rg_spanStart rs -> owns rs (Z.of_nat i) (rg_spanStart rs + Z.of_nat o) -> out !! o = X !! Z.to_nat (rg_spanStart rs + Z.of_nat o).

Definition out_ok (out : list byte) : Prop := length out = length out0 /\ forall o : nat, rg_spanEnd rs - rg_spanStart rs <= Z.of_nat o -> out !! o = out0 !! o.

Record read_inv (n : nat) (st : readRsState) : Prop := {
  ri_blocks : length (rr_blocks st) = D;
  ri_out : out_ok (rr_out st);
  ri_below : bits_below D (rr_fetching st) /\ bits_below D (rr_succeeded st) /\ bits_below D (rr_failed st);
  ri_one : forall i, bit (rr_fetching st) i = true -> bit (rr_succeeded st) i = false /\ bit (rr_failed st) i = false;
  ri_two : forall i, bit (rr_succeeded st) i = true -> bit (rr_failed st) i = false;
  ri_all : forall i, (i < n)%nat -> bit (rr_fetching st) i || bit (rr_succeeded st) i || bit (rr_failed st) i = true;
  ri_none : forall i, (n <= i)%nat -> bit (rr_fetching st) i || bit (rr_succeeded st) i || bit (rr_failed st) i = false;
  ri_fetching : forall i, bit (rr_fetching st) i = true -> exists a k bf br, needs i a k bf /\ rr_blocks st !! i = Some (Some br) /\ empty_reader k br /\ can_read span body i = Ok true;
  ri_succeeded : forall i, bit (rr_succeeded st) i = true -> in_out (rr_out st) i /\
    (blockToDownload rs (Z.of_nat i) = (0, 0, 0) \/ exists a k bf br, needs i a k bf /\ rr_blocks st !! i = Some (Some br) /\ rd_buf br = part i a k);
  ri_failed : forall i, bit (rr_failed st) i = true -> ~ dependable i }.

Lemma unneeded_in_out out i : (i < D)%nat -> (forall s, 0 <= s < rg_Stripes rs -> ~ covered rs s (Z.of_nat i)) -> in_out out i.
Proof.
  intros Hi Hno o Ho Hown. exfalso. pose proof Hrs as [_ _ _ _ _ [V1 V2]]. destruct (owner_cell rs Hrs X (blk i) (Z.of_nat i) HX ltac:(apply Hblk; lia) (rg_spanStart rs + Z.of_nat o) ltac:(lia) Hown) as [Hs Hp].
  apply (Hno _ Hs). unfold covered. lia.
Qed.

Lemma in_out_other out out' i j : i <> j -> (forall o : nat, ~ (Z.of_nat o < rg_spanEnd rs - rg_spanStart rs /\ owns rs (Z.of_nat i) (rg_spanStart rs + Z.of_nat o)) -> out' !! o = out !! o) -> in_out out j -> in_out out' j.
Proof. intros Hij H Hj o Ho Hown. rewrite H; [by apply Hj|]. intros [_ Hown']. unfold owns in *. lia. Qed.

(** Where bit [j] stands after bit [i] was set or cleared. *)
Ltac at_bits i j :=
  repeat match goal with
  | H : context [bit (set_bit _ i) j] |- _ => rewrite bit_set in H
  | H : context [bit (clear_bit _ i) j] |- _ => rewrite bit_clear in H
  end;
  rewrite ?bit_set, ?bit_clear;
  destruct (Nat.eqb_spec i j) as [?|?]; [subst j|];
  repeat match goal with
  | H : context [_ && true] |- _ => rewrite andb_true_r in H
  | H : context [_ && false] |- _ => rewrite andb_false_r in H
  | H : context [_ || false] |- _ => rewrite orb_false_r in H
  | H : context [_ || true] |- _ => rewrite orb_true_r in H
  | H : context [negb true] |- _ => cbn [negb] in H
  | H : context [negb false] |- _ => cbn [negb] in H
  end;
  cbn [negb]; rewrite ?andb_true_r, ?orb_false_r, ?andb_false_r, ?orb_true_r; cbn [andb orb].

Lemma start_read_ok n st : read_inv n st -> (n < D)%nat -> exists st', start_read Get span body rs starts st n = Ok st' /\ read_inv (S n) st'.
Proof.
  intros [I1 I2 (I3 & I4 & I5) I6 I7 I8 I9 I10 I11 I12] Hn. pose proof (I9 n ltac:(lia)) as Hfree. apply orb_false_iff in Hfree as [Hfree F3]. apply orb_false_iff in Hfree as [F1 F2]. unfold start_read.
  assert (Hlt : forall j, bit (rr_fetching st) j || bit (rr_succeeded st) j || bit (rr_failed st) j = true -> (j < n)%nat).
  { intros j Hj. destruct (decide (j < n)%nat) as [|Hge]; [done|]. rewrite I9 in Hj by lia. done. }
  destruct (block_needs n Hn) as [[Hno E]|(a & k & bf & Hneeds)]; [|pose proof Hneeds as (Hk & Hak & Hbf & E & Ew & Hcov)].
  - rewrite E. cbn [Z.eqb]. eexists. split; [done|]. constructor; cbn [rr_blocks rr_fetching rr_succeeded rr_failed rr_out]; try assumption.
    + split_and!; [done | by apply bits_below_set | done].
    + intros j Hj. destruct (I6 j Hj). at_bits n j; [congruence | done].
    + intros j Hj. at_bits n j; [done | by apply I7].
    + intros j Hj. at_bits n j; [by destruct (bit (rr_fetching st) n), (bit (rr_failed st) n) | apply I8; lia].
    + intros j Hj. at_bits n j; [lia | apply I9; lia].
    + intros j Hj. at_bits n j; [|by apply I11]. split; [by apply unneeded_in_out | by left].
  - rewrite E. rewrite (proj2 (Z.eqb_neq _ _)) by done. rewrite Ew. destruct (fresh_ok Get HGet a k) as (br & -> & Hbr). cbn [mbind outcome_bind]. destruct (Hserv n ltac:(lia)) as [b Hb]. rewrite Hb. cbn [mbind outcome_bind].
    assert (Hlook : forall j x, (j < n)%nat -> rr_blocks st !! j = x -> <[n := Some br]> (rr_blocks st) !! j = x) by (intros j x Hj <-; by rewrite list_lookup_insert_ne by lia).
    assert (Hfail : ~ dependable n -> read_inv (S n) (mkReadRsState (<[n := Some br]> (rr_blocks st)) (rr_fetching st) (rr_succeeded st) (set_bit (rr_failed st) n) (rr_out st))).
    { intros Hnd. constructor; cbn [rr_blocks rr_fetching rr_succeeded rr_failed rr_out]; try assumption.
      + by rewrite length_insert.
      + split_and!; [done | done | by apply bits_below_set].
      + intros j Hj. destruct (I6 j Hj). at_bits n j; [congruence | done].
      + intros j Hj. at_bits n j; [congruence | by apply I7].
      + intros j Hj. at_bits n j; [by rewrite ?orb_true_r | apply I8; lia].
      + intros j Hj. at_bits n j; [lia | apply I9; lia].
      + intros j Hj. destruct (I10 j Hj) as (a' & k' & bf' & br' & ? & ? & ?). exists a', k', bf', br'. split; [done|]. split; [apply Hlook; [apply Hlt; by rewrite Hj | done] | done].
      + intros j Hj. destruct (I11 j Hj) as [? [?|(a' & k' & bf' & br' & ? & ? & ?)]]; split; [done | by left | done | right]. exists a', k', bf', br'. split; [done|]. split; [apply Hlook; [apply Hlt; rewrite Hj; apply orb_true_iff; left; apply orb_true_r | done] | done].
      + intros j Hj. at_bits n j; [done | by apply I12]. }
    destruct b; cbn [negb]; [|eexists; split; [done|]; apply Hfail; intros [? _]; congruence].
    destruct (starts Reading n) eqn:Hst; cbn [negb]; [|eexists; split; [done|]; apply Hfail; intros (_ & H & _); specialize (H Reading); congruence].
    eexists. split; [done|]. constructor; cbn [rr_blocks rr_fetching rr_succeeded rr_failed rr_out]; try assumption.
    + by rewrite length_insert.
    + split_and!; [by apply bits_below_set | done | done].
    + intros j Hj. at_bits n j; [done | by apply I6].
    + intros j Hj. at_bits n j; [done | apply I8; lia].
    + intros j Hj. at_bits n j; [lia | apply I9; lia].
    + intros j Hj. at_bits n j; [exists a, k, bf, br; split; [done|]; split; [apply list_lookup_insert_eq; lia | by split]|].
      destruct (I10 j Hj) as (a' & k' & bf' & br' & ? & ? & ?). exists a', k', bf', br'. split; [done|]. split; [by rewrite list_lookup_insert_ne | done].
    + intros j Hj. destruct (I11 j Hj) as [? [?|(a' & k' & bf' & br' & ? & ? & ?)]]; split; [done | by left | done | right]. exists a', k', bf', br'. split; [done|]. split; [apply Hlook; [apply Hlt; rewrite Hj; apply orb_true_iff; left; apply orb_true_r | done] | done].
Qed.

Lemma bit_lt b i n : bits_below n b -> bit b i = true -> (i < n)%nat.
Proof. intros [_ H]. apply H. Qed.

Lemma finish_read_ok st i : read_inv D st -> bit (rr_fetching st) i = true ->
  exists ok st', finish_read rs reply st i = Ok (ok, st') /\ read_inv D st' /\ rr_fetching st' = clear_bit (rr_fetching st) i /\
    if ok then rr_succeeded st' = set_bit (rr_succeeded st) i /\ rr_failed st' = rr_failed st else rr_succeeded st' = rr_succeeded st /\ rr_failed st' = set_bit (rr_failed st) i /\ ~ dependable i.
Proof.
  intros Hinv Hf. pose proof Hinv as [I1 I2 (I3 & I4 & I5) I6 I7 I8 I9 I10 I11 I12]. destruct (I10 i Hf) as (a & k & bf & br & Hneeds & Hbr & Hempty & _). pose proof Hneeds as (Hk & Hak & Hbf & E & Ew & Hcov).
  pose proof (bit_lt _ _ _ I3 Hf) as Hi. destruct (I6 i Hf) as [F2 F3]. unfold finish_read. rewrite E, Ew, !Nat2Z.id. unfold reader_at. rewrite Hbr. cbn [mbind outcome_bind].
  assert (Hg : genuine k (part i a k) (reply Reading i (a * page) (k * page))) by (apply Hgen; [lia | done]). pose proof (length_part i a k ltac:(lia) Hak) as Hlen.
  destruct (fetch_response_ok k (part i a k) Hlen br _ Hempty Hg) as [Er|(e & br' & crcs & Er & _)]; rewrite Er.
  - unfold block_read. cbn [rd_buf]. destruct I2 as [Lo Ho]. destruct (copy_block (E := net_error) i a k (rr_out st) Hi Hak ltac:(lia) Hcov) as (out & -> & Lout & Hout). cbn [mbind outcome_bind].
    eexists true, _. split; [done|]. cbn [rr_fetching rr_succeeded rr_failed]. split; [|done]. constructor; cbn [rr_blocks rr_fetching rr_succeeded rr_failed rr_out]; try assumption.
    + by rewrite length_insert.
    + split; [lia|]. intros o Hge. destruct (Hout o) as [_ Hsame]. rewrite Hsame; [by apply Ho | lia].
    + split_and!; [by apply bits_below_clear | by apply bits_below_set | done].
    + intros j Hj. at_bits i j; [done | by apply I6].
    + intros j Hj. at_bits i j; [done | by apply I7].
    + intros j Hj. at_bits i j; [done | by apply I8].
    + intros j Hj. at_bits i j; [lia | by apply I9].
    + intros j Hj. at_bits i j; [done|]. destruct (I10 j Hj) as (a' & k' & bf' & br' & ? & ? & ?). exists a', k', bf', br'. split; [done|]. split; [by rewrite list_lookup_insert_ne | done].
    + intros j Hj. at_bits i j.
      * split; [intros o Ho' Hown; by apply Hout|]. right. exists a, k, bf. eexists. split; [done|]. split; [apply list_lookup_insert_eq; lia | done].
      * destruct (I11 j Hj) as [Hin Hrest]. split; [apply (in_out_other (rr_out st) out i j); [done | intros o; apply Hout | done]|].
        destruct Hrest as [?|(a' & k' & bf' & br' & ? & ? & ?)]; [by left | right]. exists a', k', bf', br'. split; [done|]. split; [by rewrite list_lookup_insert_ne | done].
  - eexists false, _. split; [done|]. cbn [rr_fetching rr_succeeded rr_failed]. assert (Hnd : ~ dependable i).
    { intros (_ & _ & Hdel). rewrite (fetch_response_delivered k (part i a k) Hlen br _ Hempty (Hdel Reading a k Hak)) in Er. done. }
    split; [|done]. constructor; cbn [rr_blocks rr_fetching rr_succeeded rr_failed rr_out]; try assumption.
    + by rewrite length_insert.
    + split_and!; [by apply bits_below_clear | done | by apply bits_below_set].
    + intros j Hj. at_bits i j; [done | by apply I6].
    + intros j Hj. at_bits i j; [congruence | by apply I7].
    + intros j Hj. at_bits i j; [by rewrite ?orb_true_r | by apply I8].
    + intros j Hj. at_bits i j; [lia | by apply I9].
    + intros j Hj. at_bits i j; [done|]. destruct (I10 j Hj) as (a' & k' & bf' & br2 & ? & ? & ?). exists a', k', bf', br2. split; [done|]. split; [by rewrite list_lookup_insert_ne | done].
    + intros j Hj. destruct (decide (i = j)) as [<-|Hne]; [congruence|]. destruct (I11 j Hj) as [Hin [?|(a' & k' & bf' & br2 & ? & ? & ?)]]; split; [done | by left | done | right]. exists a', k', bf', br2. split; [done|]. split; [by rewrite list_lookup_insert_ne | done].
    + intros j Hj. at_bits i j; [done | by apply I12].
Qed.

Context (pick : readRsState -> nat).

Lemma in_flight_index {A} (l : list A) k : (0 < length l)%nat -> exists x, @index net_error A l (k mod length l) = Ok x /\ x ∈ l.
Proof.
  intros Hl. destruct (lookup_lt_is_Some_2 l (k mod length l)) as [x Hx]; [apply Nat.mod_upper_bound; lia|]. exists x. unfold index. rewrite Hx. split; [done | by eapply list_elem_of_lookup_2].
Qed.

Lemma read_loop_ok fuel st : read_inv D st -> (OnesCount32 (rr_fetching st) <= fuel)%nat ->
  exists st', read_loop body rs reply pick fuel st = Ok st' /\ read_inv D st' /\ (OnesCount32 (rr_succeeded st') = D \/ OnesCount32 (rr_failed st') <> 0%nat).
Proof.
  revert st. induction fuel as [|fuel IH]; intros st Hinv Hfuel; cbn [read_loop]; rewrite HdD.
  all: destruct (Nat.ltb_spec (OnesCount32 (rr_succeeded st)) D) as [Hlt|Hge]; cbn [andb].
  2,4: exists st; split; [done|]; split; [done|]; left; apply Nat.le_antisymm; [apply ones_le, Hinv | done].
  all: destruct (Nat.eqb_spec (OnesCount32 (rr_failed st)) 0) as [H0|H0]; [|exists st; split; [done|]; split; [done | by right]].
  all: assert (Hsome : (D <= OnesCount32 (rr_fetching st) + OnesCount32 (rr_succeeded st))%nat).
  1,3: apply ones_cover; [lia|]; intros i Hi; destruct Hinv as [_ _ (_ & _ & Hb) _ _ Hall _ _ _ _]; specialize (Hall i Hi); destruct (bit (rr_failed st) i) eqn:Ef;
    [exfalso; assert (i ∈ have_list 32 (rr_failed st)) as Hin by (apply elem_of_have_list; split; [done | lia]); unfold OnesCount32 in H0; destruct (have_list 32 (rr_failed st)); [by apply not_elem_of_nil in Hin | done]|];
    rewrite orb_false_r in Hall; by apply orb_true_iff in Hall.
  - lia.
  - destruct (in_flight_index (have_list 32 (rr_fetching st)) (pick st)) as (i & -> & [Hf Hi]%elem_of_have_list); [unfold OnesCount32 in *; lia|]. cbn [mbind outcome_bind].
    destruct (finish_read_ok st i Hinv Hf) as (ok & st' & -> & I' & Ef & _). cbn [mbind outcome_bind snd]. apply IH; [done|]. rewrite Ef. pose proof (ones_clear _ _ Hf Hi). lia.
Qed.

(** * The page cache *)

Let base : Z := FetchedSpanHeader_ByteOffset (FetchedSpan_Header (sw_Span span)).
Let size : Z := FetchedSpanHeader_Size (FetchedSpan_Header (sw_Span span)).
Context (Hgeo : FetchedBlocksSpan_CellSize body = rg_CellSize rs /\ DataBlocks (FetchedBlocksSpan_Parity body) = rg_D rs).
Context (Hbase : 0 <= base /\ base + rg_Stripes rs * rg_D rs * rg_CellSize rs < 2 ^ 63).
Context (Hsize : rg_spanEnd rs <= size <= rg_Stripes rs * rg_D rs * rg_CellSize rs).

(** Bytes of the file: what the cache returns, and what is written to it. *)
Definition of_file (fileStart : Z) (bs : list byte) : Prop :=
  base <= fileStart /\ fileStart + Z.of_nat (length bs) <= base + size /\ bs = take (length bs) (drop (Z.to_nat (fileStart - base)) X).

Definition truthful (cache : Z -> nat -> list byte) : Prop :=
  forall fileStart n, base <= fileStart -> fileStart + Z.of_nat n <= base + size -> (length (cache fileStart n) <= n)%nat /\ of_file fileStart (cache fileStart n).

(** A loop over the stripes. *)
Lemma stripes_fold {B} (f : B -> Z -> outcome net_error B) (Q : Z -> B -> Prop) b : Q 0 b -> (forall s b, 0 <= s < rg_Stripes rs -> Q s b -> exists b', f b s = Ok b' /\ Q (s + 1) b') ->
  exists b', foldM_outcome f b (stripe_numbers rs) = Ok b' /\ Q (rg_Stripes rs) b'.
Proof.
  intros H0 Hs. pose proof (vr_S rs Hrs) as V2. unfold stripe_numbers. rewrite foldM_fmap. destruct (foldM_ind (fun b k => f b (Z.of_nat k)) (fun k => Q (Z.of_nat k)) (Z.to_nat (rg_Stripes rs)) b) as (b' & E1 & HQ); [done | |].
  - intros k b1 Hk H1. destruct (Hs (Z.of_nat k) b1 ltac:(lia) H1) as (b2 & -> & H2). exists b2. split; [done|]. by replace (Z.of_nat (S k)) with (Z.of_nat k + 1) by lia.
  - exists b'. split; [done|]. by rewrite Z2Nat.id in HQ by lia.
Qed.

Section cached.
Context (i n : nat) (Hi : (i < D)%nat) (Hn : (n * page <= len)%nat) (cache : Z -> nat -> list byte) (Hcache : truthful cache).
Let E : Z := Z.of_nat (n * page).
Let c : Z := rg_CellSize rs.

Definition cached_upto (buf0 : list byte) (k : Z) (st : Z * list byte * bool) : Prop :=
  exists m, st.1.1 = Z.of_nat (m * page) /\ (m <= n)%nat /\ length st.1.2 = length buf0 /\ take (m * page) st.1.2 = take (m * page) (blk i) /\
    (st.2 = true \/ st.1.1 = Z.min (k * rg_CellSize rs) (Z.of_nat (n * page)) \/ size <= cell_pos_in_span rs k (Z.of_nat i)).

Lemma piece_of_block s a m : 0 <= s < rg_Stripes rs -> 0 <= a -> 0 <= m -> a + m <= c ->
  take (Z.to_nat m) (drop (Z.to_nat (s * c + a)) (blk i)) = take (Z.to_nat m) (drop (Z.to_nat (cell_pos_in_span rs s (Z.of_nat i) + a)) X).
Proof. intros Hs Ha Hm Ham. apply (piece_in_span rs Hrs X (blk i) (Z.of_nat i)); [lia | done | apply Hblk; lia | intros s' Hs'; by apply HBX | done..]. Qed.

Lemma geometry s : 0 <= s < rg_Stripes rs ->
  0 < c /\ 0 <= s * c /\ s * c + c <= rg_Stripes rs * c /\ rg_Stripes rs * c < 2 ^ 32 /\ E <= rg_Stripes rs * c /\ 0 <= rg_D rs * c < 2 ^ 32 /\ 0 <= rg_D rs * c * s < 2 ^ 32 /\ 0 <= Z.of_nat i * c < 2 ^ 32 /\
  rg_D rs * c * s + Z.of_nat i * c = cell_pos_in_span rs s (Z.of_nat i) /\ s * c <= cell_pos_in_span rs s (Z.of_nat i) /\ cell_pos_in_span rs s (Z.of_nat i) + c <= rg_Stripes rs * rg_D rs * c.
Proof.
  intros Hs. pose proof Hrs as [V1 V2 V3 _ V5 _]. fold c in V3, V5. unfold cell_pos_in_span. fold c. rewrite HD in *. assert (HE : E <= rg_Stripes rs * c) by (unfold E, len, c in *; lia). clear - Hs Hi V1 V2 V3 V5 HE.
  set (S := rg_Stripes rs) in *. set (d := Z.of_nat D) in *. set (j := Z.of_nat i). assert (Hj : 0 <= j /\ j + 1 <= d) by lia. clearbody S d j E c. rewrite <- (Z.mul_assoc S d c) in *. replace (d * c * s) with (s * (d * c)) by ring. replace ((s * d + j) * c) with (s * (d * c) + j * c) by ring.
  pose proof (Z.mul_le_mono_nonneg_r 1 d c ltac:(lia) V1) as H1. pose proof (Z.mul_le_mono_nonneg_r (j + 1) d c ltac:(lia) ltac:(lia)) as H2. pose proof (Z.mul_le_mono_nonneg_r 0 j c ltac:(lia) ltac:(lia)) as H3. pose proof (Z.mul_le_mono_nonneg_r (s + 1) S c ltac:(lia) ltac:(lia)) as H4.
  pose proof (Z.mul_le_mono_nonneg_r (s + 1) S (d * c) ltac:(lia) ltac:(lia)) as H5. pose proof (Z.mul_le_mono_nonneg_l c (d * c) s ltac:(lia) ltac:(lia)) as H6. pose proof (Z.mul_le_mono_nonneg_l c (d * c) S ltac:(lia) ltac:(lia)) as H7. pose proof (Z.mul_nonneg_nonneg s c ltac:(lia) ltac:(lia)) as H8.
  rewrite !Z.mul_add_distr_r, ?Z.mul_1_l, ?Z.mul_0_l in *. split_and!; lia.
Qed.

(** The bytes of the cache go behind those that are there. *)
Lemma cache_append buf m r (got : list byte) : take m buf = take m (blk i) -> (m + length got <= length buf)%nat -> (r <= length got)%nat -> take r got = take r (drop m (blk i)) ->
  length (overwrite buf m got) = length buf /\ take (m + r) (overwrite buf m got) = take (m + r) (blk i).
Proof.
  intros Hb Hl Hr Hgot. split; [by apply length_overwrite|]. unfold overwrite. rewrite Hb. assert (Hm : length (take m (blk i)) = m) by (rewrite <- Hb, length_take; lia).
  rewrite take_app_add' by done. rewrite take_app_le by done. rewrite Hgot. apply take_take_drop.
Qed.

(** What one request to the cache gives. *)
Lemma cache_got buf0 s m buf want : 0 <= s < rg_Stripes rs -> (n * page <= length buf0)%nat -> length buf = length buf0 -> take (m * page) buf = take (m * page) (blk i) ->
  Z.of_nat (m * page) = s * c -> 0 <= want <= c -> s * c + want <= E -> cell_pos_in_span rs s (Z.of_nat i) + want <= size ->
  want = Z.min c (E - s * c) \/ size <= cell_pos_in_span rs (s + 1) (Z.of_nat i) ->
  let got := cache (base + cell_pos_in_span rs s (Z.of_nat i)) (Z.to_nat want) in
  let r := Z.of_nat (length got) / TERN_PAGE_SIZE * TERN_PAGE_SIZE in
  (let! _ := @sub net_error _ buf (Z.to_nat (s * c)) (Z.to_nat (wrap32 (s * c + want))) in Ok (wrap32 (s * c + wrap32 r), overwrite buf (Z.to_nat (s * c)) got, r <? want)) =
    Ok (s * c + r, overwrite buf (Z.to_nat (s * c)) got, r <? want) /\ cached_upto buf0 (s + 1) (s * c + r, overwrite buf (Z.to_nat (s * c)) got, r <? want).
Proof.
  intros Hs Hbuf Hlb Hpre Hm Hw Hwe Hws Hor got r. destruct (geometry s Hs) as (G1 & G2 & G3 & G4 & G5 & G6 & G7 & G8 & G9 & G10 & G11). set (pos := cell_pos_in_span rs s (Z.of_nat i)) in *.
  destruct (Hcache (base + pos) (Z.to_nat want)) as [Hgl (_ & Hgs & Hgot)]; [lia | lia|]. fold got in Hgl, Hgs, Hgot. pose proof (round_down_bounds (Z.of_nat (length got))) as Rd. unfold round_down in Rd. fold r in Rd.
  pose proof (round_down_ge 0 (Z.of_nat (length got)) (Z.divide_0_r _) ltac:(lia)) as Rd0. unfold round_down in Rd0. fold r in Rd0. assert (HEl : E <= Z.of_nat (length buf)) by (unfold E; lia).
  rewrite (wrap32_small (s * c + want)), (wrap32_small r), (wrap32_small (s * c + r)) by lia. split; [rewrite sub_ok by lia; done|].
  destruct (whole_pages r ltac:(by exists (Z.of_nat (length got) / TERN_PAGE_SIZE)) Rd0) as [q Hq]. rewrite <- Hm in *. rewrite Nat2Z.id in *.
  destruct (cache_append buf (m * page) (q * page) got Hpre) as [L1 L2]; [lia | lia | |].
  { rewrite Hgot, take_take, Nat.min_l by lia. replace (base + pos - base) with (pos + 0) by lia. pose proof (piece_of_block s 0 r Hs ltac:(lia) Rd0 ltac:(lia)) as Hpc. fold pos in Hpc. rewrite Hq, Nat2Z.id in Hpc. rewrite <- Hpc, Z.add_0_r, <- Hm, Nat2Z.id. done. }
  exists (m + q)%nat. cbn [fst snd]. rewrite Nat.mul_add_distr_r. split_and!; [lia | apply (Nat.mul_le_mono_pos_r _ _ page page_pos); rewrite Nat.mul_add_distr_r; unfold E in Hwe; lia | by rewrite L1 | exact L2 |].
  destruct (Z.ltb_spec r want) as [|Hge]; [by left | right]. destruct Hor as [Hor|Hor]; [left | by right]. fold c E. lia.
Qed.

Lemma cache_stripe_ok buf0 s st : 0 <= s < rg_Stripes rs -> (n * page <= length buf0)%nat -> cached_upto buf0 s st ->
  exists st', cache_stripe span body cache 0 E (Z.of_nat i) st s = Ok st' /\ cached_upto buf0 (s + 1) st'.
Proof.
  intros Hs Hbuf (m & Hr & Hm & Hlb & Hpre & Hor). destruct (geometry s Hs) as (G1 & G2 & G3 & G4 & G5 & G6 & G7 & G8 & G9 & G10 & G11). destruct Hgeo as [Gc GD].
  unfold cache_stripe. rewrite Gc, GD. fold c base size. destruct st as [[r buf] stop]. cbn [fst snd] in *.
  assert (Hstop : cached_upto buf0 (s + 1) (r, buf, true)) by (exists m; split_and!; try done; by left).
  destruct stop; [by exists (r, buf, true)|]. destruct Hor as [?|Hor]; [done|]. fold c E in Hor. rewrite (wrap32_small (s * c)), (wrap32_small (s * c + c)) by lia. destruct (Z.leb_spec (s * c + c) 0) as [?|_]; [lia|].
  assert (HE0 : 0 <= E) by (unfold E; lia). rewrite Z.add_0_l, (wrap32_small E) by lia. destruct (Z.leb_spec E (s * c)) as [HE|HE]; [by exists (r, buf, true)|].
  set (pos := cell_pos_in_span rs s (Z.of_nat i)) in *. rewrite (wrap32_small (rg_D rs * c)), (wrap32_small (rg_D rs * c * s)), (wrap32_small (Z.of_nat i * c)) by lia.
  assert (Hw64 : forall z, 0 <= z < 2 ^ 64 -> wrap64 z = z) by (intros; by apply Z.mod_small). fold c in Hbase, Hsize. rewrite (Hw64 (base + rg_D rs * c * s)), (Hw64 (base + rg_D rs * c * s + Z.of_nat i * c)) by lia.
  replace (base + rg_D rs * c * s + Z.of_nat i * c) with (base + pos) by lia. destruct (Z.ltb_spec (s * c) 0) as [?|_]; [lia|].
  set (rc := if E <? s * c + c then _ else _). assert (Hrc : rc = Z.min c (E - s * c)).
  { unfold rc. destruct (Z.ltb_spec E (s * c + c)) as [L|L]; [rewrite (wrap32_small (s * c + c - E)), wrap32_small by lia; lia | lia]. }
  clearbody rc. pose proof Hrs as [V1 _ _ _ _ [V6 _]]. rewrite (Hw64 (base + size)), (Hw64 (base + pos + rc)) by lia.
  set (fe := (base + size) / TERN_PAGE_SIZE * TERN_PAGE_SIZE). assert (Hfe : fe <= base + size) by apply round_down_bounds.
  assert (Hnext : pos + c <= cell_pos_in_span rs (s + 1) (Z.of_nat i)) by (unfold pos, cell_pos_in_span; fold c; pose proof (Z.mul_le_mono_nonneg_r 1 (rg_D rs) c ltac:(lia) V1); lia).
  destruct (Z.ltb_spec (base + size) (base + pos + rc)) as [Hsp|Hsp]; cbn [andb].
  1: destruct (Z.leb_spec fe (base + pos)) as [Hfe2|Hfe2]; [by exists (r, buf, true)|].
  all: assert (Hr' : r = s * c) by (destruct Hor; lia); rewrite Hr' in *.
  - rewrite (Hw64 (fe - (base + pos))), (wrap32_small (fe - (base + pos))) by lia.
    destruct (cache_got buf0 s m buf (fe - (base + pos)) Hs Hbuf Hlb Hpre (eq_sym Hr)) as [E1 E2]; [lia | lia | fold pos; lia | right; lia |]. fold pos in E1, E2. eexists. split; [exact E1 | exact E2].
  - destruct (cache_got buf0 s m buf rc Hs Hbuf Hlb Hpre (eq_sym Hr)) as [E1 E2]; [lia | lia | fold pos; lia | by left |]. fold pos in E1, E2. eexists. split; [exact E1 | exact E2].
Qed.

Lemma cache_ok buf0 : (n * page <= length buf0)%nat ->
  exists st m, foldM_outcome (cache_stripe span body cache 0 E (Z.of_nat i)) (0, buf0, false) (stripe_numbers rs) = Ok st /\
    st.1.1 = Z.of_nat (m * page) /\ (m <= n)%nat /\ length st.1.2 = length buf0 /\ take (m * page) st.1.2 = take (m * page) (blk i).
Proof.
  intros Hbuf. destruct (stripes_fold (cache_stripe span body cache 0 E (Z.of_nat i)) (cached_upto buf0) (0, buf0, false)) as (st & E1 & m & H1 & H2 & H3 & H4 & _).
  - exists 0%nat. cbn [fst snd]. rewrite Nat.mul_0_l, !take_0. split_and!; try done; [lia|]. right. left. lia.
  - intros s st Hs Hst. by apply cache_stripe_ok.
  - by exists st, m.
Qed.

(** The writes to the cache, of a block that is there. *)
Lemma piece_written buf s a b : buf = take (n * page) (blk i) -> 0 <= s < rg_Stripes rs -> s * c <= a <= b -> b <= s * c + c -> b <= E -> cell_pos_in_span rs s (Z.of_nat i) + (b - s * c) <= size ->
  exists bs, @sub net_error _ buf (Z.to_nat (wrap32 (a - 0))) (Z.to_nat (wrap32 (b - 0))) = Ok bs /\ of_file (base + cell_pos_in_span rs s (Z.of_nat i) + (a - s * c)) bs.
Proof.
  intros -> Hs Ha Hb HbE Hbs. destruct (geometry s Hs) as (G1 & G2 & G3 & G4 & G5 & G6 & G7 & G8 & G9 & G10 & G11). set (pos := cell_pos_in_span rs s (Z.of_nat i)) in *. rewrite !Z.sub_0_r, !wrap32_small by lia.
  pose proof (Hblk i ltac:(lia)) as Hl. rewrite sub_ok; [|lia | rewrite length_take, Hl; unfold E in *; lia]. eexists. split; [done|]. rewrite skipn_firstn_comm, take_take, Nat.min_l by (unfold E in *; lia).
  replace (Z.to_nat b - Z.to_nat a)%nat with (Z.to_nat (b - a)) by lia. pose proof (piece_of_block s (a - s * c) (b - a) Hs ltac:(lia) ltac:(lia) ltac:(lia)) as Hp. fold pos in Hp.
  replace (s * c + (a - s * c)) with a in Hp by lia. rewrite Hp. assert (Hlen : length (take (Z.to_nat (b - a)) (drop (Z.to_nat (pos + (a - s * c))) X)) = Z.to_nat (b - a)).
  { rewrite length_take, length_drop, HX. fold c. lia. } unfold of_file. rewrite Hlen. replace (base + pos + (a - s * c) - base) with (pos + (a - s * c)) by lia. split_and!; [lia | lia | done].
Qed.

Lemma write_stripe_ok buf noFetch bs bt from st s : buf = take (n * page) (blk i) -> 0 <= s < rg_Stripes rs -> 0 <= from < E -> Forall (fun w => of_file w.1 w.2) st.1 ->
  exists st', write_stripe span body i noFetch bs bt from E 0 buf st s = Ok st' /\ Forall (fun w => of_file w.1 w.2) st'.1.
Proof.
  intros Hbuf Hs Hfrom Hst. destruct (geometry s Hs) as (G1 & G2 & G3 & G4 & G5 & G6 & G7 & G8 & G9 & G10 & G11). destruct Hgeo as [Gc GD]. pose proof Hrs as [_ _ _ _ V5 [V6 V7]]. fold c in V5, V7. unfold write_stripe. rewrite Gc, GD. fold c base size.
  destruct st as [ws stop]. cbn [fst snd] in *. destruct stop; [by exists (ws, true)|]. rewrite (wrap32_small (s * c)), (wrap32_small (s * c + c)) by lia.
  destruct (Z.leb_spec (s * c + c) from) as [L1|L1]; [by exists (ws, false)|]. destruct (Z.leb_spec E (s * c)) as [L2|L2]; [by exists (ws, true)|].
  set (pos := cell_pos_in_span rs s (Z.of_nat i)) in *. set (a := if s * c <? from then from else s * c). set (b := if E <? s * c + c then E else s * c + c).
  assert (Ha : s * c <= a < s * c + c /\ a < E) by (unfold a; destruct (Z.ltb_spec (s * c) from); lia). assert (Hb : a < b <= s * c + c /\ b <= E) by (unfold b; destruct (Z.ltb_spec E (s * c + c)); lia). clearbody a b.
  replace (wrap32 (wrap32 (wrap32 (- s * c) + wrap32 (s * wrap32 (rg_D rs * c))) + wrap32 (Z.of_nat i * c))) with (pos - s * c).
  2:{ rewrite (wrap32_small (rg_D rs * c)) by lia. unfold wrap32. rewrite <- (Z.mod_small (pos - s * c) (2 ^ 32)) by lia. rewrite Zplus_mod_idemp_r, Zplus_mod_idemp_l, <- Z.add_assoc, Zplus_mod_idemp_l, (Z.add_comm _ (Z.of_nat i * c)), (Z.add_assoc (- s * c)), Zplus_mod_idemp_r. f_equal. lia. }
  assert (Hw64 : forall z, 0 <= z < 2 ^ 64 -> wrap64 z = z) by (intros; by apply Z.mod_small). fold c in Hbase, Hsize.
  rewrite (Hw64 (base + a)), (Hw64 (base + b)), (Hw64 (base + a + (pos - s * c))), (Hw64 (base + b + (pos - s * c))), (Hw64 (base + size)) by lia.
  set (clip := Z.min (base + b + (pos - s * c)) (base + size) - (base + a + (pos - s * c))). destruct (Z.ltb_spec clip 0) as [L3|L3]; [by exists (ws, true)|].
  assert (Hclip : clip <= b - a /\ pos + (a - s * c) + clip <= size) by (unfold clip; lia). clearbody clip. rewrite (wrap32_small clip), (wrap32_small (a + clip)) by lia. set (e := Z.min b (a + clip)). assert (He : a <= e <= b /\ e <= a + clip) by (unfold e; lia). clearbody e.
  assert (Hw : forall x y, a <= x <= y -> y <= e -> exists d, @sub net_error _ buf (Z.to_nat (wrap32 (x - 0))) (Z.to_nat (wrap32 (y - 0))) = Ok d /\ of_file (base + pos + (x - s * c)) d).
  { intros x y Hx Hy. apply piece_written; [done | done | lia | lia | lia | fold pos; lia]. }
  destruct noFetch.
  - destruct (Hw a e ltac:(lia) ltac:(lia)) as (d & -> & Hd). cbn [mbind outcome_bind]. eexists. split; [done|]. cbn [fst]. apply Forall_app. split; [done|]. constructor; [|constructor]. cbn [fst snd]. by replace (base + a + (pos - s * c)) with (base + pos + (a - s * c)) by lia.
  - assert (Hbefore : exists l, (if a <? bs then let! data := @sub net_error _ buf (Z.to_nat (wrap32 (a - 0))) (Z.to_nat (wrap32 (Z.min e bs - 0))) in Ok [(base + a + (pos - s * c), data)] else Ok []) = Ok l /\ Forall (fun w => of_file w.1 w.2) l).
    { destruct (Z.ltb_spec a bs); [|by exists []]. destruct (Hw a (Z.min e bs) ltac:(lia) ltac:(lia)) as (d & -> & Hd). eexists. split; [done|]. constructor; [|constructor]. cbn [fst snd]. by replace (base + a + (pos - s * c)) with (base + pos + (a - s * c)) by lia. }
    destruct Hbefore as (l1 & -> & Hl1). cbn [mbind outcome_bind]. set (bg := Z.max bt a).
    assert (Hafter : exists l, (if bt <? e then let! data := @sub net_error _ buf (Z.to_nat (wrap32 (bg - 0))) (Z.to_nat (wrap32 (e - 0))) in Ok [(wrap64 (base + a + (pos - s * c) + wrap32 (bg - a)), data)] else Ok []) = Ok l /\ Forall (fun w => of_file w.1 w.2) l).
    { destruct (Z.ltb_spec bt e); [|by exists []]. destruct (Hw bg e ltac:(lia) ltac:(lia)) as (d & -> & Hd). eexists. split; [done|]. constructor; [|constructor]. cbn [fst snd]. rewrite (wrap32_small (bg - a)), Hw64 by lia.
      by replace (base + a + (pos - s * c) + (bg - a)) with (base + pos + (bg - s * c)) by lia. }
    destruct Hafter as (l2 & -> & Hl2). cbn [mbind outcome_bind]. eexists. split; [done|]. cbn [fst]. by repeat (apply Forall_app; split).
Qed.
End cached.

(** * The requests of the recovery *)

Context (ReadCache : option (Z -> nat -> list byte)) (Hcache : match ReadCache with Some cache => truthful cache | None => True end).
Context (Hstarts : forall i, (i < D + P)%nat -> starts Recovering i = true).

Section recovering.
Context (n : nat) (Hn0 : (0 < n)%nat) (Hn : (n * page <= len)%nat).

Definition ranged (st : readRsStateRecover) : Prop := rc_start st = 0 /\ rc_end st = Z.of_nat (n * page).

Lemma range_wrap st : ranged st -> wrap32 (rc_end st - rc_start st) = Z.of_nat (n * page).
Proof.
  intros [-> ->]. pose proof Hrs as [V1 V2 V3 _ V5 _]. rewrite Z.sub_0_r. apply wrap32_small. assert (rg_Stripes rs * rg_CellSize rs <= rg_Stripes rs * rg_D rs * rg_CellSize rs) by nia. unfold len in Hn. lia.
Qed.

(** A reader that has the first pages from the cache. *)
Definition reading_block (i : nat) (br : BlockReader) : Prop :=
  exists m, (m <= n)%nat /\ partial_reader m n br /\ take (m * page) (rd_buf br) = take (m * page) (blk i) /\ (uses_cache body ReadCache i = false -> m = 0%nat).

Definition recovering (st : readRsStateRecover) (i : nat) (br : BlockReader) : readRsStateRecover :=
  mkReadRsStateRecover (rc_state st) (rc_start st) (rc_end st) (<[i := Some br]> (rc_blocks st)) (set_bit (rc_fetching st) i) (rc_succeeded st) (rc_failed st) (rc_written st).

Lemma start_recover_ok st i : (i < D + P)%nat -> ranged st -> exists br, start_recover Get span body rs starts ReadCache st i = Ok (recovering st i br) /\ reading_block i br.
Proof.
  intros Hi Hr. pose proof page_pos as Hp. unfold start_recover, recovering. rewrite range_wrap by done. destruct Hr as [-> _]. destruct (fresh_ok Get HGet 0 n) as (br & Ebr & Hbr). rewrite Nat.mul_0_l in Ebr. change (Z.of_nat 0) with 0 in Ebr. rewrite Ebr. cbn [mbind outcome_bind].
  destruct (Hserv i Hi) as [b Hb]. unfold can_read in Hb. destruct (@index net_error _ (FetchedBlocksSpan_Blocks body) i) as [bl|e|] eqn:Ebl; cbn [mbind outcome_bind] in Hb; [|done..]. cbn [mbind outcome_bind]. rewrite (Hstarts i Hi). rewrite HdD.
  assert (Hplain : reading_block i br) by (exists 0%nat; rewrite Nat.mul_0_l, !take_0; split_and!; [lia | exact Hbr | reflexivity | reflexivity]).
  destruct ReadCache as [cache|] eqn:Ec; [|exists br; split; [reflexivity | exact Hplain]]. destruct (Nat.ltb_spec i D) as [Hlt|Hge]; [|exists br; split; [reflexivity | exact Hplain]]. destruct Hbr as [Lb Ob]. rewrite Nat.mul_0_l in Ob. unfold PagesWithCrcBuffer. rewrite Ob.
  rewrite sub_ok by lia. cbn [mbind outcome_bind]. rewrite drop_0, Nat.sub_0_r, take_0, (take_ge (rd_buf br)) by apply Nat.le_refl.
  destruct (cache_ok i n Hlt Hn cache Hcache (rd_buf br)) as (cached & m & -> & Em & Hm & Hl & Ht); [rewrite Lb; unfold page_crc; nia|]. cbn [mbind outcome_bind]. rewrite Em, Nat2Z.id, app_nil_l.
  unfold BlockReader_Advance. cbn [rd_buf rd_offset]. rewrite Nat.Div0.mod_mul, Nat.add_0_l, Nat.div_mul by lia. cbn [Nat.eqb negb]. rewrite (proj2 (Nat.ltb_ge _ _)) by (rewrite Hl, Lb; unfold page_crc; nia). cbn [mbind outcome_bind].
  eexists. split; [done|]. exists m. cbn [rd_buf]. split_and!; [done | split; cbn [rd_buf rd_offset]; congruence | done |]. unfold uses_cache. rewrite Ec, HdD, (proj2 (Nat.ltb_lt _ _)) by exact Hlt. discriminate.
Qed.

Lemma part_0 i : part i 0 n = take (n * page) (blk i).
Proof. unfold part. by rewrite Nat.mul_0_l, drop_0. Qed.

Lemma rest_of_block i m : (m <= n)%nat -> take (m * page) (blk i) ++ part i m (n - m) = take (n * page) (blk i).
Proof. intros Hm. unfold part. rewrite take_take_drop. f_equal. nia. Qed.

Lemma fetch_rest i m br : (i < D + P)%nat -> (m <= n)%nat -> partial_reader m n br -> take (m * page) (rd_buf br) = take (m * page) (blk i) ->
  (exists br' x, fetch_response br ((n - m) * page) (reply Recovering i (m * page) ((n - m) * page)) = Ok (br', x) /\ rd_buf br' = take (n * page) (blk i)) \/
  exists e br' x, fetch_response br ((n - m) * page) (reply Recovering i (m * page) ((n - m) * page)) = Err (e, (br', x)) /\ ~ dependable i.
Proof.
  intros Hi Hm Hbr Ht. assert (Hfit : ((m + (n - m)) * page <= len)%nat) by (by replace (m + (n - m))%nat with n by lia). pose proof (length_part i m (n - m) Hi Hfit) as Hl.
  pose proof (fetch_after_ok m n Hm (part i m (n - m)) Hl br _ Hbr (Hgen Recovering i m (n - m) Hi Hfit)) as [E|(e & br' & x & E & _)]; rewrite E; [left | right].
  - unfold completed. eexists _, _. split; [done|]. cbn [rd_buf]. rewrite Ht. by apply rest_of_block.
  - exists e, br', x. split; [done|]. intros (_ & _ & Hdel). rewrite (fetch_after_delivered m n Hm (part i m (n - m)) Hl br _ Hbr (Hdel Recovering m (n - m)%nat Hfit)) in E. done.
Qed.

Lemma respond_ok st i br : (i < D + P)%nat -> ranged st -> reading_block i br ->
  (exists br' x, recover_response body starts reply ReadCache st br i = Ok (br', x) /\ rd_buf br' = take (n * page) (blk i)) \/
  exists e br' x, recover_response body starts reply ReadCache st br i = Err (e, (br', x)) /\ ~ dependable i.
Proof.
  intros Hi Hr (m & Hm & Hbr & Ht & Hu). unfold recover_response. rewrite range_wrap by done. destruct Hr as [-> _]. rewrite !Nat2Z.id. change (Z.to_nat 0) with 0%nat. rewrite Nat.add_0_l. pose proof page_pos as Hp. pose proof Hbr as [Lb Ob]. rewrite Ob.
  destruct (uses_cache body ReadCache i).
  - destruct (Nat.eqb_spec (m * page) (n * page)) as [E|E].
    + assert (m = n) by nia. subst m. destruct (read_nothing n br Hbr) as [crcs ->]. left. cbn [mbind outcome_bind fst]. eexists _, _. by split.
    + rewrite (Hstarts i Hi). cbn [negb]. rewrite <- Nat.mul_sub_distr_r. by apply fetch_rest.
  - specialize (Hu eq_refl). subst m. pose proof (fetch_rest i 0 br Hi Hm Hbr Ht) as H. by rewrite Nat.sub_0_r, Nat.mul_0_l in H.
Qed.

Lemma writes_ok st i m buf : (i < D + P)%nat -> ranged st -> (m <= n)%nat -> buf = take (n * page) (blk i) ->
  exists ws, readRsWriteToPageCache span body rs ReadCache st i (Z.of_nat (m * page)) buf = Ok ws /\ Forall (fun w => of_file w.1 w.2) ws.
Proof.
  intros Hi Hr Hm Hbuf. unfold readRsWriteToPageCache. rewrite range_wrap by done. pose proof (range_wrap st Hr) as Hw. destruct Hr as [H1 H2]. rewrite H1, H2 in *. rewrite Z.sub_0_r in Hw. rewrite Z.add_0_l. destruct (uses_cache body ReadCache i) eqn:Eu; cbn [andb]; [|by exists []].
  destruct (Z.ltb_spec (Z.of_nat (m * page)) (Z.of_nat (n * page))) as [Hlt|]; [|by exists []]. assert (Hid : (i < D)%nat) by (unfold uses_cache in Eu; destruct ReadCache; [|done]; rewrite HdD in Eu; by apply Nat.ltb_lt).
  destruct (blockToDownload rs (Z.of_nat i)) as [[bs bf] bt].
  destruct (stripes_fold (write_stripe span body i (bs =? bt) bs bt (wrap32 (Z.of_nat (m * page))) (Z.of_nat (n * page)) 0 buf) (fun _ st => Forall (fun w => of_file w.1 w.2) st.1) ([], false)) as (r & -> & Hw').
  - constructor.
  - intros s w Hs Hf. apply write_stripe_ok; try done. pose proof (Z.mod_pos_bound (Z.of_nat (n * page)) (2 ^ 32)). unfold wrap32 in *. rewrite (Z.mod_small (Z.of_nat (m * page))) by lia. lia.
  - cbn [mbind outcome_bind]. by exists r.1.
Qed.

(** What holds between two completions: every block is in at most one of the
    bitmaps, at most D are had or in flight, and the blocks that are there are
    the blocks of the span. *)
Record rec_inv (st : readRsStateRecover) : Prop := {
  rv_read : read_inv D (rc_state st);
  rv_range : ranged st;
  rv_blocks : length (rc_blocks st) = (D + P)%nat;
  rv_below : bits_below (D + P) (rc_fetching st) /\ bits_below (D + P) (rc_succeeded st) /\ bits_below (D + P) (rc_failed st);
  rv_busy : (OnesCount32 (busy st) <= D)%nat;
  rv_reading : forall i, bit (rr_fetching (rc_state st)) i = true ->
    bit (rc_fetching st) i = false /\ bit (rc_succeeded st) i = false /\ bit (rc_failed st) i = false /\ rc_blocks st !! i = Some None;
  rv_fetching : forall i, bit (rc_fetching st) i = true ->
    bit (rc_succeeded st) i = false /\ bit (rc_failed st) i = false /\ exists br, rc_blocks st !! i = Some (Some br) /\ reading_block i br;
  rv_succeeded : forall i, bit (rc_succeeded st) i = true -> bit (rc_failed st) i = false /\
    ((exists br, rc_blocks st !! i = Some (Some br) /\ rd_buf br = take (n * page) (blk i)) \/
     (rc_blocks st !! i = Some None /\ bit (rr_succeeded (rc_state st)) i = true /\ subsumes rs 0 (Z.of_nat (n * page)) i = true));
  rv_failed : forall i, bit (rc_failed st) i = true -> ~ dependable i;
  rv_both : forall i, bit (rr_failed (rc_state st)) i = true -> bit (rc_failed st) i = true;
  rv_written : Forall (fun w => of_file w.1 w.2) (rc_written st) }.

Lemma bit_busy st j : bit (busy st) j = bit (rr_fetching (rc_state st)) j || bit (rc_succeeded st) j || bit (rc_fetching st) j.
Proof. unfold busy. by rewrite !bit_lor. Qed.

Lemma busy_recovering st i br : busy (recovering st i br) = set_bit (busy st) i.
Proof. unfold busy, recovering, set_bit. cbn [rc_state rc_succeeded rc_fetching]. by rewrite Z.lor_assoc. Qed.

Lemma recovering_ok st i br : rec_inv st -> (i < D + P)%nat -> (OnesCount32 (busy st) < D)%nat -> bit (Z.lor (busy st) (rc_failed st)) i = false -> reading_block i br -> rec_inv (recovering st i br).
Proof.
  intros [R1 R2 R3 (R4 & R5 & R6) R7 R8 R9 R10 R11 R12 R13] Hi Hbusy Hfree Hbr. rewrite bit_lor, bit_busy in Hfree. repeat (apply orb_false_iff in Hfree as [Hfree ?]).
  constructor; [exact R1 | exact R2 | | | rewrite busy_recovering | ..]; unfold recovering; cbn [rc_state rc_blocks rc_fetching rc_succeeded rc_failed rc_written]; try assumption.
  - by rewrite length_insert.
  - split_and!; [by apply bits_below_set | done | done].
  - rewrite ones_set; [lia | | lia]. rewrite bit_busy. repeat (apply orb_false_iff; split); done.
  - intros j Hj. destruct (R8 j Hj) as (F1 & F2 & F3 & F4). at_bits i j; [congruence|]. rewrite list_lookup_insert_ne by done. done.
  - intros j Hj. at_bits i j; [|destruct (R9 j Hj) as (? & ? & br' & ? & ?); split_and!; [done | done | exists br'; by rewrite list_lookup_insert_ne]].
    split_and!; [done | done | exists br]. split; [apply list_lookup_insert_eq; lia | done].
  - intros j Hj. assert (i <> j) by congruence. rewrite list_lookup_insert_ne by done. by apply R10.
Qed.

(** What the scheduling of requests leaves as it was. *)
Definition same_marks (st st' : readRsStateRecover) : Prop := rc_state st' = rc_state st /\ rc_succeeded st' = rc_succeeded st /\ rc_failed st' = rc_failed st.

Definition settled (k : nat) (st : readRsStateRecover) : Prop := (D <= OnesCount32 (busy st))%nat \/ forall i, (i < k)%nat -> bit (Z.lor (busy st) (rc_failed st)) i = true.

Lemma schedule_block_ok st i : rec_inv st -> (i < D + P)%nat -> settled i st -> exists st', schedule_block Get span body rs starts ReadCache st i = Ok st' /\ rec_inv st' /\ same_marks st st' /\ settled (S i) st'.
Proof.
  intros Hinv Hi Hs. unfold schedule_block. rewrite HdD. destruct (Nat.leb_spec D (OnesCount32 (busy st))) as [Hfull|Hroom]; [exists st; split_and!; [done | done | done | by left]|]. destruct Hs as [|Hs]; [lia|].
  destruct (bit (Z.lor (busy st) (rc_failed st)) i) eqn:Hb.
  - exists st. split_and!; [done | done | done | right]. intros j Hj. destruct (decide (j = i)) as [->|]; [done | apply Hs; lia].
  - destruct (start_recover_ok st i Hi (rv_range _ Hinv)) as (br & -> & Hbr). eexists. split_and!; [done | by apply recovering_ok | done | right]. intros j Hj.
    rewrite bit_lor, busy_recovering. unfold recovering. cbn [rc_failed]. destruct (decide (j = i)) as [->|]; [by rewrite bit_set, Nat.eqb_refl, orb_true_r|]. specialize (Hs j ltac:(lia)). rewrite bit_lor in Hs. by rewrite bit_set, <- orb_assoc, (orb_comm (i =? j)%nat), orb_assoc, Hs.
Qed.

Lemma schedule_all st : rec_inv st -> exists st', foldM_outcome (schedule_block Get span body rs starts ReadCache) st (seq 0 (totalBlocks body)) = Ok st' /\ rec_inv st' /\ same_marks st st' /\ settled (D + P) st'.
Proof.
  intros Hinv. rewrite HdB. destruct (foldM_ind (schedule_block Get span body rs starts ReadCache) (fun k st' => rec_inv st' /\ same_marks st st' /\ settled k st') (D + P) st) as (st' & E & H); [| | by exists st'].
  - split_and!; [done | done | right; lia].
  - intros k st1 Hk (H1 & (S1 & S2 & S3) & H3). destruct (schedule_block_ok st1 k H1 Hk H3) as (st2 & E & H4 & (T1 & T2 & T3) & H5). exists st2. split_and!; [done | done | | done]. split_and!; congruence.
Qed.

(** One more completion behind. *)
Definition progress (st st' : readRsStateRecover) : Prop :=
  (OnesCount32 (rr_fetching (rc_state st')) + OnesCount32 (rc_succeeded st) + OnesCount32 (rc_failed st) < OnesCount32 (rr_fetching (rc_state st)) + OnesCount32 (rc_succeeded st') + OnesCount32 (rc_failed st'))%nat.

Lemma ones_set_le b i : (OnesCount32 b <= OnesCount32 (set_bit b i))%nat.
Proof. apply ones_mono. intros j Hj. by rewrite bit_set, Hj. Qed.

Lemma late_read_ok st i : rec_inv st -> bit (rr_fetching (rc_state st)) i = true -> exists st', late_read rs reply st i = Ok st' /\ rec_inv st' /\ progress st st'.
Proof.
  intros [R1 R2 R3 (R4 & R5 & R6) R7 R8 R9 R10 R11 R12 R13] Hf. destruct (R8 i Hf) as (F1 & F2 & F3 & F4). pose proof (lookup_lt_Some _ _ _ F4) as Hi. rewrite R3 in Hi. unfold late_read.
  destruct (finish_read_ok (rc_state st) i R1 Hf) as (ok & s' & -> & I' & Ef & Hmarks). cbn [mbind outcome_bind fst snd]. pose proof (ones_clear _ _ Hf ltac:(lia)) as Hcount. rewrite <- Ef in Hcount. pose proof R2 as [-> ->].
  destruct ok; cbn [negb]; [destruct Hmarks as [M1 M2] | destruct Hmarks as (M1 & M2 & Hnd)].
  - set (succ := if subsumes rs 0 (Z.of_nat (n * page)) i then _ else _). eexists. split; [done|]. assert (Hsucc : forall j, bit succ j = true -> (i = j /\ subsumes rs 0 (Z.of_nat (n * page)) j = true) \/ (i <> j /\ bit (rc_succeeded st) j = true)).
    { intros j. unfold succ. destruct (subsumes rs 0 (Z.of_nat (n * page)) i) eqn:Es; [rewrite bit_set|]; (destruct (Nat.eqb_spec i j) as [<-|]; [|rewrite ?orb_false_r; by right]); [by left | congruence]. }
    split; [|unfold progress, with_state; cbn [rc_state rc_succeeded rc_failed]; assert (OnesCount32 (rc_succeeded st) <= OnesCount32 succ)%nat by (unfold succ; destruct (subsumes _ _ _ _); [apply ones_set_le | done]); lia].
    constructor; [exact I' | by split; destruct R2 | ..]; unfold with_state; cbn [rc_state rc_blocks rc_fetching rc_succeeded rc_failed rc_written]; try assumption.
    + split_and!; [done | unfold succ; destruct (subsumes _ _ _ _); [by apply bits_below_set | done] | done].
    + etransitivity; [|exact R7]. apply ones_mono. intros j. rewrite !bit_busy. cbn [rc_state rc_succeeded rc_fetching]. rewrite Ef, bit_clear. intros Hj. apply orb_true_iff in Hj as [Hj| ->]; [|by rewrite !orb_true_r].
      apply orb_true_iff in Hj as [[-> _]%andb_true_iff|[[<- _]|[_ ->]]%Hsucc]; [done | by rewrite Hf | by rewrite orb_true_r].
    + intros j Hj. rewrite Ef, bit_clear in Hj. apply andb_true_iff in Hj as [Hj Hne]. destruct (R8 j Hj) as (? & G2 & ? & ?). split_and!; try done. destruct (bit succ j) eqn:E; [|done]. apply Hsucc in E as [[<- _]|[_ ?]]; [by rewrite Nat.eqb_refl in Hne | congruence].
    + intros j Hj. destruct (R9 j Hj) as (? & ? & ?). split_and!; try done. destruct (bit succ j) eqn:E; [|done]. apply Hsucc in E as [[<- _]|[_ ?]]; congruence.
    + intros j [[<- Hsub]|[Hne Hj]]%Hsucc; [split; [done | right; split_and!; try done; by rewrite M1, bit_set, Nat.eqb_refl, orb_true_r]|].
      destruct (R10 j Hj) as [? [?|(? & Hr & ?)]]; (split; [done|]); [by left | right]. split_and!; try done. by rewrite M1, bit_set, Hr.
    + intros j Hj. rewrite M2 in Hj. by apply R12.
  - eexists. split; [done|]. split; [|unfold progress, with_state; cbn [rc_state rc_succeeded rc_failed]; pose proof (ones_set_le (rc_failed st) i); lia].
    constructor; [exact I' | by split; destruct R2 | ..]; unfold with_state; cbn [rc_state rc_blocks rc_fetching rc_succeeded rc_failed rc_written]; try assumption.
    + split_and!; [done | done | by apply bits_below_set].
    + etransitivity; [|exact R7]. apply ones_mono. intros j. rewrite !bit_busy. cbn [rc_state rc_succeeded rc_fetching]. rewrite Ef, bit_clear. by destruct (bit (rr_fetching (rc_state st)) j), (i =? j)%nat, (bit (rc_succeeded st) j), (bit (rc_fetching st) j).
    + intros j Hj. rewrite Ef in Hj. at_bits i j; [done | by apply R8].
    + intros j Hj. destruct (R9 j Hj) as (? & ? & ?). at_bits i j; [congruence | done].
    + intros j Hj. destruct (R10 j Hj) as [? Hhave]. at_bits i j; [congruence|]. split; [done|]. by rewrite M1.
    + intros j Hj. at_bits i j; [done | by apply R11].
    + intros j Hj. rewrite M2 in Hj. at_bits i j; [done | by apply R12].
Qed.

Lemma finish_recover_ok st i : rec_inv st -> bit (rc_fetching st) i = true -> exists st', finish_recover span body rs starts reply ReadCache st i = Ok st' /\ rec_inv st' /\ progress st st'.
Proof.
  intros [R1 R2 R3 (R4 & R5 & R6) R7 R8 R9 R10 R11 R12 R13] Hf. destruct (R9 i Hf) as (F2 & F3 & br & Hbr & Hreading). pose proof (lookup_lt_Some _ _ _ Hbr) as Hi. rewrite R3 in Hi.
  assert (F1 : bit (rr_fetching (rc_state st)) i = false) by (destruct (bit (rr_fetching (rc_state st)) i) eqn:E; [destruct (R8 i E); congruence | done]).
  unfold finish_recover, reader_at. rewrite Hbr. cbn [mbind outcome_bind]. assert (Hlook : forall j x, i <> j -> <[i := x]> (rc_blocks st) !! j = rc_blocks st !! j) by (intros; by rewrite list_lookup_insert_ne).
  destruct (respond_ok st i br Hi R2 Hreading) as [(br' & x & -> & Hbuf)|(e & br' & x & -> & Hnd)].
  - destruct Hreading as (m & Hm & [_ Ob] & _). rewrite Ob. destruct (writes_ok st i m (rd_buf br') Hi R2 Hm Hbuf) as (ws & -> & Hws). cbn [mbind outcome_bind]. eexists. split; [done|].
    split; [|unfold progress; cbn [rc_state rc_succeeded rc_failed]; rewrite (ones_set (rc_succeeded st) i) by (done || lia); lia].
    constructor; [exact R1 | exact R2 | ..]; cbn [rc_state rc_blocks rc_fetching rc_succeeded rc_failed rc_written]; try assumption.
    + by rewrite length_insert.
    + split_and!; [by apply bits_below_clear | by apply bits_below_set | done].
    + etransitivity; [|exact R7]. apply ones_mono. intros j. rewrite !bit_busy. cbn [rc_state rc_succeeded rc_fetching]. intros Hj. at_bits i j; [by rewrite Hf, !orb_true_r | done].
    + intros j Hj. destruct (R8 j Hj) as (? & ? & ? & ?). at_bits i j; [congruence|]. by rewrite Hlook.
    + intros j Hj. at_bits i j; [done|]. rewrite Hlook by done. by apply R9.
    + intros j Hj. at_bits i j; [split; [done|]; left; exists br'; split; [apply list_lookup_insert_eq; lia | done]|]. rewrite Hlook by done. by apply R10.
    + by apply Forall_app.
  - eexists. split; [done|]. split; [|unfold progress; cbn [rc_state rc_succeeded rc_failed]; rewrite (ones_set (rc_failed st) i) by (done || lia); lia].
    constructor; [exact R1 | exact R2 | ..]; cbn [rc_state rc_blocks rc_fetching rc_succeeded rc_failed rc_written]; try assumption.
    + by rewrite length_insert.
    + split_and!; [by apply bits_below_clear | done | by apply bits_below_set].
    + etransitivity; [|exact R7]. apply ones_mono. intros j. rewrite !bit_busy. cbn [rc_state rc_succeeded rc_fetching]. intros Hj. at_bits i j; [by rewrite Hf, !orb_true_r | done].
    + intros j Hj. destruct (R8 j Hj) as (? & ? & ? & ?). at_bits i j; [congruence|]. by rewrite Hlook.
    + intros j Hj. at_bits i j; [done|]. rewrite Hlook by done. by apply R9.
    + intros j Hj. assert (i <> j) by congruence. rewrite Hlook by done. destruct (R10 j Hj) as [? ?]. at_bits i j; [congruence | done].
    + intros j Hj. at_bits i j; [done | by apply R11].
    + intros j Hj. at_bits i j; [done | by apply R12].
Qed.

(** While blocks are missing and there is hope, something is in flight. *)
Lemma something_in_flight st : rec_inv st -> settled (D + P) st -> (OnesCount32 (rc_succeeded st) < D)%nat -> (OnesCount32 (rc_failed st) <= P)%nat -> (0 < length (in_flight st))%nat.
Proof.
  intros Hinv Hs Hlt Hle. unfold in_flight. rewrite length_app, !length_fmap. fold (OnesCount32 (rr_fetching (rc_state st))) (OnesCount32 (rc_fetching st)).
  assert (Hbusy : (D <= OnesCount32 (busy st))%nat).
  { destruct Hs as [|Hs]; [done|]. pose proof (ones_cover (D + P) (busy st) (rc_failed st) HB32) as H. enough (D + P <= OnesCount32 (busy st) + OnesCount32 (rc_failed st))%nat by lia. apply H. intros i Hi. specialize (Hs i Hi). rewrite bit_lor in Hs. by apply orb_true_iff. }
  unfold busy in Hbusy. rewrite !ones_disjoint in Hbusy; [lia | |].
  - intros i Hi. destruct (bit (rc_succeeded st) i) eqn:E; [|done]. by destruct (rv_reading st Hinv i Hi) as (_ & ? & _); congruence.
  - intros i Hi. rewrite bit_lor in Hi. destruct (bit (rc_fetching st) i) eqn:E; [|done]. destruct (rv_fetching st Hinv i E) as (F & _). rewrite F, orb_false_r in Hi. destruct (rv_reading st Hinv i Hi). congruence.
Qed.

Context (pick_recover : readRsStateRecover -> nat).

Lemma recover_loop_ok fuel st : rec_inv st -> (OnesCount32 (rr_fetching (rc_state st)) + (D + P) <= fuel + OnesCount32 (rc_succeeded st) + OnesCount32 (rc_failed st))%nat ->
  exists st', recover_loop Get span body rs starts reply ReadCache pick_recover fuel st = Ok st' /\ rec_inv st' /\ (OnesCount32 (rc_succeeded st') = D \/ (P < OnesCount32 (rc_failed st'))%nat).
Proof.
  revert st. induction fuel as [|fuel IH]; intros st Hinv Hfuel; cbn [recover_loop]; rewrite HdD, HdB; replace (D + P - D)%nat with P by lia.
  all: assert (Hmost : (OnesCount32 (rc_succeeded st) <= D)%nat) by (etransitivity; [|apply (rv_busy st Hinv)]; apply ones_mono; intros j Hj; by rewrite bit_busy, Hj, orb_true_r).
  all: destruct (Nat.ltb_spec (OnesCount32 (rc_succeeded st)) D) as [Hlt|Hge]; cbn [andb]; [|exists st; split_and!; [done | done | left; lia]].
  all: destruct (Nat.leb_spec (OnesCount32 (rc_failed st)) P) as [Hle|Hgt]; [|exists st; split_and!; [done | done | by right]].
  1: lia.
  rewrite <- HdB. destruct (schedule_all st Hinv) as (st1 & -> & Hinv1 & (S1 & S2 & S3) & Hs). cbn [mbind outcome_bind].
  destruct (in_flight_index (in_flight st1) (pick_recover st1)) as ([ph i] & -> & Hq); [apply something_in_flight; try done; congruence|]. cbn [mbind outcome_bind fst snd].
  assert (Hstep : exists st2, match ph with Reading => late_read rs reply st1 i | Recovering => finish_recover span body rs starts reply ReadCache st1 i end = Ok st2 /\ rec_inv st2 /\ progress st1 st2).
  { unfold in_flight in Hq. apply elem_of_app in Hq as [Hq|Hq]; apply list_elem_of_fmap in Hq as (j & Heq & [Hj _]%elem_of_have_list); injection Heq as -> ->; [by apply late_read_ok | by apply finish_recover_ok]. }
  destruct Hstep as (st2 & -> & Hinv2 & Hp). cbn [mbind outcome_bind]. apply IH; [done|]. unfold progress in Hp. rewrite S1, S2, S3 in Hp. lia.
Qed.

(** * The data from what is there *)

Lemma have_block_ok st i : rec_inv st -> bit (rc_succeeded st) i = true -> have_block rs st i = Ok (take (n * page) (blk i)).
Proof.
  intros Hinv Hs. unfold have_block. destruct (rv_succeeded st Hinv i Hs) as [_ [(br & -> & ->)|(-> & Hr & Hsub)]]; [done|]. pose proof page_pos as Hp.
  destruct (ri_succeeded _ _ (rv_read st Hinv) i Hr) as [_ [E|(a & k & bf & br & (Hk & Hak & _ & E & _) & Hbr & Hbuf)]]; unfold subsumes in Hsub; rewrite E in Hsub |- *; apply andb_true_iff in Hsub as [H1%Z.leb_le H2%Z.leb_le]; [nia|].
  assert (a = 0%nat) by nia. subst a. cbn [Nat.add] in *. unfold reader_at. rewrite Hbr. cbn [mbind outcome_bind]. rewrite Hbuf. pose proof (range_wrap st (rv_range st Hinv)) as Hw. destruct (rv_range st Hinv) as [Hst Hen]. rewrite Hst, Hen in *.
  change (Z.of_nat (0 * page)) with 0. rewrite Hw. change (wrap32 (0 - 0)) with 0. rewrite Nat2Z.id. change (Z.to_nat 0) with 0%nat. pose proof (bit_lt _ _ _ (proj1 (proj2 (rv_below st Hinv))) Hs) as Hi.
  rewrite sub_ok; [| lia | rewrite length_part by done; lia]. rewrite drop_0, Nat.sub_0_r. unfold part. rewrite Nat.mul_0_l, drop_0, take_take. f_equal. f_equal. lia.
Qed.

Context (r : ReedSolomon.rs) (Hcodec : lift_rs (ReedSolomon.Get (FetchedBlocksSpan_Parity body)) = Ok r).
Context (Hrecover : forall have want block, 0 <= have < 2 ^ Z.of_nat (D + P) -> length (have_list (D + P) have) = D -> (want < D)%nat -> Z.testbit have (Z.of_nat want) = false -> length block = (n * page)%nat ->
  RecoverInto r have ((fun b => take (n * page) (blk b)) <$> have_list (D + P) have) want block = Ok (take (n * page) (blk want))).
Context (Hcovers : forall i a k bf, (i < D)%nat -> needs i a k bf -> (a + k <= n)%nat).

Lemma recover_step st out i : rec_inv st -> length (have_list (D + P) (rc_succeeded st)) = D -> (i < D)%nat -> out_ok out -> (bit (rr_failed (rc_state st)) i = false -> in_out out i) ->
  exists out', recover_data Get rs st ((fun b => take (n * page) (blk b)) <$> have_list (D + P) (rc_succeeded st)) r out i = Ok out' /\ out_ok out' /\ in_out out' i /\ forall j, i <> j -> in_out out j -> in_out out' j.
Proof.
  intros Hinv Hlen Hi Hout Hin. unfold recover_data. destruct (bit (rr_failed (rc_state st)) i) eqn:Hf; [|exists out; split_and!; [done | done | by apply Hin | done]]. rewrite range_wrap by apply Hinv. rewrite Nat2Z.id.
  pose proof (rv_both st Hinv i Hf) as Hrf. assert (Hno : bit (rc_succeeded st) i = false) by (destruct (bit (rc_succeeded st) i) eqn:E; [destruct (rv_succeeded st Hinv i E); congruence | done]).
  rewrite Hrecover; [| apply bits_below_range, Hinv | done | done | done | apply HGet]. cbn [lift_rs mbind outcome_bind]. destruct (rv_range st Hinv) as [-> _]. destruct Hout as [Lo Ho].
  destruct (copy_block (E := net_error) i 0 n out Hi ltac:(done) ltac:(lia)) as (out' & E & L' & H').
  - intros s Hs Hc. destruct (block_needs i Hi) as [[Hnone _]|(a & k & bf & Hneeds)]; [by destruct (Hnone s Hs)|]. pose proof (Hcovers i a k bf Hi Hneeds) as Hak. destruct Hneeds as (_ & _ & _ & _ & _ & Hcov). destruct (Hcov s Hs Hc) as [C1 C2]. pose proof page_pos. nia.
  - rewrite <- part_0. change 0 with (Z.of_nat (0 * page)) at 1. rewrite E. exists out'. split_and!; [done | split; [lia|] | |].
    + intros o Hge. destruct (H' o) as [_ Hsame]. rewrite Hsame; [by apply Ho | lia].
    + intros o Ho' Hown. by apply H'.
    + intros j Hij Hj. apply (in_out_other out out' i j); [done | intros o; apply H' | done].
Qed.

Lemma mapM_ok {E A B} (f : A -> outcome E B) (g : A -> B) l : (forall x, x ∈ l -> f x = Ok (g x)) -> mapM_outcome f l = Ok (g <$> l).
Proof. induction l as [|x l IH]; intros H; [done|]. cbn [mapM_outcome]. rewrite H by left. cbn [mbind outcome_bind]. rewrite IH by (intros y Hy; apply H; by right). done. Qed.

(** Once D blocks are there, nothing is in flight any more: a data block is
    there or has failed, and those that failed are recovered. *)
Lemma recovered_all st : rec_inv st -> OnesCount32 (rc_succeeded st) = D -> exists haveBlocks out,
  mapM_outcome (have_block rs st) (have_list (totalBlocks body) (rc_succeeded st)) = Ok haveBlocks /\
  foldM_outcome (recover_data Get rs st haveBlocks r) (rr_out (rc_state st)) (seq 0 D) = Ok out /\ out_ok out /\ forall i, (i < D)%nat -> in_out out i.
Proof.
  intros Hinv Hcount. rewrite HdB. assert (Hlen : length (have_list (D + P) (rc_succeeded st)) = D) by (rewrite <- (have_list_below (D + P)); [done | apply Hinv | done]).
  eexists. assert (Hidle : forall i, bit (rr_fetching (rc_state st)) i = false).
  { intros i. destruct (bit (rr_fetching (rc_state st)) i) eqn:E; [exfalso|done]. pose proof (bit_lt _ _ _ (proj1 (ri_below _ _ (rv_read st Hinv))) E) as Hi. destruct (rv_reading st Hinv i E) as (_ & F & _).
    pose proof (ones_set (rc_succeeded st) i F ltac:(lia)) as H1. assert (OnesCount32 (set_bit (rc_succeeded st) i) <= OnesCount32 (busy st))%nat as H2.
    { apply ones_mono. intros j Hj. rewrite bit_busy. at_bits i j; [by rewrite E | by rewrite Hj, orb_true_r]. } pose proof (rv_busy st Hinv). lia. }
  destruct (foldM_ind (recover_data Get rs st ((fun b => take (n * page) (blk b)) <$> have_list (D + P) (rc_succeeded st)) r)
    (fun k out => out_ok out /\ forall i, (i < D)%nat -> (i < k)%nat \/ bit (rr_failed (rc_state st)) i = false -> in_out out i) D (rr_out (rc_state st))) as (out & E & Hok & Hin).
  - split; [apply Hinv|]. intros i Hi [?|Hf]; [lia|]. pose proof (ri_all _ _ (rv_read st Hinv) i Hi) as Hall. rewrite Hidle, Hf, orb_false_r in Hall. by apply (ri_succeeded _ _ (rv_read st Hinv)).
  - intros k out Hk [Hok Hin]. destruct (recover_step st out k Hinv Hlen Hk Hok) as (out' & E & Hok' & Hk' & Hrest); [intros Hf; apply Hin; [done | by right]|].
    exists out'. split_and!; [done | done|]. intros i Hi Hor. destruct (decide (k = i)) as [<-|Hne]; [done|]. apply Hrest; [done|]. apply Hin; [done|]. destruct Hor; [left; lia | by right].
  - exists out. split_and!; [| exact E | done |].
    + apply mapM_ok. intros i [Hi _]%elem_of_have_list. by apply have_block_ok.
    + intros i Hi. apply Hin; [done | by left].
Qed.
End recovering.

(** * The recovery as a whole *)

Lemma some_needed : exists i a k bf, (i < D)%nat /\ needs i a k bf.
Proof.
  pose proof Hrs as [V1 V2 V3 _ V5 [V6 V7]]. set (i := Z.to_nat ((rg_spanStart rs / rg_CellSize rs) mod rg_D rs)). pose proof (Z.mod_pos_bound (rg_spanStart rs / rg_CellSize rs) (rg_D rs) ltac:(lia)) as Hm.
  assert (Hi : (i < D)%nat) by (unfold i; lia). exists i. destruct (block_needs i Hi) as [[Hno _]|(a & k & bf & H)]; [exfalso | by exists a, k, bf].
  destruct (owner_cell rs Hrs X (blk i) (Z.of_nat i) HX ltac:(apply Hblk; lia) (rg_spanStart rs) ltac:(lia)) as [Hs Hp]; [unfold owns, i; lia|]. apply (Hno _ Hs). unfold covered. lia.
Qed.

Lemma bounds_ok : exists n, recover_bounds body rs = (0, Z.of_nat (n * page)) /\ (0 < n)%nat /\ (n * page <= len)%nat /\ forall i a k bf, (i < D)%nat -> needs i a k bf -> (a + k <= n)%nat.
Proof.
  pose proof page_pos as Hp. unfold recover_bounds. rewrite HdD. set (f := fun acc i => _).
  assert (H : forall d, (d <= D)%nat -> exists n, foldl f (0, 0) (seq 0 d) = (0, Z.of_nat (n * page)) /\ (n * page <= len)%nat /\ forall i a k bf, (i < d)%nat -> needs i a k bf -> (a + k <= n)%nat).
  { induction d as [|d IH]; intros Hd; [exists 0%nat; split_and!; [done | lia | lia]|]. destruct (IH ltac:(lia)) as (n & E & Hn & Hall). rewrite seq_S, foldl_app. cbn [foldl]. rewrite E, Nat.add_0_l. unfold f at 1.
    destruct (block_needs d Hd) as [[_ Ed]|(a & k & bf & Hneeds)].
    - rewrite Ed. exists n. split_and!; [done | done|]. intros i a k bf Hi Hneeds. destruct (decide (i = d)) as [->|]; [|apply (Hall i a k bf); [lia | done]]. destruct Hneeds as (Hk & _ & _ & Ed' & _). rewrite Ed in Ed'. injection Ed' as ? ? ?. nia.
    - pose proof Hneeds as (Hk & Hak & _ & Ed & _). rewrite Ed, (proj2 (Z.eqb_neq _ _)) by nia. cbn [fst snd]. exists (Nat.max (a + k) n). split_and!; [f_equal; nia | nia|].
      intros i a' k' bf' Hi Hneeds'. destruct (decide (i = d)) as [->|]; [|specialize (Hall i a' k' bf' ltac:(lia) Hneeds'); lia]. destruct Hneeds' as (_ & _ & _ & Ed' & _). rewrite Ed in Ed'. injection Ed' as ? ? ?. nia. }
  destruct (H D ltac:(lia)) as (n & E & Hn & Hall). exists n. destruct some_needed as (i & a & k & bf & Hi & Hneeds). pose proof (Hall i a k bf Hi Hneeds) as Hak. pose proof Hneeds as (Hk & _). split_and!; [done | lia | done | done].
Qed.

(** The first marks: what is there already, and what has failed or cannot be read. *)
Record marks_ok (n : nat) (st : readRsState) (k : nat) (acc : Z * Z) : Prop := {
  mk_below : bits_below D acc.1 /\ bits_below D acc.2;
  mk_succeeded : forall i, bit acc.1 i = true -> bit acc.2 i = false /\ (i < k)%nat /\ bit (rr_succeeded st) i = true /\ subsumes rs 0 (Z.of_nat (n * page)) i = true;
  mk_failed : forall i, bit acc.2 i = true -> (i < k)%nat /\ ~ dependable i /\ bit (rr_fetching st) i = false;
  mk_all : forall i, bit (rr_failed st) i = true -> (i < k)%nat -> bit acc.2 i = true }.

Lemma mark_data_ok n st k acc : read_inv D st -> (k < D)%nat -> marks_ok n st k acc -> exists acc', mark_data span body rs st 0 (Z.of_nat (n * page)) acc k = Ok acc' /\ marks_ok n st (S k) acc'.
Proof.
  intros Hinv Hk [[M1 M2] M3 M4 M5]. unfold mark_data. assert (Hfail : ~ dependable k -> bit (rr_fetching st) k = false -> marks_ok n st (S k) (acc.1, set_bit acc.2 k)).
  { intros Hnd Hnf. constructor; cbn [fst snd].
    - split; [done | by apply bits_below_set].
    - intros i Hi. destruct (M3 i Hi) as (? & ? & ? & ?). at_bits k i; [lia | split_and!; (done || lia)].
    - intros i Hi. at_bits k i; [split_and!; (done || lia)|]. destruct (M4 i Hi) as (? & ? & ?). split_and!; (done || lia).
    - intros i Hi Hlt. at_bits k i; [done | apply M5; (done || lia)]. }
  destruct (bit (rr_failed st) k) eqn:Hf.
  - eexists. split; [done|]. apply Hfail; [by apply (ri_failed _ _ Hinv)|]. destruct (bit (rr_fetching st) k) eqn:E; [|done]. destruct (ri_one _ _ Hinv k E). congruence.
  - destruct (Hserv k ltac:(lia)) as [b Hb]. rewrite Hb. cbn [mbind outcome_bind]. destruct b; cbn [negb].
    + assert (Hkeep : marks_ok n st (S k) acc).
      { constructor; [done | | |].
        - intros i Hi. destruct (M3 i Hi) as (? & ? & ? & ?). split_and!; (done || lia).
        - intros i Hi. destruct (M4 i Hi) as (? & ? & ?). split_and!; (done || lia).
        - intros i Hi Hlt. apply M5; [done|]. destruct (decide (i = k)) as [->|]; [congruence | lia]. }
      destruct (bit (rr_succeeded st) k && subsumes rs 0 (Z.of_nat (n * page)) k) eqn:Es; [|by exists acc]. apply andb_true_iff in Es as [E1 E2]. eexists. split; [done|]. destruct Hkeep as [_ K2 K3 K4].
      constructor; cbn [fst snd]; [split; [by apply bits_below_set | done] | | done | done]. intros i Hi. at_bits k i; [|by apply K2]. split_and!; [|lia | done | done]. destruct (bit acc.2 k) eqn:E; [|done]. destruct (M4 k E). lia.
    + eexists. split; [done|]. apply Hfail; [intros [? _]; congruence|]. destruct (bit (rr_fetching st) k) eqn:E; [|done]. destruct (ri_fetching _ _ Hinv k E) as (? & ? & ? & ? & _ & _ & _ & Hr). congruence.
Qed.

Lemma mark_parity_ok failed0 : bits_below D failed0 -> exists failed, foldM_outcome (mark_parity span body) failed0 (seq D P) = Ok failed /\ bits_below (D + P) failed /\
  (forall i, bit failed i = true -> bit failed0 i = true \/ ((D <= i)%nat /\ ~ dependable i)) /\ forall i, bit failed0 i = true -> bit failed i = true.
Proof.
  intros H0. replace (seq D P) with (Nat.add D <$> seq 0 P) by (by rewrite fmap_add_seq, Nat.add_0_r). rewrite foldM_fmap.
  destruct (foldM_ind (fun c a => mark_parity span body c (D + a)) (fun _ failed => bits_below (D + P) failed /\ (forall i, bit failed i = true -> bit failed0 i = true \/ ((D <= i)%nat /\ ~ dependable i)) /\ forall i, bit failed0 i = true -> bit failed i = true) P failed0) as (failed & E & H); [| | by exists failed].
  - split_and!; [destruct H0 as [? H]; split; [done | intros j Hj; apply H in Hj; lia] | by left | done].
  - intros k failed Hk (F1 & F2 & F3). unfold mark_parity. destruct (Hserv (D + k)%nat ltac:(lia)) as [b Hb]. rewrite Hb. cbn [mbind outcome_bind]. destruct b; cbn [negb]; [by exists failed|]. eexists. split; [done|]. split_and!.
    + apply bits_below_set; [done | lia].
    + intros i Hi. at_bits (D + k)%nat i; [right; split; [lia | intros [? _]; congruence] | by apply F2].
    + intros i Hi. at_bits (D + k)%nat i; [done | by apply F3].
Qed.

Lemma init_recover_ok n st : (0 < n)%nat -> (n * page <= len)%nat -> recover_bounds body rs = (0, Z.of_nat (n * page)) -> read_inv D st -> exists st', init_recover span body rs st = Ok st' /\ rec_inv n st' /\ rc_state st' = st.
Proof.
  intros Hn0 Hn Hb Hinv. unfold init_recover. rewrite Hb, HdD, HdB. replace (D + P - D)%nat with P by lia.
  destruct (foldM_ind (mark_data span body rs st 0 (Z.of_nat (n * page))) (marks_ok n st) D (0, 0)) as ([succ failed0] & -> & [[M1 M2] M3 M4 M5]).
  { constructor; cbn [fst snd]; [split; apply bits_below_0 | intros i Hi; by rewrite bit_0 in Hi | intros i Hi; by rewrite bit_0 in Hi | lia]. }
  { intros k acc Hk Hacc. by apply mark_data_ok. }
  cbn [mbind outcome_bind fst snd] in *. destruct (mark_parity_ok failed0 M2) as (failed & -> & F1 & F2 & F3). cbn [mbind outcome_bind]. eexists. split; [done|]. split; [|done].
  assert (Hdata : forall i, (i < D)%nat -> bit failed i = bit failed0 i). { intros i Hi. destruct (bit failed i) eqn:E; [destruct (F2 i E) as [|[? _]]; [done | lia]|]. destruct (bit failed0 i) eqn:E0; [|done]. rewrite (F3 i E0) in E. done. }
  pose proof (ri_below _ _ Hinv) as (B1 & B2 & B3). constructor; cbn [rc_state rc_blocks rc_fetching rc_succeeded rc_failed rc_written].
  - done.
  - done.
  - by rewrite length_replicate.
  - split_and!; [apply bits_below_0 | destruct M1 as [? H]; split; [done | intros j Hj; apply H in Hj; lia] | done].
  - apply ones_le. split; [unfold busy; cbn [rc_state rc_succeeded rc_fetching]; rewrite Z.lor_0_r; apply Z.lor_nonneg; split; [apply B1 | apply M1]|].
    intros j. rewrite bit_busy. cbn [rc_state rc_succeeded rc_fetching]. rewrite bit_0, orb_false_r. intros [Hj|Hj]%orb_true_iff; [by apply B1 | by apply M1].
  - intros i Hf. pose proof (bit_lt _ _ _ B1 Hf) as Hi. rewrite bit_0, (Hdata i Hi). destruct (ri_one _ _ Hinv i Hf) as [G1 G2]. split_and!; [done | | | apply lookup_replicate_2; lia].
    + destruct (bit succ i) eqn:E; [|done]. destruct (M3 i E) as (_ & _ & ? & _). congruence.
    + destruct (bit failed0 i) eqn:E; [|done]. destruct (M4 i E) as (_ & _ & ?). congruence.
  - intros i Hi. by rewrite bit_0 in Hi.
  - intros i Hs. pose proof (bit_lt _ _ _ M1 Hs) as Hi. rewrite (Hdata i Hi). destruct (M3 i Hs) as (? & ? & ? & ?). split; [done|]. right. split_and!; [apply lookup_replicate_2; lia | done | done].
  - intros i Hf. destruct (F2 i Hf) as [E|[_ ?]]; [|done]. by destruct (M4 i E) as (_ & ? & _).
  - intros i Hf. apply F3, M5; [done|]. exact (bit_lt _ _ _ B3 Hf).
  - constructor.
Qed.

Context (pick_recover : readRsStateRecover -> nat).
Context (r : ReedSolomon.rs) (Hcodec : lift_rs (ReedSolomon.Get (FetchedBlocksSpan_Parity body)) = Ok r).
Context (Hrecover : forall n, (0 < n)%nat -> (n * page <= len)%nat -> forall have want block,
  0 <= have < 2 ^ Z.of_nat (D + P) -> length (have_list (D + P) have) = D -> (want < D)%nat -> Z.testbit have (Z.of_nat want) = false -> length block = (n * page)%nat ->
  RecoverInto r have ((fun b => take (n * page) (blk b)) <$> have_list (D + P) have) want block = Ok (take (n * page) (blk want))).

Let count : nat := Z.to_nat (rg_spanEnd rs - rg_spanStart rs).

(** The range is read: the output has the bytes of the span, and what is written
    to the cache are bytes of the file. *)
Definition range_read (res : outcome net_error (nat * list byte * list (Z * list byte))) : Prop :=
  exists writes, res = Ok (count, take count (drop (Z.to_nat (rg_spanStart rs)) X) ++ drop count out0, writes) /\ Forall (fun w => of_file w.1 w.2) writes.

Lemma count_wrap : Z.to_nat (wrap32 (rg_spanEnd rs - rg_spanStart rs)) = count.
Proof. pose proof Hrs as [_ _ _ _ V5 [V6 V7]]. rewrite wrap32_small by lia. done. Qed.

Lemma all_in_out out : out_ok out -> (forall i, (i < D)%nat -> in_out out i) -> out = take count (drop (Z.to_nat (rg_spanStart rs)) X) ++ drop count out0.
Proof.
  intros [Lo Ho] Hin. pose proof Hrs as [V1 _ _ _ V5 [V6 V7]]. assert (Lt : length (take count (drop (Z.to_nat (rg_spanStart rs)) X)) = count) by (rewrite length_take, length_drop, HX; unfold count; lia).
  apply list_eq. intros o. destruct (decide (o < count)%nat) as [Hlt|Hge].
  - rewrite lookup_app_l by lia. rewrite lookup_take_lt, lookup_drop by done. set (i := Z.to_nat (((rg_spanStart rs + Z.of_nat o) / rg_CellSize rs) mod rg_D rs)).
    pose proof (Z.mod_pos_bound ((rg_spanStart rs + Z.of_nat o) / rg_CellSize rs) (rg_D rs) ltac:(lia)) as Hm. rewrite (Hin i); [f_equal; lia | unfold i; lia | unfold count in *; lia | unfold owns, i; lia].
  - rewrite lookup_app_r by lia. rewrite Lt, lookup_drop. rewrite Ho by (unfold count in *; lia). f_equal. lia.
Qed.

(** As many dependable blocks as there are data blocks. *)
Definition enough_dependable : Prop := exists good, NoDup good /\ (D <= length good)%nat /\ forall i, i ∈ good -> (i < D + P)%nat /\ dependable i.

Lemma few_failures failed : enough_dependable -> bits_below (D + P) failed -> (forall i, bit failed i = true -> ~ dependable i) -> (OnesCount32 failed <= P)%nat.
Proof.
  intros (good & Hnd & Hl & Hgood) [_ Hb] Hf. enough (H : (length (have_list 32 failed ++ good) <= length (seq 0 (D + P)))%nat) by (rewrite length_app, length_seq in H; unfold OnesCount32; lia).
  apply submseteq_length, NoDup_submseteq.
  - apply NoDup_app. split_and!; [apply have_list_NoDup | | done]. intros i [Hi _]%elem_of_have_list Hg. by apply (Hf i), Hgood.
  - intros i [[Hi _]%elem_of_have_list|Hi]%elem_of_app; apply elem_of_seq; [apply Hb in Hi | apply Hgood in Hi as [? _]]; lia.
Qed.

Lemma recover_ok st : read_inv D st -> let res := readRsRecover Get span body rs starts reply ReadCache pick_recover st in (res = Err OtherError \/ range_read res) /\ (enough_dependable -> range_read res).
Proof.
  intros Hinv. cbv zeta. unfold readRsRecover. destruct bounds_ok as (n & Hb & Hn0 & Hn & Hcov). destruct (init_recover_ok n st Hn0 Hn Hb Hinv) as (s1 & -> & I1 & E1). cbn [mbind outcome_bind]. rewrite HdD, HdB.
  destruct (recover_loop_ok n Hn0 Hn pick_recover (D + (D + P)) s1 I1) as (s2 & -> & I2 & Hend). { rewrite E1. pose proof (ones_le D (rr_fetching st) ltac:(apply Hinv)). lia. } cbn [mbind outcome_bind].
  destruct (Nat.eqb_spec (OnesCount32 (rc_succeeded s2)) D) as [E|E].
  - destruct (recovered_all n Hn0 Hn r (Hrecover n Hn0 Hn) Hcov s2 I2 E) as (have & out & Em & Ef & Hok & Hin). rewrite HdB in Em. rewrite Em. cbn [mbind outcome_bind]. rewrite Hcodec. cbn [mbind outcome_bind]. rewrite Ef. cbn [mbind outcome_bind].
    rewrite count_wrap. assert (H : range_read (Ok (count, out, rc_written s2))) by (exists (rc_written s2); split; [by rewrite <- (all_in_out out) | apply I2]). split; [by right | done].
  - split; [by left|]. intros Hgood. destruct Hend as [|Hend]; [done|]. pose proof (few_failures (rc_failed s2) Hgood ltac:(apply I2) (rv_failed _ _ I2)). lia.
Qed.

Lemma read_range_ok : let res := read_range_blocks Get span body rs starts reply ReadCache pick pick_recover out0 in (res = Err OtherError \/ range_read res) /\ (enough_dependable -> range_read res).
Proof.
  cbv zeta. unfold read_range_blocks. rewrite HdD. destruct (foldM_ind (start_read Get span body rs starts) read_inv D (mkReadRsState (replicate D None) 0 0 0 out0)) as (s1 & -> & I1).
  - constructor; cbn [rr_blocks rr_fetching rr_succeeded rr_failed rr_out]; try (intros i Hi; rewrite ?bit_0 in *; done); [by rewrite length_replicate | done | split_and!; apply bits_below_0 | lia].
  - intros k s Hk Hs. by apply start_read_ok.
  - cbn [mbind outcome_bind]. destruct (read_loop_ok D s1 I1) as (s2 & -> & I2 & Hend); [apply ones_le, I1|]. cbn [mbind outcome_bind]. destruct (Nat.eqb_spec (OnesCount32 (rr_succeeded s2)) D) as [E|E]; [|by apply recover_ok].
    rewrite count_wrap. assert (H : range_read (Ok (count, rr_out s2, []))).
    { exists []. split; [|constructor]. rewrite <- (all_in_out (rr_out s2)); [done | apply I2|]. intros i Hi. apply (ri_succeeded _ _ I2). apply (ones_full D); [apply I2 | lia | done | done]. }
    split; [by right | done].
Qed.
End reading.

(** * The range of a span that was written *)

(** [k] pages of block [i] of a written span from page [a] on. *)
Definition block_part (params : SpanParameters) (data : list byte) (i a k : nat) : list byte := part (fun i => blocks_of params data !!! i) i a k.

(** Every reply with the right checksums has the pages that were asked for. *)
Definition genuine_replies (params : SpanParameters) (data : list byte) (reply : phase -> nat -> nat -> nat -> attempt) : Prop :=
  forall ph i a k, (i < rs_blocks_core (sp_Parity params))%nat -> (a + k <= block_pages params)%nat -> genuine k (block_part params data i a k) (reply ph i (a * page)%nat (k * page)%nat).

(** A block that is had, whatever is asked of it. *)
Definition can_be_had (params : SpanParameters) (data : list byte) (span : SpanWithBlockServices) (body : FetchedBlocksSpan) (starts : phase -> nat -> bool) (reply : phase -> nat -> nat -> nat -> attempt) (i : nat) : Prop :=
  can_read span body i = Ok true /\ (forall ph, starts ph i = true) /\ forall ph a k, (a + k <= block_pages params)%nat -> delivered k (block_part params data i a k) (reply ph i (a * page)%nat (k * page)%nat).

Definition truthful_cache (data : list byte) (size : Z) (span : SpanWithBlockServices) (ReadCache : option (Z -> nat -> list byte)) : Prop :=
  match ReadCache with Some cache => truthful span (span_bytes data size) cache | None => True end.

(** The first [length out] bytes from [offset] on, or up to the end of the span. *)
Definition read_bytes (data : list byte) (size offset : Z) (out : list byte) : nat * list byte :=
  let n := Nat.min (length out) (Z.to_nat (size - offset)) in (n, take n (drop (Z.to_nat offset) (span_bytes data size)) ++ drop n out).

Lemma read_bounds size offset (out : list byte) : 0 <= offset < size -> size < 2 ^ 32 -> (0 < length out)%nat ->
  let m := wrap32 (offset + wrap32 (Z.min (Z.of_nat (length out)) (wrap32 (size - offset)))) in offset < m <= size /\ Z.to_nat (m - offset) = Nat.min (length out) (Z.to_nat (size - offset)).
Proof. intros Ho Hs Hl. cbv zeta. rewrite (wrap32_small (size - offset)) by lia. rewrite (wrap32_small (Z.min _ _)), wrap32_small by lia. lia. Qed.

Section written_range.
Context (params : SpanParameters) (data : list byte) (size : Z) (Hsz : sized_span params data size).
Context (span : SpanWithBlockServices) (body : FetchedBlocksSpan) (Hso : span_of params data size span body).
Context (Hfull : size <= sp_Stripes params * DataBlocks (sp_Parity params) * sp_CellSize params).
Let D := rs_data_blocks_core (sp_Parity params).
Let P := rs_parity_blocks_core (sp_Parity params).
Let blk i := blocks_of params data !!! i.
Let X := padded (sp_Parity params) (Z.to_nat (sp_Stripes params)) (Z.to_nat (sp_CellSize params)) data.

Lemma data_count : DataBlocks (sp_Parity params) = Z.of_nat D.
Proof. pose proof (vp_data _ (sz_valid _ _ _ Hsz)). unfold D, rs_data_blocks_core. unfold DataBlocks in *. lia. Qed.

Lemma span_in_padded : span_bytes data size = take (Z.to_nat size) X.
Proof.
  pose proof (sz_size _ _ _ Hsz) as Hs. pose proof data_count as Hd. pose proof (sz_valid _ _ _ Hsz) as [_ _ _ V4 V5]. unfold span_bytes, X, padded. fold D. rewrite take_app_ge by lia. f_equal. rewrite take_replicate. f_equal. rewrite Hd in Hfull. nia.
Qed.

Lemma length_X : length X = Z.to_nat (sp_Stripes params * DataBlocks (sp_Parity params) * sp_CellSize params).
Proof.
  pose proof (written_sizes params data size Hsz) as (_ & _ & _ & _ & Hfit & _). pose proof (sz_valid _ _ _ Hsz) as [_ _ _ V4 V5]. unfold X. rewrite length_padded by done. rewrite data_count. fold D. nia.
Qed.

Lemma block_length i : (i < D + P)%nat -> length (blk i) = Z.to_nat (sp_Stripes params * sp_CellSize params) /\ length (blk i) = (block_pages params * page)%nat.
Proof.
  intros Hi. pose proof (block_written params data size Hsz i Hi) as Hl. cbv beta in Hl. pose proof (written_sizes params data size Hsz) as (_ & _ & Hc & _). pose proof (sz_valid _ _ _ Hsz) as [_ _ _ V4 V5]. split; [|exact Hl]. unfold blk. rewrite Hl. nia.
Qed.

Lemma of_file_prefix fileStart bs : of_file span X fileStart bs <-> of_file span (span_bytes data size) fileStart bs.
Proof.
  unfold of_file. rewrite (so_size _ _ _ _ _ Hso), span_in_padded. set (o := Z.to_nat _). split; intros (H1 & H2 & H3); (split_and!; [done | done|]); rewrite H3 at 1; rewrite skipn_firstn_comm, take_take; f_equal; lia.
Qed.

Context (HD2 : (2 <= rs_data_blocks_core (sp_Parity params))%nat).

Lemma parity_count : (1 <= P)%nat.
Proof. pose proof data_count as Hd. pose proof (vp_code _ (sz_valid _ _ _ Hsz)) as V. fold D in HD2. specialize (V ltac:(lia)). unfold P, rs_parity_blocks_core. unfold ParityBlocks in V. lia. Qed.

Lemma block_stripe i s : (i < D)%nat -> 0 <= s < sp_Stripes params ->
  take (Z.to_nat (sp_CellSize params)) (drop (Z.to_nat (s * sp_CellSize params)) (blk i)) = take (Z.to_nat (sp_CellSize params)) (drop (Z.to_nat ((s * DataBlocks (sp_Parity params) + Z.of_nat i) * sp_CellSize params)) X).
Proof.
  intros Hi Hs. pose proof (sz_valid _ _ _ Hsz) as [_ _ _ V4 V5]. pose proof (cell_written params data size Hsz HD2 (Z.to_nat s) i ltac:(lia) Hi) as H. unfold cell_of in H. cbv beta in H. fold (blk i) X D in H.
  rewrite data_count. replace (Z.to_nat (s * sp_CellSize params)) with (Z.to_nat s * Z.to_nat (sp_CellSize params))%nat by nia. rewrite H. do 2 f_equal. nia.
Qed.

Lemma recover_part n : (0 < n)%nat -> (n * page <= Z.to_nat (sp_Stripes params * sp_CellSize params))%nat -> forall have want block,
  0 <= have < 2 ^ Z.of_nat (D + P) -> length (have_list (D + P) have) = D -> (want < D)%nat -> Z.testbit have (Z.of_nat want) = false -> length block = (n * page)%nat ->
  RecoverInto (rs_new_core (sp_Parity params)) have ((fun b => take (n * page) (blk b)) <$> have_list (D + P) have) want block = Ok (take (n * page) (blk want)).
Proof.
  intros Hn0 Hn have want block Hhave Hlen Hwant Hbit Hb. pose proof page_pos as Hp. pose proof (sz_valid _ _ _ Hsz) as [Hu8 V2 V3 V4 V5]. set (S := Z.to_nat (sp_Stripes params)). set (c := Z.to_nat (sp_CellSize params)).
  pose proof parity_count as HP.
  assert (Hblocks : blocks_of params data = span_blocks (sp_Parity params) S c data) by (unfold blocks_of; fold D; by rewrite (proj2 (Nat.eqb_neq D 1)) by (unfold D; lia)).
  assert (Hmul : Z.to_nat (sp_Stripes params * sp_CellSize params) = (S * c)%nat) by (unfold S, c; nia). rewrite Hmul in Hn.
  unfold blk. rewrite Hblocks. unfold span_blocks. apply (recover_prefix (sp_Parity params) (data_blocks (sp_Parity params) S c data) (S * c) (n * page) have want block); try done.
  - unfold data_blocks. by rewrite length_fmap, length_seq.
  - apply Forall_fmap, Forall_forall. intros d [_ Hd]%elem_of_seq. unfold compose. pose proof (written_sizes params data size Hsz) as (_ & _ & _ & _ & Hfit & _). apply length_block_of; [done | unfold c; lia | done | unfold D, P in *; lia].
  - nia.
  - unfold rs_blocks_core. fold D P. lia.
Qed.

(** The read of a range, from the blocks of the span. *)
Context (Get : nat -> list byte) (HGet : forall l, length (Get l) = l).
Context (starts : phase -> nat -> bool) (reply : phase -> nat -> nat -> nat -> attempt) (ReadCache : option (Z -> nat -> list byte)) (pick : readRsState -> nat) (pick_recover : readRsStateRecover -> nat).
Context (Hbase : 0 <= FetchedSpanHeader_ByteOffset (FetchedSpan_Header (sw_Span span)) < 2 ^ 62) (Hgen : genuine_replies params data reply) (Hstarts : forall i, starts Recovering i = true).
Context (Hcache : truthful_cache data size span ReadCache) (offset : Z) (out : list byte) (Hoff : 0 <= offset < size) (Hout : (0 < length out)%nat).

Lemma read_rs_ok :
  let result := readRs Get span body starts reply ReadCache pick pick_recover offset out in
  let right := exists writes, result = Ok (read_bytes data size offset out, writes) /\ Forall (fun w => of_file span (span_bytes data size) w.1 w.2) writes in
  (result = Err OtherError \/ right) /\
  ((exists good, NoDup good /\ (rs_data_blocks_core (sp_Parity params) <= length good)%nat /\ forall i, i ∈ good -> (i < rs_blocks_core (sp_Parity params))%nat /\ can_be_had params data span body starts reply i) -> right).
Proof.
  intros result right. pose proof Hsz as [[Hu8 V2 V3 V4 V5] Hpg Hfit Hsize]. pose proof data_count as Hd.
  destruct (read_bounds size offset out Hoff ltac:(lia) Hout) as [Hm Hcount]. cbv zeta in Hm, Hcount. set (m := wrap32 (offset + _)) in *.
  set (rs := mkReadRange (DataBlocks (sp_Parity params)) (sp_Stripes params) (sp_CellSize params) offset m).
  assert (Hrs : valid_range rs) by (constructor; cbn; first [done | lia | split; lia]). destruct (total_written params data size Hsz span body Hso) as [HB HDd].
  assert (Er : result = read_range_blocks Get span body rs starts reply ReadCache pick pick_recover out).
  { unfold result, readRs. rewrite (so_size _ _ _ _ _ Hso), (so_parity _ _ _ _ _ Hso), (so_stripes _ _ _ _ _ Hso), (so_cell _ _ _ _ _ Hso). rewrite (wrap32_small (sp_CellSize params * sp_Stripes params)) by nia. rewrite wrap32_small by nia. rewrite (proj2 (Z.ltb_ge _ _)) by nia. done. }
  assert (Hbl : forall i, (i < rs_blocks_core (sp_Parity params))%nat -> Z.to_nat (sp_Stripes params * sp_CellSize params) = (block_pages params * page)%nat) by (intros i Hi; destruct (block_length i Hi) as [<- <-]; done).
  pose proof page_pos as Hp. assert (Hpages : forall a k, ((a + k) * page <= Z.to_nat (sp_Stripes params * sp_CellSize params))%nat <-> (a + k <= block_pages params)%nat) by (intros a k; rewrite (Hbl 0%nat) by (unfold rs_blocks_core; lia); nia).
  destruct (read_range_ok Get HGet span body rs Hrs (rs_data_blocks_core (sp_Parity params)) (rs_parity_blocks_core (sp_Parity params)) HDd HB Hd) with
    (blk := fun i => blocks_of params data !!! i) (X := X) (starts := starts) (reply := reply) (out0 := out) (pick := pick) (ReadCache := ReadCache) (pick_recover := pick_recover) (r := rs_new_core (sp_Parity params)) as [H1 H2].
  - pose proof (parity_blocks_bound (sp_Parity params) Hu8). unfold rs_blocks_core in *. lia.
  - intros i Hi. by apply block_length.
  - by apply length_X.
  - intros i s Hi Hs. by apply block_stripe.
  - intros i Hi. destruct (service_found params data size span body Hso i Hi) as (b & s & Eb & Es). unfold can_read, index. rewrite Eb. cbn [mbind outcome_bind]. rewrite Es. by eexists.
  - intros ph i a k Hi Hk. apply Hgen; [done | by apply Hpages].
  - cbn. lia.
  - by rewrite (so_cell _ _ _ _ _ Hso), (so_parity _ _ _ _ _ Hso).
  - cbn. lia.
  - cbn. rewrite (so_size _ _ _ _ _ Hso). lia.
  - destruct ReadCache as [cache|]; [|done]. intros fs k Hf1 Hf2. destruct (Hcache fs k Hf1 Hf2) as [? ?]. split; [done|]. by apply of_file_prefix.
  - intros i _. apply Hstarts.
  - pose proof parity_count. rewrite (so_parity _ _ _ _ _ Hso). unfold ReedSolomon.Get. by rewrite (proj2 (Nat.ltb_ge _ _)), (proj2 (Nat.ltb_ge _ _)) by done.
  - by apply recover_part.
  - assert (Hright : range_read span rs X out result -> right).
    { intros (writes & Eres & Hw). exists writes. split; [|eapply Forall_impl; [exact Hw|]; intros w Hw'; by apply of_file_prefix]. rewrite Eres. cbn [rg_spanStart rg_spanEnd rs]. rewrite Hcount. unfold read_bytes. do 4 f_equal.
      rewrite span_in_padded, skipn_firstn_comm, take_take. f_equal. fold X. lia. }
    rewrite <- Er in H1, H2. split; [destruct H1 as [|H1]; [by left | right; by apply Hright]|]. intros (good & Hnd & Hl & Hg). apply Hright, H2. exists good. split_and!; [done | done|].
    intros i Hi. destruct (Hg i Hi) as (Hlt & Hr & Hst & Hdel). split; [done|]. split_and!; [done | done|]. intros ph a k Hk. apply Hdel. by apply Hpages.
Qed.
End written_range.

(** C6: any range of a coded span is read as it was written. Whatever the range,
    the blocks that fail or cannot be read, the order in which the requests
    complete, the part of the file that is in the page cache and the garbage in
    the buffers: the read ends, without panicking, with an error or with exactly
    the bytes of the range in front of the rest of the output, and all that it
    wrote to the page cache are bytes of the file at their place; and it ends
    with the bytes whenever as many blocks as there are data blocks can be had. *)
Theorem range_read_back (Get : nat -> list byte) (params : SpanParameters) (data : list byte) (size : Z) (span : SpanWithBlockServices) (body : FetchedBlocksSpan)
    (starts : phase -> nat -> bool) (reply : phase -> nat -> nat -> nat -> attempt) (ReadCache : option (Z -> nat -> list byte)) (pick : readRsState -> nat) (pick_recover : readRsStateRecover -> nat)
    (offset : Z) (out : list byte) :
  (forall l, length (Get l) = l) -> sized_span params data size -> span_of params data size span body -> (2 <= rs_data_blocks_core (sp_Parity params))%nat ->
  size <= sp_Stripes params * DataBlocks (sp_Parity params) * sp_CellSize params -> 0 <= FetchedSpanHeader_ByteOffset (FetchedSpan_Header (sw_Span span)) < 2 ^ 62 ->
  genuine_replies params data reply -> (forall i, starts Recovering i = true) -> truthful_cache data size span ReadCache -> 0 <= offset < size -> (0 < length out)%nat ->
  let result := readRs Get span body starts reply ReadCache pick pick_recover offset out in
  let right := exists writes, result = Ok (read_bytes data size offset out, writes) /\ Forall (fun w => of_file span (span_bytes data size) w.1 w.2) writes in
  (result = Err OtherError \/ right) /\
  ((exists good, NoDup good /\ (rs_data_blocks_core (sp_Parity params) <= length good)%nat /\ forall i, i ∈ good -> (i < rs_blocks_core (sp_Parity params))%nat /\ can_be_had params data span body starts reply i) -> right).
Proof.
  intros HGet Hsz Hso HD2 Hfull Hbase Hgen Hstarts Hcache Hoff Hout. exact (read_rs_ok params data size Hsz span body Hso Hfull HD2 Get HGet starts reply ReadCache pick pick_recover Hbase Hgen Hstarts Hcache offset out Hoff Hout).
Qed.

Definition example_reply (_ : phase) (i start count : nat) : attempt := block_reply (count / page) (take count (drop start (blocks_of example_params example_data !!! i))).
Definition example_cache (fileStart : Z) (n : nat) : list byte := take n (drop (Z.to_nat fileStart) (span_bytes example_data 7)).

Lemma example_replies : genuine_replies example_params example_data example_reply.
Proof.
  intros ph i a k Hi Hk. unfold example_reply. pose proof page_pos as Hp. rewrite Nat.div_mul by lia. apply block_reply_genuine. unfold block_part, part. rewrite length_take, length_drop.
  pose proof (block_written example_params example_data 7 example_sized i Hi) as Hl. cbv beta in Hl. rewrite Hl. unfold block_pages in Hk. nia.
Qed.

Lemma example_had i : can_read example_span example_body i = Ok true -> can_be_had example_params example_data example_span example_body (fun _ _ => true) example_reply i.
Proof. intros Hr. split_and!; [done | done|]. intros ph a k Hk. unfold example_reply. rewrite Nat.div_mul by (pose proof page_pos; lia). apply block_reply_delivered. Qed.

(** The second block cannot be read: from byte 2 on, five bytes are recovered
    from the first block and the parity. *)
Lemma range_read_back_witness : exists writes,
  readRs (fun l => replicate l zero_byte) example_span example_body (fun _ _ => true) example_reply (Some example_cache) (fun _ => 0%nat) (fun _ => 0%nat) 2 (replicate 10 zero_byte)
  = Ok (5%nat, (byte_of <$> [108; 108; 111; 0; 0]) ++ replicate 5 zero_byte, writes) /\ Forall (fun w => of_file example_span (span_bytes example_data 7) w.1 w.2) writes.
Proof.
  destruct (range_read_back (fun l => replicate l zero_byte) example_params example_data 7 example_span example_body (fun _ _ => true) example_reply (Some example_cache) (fun _ => 0%nat) (fun _ => 0%nat) 2 (replicate 10 zero_byte)) as [_ H].
  - intros l. apply length_replicate.
  - exact example_sized.
  - exact example_described.
  - exact (le_n 2).
  - by vm_compute.
  - by vm_compute.
  - exact example_replies.
  - done.
  - intros fs n H1 H2. change (FetchedSpanHeader_ByteOffset _) with 0 in *. change (FetchedSpanHeader_Size _) with 7 in *. unfold example_cache. rewrite Z.add_0_l in H2. split; [rewrite length_take; lia|]. unfold of_file. rewrite length_take, length_drop.
    change (FetchedSpanHeader_ByteOffset _) with 0. change (FetchedSpanHeader_Size _) with 7. change (length (span_bytes example_data 7)) with 7%nat. split_and!; [done | lia|]. rewrite Z.sub_0_r. f_equal. lia.
  - done.
  - exact (le_S _ _ (le_S _ _ (le_S _ _ (le_S _ _ (le_S _ _ (le_S _ _ (le_S _ _ (le_S _ _ (le_S _ _ (le_n 1)))))))))).
  - apply H. exists [0%nat; 2%nat]. split_and!; [by apply (bool_decide_unpack _) | exact (le_n 2)|]. intros i Hi. split; [repeat (apply elem_of_cons in Hi as [->|Hi]; [vm_compute; lia|]); by apply elem_of_nil in Hi|].
    apply example_had. repeat (apply elem_of_cons in Hi as [->|Hi]; [reflexivity|]). by apply elem_of_nil in Hi.
Defined.
