(* ===== verification/FileRead.v ===== *)
(** Reading a file: FetchSpans, FileReader, fileReader and FetchFile of
    src/go/client/span.go.

    The requests to the shard and to the block services are arguments, as is what
    is in the page cache. [fetch_env] holds what the network does with the
    requests for the blocks of a span, for one read. A [Read] gives back how many
    bytes it read, the destination and the writes to the page cache. *)

From Stdlib Require Import ZArith Lia.
From stdpp Require Import base numbers option list.
From S2P Require Import Prelude Bincode Messages Ids Gf256 Cauchy ReedSolomon Crc32c CrcFusion Divide32 SpanLayout BlockFetch SpanFetch Bitmap CellRange ReadRs.

(** * The code *)

Record LocalFileSpansResp := mkLocalFileSpansResp { fs_NextOffset : Z; fs_BlockServices : list BlockService; fs_Spans : list FetchedSpan }.

(** All spans of a file, a page of them at a time; [fuel] bounds the pages. *)
Fixpoint FetchSpans_from (ShardRequest : Z -> outcome net_error LocalFileSpansResp) (fuel : nat) (byteOffset : Z) (spans : list SpanWithBlockServices) : outcome net_error (list SpanWithBlockServices) :=
  match fuel with
  | O => Panic
  | S fuel =>
      let! resp := ShardRequest byteOffset in
      let spans := spans ++ ((fun s => mkSpanWithBlockServices (fs_BlockServices resp) s) <$> fs_Spans resp) in
      if fs_NextOffset resp =? 0 then Ok spans else FetchSpans_from ShardRequest fuel (fs_NextOffset resp) spans
  end.

Definition FetchSpans (ShardRequest : Z -> outcome net_error LocalFileSpansResp) (fuel : nat) : outcome net_error (list SpanWithBlockServices) := FetchSpans_from ShardRequest fuel 0 [].

Record FileReader := mkFileReader { fr_fileSize : Z; fr_spans : list SpanWithBlockServices }.

Definition span_offset (span : SpanWithBlockServices) : Z := FetchedSpanHeader_ByteOffset (FetchedSpan_Header (sw_Span span)).
Definition span_size (span : SpanWithBlockServices) : Z := FetchedSpanHeader_Size (FetchedSpan_Header (sw_Span span)).

Definition NewFileReader (ShardRequest : Z -> outcome net_error LocalFileSpansResp) (fuel : nat) : outcome net_error FileReader :=
  let! spans := FetchSpans ShardRequest fuel in
  Ok (mkFileReader (foldl (fun size span => wrap64 (size + span_size span)) 0 spans) spans).

(** sort.Search: the least number below [j] with [f], between [i] and [j]. *)
Fixpoint search_between (f : nat -> bool) (fuel i j : nat) : nat :=
  match fuel with
  | O => i
  | S fuel =>
      if (i <? j)%nat then
        let h := ((i + j) / 2)%nat in
        if negb (f h) then search_between f fuel (S h) j else search_between f fuel i h
      else i
  end.

Definition sort_Search (n : nat) (f : nat -> bool) : nat := search_between f n 0 n.

(** The index of the span; the comparison reads the span at every index it is
    asked for, which is one of the slice. *)
Definition findSpan (fr : FileReader) (offset : Z) : outcome net_error (option SpanWithBlockServices) :=
  if fr_fileSize fr =? 0 then Ok None
  else
    let ix := sort_Search (length (fr_spans fr)) (fun i => match fr_spans fr !! i with Some span => offset <? span_offset span | None => false end) in
    match ix with
    | O => Panic
    | S ix =>
        let! span := index (fr_spans fr) ix in
        if wrap64 (span_offset span + span_size span) <=? offset then Ok None else Ok (Some span)
    end.

(** What the network does with the requests of one read. *)
Record fetch_env := mkFetchEnv {
  fe_attempts : nat -> nat -> nat -> list attempt; (* of FetchBlock, for a block, a start and a count *)
  fe_starts : phase -> nat -> bool;
  fe_reply : phase -> nat -> nat -> nat -> attempt;
  fe_pick : readRsState -> nat;
  fe_pick_recover : readRsStateRecover -> nat;
}.

Section code.
Context (Get : nat -> list byte).

(** The blocks in turn, up to the first that can be had; [err] is the last error. *)
Fixpoint mirrored_range (span : SpanWithBlockServices) (attempts : nat -> list attempt) (blockStart blockCount : Z) (skip : nat) (p : list byte) (err : net_error) (i : nat) (blocks : list FetchedBlock) :
    outcome net_error (nat * list byte) :=
  match blocks with
  | [] => Err err
  | block :: blocks =>
      let! blockService := service_of span block in
      if negb (CanRead (bs_Flags blockService)) then mirrored_range span attempts blockStart blockCount skip p err (S i) blocks
      else
        let! br := fresh_reader Get blockStart blockCount in
        match FetchBlock br (Z.to_nat blockStart) (Z.to_nat blockCount) (attempts i) with
        | Ok (br, _) =>
            let! from := sub (rd_buf br) skip (length (rd_buf br)) in
            let n := Nat.min (length p) (length from) in
            Ok (n, overwrite p 0 (take n from))
        | Err e => mirrored_range span attempts blockStart blockCount skip p e (S i) blocks
        | Panic => Panic
        end
  end.

Definition readMirrored (env : fetch_env) (span : SpanWithBlockServices) (body : FetchedBlocksSpan) (offset : Z) (dest : list byte) : outcome net_error (nat * list byte) :=
  let spanDataSize := wrap32 (wrap32 (FetchedBlocksSpan_CellSize body * FetchedBlocksSpan_Stripes body) * DataBlocks (FetchedBlocksSpan_Parity body)) in
  if spanDataSize <? span_size span then Panic
  else
    let m := Z.to_nat (Z.min (Z.of_nat (length dest)) (wrap64 (wrap64 (span_offset span + span_size span) - offset))) in
    let! p := sub dest 0 m in
    let fileStart := offset / TERN_PAGE_SIZE * TERN_PAGE_SIZE in
    let fileEnd := wrap64 (wrap64 (wrap64 (offset + Z.of_nat (length p)) + TERN_PAGE_SIZE) - 1) / TERN_PAGE_SIZE * TERN_PAGE_SIZE in
    let blockStart := wrap32 (wrap64 (fileStart - span_offset span)) in
    let blockEnd := wrap32 (wrap64 (fileEnd - span_offset span)) in
    let blockCount := wrap32 (blockEnd - blockStart) in
    let! r := mirrored_range span (fun i => fe_attempts env i (Z.to_nat blockStart) (Z.to_nat blockCount)) blockStart blockCount (Z.to_nat (wrap64 (offset - fileStart))) p OtherError 0 (FetchedBlocksSpan_Blocks body) in
    Ok (r.1, r.2 ++ drop m dest).

Inductive read_error := EOF | ReadError (e : net_error).

Definition lift_read {A} (o : outcome net_error A) : outcome read_error A :=
  match o with Ok a => Ok a | Err e => Err (ReadError e) | Panic => Panic end.

Definition FileReader_Read (env : SpanWithBlockServices -> fetch_env) (pageCache : option (Z -> nat -> list byte)) (f : FileReader) (offset : Z) (dest : list byte) :
    outcome read_error (nat * list byte * list (Z * list byte)) :=
  let! found := lift_read (findSpan f offset) in
  match found with
  | None => Err EOF
  | Some span =>
      if (length dest =? 0)%nat then Ok (0%nat, dest, [])
      else if FetchedSpanHeader_StorageClass (FetchedSpan_Header (sw_Span span)) =? INLINE_STORAGE then
        match FetchedSpan_Body (sw_Span span) with
        | Some (InlineBody b) =>
            let body := FetchedInlineSpan_Body b in
            if negb (span_size span =? wrap32 (Z.of_nat (length body))) then Panic
            else
              let! from := sub body (Z.to_nat (wrap64 (offset - span_offset span))) (length body) in
              let n := Nat.min (length dest) (length from) in
              Ok (n, overwrite dest 0 (take n from), [])
        | _ => Panic
        end
      else
        match FetchedSpan_Body (sw_Span span) with
        | Some (BlocksBody body) =>
            let e := env span in
            if DataBlocks (FetchedBlocksSpan_Parity body) =? 1 then let! r := lift_read (readMirrored e span body offset dest) in Ok (r, [])
            else lift_read (readRs Get span body (fe_starts e) (fe_reply e) pageCache (fe_pick e) (fe_pick_recover e) (wrap32 (wrap64 (offset - span_offset span))) dest)
        | _ => Panic
        end
  end.

(** * The reader with an offset *)

Record fileReader := mkfileReader { f_offset : Z; f_reader : FileReader }.

Inductive whence := SeekStart | SeekCurrent | SeekEnd | OtherWhence.

Definition int64 (z : Z) : Z := (z + 2 ^ 63) mod 2 ^ 64 - 2 ^ 63.

(** The new reader, and the offset or EINVAL. *)
Definition Seek (f : fileReader) (offset : Z) (w : whence) : fileReader * option Z :=
  let target :=
    match w with
    | SeekStart => Some offset
    | SeekCurrent => Some (int64 (int64 (f_offset f) + offset))
    | SeekEnd => Some (int64 (int64 (fr_fileSize (f_reader f)) + offset))
    | OtherWhence => None
    end in
  match target with
  | None => (f, None)
  | Some offset => if offset <? 0 then (f, None) else (mkfileReader (wrap64 offset) (f_reader f), Some (int64 (wrap64 offset)))
  end.

(** The bytes read and the destination, or the error; and the reader, moved on. *)
Definition fileReader_Read (env : SpanWithBlockServices -> fetch_env) (f : fileReader) (p : list byte) : outcome read_error (nat * list byte) * fileReader :=
  match FileReader_Read env None (f_reader f) (f_offset f) p with
  | Ok (n, p, _) => (Ok (n, p), (Seek f (Z.of_nat n) SeekCurrent).1)
  | Err e => (Err e, (Seek f 0 SeekCurrent).1)
  | Panic => (Panic, f)
  end.

(** * The whole file at once *)

(** What the network does with the requests for a whole span. *)
Record span_env := mkSpanEnv { se_attempts : nat -> list attempt; se_starts : nat -> bool; se_reply : nat -> attempt; se_pick : rs_fetch -> nat }.

Definition fetch_span_of (env : SpanWithBlockServices -> span_env) (span : SpanWithBlockServices) : outcome net_error (list byte) :=
  FetchSpan Get span (se_attempts (env span)) (se_starts (env span)) (se_reply (env span)) (se_pick (env span)).

(** Every span has its own goroutine and its own place in [bufs]; a panic in one
    is a panic of the program. *)
Fixpoint fetch_all (env : SpanWithBlockServices -> span_env) (spans : list SpanWithBlockServices) : outcome net_error (list (option (list byte))) :=
  match spans with
  | [] => Ok []
  | span :: spans =>
      let! buf := match fetch_span_of env span with Ok b => Ok (Some b) | Err _ => Ok None | Panic => Panic end in
      let! bufs := fetch_all env spans in
      Ok (buf :: bufs)
  end.

Definition copy_span (buf : list byte) (q : SpanWithBlockServices * option (list byte)) : outcome net_error (list byte) :=
  match q.2 with
  | None => Err OtherError
  | Some b =>
      if negb (Z.of_nat (length b) =? span_size q.1) then Err OtherError
      else
        let! dest := sub buf (Z.to_nat (span_offset q.1)) (length buf) in
        Ok (overwrite buf (Z.to_nat (span_offset q.1)) (take (length dest) b))
  end.

Definition FetchFile (ShardRequest : Z -> outcome net_error LocalFileSpansResp) (fuel : nat) (env : SpanWithBlockServices -> span_env) : outcome net_error (list byte) :=
  let! spans := FetchSpans ShardRequest fuel in
  let! bufs := fetch_all env spans in
  let totalSize := foldl (fun size span => size + span_size span) 0 spans in
  foldM_outcome copy_span (Get (Z.to_nat totalSize)) (zip spans bufs).
End code.

(** * Searching *)

Lemma search_ok f n : (forall i j, (i <= j < n)%nat -> f i = true -> f j = true) -> forall fuel i j, (j - i <= fuel)%nat -> (i <= j <= n)%nat ->
  (forall k, (k < i)%nat -> f k = false) -> (forall k, (j <= k < n)%nat -> f k = true) ->
  let r := search_between f fuel i j in (r <= n)%nat /\ (forall k, (k < r)%nat -> f k = false) /\ forall k, (r <= k < n)%nat -> f k = true.
Proof.
  intros Hmono. induction fuel as [|fuel IH]; intros i j Hfuel Hij Hlo Hhi; cbn [search_between]; [split_and!; [lia | done | intros k Hk; apply Hhi; lia]|].
  destruct (Nat.ltb_spec i j) as [Hlt|Hge]; [|split_and!; [lia | done | intros k Hk; apply Hhi; lia]]. set (h := ((i + j) / 2)%nat).
  assert (Hh : (i <= h < j)%nat) by (unfold h; split; [apply Nat.div_le_lower_bound | apply Nat.Div0.div_lt_upper_bound]; lia). clearbody h. destruct (f h) eqn:Eh; cbn [negb].
  - apply IH; [lia | lia | done|]. intros k Hk. apply (Hmono h k); [lia | done].
  - apply IH; [lia | lia | | done]. intros k Hk. destruct (f k) eqn:Ek; [|done]. rewrite (Hmono k h) in Eh; [done | lia | done].
Qed.

Lemma sort_Search_ok n f : (forall i j, (i <= j < n)%nat -> f i = true -> f j = true) ->
  (sort_Search n f <= n)%nat /\ (forall k, (k < sort_Search n f)%nat -> f k = false) /\ forall k, (sort_Search n f <= k < n)%nat -> f k = true.
Proof. intros Hmono. apply search_ok; [done | lia | lia | lia | lia]. Qed.

(** * Files as they were written *)

(** What was written as a span: the bytes of an inline span, or blocks. *)
Inductive written := WInline (bytes : list byte) | WBlocks (params : SpanParameters) (data : list byte) (body : FetchedBlocksSpan).

Definition bytes_of (q : SpanWithBlockServices * written) : list byte :=
  match q.2 with WInline b => b | WBlocks _ data _ => span_bytes data (span_size q.1) end.

Definition holds (q : SpanWithBlockServices * written) : Prop :=
  match q.2 with
  | WInline b =>
      FetchedSpanHeader_StorageClass (FetchedSpan_Header (sw_Span q.1)) = INLINE_STORAGE /\ FetchedSpan_Body (sw_Span q.1) = Some (InlineBody (mkFetchedInlineSpan b)) /\
      span_size q.1 = Z.of_nat (length b) /\ sw_Crc q.1 = crc_of 0 b
  | WBlocks params data body =>
      sized_span params data (span_size q.1) /\ span_of params data (span_size q.1) q.1 body /\ span_size q.1 <= sp_Stripes params * DataBlocks (sp_Parity params) * sp_CellSize params
  end.

(** The spans of a file from [base] on: one after the other, each at a multiple of
    a page, none empty. *)
Inductive file_from : Z -> list (SpanWithBlockServices * written) -> list byte -> Prop :=
| file_end base : file_from base [] []
| file_span base q l rest : span_offset q.1 = base -> (TERN_PAGE_SIZE | base) -> 0 < span_size q.1 < 2 ^ 32 -> holds q -> file_from (base + span_size q.1) l rest -> file_from base (q :: l) (bytes_of q ++ rest).

Lemma length_bytes_of q : holds q -> 0 <= span_size q.1 -> length (bytes_of q) = Z.to_nat (span_size q.1).
Proof.
  unfold holds, bytes_of. destruct q as [span [b|params data body]]; cbn [fst snd]; [intros (_ & _ & -> & _) _; lia|]. intros ([_ _ _ Hs] & _) _. unfold span_bytes. rewrite length_app, length_replicate. lia.
Qed.

Record placed (base : Z) (l : list (SpanWithBlockServices * written)) (content : list byte) (i : nat) (q : SpanWithBlockServices * written) : Prop := {
  pl_holds : holds q;
  pl_pages : (TERN_PAGE_SIZE | span_offset q.1);
  pl_size : 0 < span_size q.1 < 2 ^ 32;
  pl_in : base <= span_offset q.1 /\ span_offset q.1 + span_size q.1 <= base + Z.of_nat (length content);
  pl_bytes : bytes_of q = take (Z.to_nat (span_size q.1)) (drop (Z.to_nat (span_offset q.1 - base)) content);
  pl_first : i = 0%nat -> span_offset q.1 = base;
  pl_last : l !! S i = None -> span_offset q.1 + span_size q.1 = base + Z.of_nat (length content);
  pl_next : forall q', l !! S i = Some q' -> span_offset q'.1 = span_offset q.1 + span_size q.1 }.

Lemma file_at base l content : 0 <= base -> file_from base l content -> forall i q, l !! i = Some q -> placed base l content i q.
Proof.
  intros H0 Hf. revert H0. induction Hf as [|base q l rest Ho Hp Hs Hq Hf IH]; intros H0 i q' Hi; [done|]. pose proof (length_bytes_of q Hq ltac:(lia)) as Hl.
  destruct i as [|i]; cbn [lookup list_lookup] in Hi.
  - injection Hi as <-. constructor; rewrite ?Ho, ?length_app, ?Hl; try done; [lia | | | ].
    + rewrite Z.sub_diag. change (Z.to_nat 0) with 0%nat. rewrite drop_0, take_app_length'; done.
    + cbn [lookup list_lookup]. intros Hnone. destruct l; [inversion Hf; subst; cbn [length]; lia | done].
    + cbn [lookup list_lookup]. intros q' Hq'. destruct l; [done|]. injection Hq' as ->. by inversion Hf.
  - destruct (IH ltac:(lia) i q' Hi) as [P1 P2 P3 [P4 P5] P6 P7 P8 P9]. constructor; rewrite ?length_app, ?Hl; try done; [lia | |].
    + rewrite P6. replace (Z.to_nat (span_offset q'.1 - base)) with (length (bytes_of q) + Z.to_nat (span_offset q'.1 - (base + span_size q.1)))%nat by lia. by rewrite drop_app_add.
    + intros Hnone. cbn [lookup list_lookup] in Hnone. rewrite P8 by done. lia.
Qed.

Section file.
Context (l : list (SpanWithBlockServices * written)) (content : list byte) (Hfile : file_from 0 l content) (Hlen : Z.of_nat (length content) < 2 ^ 62).
Let fr : FileReader := mkFileReader (Z.of_nat (length content)) (fst <$> l).

Lemma span_at i q : l !! i = Some q -> placed 0 l content i q.
Proof. by apply file_at. Qed.

Lemma offsets_ascend i j q q' : (i <= j)%nat -> l !! i = Some q -> l !! j = Some q' -> span_offset q.1 <= span_offset q'.1.
Proof.
  intros Hij Hi. revert q'. induction Hij as [|j Hij IH]; intros q' Hj; [assert (q = q') as -> by congruence; lia|]. destruct (lookup_lt_is_Some_2 l j) as [q1 Hq1]; [apply lookup_lt_Some in Hj; lia|].
  rewrite (pl_next _ _ _ _ _ (span_at j q1 Hq1) q' Hj). pose proof (pl_size _ _ _ _ _ (span_at j q1 Hq1)). specialize (IH q1 Hq1). lia.
Qed.

Lemma wrap64_small z : 0 <= z < 2 ^ 64 -> wrap64 z = z.
Proof. intros Hz. by apply Z.mod_small. Qed.

Lemma find_ok offset : 0 <= offset -> (Z.of_nat (length content) <= offset -> findSpan fr offset = Ok None) /\
  (offset < Z.of_nat (length content) -> exists i q, l !! i = Some q /\ findSpan fr offset = Ok (Some q.1) /\ span_offset q.1 <= offset < span_offset q.1 + span_size q.1).
Proof.
  intros Ho. unfold findSpan. cbn [fr fr_fileSize fr_spans]. destruct (Z.eqb_spec (Z.of_nat (length content)) 0) as [E|E]; [split; [done | lia]|].
  set (f := fun i => match (fst <$> l) !! i with Some span => offset <? span_offset span | None => false end).
  assert (Hlf : forall i q, l !! i = Some q -> f i = (offset <? span_offset q.1)) by (intros i q Hi; unfold f; by rewrite list_lookup_fmap, Hi).
  rewrite length_fmap. destruct (sort_Search_ok (length l) f) as (Hr & Hlo & Hhi).
  { intros i j [Hij Hj] Hfi. destruct (lookup_lt_is_Some_2 l i) as [q Hq]; [lia|]. destruct (lookup_lt_is_Some_2 l j Hj) as [q' Hq']. rewrite (Hlf i q Hq) in Hfi. rewrite (Hlf j q' Hq'). pose proof (offsets_ascend i j q q' Hij Hq Hq'). apply Z.ltb_lt in Hfi. apply Z.ltb_lt. lia. }
  destruct (sort_Search (length l) f) as [|ix].
  - exfalso. destruct (l !! 0%nat) as [q|] eqn:Eq.
    + pose proof (lookup_lt_Some _ _ _ Eq). specialize (Hhi 0%nat ltac:(lia)). rewrite (Hlf 0%nat q Eq), (pl_first _ _ _ _ _ (span_at 0%nat q Eq) eq_refl) in Hhi. apply Z.ltb_lt in Hhi. lia.
    + apply lookup_ge_None_1, Nat.le_0_r, nil_length_inv in Eq. pose proof Hfile as Hnil. rewrite Eq in Hnil. destruct content; [done | inversion Hnil].
  - destruct (lookup_lt_is_Some_2 l ix) as [q Hq]; [lia|]. pose proof (span_at ix q Hq) as [_ _ P3 [P4 P5] _ _ P8 P9]. specialize (Hlo ix ltac:(lia)). rewrite (Hlf ix q Hq) in Hlo. apply Z.ltb_ge in Hlo. unfold index. rewrite list_lookup_fmap, Hq. cbn [fmap option_fmap option_map mbind outcome_bind].
    rewrite wrap64_small by lia. destruct (Z.leb_spec (span_offset q.1 + span_size q.1) offset) as [Hle|Hgt].
    + split; [done|]. intros Hlt. exfalso. destruct (l !! S ix) as [q'|] eqn:Eq'; [|rewrite P8 in Hle by done; lia]. specialize (Hhi (S ix) ltac:(apply lookup_lt_Some in Eq'; lia)). rewrite (Hlf _ q' Eq'), (P9 q' eq_refl) in Hhi. apply Z.ltb_lt in Hhi. lia.
    + split; [lia|]. intros _. by exists ix, q.
Qed.

(** Bytes of the file. *)
Definition bytes_at (offset : Z) (bs : list byte) : Prop := 0 <= offset /\ offset + Z.of_nat (length bs) <= Z.of_nat (length content) /\ bs = take (length bs) (drop (Z.to_nat offset) content).

Definition truthful_file (cache : option (Z -> nat -> list byte)) : Prop :=
  match cache with
  | None => True
  | Some cache => forall offset n, 0 <= offset -> offset + Z.of_nat n <= Z.of_nat (length content) -> (length (cache offset n) <= n)%nat /\ bytes_at offset (cache offset n)
  end.

Lemma span_bytes_at i q offset bs : l !! i = Some q -> span_offset q.1 <= offset -> offset + Z.of_nat (length bs) <= span_offset q.1 + span_size q.1 ->
  bytes_at offset bs <-> bs = take (length bs) (drop (Z.to_nat (offset - span_offset q.1)) (bytes_of q)).
Proof.
  intros Hq H1 H2. destruct (span_at i q Hq) as [_ _ P3 [P4 P5] P6 _ _ _]. rewrite P6, Z.sub_0_r, skipn_firstn_comm, take_take, drop_drop, Nat.min_l by lia.
  replace (Z.to_nat (span_offset q.1) + Z.to_nat (offset - span_offset q.1))%nat with (Z.to_nat offset) by lia. unfold bytes_at. intuition lia.
Qed.

Lemma of_file_at i q params data body offset bs : l !! i = Some q -> q.2 = WBlocks params data body -> of_file q.1 (span_bytes data (span_size q.1)) offset bs -> bytes_at offset bs.
Proof.
  intros Hq Hw (H1 & H2 & H3). apply (span_bytes_at i q); [done | exact H1 | exact H2|]. unfold bytes_of. rewrite Hw. exact H3.
Qed.

Lemma cache_of_span i q params data body cache : l !! i = Some q -> q.2 = WBlocks params data body -> truthful_file cache -> truthful_cache data (span_size q.1) q.1 cache.
Proof.
  intros Hq Hw Hc. unfold truthful_cache. destruct cache as [cache|]; [|done]. destruct (span_at i q Hq) as [_ _ P3 [P4 P5] _ _ _ _]. intros fs n H1 H2. fold (span_offset q.1) in *. fold (span_size q.1) in *.
  destruct (Hc fs n ltac:(lia) ltac:(lia)) as [Hl Hb]. split; [done|]. split; [exact H1|]. split; [fold (span_offset q.1) (span_size q.1); lia|].
  fold (span_offset q.1). apply (span_bytes_at i q) in Hb; [|done | done | lia]. unfold bytes_of in Hb. by rewrite Hw in Hb.
Qed.
End file.

(** * Mirrored spans *)

Lemma overwrite_all (p from : list byte) : length from = length p -> overwrite p 0 from = from.
Proof. intros Hl. unfold overwrite. rewrite take_0, drop_ge, app_nil_r by lia. done. Qed.

(** Requests that fail with errors worth a retry, and then one that is answered. *)
Definition answered (k : nat) (X : list byte) (attempts : list attempt) : Prop :=
  exists errs a rest, attempts = (RequestFails <$> errs) ++ a :: rest /\ Forall (fun e => retriableBlockError e = true) errs /\ delivered k X a.

Lemma request_answered k X br attempts last : length X = (k * page)%nat -> empty_reader k br -> answered k X attempts -> singleBlockReq br (k * page) [] attempts last = Ok (block_read k X).
Proof.
  intros HX Hbr (errs & a & rest & -> & Herrs & Hdel). revert last. induction Herrs as [|e errs He _ IH]; intros last; cbn [fmap list_fmap app singleBlockReq].
  - by rewrite (fetch_response_delivered k X HX br a Hbr Hdel).
  - cbn [fetch_response]. rewrite He. cbn [app]. apply IH.
Qed.

Section mirrored.
Context (Get : nat -> list byte) (HGet : forall l, length (Get l) = l) (params : SpanParameters) (data : list byte) (size : Z) (Hsz : sized_span params data size).
Context (span : SpanWithBlockServices) (body : FetchedBlocksSpan) (Hso : span_of params data size span body) (HD1 : rs_data_blocks_core (sp_Parity params) = 1%nat).
Context (a k : nat) (Hak : (a + k <= block_pages params)%nat) (attempts : nat -> list attempt).
Context (Hgen : forall i, (i < rs_blocks_core (sp_Parity params))%nat -> Forall (genuine k (block_part params data i a k)) (attempts i)).
Let X := padded (sp_Parity params) (Z.to_nat (sp_Stripes params)) (Z.to_nat (sp_CellSize params)) data.

Lemma mirrored_part i : (i < rs_blocks_core (sp_Parity params))%nat -> block_part params data i a k = take (k * page) (drop (a * page) X) /\ length (block_part params data i a k) = (k * page)%nat.
Proof.
  intros Hi. unfold block_part, part. pose proof (block_written params data size Hsz i Hi) as Hl. cbv beta in Hl. pose proof (mirrored_content params data HD1 i Hi) as Hc. cbv beta in Hc. split; [by rewrite Hc|].
  rewrite length_take, length_drop, Hl. unfold block_pages in Hak. nia.
Qed.

Definition mirror_had (i : nat) : Prop := can_read span body i = Ok true /\ answered k (block_part params data i a k) (attempts i).

Lemma mirrored_range_ok skip p : (skip + length p <= k * page)%nat -> forall blocks i err, blocks = drop i (FetchedBlocksSpan_Blocks body) -> (i <= rs_blocks_core (sp_Parity params))%nat ->
  let result := mirrored_range Get span attempts (Z.of_nat (a * page)) (Z.of_nat (k * page)) skip p err i blocks in
  let right := Ok (length p, take (length p) (drop (a * page + skip) X)) in
  ((exists e, result = Err e) \/ result = right) /\ forall j, (i <= j < rs_blocks_core (sp_Parity params))%nat -> mirror_had j -> result = right.
Proof.
  intros Hp. cbv zeta. set (right := Ok _). assert (El : length (FetchedBlocksSpan_Blocks body) = rs_blocks_core (sp_Parity params)) by apply Hso.
  induction blocks as [|block blocks IH]; intros i err Hdrop Hi; cbn [mirrored_range].
  { assert (length (drop i (FetchedBlocksSpan_Blocks body)) = 0%nat) as E by (by rewrite <- Hdrop). rewrite length_drop in E. split; [left; by eexists | lia]. }
  assert (Hb : FetchedBlocksSpan_Blocks body !! i = Some block) by (rewrite <- (Nat.add_0_r i), <- lookup_drop, <- Hdrop; done). pose proof (lookup_lt_Some _ _ _ Hb) as Hlt. rewrite El in Hlt.
  assert (Hdrop' : blocks = drop (S i) (FetchedBlocksSpan_Blocks body)) by (rewrite (drop_S _ block i Hb) in Hdrop; by injection Hdrop).
  destruct (service_found params data size span body Hso i Hlt) as (block' & service & Hb' & Hs). assert (block' = block) as -> by congruence. rewrite Hs. cbn [mbind outcome_bind].
  assert (Hcan : can_read span body i = Ok (CanRead (bs_Flags service))) by (unfold can_read, index; rewrite Hb; cbn [mbind outcome_bind]; by rewrite Hs).
  assert (Hnext : forall e', ~ mirror_had i -> ((exists e, mirrored_range Get span attempts (Z.of_nat (a * page)) (Z.of_nat (k * page)) skip p e' (S i) blocks = Err e) \/ mirrored_range Get span attempts (Z.of_nat (a * page)) (Z.of_nat (k * page)) skip p e' (S i) blocks = right) /\
    forall j, (i <= j < rs_blocks_core (sp_Parity params))%nat -> mirror_had j -> mirrored_range Get span attempts (Z.of_nat (a * page)) (Z.of_nat (k * page)) skip p e' (S i) blocks = right).
  { intros e' Hno. destruct (IH (S i) e' Hdrop' ltac:(lia)) as [H1 H2]. split; [done|]. intros j Hj Hhad. apply (H2 j); [|done]. destruct (decide (j = i)) as [->|]; [done | lia]. }
  destruct (CanRead (bs_Flags service)); cbn [negb]; [|apply Hnext; intros [? _]; congruence]. destruct (fresh_ok Get HGet a k) as (br & -> & Hbr). cbn [mbind outcome_bind]. rewrite !Nat2Z.id.
  unfold FetchBlock. rewrite !Nat.Div0.mod_mul. cbn [Nat.eqb negb]. destruct (mirrored_part i Hlt) as [Hpart Hlen].
  destruct (single_block_req_ok k (block_part params data i a k) Hlen (attempts i) (Hgen i Hlt) br OtherError Hbr) as [[e E]|E]; rewrite E.
  - apply Hnext. intros [_ Hans]. by rewrite (request_answered k _ br (attempts i) OtherError Hlen Hbr Hans) in E.
  - unfold block_read. cbn [rd_buf]. rewrite sub_ok by lia. cbn [mbind outcome_bind]. rewrite take_ge by (rewrite length_drop; lia). rewrite length_drop, Hlen, Nat.min_l by lia.
    assert (Ok (E := net_error) (length p, overwrite p 0 (take (length p) (drop skip (block_part params data i a k)))) = right) as ->; [|by split; [right|]].
    unfold right. rewrite overwrite_all by (rewrite length_take, length_drop, Hlen; lia). do 2 f_equal. rewrite Hpart, skipn_firstn_comm, take_take, drop_drop, Nat.min_l by lia. done.
Qed.
End mirrored.

(** The pages of a mirrored block that a range needs. *)
Lemma mirrored_pages base size offset (m : nat) : (TERN_PAGE_SIZE | base) -> 0 <= base < 2 ^ 62 -> base <= offset -> (0 < m)%nat -> offset + Z.of_nat m <= base + size -> size < 2 ^ 32 ->
  exists a k skip, offset - base = Z.of_nat (a * page + skip) /\ (skip + m <= k * page)%nat /\ (forall z, size <= z -> (TERN_PAGE_SIZE | z) -> Z.of_nat ((a + k) * page) <= z) /\
    let fileStart := offset / TERN_PAGE_SIZE * TERN_PAGE_SIZE in
    let fileEnd := wrap64 (wrap64 (wrap64 (offset + Z.of_nat m) + TERN_PAGE_SIZE) - 1) / TERN_PAGE_SIZE * TERN_PAGE_SIZE in
    wrap64 (fileStart - base) = Z.of_nat (a * page) /\ wrap64 (fileEnd - base) = Z.of_nat ((a + k) * page) /\ wrap64 (offset - fileStart) = Z.of_nat skip.
Proof.
  intros [b Hb] Hbase Ho Hm Hend Hsize. pose proof page_Z as Hz. change TERN_PAGE_SIZE with 4096 in *. remember (offset - base) as r eqn:Er. set (a := Z.to_nat (r / 4096)). set (e := Z.to_nat ((r + Z.of_nat m + 4095) / 4096)). exists a, (e - a)%nat, (Z.to_nat (r mod 4096)).
  pose proof (Z.div_mod r 4096 ltac:(lia)) as E1. pose proof (Z.mod_pos_bound r 4096 ltac:(lia)) as E2. pose proof (Z.div_mod (r + Z.of_nat m + 4095) 4096 ltac:(lia)) as E3. pose proof (Z.mod_pos_bound (r + Z.of_nat m + 4095) 4096 ltac:(lia)) as E4.
  assert (Hq : 0 <= r / 4096 /\ 0 <= (r + Z.of_nat m + 4095) / 4096) by (split; apply Z.div_pos; lia). assert (Hae : (a < e)%nat) by (unfold a, e; nia). assert (Hr : 0 <= r) by lia.
  assert (Ha : Z.of_nat (a * page) = r - r mod 4096) by (rewrite Nat2Z.inj_mul, Hz; unfold a; lia). replace (a + (e - a))%nat with e by lia.
  assert (He : Z.of_nat (e * page) = 4096 * ((r + Z.of_nat m + 4095) / 4096)) by (rewrite Nat2Z.inj_mul, Hz; unfold e; lia).
  assert (Hfs : offset / 4096 = b + r / 4096) by (replace offset with (b * 4096 + r) by lia; by rewrite Z.div_add_l). assert (Hfe : (offset + Z.of_nat m + 4096 - 1) / 4096 = b + (r + Z.of_nat m + 4095) / 4096).
  { replace (offset + Z.of_nat m + 4096 - 1) with (b * 4096 + (r + Z.of_nat m + 4095)) by lia. by rewrite Z.div_add_l. }
  split_and!.
  - rewrite Nat2Z.inj_add, Ha. lia.
  - enough (Z.of_nat (Z.to_nat (r mod 4096) + m) <= Z.of_nat ((e - a) * page)) by lia. rewrite Nat.mul_sub_distr_r, Nat2Z.inj_sub by nia. rewrite Ha, He. lia.
  - intros z Hz1 [q Hq']. rewrite He. assert ((r + Z.of_nat m + 4095) / 4096 <= q); [|lia]. apply Z.lt_succ_r, Z.div_lt_upper_bound; lia.
  - cbv zeta. rewrite Ha, He, Hfs. rewrite (wrap64_small (offset + Z.of_nat m)), (wrap64_small (offset + Z.of_nat m + 4096)), (wrap64_small (_ - 1)) by lia. rewrite Hfe, !wrap64_small by lia. split_and!; lia.
Qed.

(** What the network does with the requests for the blocks of a span is honest:
    nothing but the bytes of the blocks comes with the right checksums; and
    enough of it works. *)
Definition honest (q : SpanWithBlockServices * written) (e : fetch_env) : Prop :=
  match q.2 with
  | WInline _ => True
  | WBlocks params data body =>
      if (rs_data_blocks_core (sp_Parity params) =? 1)%nat
      then forall i a k, (i < rs_blocks_core (sp_Parity params))%nat -> (a + k <= block_pages params)%nat -> Forall (genuine k (block_part params data i a k)) (fe_attempts e i (a * page)%nat (k * page)%nat)
      else genuine_replies params data (fe_reply e) /\ forall i, fe_starts e Recovering i = true
  end.

Definition enough (q : SpanWithBlockServices * written) (e : fetch_env) : Prop :=
  match q.2 with
  | WInline _ => True
  | WBlocks params data body =>
      if (rs_data_blocks_core (sp_Parity params) =? 1)%nat
      then exists i, (i < rs_blocks_core (sp_Parity params))%nat /\ can_read q.1 body i = Ok true /\ forall a k, (a + k <= block_pages params)%nat -> answered k (block_part params data i a k) (fe_attempts e i (a * page)%nat (k * page)%nat)
      else exists good, NoDup good /\ (rs_data_blocks_core (sp_Parity params) <= length good)%nat /\
        forall i, i ∈ good -> (i < rs_blocks_core (sp_Parity params))%nat /\ can_be_had params data q.1 body (fe_starts e) (fe_reply e) i
  end.

Section mirrored_read.
Context (Get : nat -> list byte) (HGet : forall l, length (Get l) = l) (params : SpanParameters) (data : list byte) (span : SpanWithBlockServices) (body : FetchedBlocksSpan).
Context (Hsz : sized_span params data (span_size span)) (Hso : span_of params data (span_size span) span body) (Hfull : span_size span <= sp_Stripes params * DataBlocks (sp_Parity params) * sp_CellSize params).
Context (HD1 : rs_data_blocks_core (sp_Parity params) = 1%nat) (Hpages : (TERN_PAGE_SIZE | span_offset span)) (Hbase : 0 <= span_offset span < 2 ^ 62).
Context (e : fetch_env) (Hgen : honest (span, WBlocks params data body) e) (offset : Z) (Hoff : span_offset span <= offset < span_offset span + span_size span) (dest : list byte) (Hdest : (0 < length dest)%nat).

Lemma read_mirrored_ok :
  let result := readMirrored Get e span body offset dest in
  let right := Ok (read_bytes data (span_size span) (offset - span_offset span) dest) in
  ((exists err, result = Err err) \/ result = right) /\ (enough (span, WBlocks params data body) e -> result = right).
Proof.
  pose proof Hsz as [[_ V2 _ V4 V5] [qc Hqc] Hfit Hsize]. assert (Hd1 : DataBlocks (sp_Parity params) = 1) by (unfold rs_data_blocks_core in HD1; unfold DataBlocks in *; lia). rewrite Hd1 in *. cbv zeta. set (right := Ok _). unfold readMirrored.
  rewrite (so_parity _ _ _ _ _ Hso), (so_stripes _ _ _ _ _ Hso), (so_cell _ _ _ _ _ Hso), Hd1. rewrite (wrap32_small (sp_CellSize params * sp_Stripes params)) by lia. rewrite (wrap32_small (sp_CellSize params * sp_Stripes params * 1)) by lia. rewrite (proj2 (Z.ltb_ge _ _)) by lia.
  rewrite (wrap64_small (span_offset span + span_size span)) by lia. rewrite (wrap64_small (span_offset span + span_size span - offset)) by lia. set (m := Z.to_nat (Z.min _ _)). assert (Hm : m = Nat.min (length dest) (Z.to_nat (span_size span - (offset - span_offset span)))) by (unfold m; lia).
  rewrite sub_ok by lia. cbn [mbind outcome_bind]. rewrite drop_0, Nat.sub_0_r. assert (Lp : length (take m dest) = m) by (rewrite length_take; lia). rewrite Lp.
  destruct (mirrored_pages (span_offset span) (span_size span) offset m Hpages Hbase ltac:(lia) ltac:(lia) ltac:(lia) ltac:(lia)) as (a & k & skip & Hoffset & Hfits & Hz & E1 & E2 & E3). rewrite E1, E2, E3. specialize (Hz (sp_Stripes params * 1 * sp_CellSize params) Hfull ltac:(exists (sp_Stripes params * qc); lia)).
  assert (Hak : (a + k <= block_pages params)%nat).
  { destruct (block_length params data (span_size span) Hsz 0 ltac:(lia)) as [L1 L2]. rewrite L1 in L2. pose proof page_pos. nia. }
  pose proof (proj1 (Nat.mul_le_mono_pos_r _ _ page page_pos) (Nat.le_add_r a k)) as Hle. rewrite (wrap32_small (Z.of_nat (a * page))), (wrap32_small (Z.of_nat ((a + k) * page))) by lia. rewrite (wrap32_small (_ - _)) by lia. replace (Z.of_nat ((a + k) * page) - Z.of_nat (a * page)) with (Z.of_nat (k * page)) by lia. rewrite !Nat2Z.id.
  unfold honest in Hgen. cbn [snd] in Hgen. rewrite HD1 in Hgen. cbn [Nat.eqb] in Hgen.
  destruct (mirrored_range_ok Get HGet params data (span_size span) Hsz span body Hso HD1 a k Hak (fun i => fe_attempts e i (a * page)%nat (k * page)%nat) (fun i Hi => Hgen i a k Hi Hak) skip (take m dest) ltac:(lia) (FetchedBlocksSpan_Blocks body) 0 OtherError eq_refl ltac:(lia)) as [H1 H2].
  assert (Hright : mirrored_range Get span (fun i => fe_attempts e i (a * page)%nat (k * page)%nat) (Z.of_nat (a * page)) (Z.of_nat (k * page)) skip (take m dest) OtherError 0 (FetchedBlocksSpan_Blocks body) = Ok (length (take m dest), take (length (take m dest)) (drop (a * page + skip) (padded (sp_Parity params) (Z.to_nat (sp_Stripes params)) (Z.to_nat (sp_CellSize params)) data))) ->
    (let! r := mirrored_range Get span (fun i => fe_attempts e i (a * page)%nat (k * page)%nat) (Z.of_nat (a * page)) (Z.of_nat (k * page)) skip (take m dest) OtherError 0 (FetchedBlocksSpan_Blocks body) in Ok (r.1, r.2 ++ drop m dest)) = right).
  { intros ->. cbn [mbind outcome_bind fst snd]. unfold right, read_bytes. rewrite <- Hm, Lp. do 3 f_equal. rewrite (span_in_padded params data (span_size span) Hsz) by (rewrite Hd1; lia). rewrite skipn_firstn_comm, take_take. f_equal; [lia | f_equal; lia]. }
  split.
  - destruct H1 as [[err ->]|H1]; [left; by exists err | right; by apply Hright].
  - intros Hen. unfold enough in Hen. cbn [fst snd] in Hen. rewrite HD1 in Hen. cbn [Nat.eqb] in Hen. destruct Hen as (i & Hi & Hc & Hans). apply Hright, (H2 i); [lia|]. split; [done | by apply Hans].
Qed.
End mirrored_read.

(** * Reading at an offset *)

Section reader.
Context (Get : nat -> list byte) (HGet : forall l, length (Get l) = l).
Context (l : list (SpanWithBlockServices * written)) (content : list byte) (Hfile : file_from 0 l content) (Hlen : Z.of_nat (length content) < 2 ^ 62).
Let fr : FileReader := mkFileReader (Z.of_nat (length content)) (fst <$> l).

Definition honest_env (env : SpanWithBlockServices -> fetch_env) : Prop := forall q, q ∈ l -> honest q (env q.1).
Definition enough_env (env : SpanWithBlockServices -> fetch_env) : Prop := forall q, q ∈ l -> enough q (env q.1).

Lemma read_piece i q offset (n : nat) : l !! i = Some q -> span_offset q.1 <= offset -> offset + Z.of_nat n <= span_offset q.1 + span_size q.1 ->
  take n (drop (Z.to_nat (offset - span_offset q.1)) (bytes_of q)) = take n (drop (Z.to_nat offset) content).
Proof.
  intros Hq H1 H2. destruct (file_at 0 l content ltac:(lia) Hfile i q Hq) as [_ _ P3 [P4 P5] P6 _ _ _]. rewrite P6, Z.sub_0_r, skipn_firstn_comm, take_take, drop_drop, Nat.min_l by lia. do 2 f_equal. lia.
Qed.

(** Some bytes are read, and they are those of the file. *)
Definition bytes_read (offset : Z) (dest : list byte) (res : outcome read_error (nat * list byte * list (Z * list byte))) : Prop :=
  exists n writes, (0 < n <= length dest)%nat /\ offset + Z.of_nat n <= Z.of_nat (length content) /\
    res = Ok (n, take n (drop (Z.to_nat offset) content) ++ drop n dest, writes) /\ Forall (fun w => bytes_at content w.1 w.2) writes.

Lemma span_read i q offset dest writes : l !! i = Some q -> span_offset q.1 <= offset < span_offset q.1 + span_size q.1 -> (0 < length dest)%nat -> Forall (fun w => bytes_at content w.1 w.2) writes ->
  let n := Nat.min (length dest) (Z.to_nat (span_size q.1 - (offset - span_offset q.1))) in
  bytes_read offset dest (Ok (n, take n (drop (Z.to_nat (offset - span_offset q.1)) (bytes_of q)) ++ drop n dest, writes)).
Proof.
  intros Hq Ho Hd Hw n. pose proof (pl_in _ _ _ _ _ (file_at 0 l content ltac:(lia) Hfile i q Hq)) as [P4 P5]. exists n, writes. split_and!; [unfold n; lia | unfold n; lia | unfold n; lia | | done].
  by rewrite (read_piece i q) by (done || (unfold n; lia)).
Qed.

Lemma reader_read_ok env cache offset dest : honest_env env -> truthful_file content cache -> 0 <= offset ->
  let res := FileReader_Read Get env cache fr offset dest in
  (Z.of_nat (length content) <= offset -> res = Err EOF) /\
  (offset < Z.of_nat (length content) -> dest = [] -> res = Ok (0%nat, dest, [])) /\
  (offset < Z.of_nat (length content) -> dest <> [] -> ((exists e, res = Err (ReadError e)) \/ bytes_read offset dest res) /\ (enough_env env -> bytes_read offset dest res)).
Proof.
  intros Henv Hcache Ho. cbv zeta. unfold FileReader_Read. destruct (find_ok l content Hfile Hlen offset Ho) as [Hnone Hsome]. fold fr in Hnone, Hsome. split; [intros Hge; by rewrite Hnone|]. split.
  { intros Hlt ->. destruct (Hsome Hlt) as (i & q & _ & -> & _). done. }
  intros Hlt Hne. destruct (Hsome Hlt) as (i & q & Hq & -> & Hin). cbn [lift_read mbind outcome_bind]. assert (Hd : (0 < length dest)%nat) by (destruct dest; [done | cbn [length]; lia]). rewrite (proj2 (Nat.eqb_neq _ _)) by lia.
  pose proof (file_at 0 l content ltac:(lia) Hfile i q Hq) as [Hholds P2 P3 [P4 P5] _ _ _ _]. pose proof (list_elem_of_lookup_2 _ _ _ Hq) as Hel. pose proof (Henv q Hel) as Hhonest. pose proof (span_read i q offset dest) as Hread.
  pose proof (of_file_at l content Hfile i q) as Hwrites. pose proof (cache_of_span l content Hfile i q) as Hct. destruct q as [span [b|params data body]]; cbn [fst snd] in *; unfold holds in Hholds; cbn [fst snd] in Hholds.
  - destruct Hholds as (-> & -> & Hs & _). cbn [FetchedInlineSpan_Body]. rewrite Hs. rewrite wrap32_small by lia. rewrite Z.eqb_refl. cbn [negb]. rewrite wrap64_small by lia. rewrite sub_ok by lia. cbn [mbind outcome_bind]. rewrite take_ge by (rewrite length_drop; lia). rewrite length_drop.
    specialize (Hread [] Hq Hin Hd ltac:(constructor)). unfold bytes_of in Hread. cbn [fst snd] in Hread. replace (length b - Z.to_nat (offset - span_offset span))%nat with (Z.to_nat (span_size span - (offset - span_offset span))) by lia. rewrite <- Hs in *.
    set (n := Nat.min _ _) in *. unfold overwrite. rewrite take_0, app_nil_l, Nat.add_0_l. replace (length (take n (drop (Z.to_nat (offset - span_offset span)) b))) with n by (rewrite length_take, length_drop; unfold n; lia). rewrite Z.eqb_refl. split; [by right | done].
  - destruct Hholds as (Hsz & Hso & Hfull). rewrite (proj2 (Z.eqb_neq _ _) (so_class _ _ _ _ _ Hso)), (so_body _ _ _ _ _ Hso), (so_parity _ _ _ _ _ Hso). pose proof (data_count params data (span_size span) Hsz) as Hdc.
    destruct (Nat.eqb_spec (rs_data_blocks_core (sp_Parity params)) 1) as [HD|HD].
    + rewrite Hdc, HD. cbn [Z.of_nat Z.eqb Pos.of_succ_nat Pos.eqb]. destruct (read_mirrored_ok Get HGet params data span body Hsz Hso Hfull HD P2 ltac:(lia) (env span) Hhonest offset Hin dest Hd) as [H1 H2]. specialize (Hread [] Hq Hin Hd ltac:(constructor)). split.
      * destruct H1 as [[e ->]| ->]; [left; by eexists | right; exact Hread].
      * intros Hen. rewrite H2 by (exact (Hen _ Hel)). exact Hread.
    + pose proof (vp_data _ (sz_valid _ _ _ Hsz)) as V2. rewrite Hdc in V2 |- *. rewrite (proj2 (Z.eqb_neq _ _)) by lia. unfold honest in Hhonest. cbn [snd] in Hhonest. rewrite (proj2 (Nat.eqb_neq _ _)) in Hhonest by done. destruct Hhonest as [Hg Hst].
      rewrite wrap64_small by lia. rewrite wrap32_small by lia.
      destruct (read_rs_ok params data (span_size span) Hsz span body Hso Hfull ltac:(lia) Get HGet (fe_starts (env span)) (fe_reply (env span)) cache (fe_pick (env span)) (fe_pick_recover (env span)) ltac:(fold (span_offset span); lia) Hg Hst (Hct params data body cache Hq eq_refl Hcache) (offset - span_offset span) dest ltac:(lia) Hd) as [H1 H2]. split.
      * destruct H1 as [->|(writes & -> & Hw)]; [left; by eexists | right]. apply (Hread writes Hq Hin Hd). eapply Forall_impl; [exact Hw|]. intros w Hw'. by eapply Hwrites.
      * intros Hen. specialize (Hen _ Hel). unfold enough in Hen. cbn [fst snd] in Hen. rewrite (proj2 (Nat.eqb_neq _ _)) in Hen by done. destruct (H2 Hen) as (writes & -> & Hw). apply (Hread writes Hq Hin Hd). eapply Forall_impl; [exact Hw|]. intros w Hw'. by eapply Hwrites.
Qed.
End reader.

(** * Reading on *)

Lemma int64_small z : - 2 ^ 63 <= z < 2 ^ 63 -> int64 z = z.
Proof. intros Hz. unfold int64. rewrite Z.mod_small by lia. lia. Qed.

(** Where a seek goes, by its arguments. *)
Definition seek_target (f : fileReader) (offset : Z) (w : whence) : option Z :=
  match w with SeekStart => Some offset | SeekCurrent => Some (f_offset f + offset) | SeekEnd => Some (fr_fileSize (f_reader f) + offset) | OtherWhence => None end.

Lemma seek_ok f offset w : 0 <= f_offset f < 2 ^ 62 -> 0 <= fr_fileSize (f_reader f) < 2 ^ 62 -> - 2 ^ 62 <= offset < 2 ^ 62 ->
  Seek f offset w = match seek_target f offset w with Some t => if t <? 0 then (f, None) else (mkfileReader t (f_reader f), Some t) | None => (f, None) end.
Proof.
  intros Hf Hs Ho. unfold Seek, seek_target. destruct w; [| | |done]; rewrite ?(int64_small (f_offset f)), ?(int64_small (fr_fileSize _)) by lia; rewrite ?(int64_small (_ + _)) by lia.
  all: match goal with |- context [?t <? 0] => destruct (Z.ltb_spec t 0); [done|] end; rewrite wrap64_small by lia; by rewrite int64_small by lia.
Qed.

Section reading_on.
Context (Get : nat -> list byte) (HGet : forall l, length (Get l) = l).
Context (l : list (SpanWithBlockServices * written)) (content : list byte) (Hfile : file_from 0 l content) (Hlen : Z.of_nat (length content) < 2 ^ 62).
Let fr : FileReader := mkFileReader (Z.of_nat (length content)) (fst <$> l).

(** A client that reads until the end of the file, with one buffer. *)
Fixpoint read_to_end (env : nat -> SpanWithBlockServices -> fetch_env) (fuel : nat) (f : fileReader) (p : list byte) : outcome read_error (list byte) :=
  match fuel with
  | O => Panic
  | S fuel =>
      match fileReader_Read Get (env fuel) f p with
      | (Ok (n, p), f) => let! rest := read_to_end env fuel f p in Ok (take n p ++ rest)
      | (Err EOF, _) => Ok []
      | (Err e, _) => Err e
      | (Panic, _) => Panic
      end
  end.

Lemma read_to_end_ok env : (forall k, honest_env l (env k)) -> forall fuel offset p, 0 <= offset < 2 ^ 62 -> p <> [] -> (length content - Z.to_nat offset < fuel)%nat ->
  let res := read_to_end env fuel (mkfileReader offset fr) p in
  ((exists e, res = Err (ReadError e)) \/ res = Ok (drop (Z.to_nat offset) content)) /\ ((forall k, enough_env l (env k)) -> res = Ok (drop (Z.to_nat offset) content)).
Proof.
  intros Henv. induction fuel as [|fuel IH]; intros offset p Ho Hp Hfuel; [lia|]. cbv zeta. cbn [read_to_end]. unfold fileReader_Read. cbn [f_reader f_offset].
  destruct (reader_read_ok Get HGet l content Hfile Hlen (env fuel) None offset p (Henv fuel) I ltac:(lia)) as (Heof & _ & Hread). cbv zeta in Heof, Hread. fold fr in Heof, Hread.
  destruct (Z.leb_spec (Z.of_nat (length content)) offset) as [Hge|Hlt]; [rewrite Heof, drop_ge by lia; split; [by right | done]|]. destruct (Hread Hlt Hp) as [H1 H2].
  assert (Hstep : bytes_read content offset p (FileReader_Read Get (env fuel) None fr offset p) -> forall Q : outcome read_error (list byte) -> Prop,
    (forall n p', (0 < n)%nat -> p' <> [] -> offset + Z.of_nat n <= Z.of_nat (length content) -> take n p' = take n (drop (Z.to_nat offset) content) -> Q (let! rest := read_to_end env fuel (mkfileReader (offset + Z.of_nat n) fr) p' in Ok (take n p' ++ rest))) ->
    Q (match match FileReader_Read Get (env fuel) None fr offset p with
             | Ok (n, p, _) => (Ok (n, p), (Seek (mkfileReader offset fr) (Z.of_nat n) SeekCurrent).1) | Err e => (Err e, (Seek (mkfileReader offset fr) 0 SeekCurrent).1) | Panic => (Panic, mkfileReader offset fr) end with
       | (Ok (n, p), f) => let! rest := read_to_end env fuel f p in Ok (take n p ++ rest) | (Err EOF, _) => Ok [] | (Err (ReadError _ as e), _) => Err e | (Panic, _) => Panic end)).
  { intros (n & writes & Hn & Hend & -> & _) Q HQ. rewrite seek_ok by (cbn [f_offset f_reader fr_fileSize fr]; lia). cbn [seek_target f_offset f_reader]. rewrite (proj2 (Z.ltb_ge _ _)) by lia. cbn [fst]. apply HQ; [lia | | done|].
    - intros E. apply (f_equal length) in E. rewrite length_app, length_take, length_drop in E. cbn [length] in E. lia.
    - rewrite take_app_length'; [done|]. rewrite length_take, length_drop. lia. }
  assert (Hrest : forall n, take n (drop (Z.to_nat offset) content) ++ drop (Z.to_nat (offset + Z.of_nat n)) content = drop (Z.to_nat offset) content).
  { intros n. rewrite Z2Nat.inj_add, Nat2Z.id by lia. rewrite <- drop_drop. apply take_drop. }
  split.
  - destruct H1 as [[e ->]|H1]; [left; by exists e|]. apply (Hstep H1). intros n p' Hn Hp' Hend Ht. destruct (IH (offset + Z.of_nat n) p' ltac:(lia) Hp' ltac:(lia)) as [[[e ->]| ->] _]; [left; by exists e | right]. cbn [mbind outcome_bind]. by rewrite Ht, Hrest.
  - intros Hen. apply (Hstep (H2 (Hen fuel))). intros n p' Hn Hp' Hend Ht. destruct (IH (offset + Z.of_nat n) p' ltac:(lia) Hp' ltac:(lia)) as [_ H]. rewrite (H Hen). cbn [mbind outcome_bind]. by rewrite Ht, Hrest.
Qed.
End reading_on.

(** * The spans of a file, page by page *)

(** The answer of a shard for span [j]: some of the spans from it on, at least one
    if there are any, and the offset of the next one, or 0. *)
Definition page_of_spans (spans : list SpanWithBlockServices) (j : nat) (resp : LocalFileSpansResp) : Prop :=
  exists m, ((fun s => mkSpanWithBlockServices (fs_BlockServices resp) s) <$> fs_Spans resp) = take m (drop j spans) /\ (0 < m \/ spans = [])%nat /\ (j + m <= length spans)%nat /\
    fs_NextOffset resp = match spans !! (j + m)%nat with Some s => span_offset s | None => 0 end.

Definition serves (spans : list SpanWithBlockServices) (ShardRequest : Z -> outcome net_error LocalFileSpansResp) : Prop :=
  forall j, j = 0%nat \/ (j < length spans)%nat -> (exists e, ShardRequest (match spans !! j with Some s => span_offset s | None => 0 end) = Err e) \/
    exists resp, ShardRequest (match spans !! j with Some s => span_offset s | None => 0 end) = Ok resp /\ page_of_spans spans j resp.

Lemma fetch_spans_from spans ShardRequest : serves spans ShardRequest -> (forall j s, (0 < j)%nat -> spans !! j = Some s -> span_offset s <> 0) -> forall fuel j,
  (j = 0%nat \/ (j < length spans)%nat) -> (length spans - j < fuel)%nat ->
  let res := FetchSpans_from ShardRequest fuel (match spans !! j with Some s => span_offset s | None => 0 end) (take j spans) in
  ((exists e, res = Err e) \/ res = Ok spans) /\ ((forall z e, ShardRequest z <> Err e) -> res = Ok spans).
Proof.
  intros Hserves Hnz. induction fuel as [|fuel IH]; intros j Hj Hfuel; [lia|]. cbv zeta. cbn [FetchSpans_from]. destruct (Hserves j Hj) as [[e E]|(resp & -> & m & Hpage & Hm & Hend & Hnext)].
  { rewrite E. split; [left; by exists e | intros H; by destruct (H _ _ E)]. }
  cbn [mbind outcome_bind]. rewrite Hpage, take_take_drop, Hnext. destruct (spans !! (j + m)%nat) as [s|] eqn:Es.
  - pose proof (lookup_lt_Some _ _ _ Es) as Hlt. destruct Hm as [Hm|Hm]; [|rewrite Hm in Hlt; cbn [length] in Hlt; lia]. rewrite (proj2 (Z.eqb_neq _ _)) by (apply (Hnz (j + m)%nat); [lia | done]).
    specialize (IH (j + m)%nat ltac:(lia) ltac:(lia)). rewrite Es in IH. exact IH.
  - cbn [Z.eqb]. apply lookup_ge_None_1 in Es. rewrite take_ge by lia. split; [by right | done].
Qed.

Section fetched.
Context (l : list (SpanWithBlockServices * written)) (content : list byte) (Hfile : file_from 0 l content) (Hlen : Z.of_nat (length content) < 2 ^ 62).

Lemma later_offsets j s : (0 < j)%nat -> (fst <$> l) !! j = Some s -> span_offset s <> 0.
Proof.
  intros Hj Hs. rewrite list_lookup_fmap in Hs. destruct (l !! j) as [q|] eqn:Eq; [|done]. injection Hs as <-. destruct j as [|j]; [lia|]. destruct (lookup_lt_is_Some_2 l j) as [q0 Eq0]; [apply lookup_lt_Some in Eq; lia|].
  pose proof (span_at l content Hfile j q0 Eq0) as P. rewrite (pl_next _ _ _ _ _ P q Eq). pose proof (pl_size _ _ _ _ _ P). pose proof (pl_in _ _ _ _ _ P). lia.
Qed.

Lemma fetch_spans_ok ShardRequest fuel : serves (fst <$> l) ShardRequest -> (length l < fuel)%nat ->
  ((exists e, FetchSpans ShardRequest fuel = Err e) \/ FetchSpans ShardRequest fuel = Ok (fst <$> l)) /\ ((forall z e, ShardRequest z <> Err e) -> FetchSpans ShardRequest fuel = Ok (fst <$> l)).
Proof.
  intros Hs Hfuel. unfold FetchSpans. pose proof (fetch_spans_from (fst <$> l) ShardRequest Hs later_offsets fuel 0 ltac:(by left) ltac:(rewrite length_fmap; lia)) as H. cbv zeta in H. rewrite take_0 in H.
  replace (match (fst <$> l) !! 0%nat with Some s => span_offset s | None => 0 end) with 0 in H; [done|]. rewrite list_lookup_fmap. destruct (l !! 0%nat) as [q|] eqn:Eq; [|done]. symmetry. exact (pl_first _ _ _ _ _ (span_at l content Hfile 0%nat q Eq) eq_refl).
Qed.

End fetched.

(** The sizes of the spans add up to that of the file. *)
Lemma sizes_add_up base l content : file_from base l content -> forall z, foldl (fun size span => size + span_size span) z (fst <$> l) = z + Z.of_nat (length content).
Proof.
  induction 1 as [|base q l rest _ _ Hs Hq _ IH]; intros z; cbn [fmap list_fmap foldl]; [cbn [length]; lia|]. rewrite IH, length_app, (length_bytes_of q Hq) by lia. lia.
Qed.

Lemma file_size_ok base l content : file_from base l content -> forall z, 0 <= z -> z + Z.of_nat (length content) < 2 ^ 64 -> foldl (fun size span => wrap64 (size + span_size span)) z (fst <$> l) = z + Z.of_nat (length content).
Proof.
  induction 1 as [|base q l rest _ _ Hs Hq _ IH]; intros z Hz Hb; cbn [fmap list_fmap foldl]; [cbn [length]; lia|]. rewrite length_app, (length_bytes_of q Hq) in Hb |- * by lia. rewrite wrap64_small by lia. rewrite IH by lia. lia.
Qed.

(** * The whole file *)

Definition honest_whole (q : SpanWithBlockServices * written) (e : span_env) : Prop :=
  match q.2 with
  | WInline _ => True
  | WBlocks params data body => forall i, (i < rs_blocks_core (sp_Parity params))%nat -> Forall (genuine (block_pages params) (blocks_of params data !!! i)) (se_reply e i :: se_attempts e i)
  end.

Definition enough_whole (q : SpanWithBlockServices * written) (e : span_env) : Prop :=
  match q.2 with WInline _ => True | WBlocks params data body => enough_blocks params data q.1 body (se_attempts e) (se_starts e) (se_reply e) end.

Section whole.
Context (Get : nat -> list byte) (HGet : forall l, length (Get l) = l) (env : SpanWithBlockServices -> span_env).

Lemma fetch_one_ok q : holds q -> honest_whole q (env q.1) ->
  (fetch_span_of Get env q.1 = Err OtherError \/ fetch_span_of Get env q.1 = Ok (bytes_of q)) /\ (enough_whole q (env q.1) -> fetch_span_of Get env q.1 = Ok (bytes_of q)).
Proof.
  unfold holds, honest_whole, enough_whole, bytes_of, fetch_span_of. destruct q as [span [b|params data body]]; cbn [fst snd].
  - intros (Hc & Hb & _ & Hcrc) _. unfold FetchSpan. rewrite Hc, Hb, Z.eqb_refl. unfold fetchInlineSpan. cbn [FetchedInlineSpan_Body]. rewrite Hcrc, Z.eqb_refl. split; [by right | done].
  - intros (Hsz & Hso & _) Hgen. exact (fetch_span_ok Get HGet params data (span_size span) Hsz span body Hso (se_attempts (env span)) (se_starts (env span)) (se_reply (env span)) (se_pick (env span)) Hgen).
Qed.

(** The goroutines leave the bytes of their spans, or nothing. *)
Lemma fetch_all_ok base l content : file_from base l content -> (forall q, q ∈ l -> honest_whole q (env q.1)) ->
  exists bufs, fetch_all Get env (fst <$> l) = Ok bufs /\ Forall2 (fun q buf => buf = None \/ buf = Some (bytes_of q)) l bufs /\ ((forall q, q ∈ l -> enough_whole q (env q.1)) -> Forall2 (fun q buf => buf = Some (bytes_of q)) l bufs).
Proof.
  induction 1 as [|base q l rest _ _ _ Hq _ IH]; intros Hh; [exists []; split_and!; [done | constructor | constructor]|]. destruct IH as (bufs & E & H1 & H2); [intros q' Hq'; apply Hh; by right|].
  cbn [fmap list_fmap fetch_all]. rewrite E. destruct (fetch_one_ok q Hq (Hh q ltac:(left))) as [[Ef|Ef] Hall]; rewrite Ef; cbn [mbind outcome_bind].
  - exists (None :: bufs). split_and!; [done | constructor; [by left | done]|]. intros Hen. specialize (Hall (Hen q ltac:(left))). congruence.
  - exists (Some (bytes_of q) :: bufs). split_and!; [done | constructor; [by right | done]|]. intros Hen. constructor; [done | apply H2; intros q' Hq'; apply Hen; by right].
Qed.

Lemma copy_span_ok q buf : 0 <= span_offset q.1 -> holds q -> 0 <= span_size q.1 -> (Z.to_nat (span_offset q.1 + span_size q.1) <= length buf)%nat ->
  copy_span buf (q.1, Some (bytes_of q)) = Ok (overwrite buf (Z.to_nat (span_offset q.1)) (bytes_of q)).
Proof.
  intros Ho Hq Hs Hb. unfold copy_span. cbn [fst snd]. pose proof (length_bytes_of q Hq Hs) as Hl. rewrite Hl, Z2Nat.id, Z.eqb_refl by done. cbn [negb]. rewrite sub_ok by lia. cbn [mbind outcome_bind]. rewrite (take_ge (bytes_of q)); [done|]. rewrite length_take, length_drop. lia.
Qed.

Lemma copy_all_ok base l content : 0 <= base -> file_from base l content -> forall bufs (done_ buf : list byte), Z.of_nat (length done_) = base -> length buf = length content ->
  Forall2 (fun q b => b = None \/ b = Some (bytes_of q)) l bufs ->
  let res := foldM_outcome copy_span (done_ ++ buf) (zip (fst <$> l) bufs) in
  (res = Err OtherError \/ res = Ok (done_ ++ content)) /\ (Forall2 (fun q b => b = Some (bytes_of q)) l bufs -> res = Ok (done_ ++ content)).
Proof.
  intros H0 Hf. revert H0. induction Hf as [|base q l rest Ho _ Hs Hq _ IH]; intros H0 bufs done_ buf Hd Hb Hbufs; cbv zeta.
  { destruct buf; [|done]. cbn [fmap list_fmap zip zip_with foldM_outcome]. split; [by right | done]. }
  inversion Hbufs as [|q' b l' bufs' Hqb Hrest]; subst. clear Hbufs. cbn [fmap list_fmap zip zip_with foldM_outcome]. pose proof (length_bytes_of q Hq ltac:(lia)) as Hl. rewrite length_app in Hb. destruct Hqb as [->| ->].
  { split; [by left|]. intros Hall. inversion Hall as [|? ? ? ? Hbad]. done. }
  rewrite copy_span_ok by (done || lia || (rewrite length_app; lia)). cbn [mbind outcome_bind].
  assert (overwrite (done_ ++ buf) (Z.to_nat (span_offset q.1)) (bytes_of q) = (done_ ++ bytes_of q) ++ drop (length (bytes_of q)) buf) as ->.
  { unfold overwrite. replace (Z.to_nat (span_offset q.1)) with (length done_) by lia. rewrite take_app_length, drop_app_add. by rewrite app_assoc. }
  destruct (IH ltac:(lia) bufs' (done_ ++ bytes_of q) (drop (length (bytes_of q)) buf)) as [R1 R2]; [rewrite length_app; lia | rewrite length_drop; lia | done|]. rewrite <- (app_assoc done_ (bytes_of q) rest) in R1, R2. split; [done|].
  intros Hall. inversion Hall. by apply R2.
Qed.

Lemma fetch_file_ok l content ShardRequest fuel : file_from 0 l content -> serves (fst <$> l) ShardRequest -> (length l < fuel)%nat -> (forall q, q ∈ l -> honest_whole q (env q.1)) ->
  let res := FetchFile Get ShardRequest fuel env in
  ((exists e, res = Err e) \/ res = Ok content) /\ ((forall z e, ShardRequest z <> Err e) -> (forall q, q ∈ l -> enough_whole q (env q.1)) -> res = Ok content).
Proof.
  intros Hf Hs Hfuel Hh. cbv zeta. unfold FetchFile. destruct (fetch_spans_ok l content Hf ShardRequest fuel Hs Hfuel) as [[[e E]|E] Hnoerr]; rewrite E; cbn [mbind outcome_bind].
  { split; [left; by exists e|]. intros Hno _. specialize (Hnoerr Hno). congruence. }
  destruct (fetch_all_ok 0 l content Hf Hh) as (bufs & -> & H1 & H2). cbn [mbind outcome_bind]. rewrite (sizes_add_up 0 l content Hf), Z.add_0_l, Nat2Z.id.
  destruct (copy_all_ok 0 l content ltac:(lia) Hf bufs [] (Get (length content)) ltac:(done) (HGet _) H1) as [R1 R2]. cbn [app] in R1, R2. split; [destruct R1 as [->| ->]; [left; by eexists | by right]|]. intros _ Hen. apply R2, H2, Hen.
Qed.
End whole.

(** * Claims *)

(** C7: reading at an offset gives the bytes of the file. A reader opened on a
    file, whose spans the shard gives out in pages of any size, reads at or past
    the end nothing but the end of the file, and before the end some of the bytes
    at the offset - inline, from a mirror, or from coded blocks - in front of the
    rest of the destination, or an error; it never panics, and it reads them
    whenever enough blocks of every span can be had. *)
Theorem file_read_at (Get : nat -> list byte) (l : list (SpanWithBlockServices * written)) (content : list byte) (ShardRequest : Z -> outcome net_error LocalFileSpansResp) (fuel : nat)
    (env : SpanWithBlockServices -> fetch_env) (cache : option (Z -> nat -> list byte)) (offset : Z) (dest : list byte) :
  (forall l, length (Get l) = l) -> file_from 0 l content -> Z.of_nat (length content) < 2 ^ 62 -> serves (fst <$> l) ShardRequest -> (length l < fuel)%nat ->
  honest_env l env -> truthful_file content cache -> 0 <= offset ->
  (exists e, NewFileReader ShardRequest fuel = Err e) \/
  exists fr, NewFileReader ShardRequest fuel = Ok fr /\
    let res := FileReader_Read Get env cache fr offset dest in
    if Z.of_nat (length content) <=? offset then res = Err EOF
    else if (length dest =? 0)%nat then res = Ok (0%nat, dest, [])
    else ((exists e, res = Err (ReadError e)) \/ bytes_read content offset dest res) /\ (enough_env l env -> bytes_read content offset dest res).
Proof.
  intros HGet Hf Hlen Hs Hfuel Henv Hcache Ho. unfold NewFileReader. destruct (fetch_spans_ok l content Hf ShardRequest fuel Hs Hfuel) as [[[e ->]| ->] _]; [left; by exists e | right]. cbn [mbind outcome_bind].
  rewrite (file_size_ok 0 l content Hf 0) by lia. eexists. split; [done|]. rewrite Z.add_0_l. destruct (reader_read_ok Get HGet l content Hf Hlen env cache offset dest Henv Hcache Ho) as (H1 & H2 & H3). cbv zeta in *.
  destruct (Z.leb_spec (Z.of_nat (length content)) offset); [by apply H1|]. destruct (Nat.eqb_spec (length dest) 0) as [E|E]; [apply H2; [done | by apply nil_length_inv] | apply H3; [done|]]. by intros ->.
Qed.

(** C8: a file is read to its end. Seeking moves a reader to the offset it is told
    or, when that is negative, leaves it where it was; and reading from there
    into one buffer, with any number of bytes at a time, until the end of the
    file gives all bytes from the offset on - or an error of the network, and
    none when enough blocks can be had at every step - after at most one more
    read than there are bytes. *)
Theorem file_read_to_end (Get : nat -> list byte) (l : list (SpanWithBlockServices * written)) (content : list byte) (env : nat -> SpanWithBlockServices -> fetch_env) (fuel : nat)
    (f : fileReader) (offset : Z) (w : whence) (p : list byte) :
  (forall l, length (Get l) = l) -> file_from 0 l content -> Z.of_nat (length content) < 2 ^ 61 -> (forall k, honest_env l (env k)) -> (length content < fuel)%nat -> p <> [] ->
  f_reader f = mkFileReader (Z.of_nat (length content)) (fst <$> l) -> 0 <= f_offset f < 2 ^ 61 -> - 2 ^ 61 <= offset < 2 ^ 61 ->
  match seek_target f offset w with
  | Some t =>
      if t <? 0 then Seek f offset w = (f, None)
      else (Seek f offset w).2 = Some t /\
        let res := read_to_end Get env fuel (Seek f offset w).1 p in
        ((exists e, res = Err (ReadError e)) \/ res = Ok (drop (Z.to_nat t) content)) /\ ((forall k, enough_env l (env k)) -> res = Ok (drop (Z.to_nat t) content))
  | None => Seek f offset w = (f, None)
  end.
Proof.
  intros HGet Hf Hlen Henv Hfuel Hp Hr Ho Hoff. rewrite seek_ok by (rewrite ?Hr; cbn [fr_fileSize]; lia). destruct (seek_target f offset w) as [t|] eqn:Et; [|done]. destruct (Z.ltb_spec t 0) as [|Ht]; [done|]. split; [done|]. cbn [fst].
  assert (Hb : t < 2 ^ 62) by (unfold seek_target in Et; rewrite Hr in Et; destruct w; cbn [fr_fileSize] in Et; (done || (injection Et as <-; lia))). rewrite Hr. apply (read_to_end_ok Get HGet l content Hf ltac:(lia) env Henv); [lia | done | lia].
Qed.

(** C9: the whole file at once is the file. However the shard cuts its spans into
    pages and whatever the buffers hold, FetchFile gives exactly the bytes that
    were written or an error, without panicking; and it gives the bytes when the
    shard answers and enough blocks of every span can be had. *)
Theorem file_fetch_back (Get : nat -> list byte) (l : list (SpanWithBlockServices * written)) (content : list byte) (ShardRequest : Z -> outcome net_error LocalFileSpansResp) (fuel : nat) (env : SpanWithBlockServices -> span_env) :
  (forall l, length (Get l) = l) -> file_from 0 l content -> serves (fst <$> l) ShardRequest -> (length l < fuel)%nat -> (forall q, q ∈ l -> honest_whole q (env q.1)) ->
  let res := FetchFile Get ShardRequest fuel env in
  ((exists e, res = Err e) \/ res = Ok content) /\ ((forall z e, ShardRequest z <> Err e) -> (forall q, q ∈ l -> enough_whole q (env q.1)) -> res = Ok content).
Proof. intros HGet Hf Hs Hfuel Hh. by apply (fetch_file_ok Get HGet env l content). Qed.

(** A file of the coded span of SpanFetch. *)
Definition example_file : list (SpanWithBlockServices * written) := [(example_span, WBlocks example_params example_data example_body)].
Definition example_request (_ : Z) : outcome net_error LocalFileSpansResp := Ok (mkLocalFileSpansResp 0 (sw_BlockServices example_span) [sw_Span example_span]).
Definition example_env (_ : SpanWithBlockServices) : fetch_env := mkFetchEnv (fun _ _ _ => []) (fun _ _ => true) example_reply (fun _ => 0%nat) (fun _ => 0%nat).
Definition example_whole (_ : SpanWithBlockServices) : span_env := mkSpanEnv (fun _ => []) (fun _ => true) (fun i => block_reply (block_pages example_params) (blocks_of example_params example_data !!! i)) (fun _ => 0%nat).

Lemma example_is_file : file_from 0 example_file (span_bytes example_data 7).
Proof.
  rewrite <- (app_nil_r (span_bytes example_data 7)). apply (file_span 0 (example_span, WBlocks example_params example_data example_body) [] []); [done | by exists 0 | by vm_compute | | constructor].
  split_and!; [exact example_sized | exact example_described | by vm_compute].
Qed.

Lemma example_serves : serves (fst <$> example_file) example_request.
Proof.
  intros j Hj. right. eexists. split; [done|]. assert (j = 0%nat) as -> by (destruct Hj as [|Hj]; [done | cbn [fmap list_fmap example_file length] in Hj; lia]). exists 1%nat. split_and!; [done | left; lia | cbn; lia | done].
Qed.

Lemma example_honest : honest_env example_file example_env.
Proof. intros q [->|Hq]%elem_of_cons; [|by apply elem_of_nil in Hq]. split; [exact example_replies | done]. Qed.

Lemma example_readable : enough_env example_file example_env.
Proof.
  intros q [->|Hq]%elem_of_cons; [|by apply elem_of_nil in Hq]. exists [0%nat; 2%nat]. split_and!; [by apply (bool_decide_unpack _) | exact (le_n 2)|].
  intros i [->|[->|Hi]%elem_of_cons]%elem_of_cons; [| |by apply elem_of_nil in Hi]; (split; [vm_compute; lia | by apply example_had]).
Qed.

Lemma example_whole_honest q : q ∈ example_file -> honest_whole q (example_whole q.1).
Proof.
  intros [->|Hq]%elem_of_cons; [|by apply elem_of_nil in Hq]. intros i Hi. constructor; [|constructor]. apply block_reply_genuine. exact (block_written example_params example_data 7 example_sized i Hi).
Qed.

Lemma example_whole_readable q : q ∈ example_file -> enough_whole q (example_whole q.1).
Proof.
  intros [->|Hq]%elem_of_cons; [|by apply elem_of_nil in Hq]. exists [0%nat; 2%nat]. split; [by apply (bool_decide_unpack _)|]. split; [exact (le_n 2)|].
  repeat constructor; try (simpl; lia); try (eexists _, _; split_and!; reflexivity); apply block_reply_delivered.
Qed.

Lemma file_read_at_witness : exists fr, NewFileReader example_request 2 = Ok fr /\
  bytes_read (span_bytes example_data 7) 2 (replicate 3 zero_byte) (FileReader_Read (fun k => replicate k zero_byte) example_env None fr 2 (replicate 3 zero_byte)).
Proof.
  destruct (file_read_at (fun k => replicate k zero_byte) example_file (span_bytes example_data 7) example_request 2 example_env None 2 (replicate 3 zero_byte)) as [[e H]|(fr & H & Hres)];
    [intros; apply length_replicate | exact example_is_file | by vm_compute | exact example_serves | cbn; lia | exact example_honest | done | done | done |].
  destruct Hres as [_ Hres]. exists fr. split; [exact H | exact (Hres example_readable)].
Defined.

(** Three bytes from the end, two at a time. *)
Lemma file_read_to_end_witness :
  let f := mkfileReader 0 (mkFileReader 7 [example_span]) in
  read_to_end (fun k => replicate k zero_byte) (fun _ => example_env) 8 (Seek f (-3) SeekEnd).1 (replicate 2 zero_byte) = Ok (byte_of <$> [111; 0; 0]).
Proof.
  pose proof (file_read_to_end (fun k => replicate k zero_byte) example_file (span_bytes example_data 7) (fun _ => example_env) 8 (mkfileReader 0 (mkFileReader 7 [example_span])) (-3) SeekEnd (replicate 2 zero_byte)) as H.
  destruct H as (_ & _ & H); [intros; apply length_replicate | exact example_is_file | by vm_compute | intros; exact example_honest | vm_compute; lia | done | done | done | done |]. exact (H (fun _ => example_readable)).
Defined.

Lemma file_fetch_back_witness : FetchFile (fun k => replicate k zero_byte) example_request 2 example_whole = Ok (span_bytes example_data 7).
Proof.
  destruct (file_fetch_back (fun k => replicate k zero_byte) example_file (span_bytes example_data 7) example_request 2 example_whole) as [_ H];
    [intros; apply length_replicate | exact example_is_file | exact example_serves | cbn; lia | exact example_whole_honest |]. apply H; [done | exact example_whole_readable].
Defined.
