(* ===== verification/SessionFile.v ===== *)
(** Session files: src/go/nfsd/internal/sessionstore/store.go.

    A session's file holds, for each slot, the record of its last request in
    one of two areas that are written in turn, so that a write interrupted by
    the death of the process leaves the previous record readable. The file is
    its byte string; a write that fails leaves an arbitrary image in the bytes
    it was to replace; reads succeed. The checksum is the CRC-32C of Go's
    hash/crc32, computed bit by bit. Offsets are natural numbers: the sizes a
    server configures are far from the bounds of an [int64]. *)

From Stdlib Require Import ZArith Lia.
From stdpp Require Import base numbers option list.
From S2P Require Import Prelude Crc32c.

(** * The checksum *)

(** [crc32.Checksum(bs, crc32.MakeTable(crc32.Castagnoli))]. *)
Definition Checksum (bs : list byte) : Z := crc_of 0 bs.

(** * The format *)

Definition headerAreaSize : nat := Z.to_nat 4096.
Definition headerFixedSize : nat := 4 + 2 + 4 + 4 + 4.
Definition MaxSessionRecord : nat := headerAreaSize - headerFixedSize - 4.
Definition recordFixedSize : nat := 4 + 4 + 1 + 1 + 2 + 32 + 4.
Definition RecordOverhead : nat := recordFixedSize + 4.
Definition formatVersion : Z := 5.
Definition fileMagic : list byte := [Byte.x4e; Byte.x46; Byte.x53; Byte.x53].
Definition recordMagic : list byte := [Byte.x4e; Byte.x46; Byte.x53; Byte.x52].

Inductive session_error := ErrTooLarge | ErrBadSlot | ErrCorrupt | ErrLayout | ErrFile.

Record Header := mkHeader {
  h_SlotCount : Z; (* uint32 *)
  h_AreaSize : Z; (* uint32 *)
  h_Session : list byte;
}.

Definition KindSlot : Z := 1.
Definition KindIntent : Z := 2.

Record SlotRecord := mkSlotRecord {
  r_Seq : Z; (* uint32 *)
  r_Kind : Z; (* uint8 *)
  r_CacheThis : bool;
  r_Digest : list byte; (* 32 bytes *)
  r_User : list byte;
  r_Payload : list byte;
}.

(** [Some (record, area)] is a slot that is present. *)
Abbreviation slotState := (option (SlotRecord * nat)).

Record File := mkFile {
  file_header : Header;
  file_data : list byte; (* the content on disk *)
  file_slots : list slotState;
}.

Definition SeqAfter (a b : Z) : bool := 0 <? to_signed 32 (a - b).

Definition newer (a b : SlotRecord) : bool :=
  SeqAfter (r_Seq a) (r_Seq b) ||
  (r_Seq a =? r_Seq b) && (r_Kind a =? KindSlot) && (r_Kind b =? KindIntent).

Definition size (h : Header) : nat :=
  headerAreaSize + Z.to_nat (h_SlotCount h) * 2 * Z.to_nat (h_AreaSize h).

Definition areaOffset (h : Header) (slot area : nat) : nat :=
  headerAreaSize + (slot * 2 + area) * Z.to_nat (h_AreaSize h).

(** * Encoding and decoding *)

Definition with_checksum (body : list byte) : list byte := body ++ be_bytes 4 (Checksum body).

(** The buffer [writeHeader] writes. *)
Definition encode_header (h : Header) : list byte :=
  with_checksum
    (fileMagic ++ be_bytes 2 formatVersion ++ be_bytes 4 (h_SlotCount h) ++ be_bytes 4 (h_AreaSize h) ++
     be_bytes 4 (Z.of_nat (length (h_Session h))) ++ h_Session h).

(** The buffer [Write] writes. *)
Definition encode_record (rec : SlotRecord) : list byte :=
  with_checksum
    (recordMagic ++ be_bytes 4 (r_Seq rec) ++ [byte_of (r_Kind rec)] ++ [byte_of (if r_CacheThis rec then 1 else 0)] ++
     be_bytes 2 (Z.of_nat (length (r_User rec))) ++ r_Digest rec ++
     be_bytes 4 (Z.of_nat (length (r_Payload rec))) ++ r_User rec ++ r_Payload rec).

Definition readHeader (data : list byte) : outcome session_error Header :=
  let buf := f_truncate data headerAreaSize in
  let n := min (length data) headerAreaSize in
  let! magic := sub buf 0 4 in
  if bool_decide (n < headerFixedSize + 4)%nat || negb (bool_decide (magic = fileMagic)) then Err ErrCorrupt
  else
    let! v := be_at 2 buf 4 in
    if negb (v =? formatVersion) then Err ErrCorrupt
    else
      let! slotCount := be_at 4 buf 6 in
      let! areaSize := be_at 4 buf 10 in
      let! sessionLen := be_at 4 buf 14 in
      if (Z.of_nat MaxSessionRecord <? sessionLen) || (Z.of_nat n <? Z.of_nat headerFixedSize + sessionLen + 4) then Err ErrCorrupt
      else
        let off := (headerFixedSize + Z.to_nat sessionLen)%nat in
        let! body := sub buf 0 off in
        let! crc := be_at 4 buf off in
        if negb (Checksum body =? crc) then Err ErrCorrupt
        else if (slotCount =? 0) || (areaSize <? Z.of_nat RecordOverhead) then Err ErrCorrupt
        else
          let! session := sub buf headerFixedSize off in
          Ok (mkHeader slotCount areaSize session).

(** [None] is an area that holds no valid record; the accesses to the buffer
    are in range. *)
Definition decode_record (buf : list byte) (userLen : nat) : outcome session_error SlotRecord :=
  let! seq := be_at 4 buf 4 in
  let! kind := index buf 8 in
  let! flags := index buf 9 in
  let! digest := sub buf 12 44 in
  let! user := sub buf recordFixedSize (recordFixedSize + userLen) in
  let! payload := sub buf (recordFixedSize + userLen) (length buf - 4) in
  Ok (mkSlotRecord seq (byte_val kind) (negb (Z.land (byte_val flags) 1 =? 0)) digest user payload).

Definition readArea (h : Header) (data : list byte) (slot area : nat) : outcome session_error (option SlotRecord) :=
  let off := areaOffset h slot area in
  let fixed := f_read data off recordFixedSize in
  if negb (length fixed =? recordFixedSize)%nat then Ok None
  else
    let! magic := sub fixed 0 4 in
    if negb (bool_decide (magic = recordMagic)) then Ok None
    else
      let! userLen := be_at 2 fixed 10 in
      let! payloadLen := be_at 4 fixed 44 in
      let total := Z.of_nat RecordOverhead + userLen + payloadLen in
      if h_AreaSize h <? total then Ok None
      else
        let rest := f_read data (off + recordFixedSize) (Z.to_nat total - recordFixedSize) in
        if negb (length rest =? Z.to_nat total - recordFixedSize)%nat then Ok None
        else
          let buf := fixed ++ rest in
          let body := (Z.to_nat total - 4)%nat in
          let! bs := sub buf 0 body in
          let! crc := be_at 4 buf body in
          if negb (Checksum bs =? crc) then Ok None
          else
            let! rec := decode_record buf (Z.to_nat userLen) in
            Ok (Some rec).

(** * Operations *)

(** What the operating system did with a write. *)
Inductive write_result :=
| Written
| WriteFailed (image : list byte) (* the bytes now in the place of the buffer *).

(** [Store.Create], on a path with no file: the writes it makes succeed or the
    file is removed again. *)
Definition Create (h : Header) (ok : bool) : outcome session_error File :=
  if (h_SlotCount h =? 0) || (h_AreaSize h <? Z.of_nat RecordOverhead) then Err ErrLayout
  else if (MaxSessionRecord <? length (h_Session h))%nat then Err ErrLayout
  else if ok then
    Ok (mkFile h (f_truncate (f_write [] 0 (encode_header h)) (size h)) (replicate (Z.to_nat (h_SlotCount h)) None))
  else Err ErrFile.

(** The loop of [open] on the two areas of one slot. *)
Definition open_slot (h : Header) (data : list byte) (slot : nat) : outcome session_error slotState :=
  let scan (st : slotState) (area : nat) :=
    let! rec := readArea h data slot area in
    Ok match rec, st with
       | None, _ => st
       | Some rec, None => Some (rec, area)
       | Some rec, Some (newest, _) => if newer rec newest then Some (rec, area) else st
       end in
  let! st := scan None 0%nat in
  scan st 1%nat.

Fixpoint open_slots (h : Header) (data : list byte) (slots : list nat) : outcome session_error (list slotState) :=
  match slots with
  | [] => Ok []
  | slot :: slots =>
    let! st := open_slot h data slot in
    let! rest := open_slots h data slots in
    Ok (st :: rest)
  end.

(** [Store.open] on the content of an existing file. *)
Definition open (data : list byte) : outcome session_error File :=
  let! h := readHeader data in
  let! slots := open_slots h data (seq 0 (Z.to_nat (h_SlotCount h))) in
  Ok (mkFile h data slots).

(** [File.Slot]. *)
Definition Slot (f : File) (slot : nat) : option SlotRecord :=
  match file_slots f !! slot with
  | Some (Some (rec, _)) => Some rec
  | _ => None
  end.

(** The area [Write] writes to. *)
Definition target_area (st : slotState) : nat :=
  match st with
  | Some (_, area) => 1 - area
  | None => 0
  end.

(** [File.Write]. *)
Definition Write (f : File) (slot : nat) (rec : SlotRecord) (w : write_result) : File * outcome session_error unit :=
  let h := file_header f in
  if h_SlotCount h <=? Z.of_nat slot then (f, Err ErrBadSlot)
  else if (h_AreaSize h <? Z.of_nat (RecordOverhead + length (r_User rec) + length (r_Payload rec))) ||
          (65535 <? Z.of_nat (length (r_User rec))) then (f, Err ErrTooLarge)
  else
    match file_slots f !! slot with
    | None => (f, Panic)
    | Some newest =>
      let off := areaOffset h slot (target_area newest) in
      match w with
      | Written =>
        (mkFile h (f_write (file_data f) off (encode_record rec))
           (<[slot := Some (rec, target_area newest)]> (file_slots f)), Ok tt)
      | WriteFailed image => (mkFile h (f_write (file_data f) off image) (file_slots f), Err ErrFile)
      end
    end.

(** * The checksum is a 32-bit word *)

Lemma Checksum_u32 (bs : list byte) : is_u32 (Checksum bs).
Proof. by apply crc_of_u32. Qed.

(** The check value of the CRC-32C. *)
Lemma Checksum_check_value :
  Checksum [Byte.x31; Byte.x32; Byte.x33; Byte.x34; Byte.x35; Byte.x36; Byte.x37; Byte.x38; Byte.x39] = 0xE3069283.
Proof. vm_compute. reflexivity. Qed.

(** * Pieces of a buffer *)

Lemma sub_mid {E A} (data pre mid post : list A) (a b : nat) : data = pre ++ mid ++ post ->
  length pre = a -> (a + length mid = b)%nat -> @sub E A data a b = Ok mid.
Proof.
  intros -> <- <-. unfold sub. rewrite decide_True by (rewrite !length_app; lia).
  rewrite drop_app_length. replace (length pre + length mid - length pre)%nat with (length mid) by lia.
  by rewrite take_app_length.
Qed.

Lemma be_mid {E} (n : nat) (data pre post : list byte) (a : nat) (v : Z) : data = pre ++ be_bytes n v ++ post ->
  length pre = a -> 0 <= v < 256 ^ Z.of_nat n -> @be_at E n data a = Ok v.
Proof.
  intros Hd Ha Hv. unfold be_at. rewrite (sub_mid data pre (be_bytes n v) post) by (rewrite ?length_be_bytes; done).
  simpl. by rewrite be_val_be_bytes, Z.mod_small.
Qed.

Lemma index_mid {E A} (data pre post : list A) (a : nat) (x : A) : data = pre ++ [x] ++ post ->
  length pre = a -> @index E A data a = Ok x.
Proof. intros -> <-. unfold index. change ([x] ++ post) with (x :: post). by rewrite list_lookup_middle. Qed.

Ltac regroup := rewrite <- ?app_assoc; reflexivity.
Ltac piece :=
  first [regroup | reflexivity | simpl; unfold RecordOverhead, formatVersion, is_u32, is_u8 in *; lia].

(** * Decoding what was encoded *)

Record header_ok (h : Header) : Prop := {
  hok_slots : 0 < h_SlotCount h < 2 ^ 32;
  hok_area : Z.of_nat RecordOverhead <= h_AreaSize h < 2 ^ 32;
  hok_session : (length (h_Session h) <= MaxSessionRecord)%nat;
}.

Record record_ok (h : Header) (rec : SlotRecord) : Prop := {
  rok_seq : is_u32 (r_Seq rec);
  rok_kind : is_u8 (r_Kind rec);
  rok_digest : length (r_Digest rec) = 32%nat;
  rok_user : Z.of_nat (length (r_User rec)) <= 65535;
  rok_fits : Z.of_nat (RecordOverhead + length (r_User rec) + length (r_Payload rec)) <= h_AreaSize h;
}.

Lemma length_encode_header (h : Header) : length (encode_header h) = (headerFixedSize + length (h_Session h) + 4)%nat.
Proof. unfold encode_header, with_checksum. rewrite !length_app, !length_be_bytes. simpl. lia. Qed.

Lemma length_encode_record (rec : SlotRecord) : length (r_Digest rec) = 32%nat ->
  length (encode_record rec) = (RecordOverhead + length (r_User rec) + length (r_Payload rec))%nat.
Proof. intros Hd. unfold encode_record, with_checksum. rewrite !length_app, !length_be_bytes, Hd. simpl. lia. Qed.

Lemma f_truncate_prefix (bs rest : list byte) (n : nat) : (length bs <= n)%nat ->
  exists rest', f_truncate (bs ++ rest) n = bs ++ rest' /\ length rest' = (n - length bs)%nat.
Proof.
  intros Hn. exists (f_truncate rest (n - length bs)). split; [|apply length_f_truncate].
  unfold f_truncate. by rewrite resize_app_ge.
Qed.

Lemma readHeader_encode (h : Header) (data rest : list byte) : header_ok h ->
  data = encode_header h ++ rest -> readHeader data = Ok h.
Proof.
  intros [Hs Ha Hn] ->. pose proof (length_encode_header h) as Hlen. unfold readHeader.
  assert (Hfit : (length (encode_header h) <= headerAreaSize)%nat).
  { rewrite Hlen. unfold MaxSessionRecord, headerAreaSize, headerFixedSize in *. lia. }
  destruct (f_truncate_prefix (encode_header h) rest headerAreaSize Hfit) as (rest' & -> & _).
  rewrite length_app, Hlen. set (n := min _ _).
  assert (Hnn : (headerFixedSize + length (h_Session h) + 4 <= n)%nat).
  { unfold n, MaxSessionRecord, headerAreaSize, headerFixedSize in *. lia. }
  unfold encode_header, with_checksum. set (crc := be_bytes 4 (Checksum _)).
  set (sc := be_bytes 4 (h_SlotCount h)). set (ar := be_bytes 4 (h_AreaSize h)).
  set (sl := be_bytes 4 (Z.of_nat _)). set (ver := be_bytes 2 _). set (ses := h_Session h) in *.
  assert (Hfixed : length (fileMagic ++ ver ++ sc ++ ar ++ sl) = headerFixedSize) by reflexivity.
  assert (Hbody : length (fileMagic ++ ver ++ sc ++ ar ++ sl ++ ses) = (headerFixedSize + length ses)%nat).
  { rewrite <- Hfixed, <- length_app. reflexivity. }
  assert (Hmax : Z.of_nat (length ses) <= Z.of_nat MaxSessionRecord < 256 ^ Z.of_nat 4) by (split; [lia | reflexivity]).
  rewrite (sub_mid _ [] fileMagic (ver ++ sc ++ ar ++ sl ++ ses ++ crc ++ rest')) by piece.
  cbn [mbind outcome_bind]. rewrite bool_decide_eq_false_2 by lia. rewrite bool_decide_eq_true_2 by done. cbn [orb negb].
  rewrite (be_mid 2 _ fileMagic (sc ++ ar ++ sl ++ ses ++ crc ++ rest') 4 formatVersion) by piece.
  cbn [mbind outcome_bind]. rewrite Z.eqb_refl. cbn [negb].
  rewrite (be_mid 4 _ (fileMagic ++ ver) (ar ++ sl ++ ses ++ crc ++ rest') 6 (h_SlotCount h)) by piece.
  rewrite (be_mid 4 _ (fileMagic ++ ver ++ sc) (sl ++ ses ++ crc ++ rest') 10 (h_AreaSize h)) by piece.
  rewrite (be_mid 4 _ (fileMagic ++ ver ++ sc ++ ar) (ses ++ crc ++ rest') 14 (Z.of_nat (length ses))) by piece.
  cbn [mbind outcome_bind]. rewrite Nat2Z.id.
  rewrite (proj2 (Z.ltb_ge _ _)) by lia. rewrite (proj2 (Z.ltb_ge _ _)) by lia. cbn [orb].
  rewrite (sub_mid _ [] (fileMagic ++ ver ++ sc ++ ar ++ sl ++ ses) (crc ++ rest') 0 (headerFixedSize + length ses)) by (first [exact Hbody | piece]).
  rewrite (be_mid 4 _ (fileMagic ++ ver ++ sc ++ ar ++ sl ++ ses) rest' _ (Checksum (fileMagic ++ ver ++ sc ++ ar ++ sl ++ ses)))
    by (first [exact Hbody | apply Checksum_u32 | piece]).
  cbn [mbind outcome_bind]. rewrite Z.eqb_refl. cbn [negb].
  destruct (Z.eqb_spec (h_SlotCount h) 0); [lia|]. rewrite (proj2 (Z.ltb_ge _ _)) by lia. cbn [orb].
  rewrite (sub_mid _ (fileMagic ++ ver ++ sc ++ ar ++ sl) ses (crc ++ rest')) by (first [regroup | reflexivity]).
  cbn [mbind outcome_bind]. by destruct h.
Qed.

(** The fields of a record before its user and payload. *)
Definition record_fixed (rec : SlotRecord) : list byte :=
  recordMagic ++ be_bytes 4 (r_Seq rec) ++ [byte_of (r_Kind rec)] ++ [byte_of (if r_CacheThis rec then 1 else 0)] ++
  be_bytes 2 (Z.of_nat (length (r_User rec))) ++ r_Digest rec ++ be_bytes 4 (Z.of_nat (length (r_Payload rec))).

Lemma encode_record_split (rec : SlotRecord) :
  encode_record rec = record_fixed rec ++ r_User rec ++ r_Payload rec ++
    be_bytes 4 (Checksum (record_fixed rec ++ r_User rec ++ r_Payload rec)).
Proof. unfold encode_record, with_checksum, record_fixed. rewrite <- !app_assoc. reflexivity. Qed.

Lemma length_record_fixed (rec : SlotRecord) : length (r_Digest rec) = 32%nat -> length (record_fixed rec) = recordFixedSize.
Proof. intros Hd. unfold record_fixed. rewrite !length_app, Hd. reflexivity. Qed.

Lemma record_fixed_lengths (rec : SlotRecord) : length (r_Digest rec) = 32%nat ->
  Z.of_nat (length (r_User rec)) < 2 ^ 16 -> Z.of_nat (length (r_Payload rec)) < 2 ^ 32 ->
  @sub session_error _ (record_fixed rec) 0 4 = Ok recordMagic /\
  @be_at session_error 2 (record_fixed rec) 10 = Ok (Z.of_nat (length (r_User rec))) /\
  @be_at session_error 4 (record_fixed rec) 44 = Ok (Z.of_nat (length (r_Payload rec))).
Proof.
  intros Hd Hu Hp. unfold record_fixed. set (sq := be_bytes 4 (r_Seq rec)). set (k := byte_of (r_Kind rec)).
  set (c := byte_of _). set (ul := be_bytes 2 _). set (pl := be_bytes 4 _). split_and!.
  - by apply (sub_mid _ [] recordMagic (sq ++ [k] ++ [c] ++ ul ++ r_Digest rec ++ pl)).
  - apply (be_mid 2 _ (recordMagic ++ sq ++ [k] ++ [c]) (r_Digest rec ++ pl)); piece.
  - apply (be_mid 4 _ (recordMagic ++ sq ++ [k] ++ [c] ++ ul ++ r_Digest rec) []);
      [by rewrite app_nil_r, <- !app_assoc | rewrite !length_app, Hd; reflexivity | piece].
Qed.

Lemma decode_record_fields (rec : SlotRecord) (crc : list byte) : length (r_Digest rec) = 32%nat ->
  is_u32 (r_Seq rec) -> is_u8 (r_Kind rec) -> length crc = 4%nat ->
  decode_record (record_fixed rec ++ r_User rec ++ r_Payload rec ++ crc) (length (r_User rec)) = Ok rec.
Proof.
  intros Hd Hs Hk Hcrc. pose proof (length_record_fixed rec Hd) as Hfixed. unfold decode_record.
  rewrite !length_app, Hcrc, Hfixed. set (user := r_User rec) in *. set (pay := r_Payload rec) in *.
  replace (recordFixedSize + (length user + (length pay + 4)) - 4)%nat with (recordFixedSize + length user + length pay)%nat by lia.
  rewrite (sub_mid _ (record_fixed rec) user (pay ++ crc) recordFixedSize) by done.
  rewrite (sub_mid _ (record_fixed rec ++ user) pay crc (recordFixedSize + length user)) by (rewrite ?length_app, ?Hfixed; first [done | piece]).
  unfold record_fixed. fold user pay. set (sq := be_bytes 4 (r_Seq rec)). set (k := byte_of (r_Kind rec)).
  set (c := byte_of (if r_CacheThis rec then 1 else 0)). set (ul := be_bytes 2 _). set (pl := be_bytes 4 (Z.of_nat _)).
  rewrite (be_mid 4 _ recordMagic ([k] ++ [c] ++ ul ++ r_Digest rec ++ pl ++ user ++ pay ++ crc) 4 (r_Seq rec)) by piece.
  rewrite (index_mid _ (recordMagic ++ sq) ([c] ++ ul ++ r_Digest rec ++ pl ++ user ++ pay ++ crc) 8 k) by piece.
  rewrite (index_mid _ (recordMagic ++ sq ++ [k]) (ul ++ r_Digest rec ++ pl ++ user ++ pay ++ crc) 9 c) by piece.
  rewrite (sub_mid _ (recordMagic ++ sq ++ [k] ++ [c] ++ ul) (r_Digest rec) (pl ++ user ++ pay ++ crc) 12 44)
    by (first [regroup | rewrite Hd; reflexivity | piece]).
  cbn [mbind outcome_bind]. unfold k, c. rewrite !byte_val_of, Z.mod_small by (unfold is_u8 in Hk; lia).
  by destruct rec as [? ? [|] ? ? ?].
Qed.

Section area.
Context (h : Header) (slot area : nat).
Hypothesis Hh : header_ok h.

(** [readArea] looks at the bytes of its area only. *)
Lemma readArea_ext (data data' : list byte) :
  f_read data (areaOffset h slot area) (Z.to_nat (h_AreaSize h)) = f_read data' (areaOffset h slot area) (Z.to_nat (h_AreaSize h)) ->
  readArea h data slot area = readArea h data' slot area.
Proof using Hh.
  unfold readArea. destruct Hh as [_ Harea _]. generalize (areaOffset h slot area). intros off Heq.
  assert (Hpart : forall i m, (i + m <= Z.to_nat (h_AreaSize h))%nat -> f_read data (off + i) m = f_read data' (off + i) m).
  { intros i m Him. unfold f_read in *.
    assert (Hcut : forall d : list byte, take m (drop (off + i) d) = take m (drop i (take (Z.to_nat (h_AreaSize h)) (drop off d)))).
    { intros d. replace (Z.to_nat (h_AreaSize h)) with (i + (Z.to_nat (h_AreaSize h) - i))%nat by lia.
      rewrite <- take_drop_commute, take_take, drop_drop. f_equal. lia. }
    by rewrite !Hcut, Heq. }
  pose proof (Hpart 0%nat recordFixedSize ltac:(unfold RecordOverhead in Harea; lia)) as Hfix.
  rewrite Nat.add_0_r in Hfix. rewrite Hfix. destruct (negb _); [done|].
  destruct (sub _ 0 4) as [magic| |]; cbn [mbind outcome_bind]; [|done..]. destruct (negb _); [done|].
  destruct (be_at 2 _ 10) as [ul| |]; cbn [mbind outcome_bind]; [|done..].
  destruct (be_at 4 _ 44) as [pl| |]; cbn [mbind outcome_bind]; [|done..].
  destruct (Z.ltb_spec (h_AreaSize h) (Z.of_nat RecordOverhead + ul + pl)) as [|Hle]; [done|].
  by rewrite Hpart by (unfold RecordOverhead in *; lia).
Qed.

Lemma readArea_encode (data rest : list byte) (rec : SlotRecord) : record_ok h rec ->
  drop (areaOffset h slot area) data = encode_record rec ++ rest -> readArea h data slot area = Ok (Some rec).
Proof using Hh.
  intros Hok Hdata. destruct Hh as [_ [_ Harea] _]. pose proof (length_record_fixed rec (rok_digest _ _ Hok)) as Hfixed.
  pose proof (rok_digest _ _ Hok) as Hdig. pose proof (rok_user _ _ Hok) as Huser. pose proof (rok_fits _ _ Hok) as Hfits.
  set (user := r_User rec) in *. set (pay := r_Payload rec) in *. set (fixed := record_fixed rec) in *.
  set (crc := be_bytes 4 (Checksum (fixed ++ user ++ pay))).
  assert (Hcrc : length crc = 4%nat) by apply length_be_bytes.
  rewrite (encode_record_split rec) in Hdata. fold user pay fixed crc in Hdata.
  unfold readArea, f_read. rewrite <- drop_drop, Hdata, <- !app_assoc.
  rewrite (take_app_length' fixed) by done. rewrite (drop_app_length' fixed) by done.
  rewrite Hfixed, Nat.eqb_refl. cbn [negb]. destruct (record_fixed_lengths rec Hdig) as (Hm & Hul & Hpl); [fold user; lia | fold pay; lia|].
  fold fixed user pay in Hm, Hul, Hpl. rewrite Hm. cbn [mbind outcome_bind]. rewrite bool_decide_eq_true_2 by done. cbn [negb].
  rewrite Hul, Hpl. cbn [mbind outcome_bind]. rewrite (proj2 (Z.ltb_ge _ _)) by lia. rewrite Nat2Z.id.
  replace (Z.to_nat (Z.of_nat RecordOverhead + Z.of_nat (length user) + Z.of_nat (length pay)))
    with (RecordOverhead + length user + length pay)%nat by lia.
  assert (Hrest : take (RecordOverhead + length user + length pay - recordFixedSize) (user ++ pay ++ crc ++ rest) = user ++ pay ++ crc).
  { replace (user ++ pay ++ crc ++ rest) with ((user ++ pay ++ crc) ++ rest) by regroup.
    apply take_app_length'. rewrite !length_app, Hcrc. unfold RecordOverhead. lia. }
  rewrite Hrest, !length_app, Hcrc.
  replace (length user + (length pay + 4))%nat with (RecordOverhead + length user + length pay - recordFixedSize)%nat
    by (unfold RecordOverhead; lia).
  rewrite Nat.eqb_refl. cbn [negb]. set (body := (RecordOverhead + length user + length pay - 4)%nat).
  assert (Hbody : length (fixed ++ user ++ pay) = body) by (rewrite !length_app, Hfixed; unfold body, RecordOverhead; lia).
  rewrite (sub_mid (fixed ++ user ++ pay ++ crc) [] (fixed ++ user ++ pay) crc 0 body) by (first [exact Hbody | piece]).
  rewrite (be_mid 4 (fixed ++ user ++ pay ++ crc) (fixed ++ user ++ pay) [] body (Checksum (fixed ++ user ++ pay)))
    by (first [exact Hbody | apply Checksum_u32 | fold crc; by rewrite app_nil_r, <- !app_assoc]).
  cbn [mbind outcome_bind]. rewrite Z.eqb_refl. cbn [negb].
  unfold fixed, user, pay. by rewrite (decode_record_fields rec crc Hdig (rok_seq _ _ Hok) (rok_kind _ _ Hok) Hcrc).
Qed.

(** [readArea] never panics, whatever the bytes. *)
Lemma readArea_total (data : list byte) : exists o, readArea h data slot area = Ok o.
Proof using Hh.
  unfold readArea. set (off := areaOffset h slot area). set (fixed := f_read data off recordFixedSize).
  destruct (Nat.eqb_spec (length fixed) recordFixedSize) as [Hlen|]; cbn [negb]; [|by eexists].
  assert (H48 : length fixed = 48%nat) by exact Hlen.
  destruct (sub_in_range (E:=session_error) fixed 0 4 ltac:(lia)) as (m & Hm & _). simpl in Hm. rewrite Hm. cbn [mbind outcome_bind].
  destruct (negb _); [by eexists|].
  destruct (be_at_in_range (E:=session_error) fixed 10 2 ltac:(lia)) as (ub & Hu & _).
  destruct (be_at_in_range (E:=session_error) fixed 44 4 ltac:(lia)) as (pb & Hp & _). rewrite Hu, Hp. cbn [mbind outcome_bind].
  pose proof (be_val_bound ub) as [Hub _]. pose proof (be_val_bound pb) as [Hpb _].
  destruct (_ <? _); [by eexists|].
  set (total := Z.of_nat RecordOverhead + be_val ub + be_val pb) in *.
  assert (Htot : (RecordOverhead + Z.to_nat (be_val ub) <= Z.to_nat total)%nat) by (unfold total; lia).
  change RecordOverhead with 52%nat in Htot. change recordFixedSize with 48%nat.
  set (rest := f_read data _ _). destruct (Nat.eqb_spec (length rest) (Z.to_nat total - 48)) as [Hrest|]; cbn [negb]; [|by eexists].
  assert (Hbuf : length (fixed ++ rest) = Z.to_nat total) by (rewrite length_app; lia).
  destruct (sub_in_range (E:=session_error) (fixed ++ rest) 0 (Z.to_nat total - 4) ltac:(lia)) as (b1 & Hb1 & _).
  destruct (be_at_in_range (E:=session_error) (fixed ++ rest) (Z.to_nat total - 4) 4 ltac:(lia)) as (b2 & Hb2 & _).
  simpl in Hb1. rewrite Hb1, Hb2. cbn [mbind outcome_bind]. destruct (negb _); [by eexists|].
  unfold decode_record. rewrite Hbuf. set (buf := fixed ++ rest) in *. change recordFixedSize with 48%nat.
  destruct (be_at_in_range (E:=session_error) buf 4 4 ltac:(lia)) as (c1 & -> & _).
  destruct (index_in_range (E:=session_error) buf 8 ltac:(lia)) as (c2 & -> & _).
  destruct (index_in_range (E:=session_error) buf 9 ltac:(lia)) as (c3 & -> & _).
  destruct (sub_in_range (E:=session_error) buf 12 32 ltac:(lia)) as (c4 & Hc4 & _). simpl in Hc4. rewrite Hc4.
  destruct (sub_in_range (E:=session_error) buf 48 (Z.to_nat (be_val ub)) ltac:(lia)) as (c5 & Hc5 & _). rewrite Hc5.
  destruct (sub_in_range (E:=session_error) buf (48 + Z.to_nat (be_val ub)) (Z.to_nat total - 4 - (48 + Z.to_nat (be_val ub))) ltac:(lia)) as (c6 & Hc6 & _).
  replace (48 + Z.to_nat (be_val ub) + (Z.to_nat total - 4 - (48 + Z.to_nat (be_val ub))))%nat with (Z.to_nat total - 4)%nat in Hc6 by lia.
  rewrite Hc6. by eexists.
Qed.

End area.

(** * The order of records *)

Lemma SeqAfter_asym (a b : Z) : SeqAfter a b = true -> SeqAfter b a = false.
Proof.
  unfold SeqAfter, to_signed. intros H. apply Z.ltb_lt in H. apply Z.ltb_ge.
  assert (Hneg : (b - a) mod 2 ^ 32 = (- ((a - b) mod 2 ^ 32)) mod 2 ^ 32).
  { replace (b - a) with (0 - (a - b)) by lia. rewrite <- Zminus_mod_idemp_r. reflexivity. }
  pose proof (Z.mod_pos_bound (a - b) (2 ^ 32) ltac:(lia)). rewrite Hneg.
  set (d := (a - b) mod 2 ^ 32) in *. case_decide; [|lia].
  replace ((- d) mod 2 ^ 32) with (2 ^ 32 - d); [case_decide; lia|].
  apply (Z.mod_unique _ _ (-1)); [lia | lia].
Qed.

Lemma SeqAfter_irrefl (a : Z) : SeqAfter a a = false.
Proof. unfold SeqAfter. by rewrite Z.sub_diag. Qed.

Lemma SeqAfter_succ (a : Z) : is_u32 a -> SeqAfter (wrap32 (a + 1)) a = true.
Proof.
  intros Ha. unfold SeqAfter, wrap32, to_signed. rewrite Zminus_mod_idemp_l.
  replace (a + 1 - a) with 1 by lia. done.
Qed.

Lemma newer_asym (a b : SlotRecord) : newer a b = true -> newer b a = false.
Proof.
  unfold newer. destruct (SeqAfter (r_Seq a) (r_Seq b)) eqn:Ha; simpl.
  - intros _. rewrite (SeqAfter_asym _ _ Ha). destruct (Z.eqb_spec (r_Seq b) (r_Seq a)) as [Heq|]; [|done].
    by rewrite Heq, SeqAfter_irrefl in Ha.
  - intros H. reflect_bools. rewrite H, SeqAfter_irrefl, Z.eqb_refl. simpl.
    destruct (Z.eqb_spec (r_Kind b) KindSlot) as [Hk|]; [|done]. rewrite Hk in *. done.
Qed.

(** * Writing one area *)

Lemma f_read_write_apart (data img : list byte) (off off' n : nat) : (off + length img <= length data)%nat ->
  (off' + n <= off \/ off + length img <= off')%nat -> f_read (f_write data off img) off' n = f_read data off' n.
Proof.
  intros Hin Hapart. unfold f_read. apply list_eq. intros i.
  destruct (decide (i < n)%nat); [|by rewrite !lookup_take_ge by lia].
  rewrite !lookup_take_lt, !lookup_drop, lookup_f_write by done. rewrite decide_False by lia.
  case_decide; [|done]. by destruct (lookup_lt_is_Some_2 data (off' + i)) as [x ->]; [lia|].
Qed.

Lemma f_write_nil (bs : list byte) : f_write [] 0 bs = bs.
Proof.
  unfold f_write. change (resize (max (length (A:=byte) []) 0) zero_byte []) with (@nil byte).
  rewrite drop_nil. apply app_nil_r.
Qed.

Lemma drop_f_write (data img : list byte) (off : nat) : (off <= length data)%nat ->
  exists rest, drop off (f_write data off img) = img ++ rest.
Proof.
  intros Hoff. unfold f_write. rewrite Nat.max_l, resize_all by lia. eexists.
  rewrite drop_app_length' by (rewrite length_take; lia). done.
Qed.

Lemma areaOffset_apart (h : Header) (s a s' a' : nat) : (a < 2)%nat -> (a' < 2)%nat -> (s, a) <> (s', a') ->
  (areaOffset h s' a' + Z.to_nat (h_AreaSize h) <= areaOffset h s a \/
   areaOffset h s a + Z.to_nat (h_AreaSize h) <= areaOffset h s' a')%nat.
Proof.
  intros Ha Ha' Hne. unfold areaOffset. generalize (Z.to_nat (h_AreaSize h)). intros A.
  assert (Hk : (s' * 2 + a' < s * 2 + a \/ s * 2 + a < s' * 2 + a')%nat).
  { destruct (decide (s = s')) as [->|]; [|lia]. assert (a <> a') by congruence. lia. }
  destruct Hk as [Hk|Hk]; [left | right]; nia.
Qed.

Lemma areaOffset_bound (h : Header) (s a : nat) : (a < 2)%nat -> Z.of_nat s < h_SlotCount h ->
  (areaOffset h s a + Z.to_nat (h_AreaSize h) <= size h)%nat.
Proof.
  intros Ha Hs. unfold areaOffset, size. assert (s < Z.to_nat (h_SlotCount h))%nat by lia.
  generalize dependent (Z.to_nat (h_SlotCount h)). generalize (Z.to_nat (h_AreaSize h)). intros A n Hn. nia.
Qed.

Lemma area_write (h : Header) (data img : list byte) (s a : nat) : header_ok h -> length data = size h ->
  (a < 2)%nat -> Z.of_nat s < h_SlotCount h -> (length img <= Z.to_nat (h_AreaSize h))%nat ->
  let data' := f_write data (areaOffset h s a) img in
  length data' = size h /\ readHeader data' = readHeader data /\
  (exists rest, drop (areaOffset h s a) data' = img ++ rest) /\
  forall s' a', (a' < 2)%nat -> (s, a) <> (s', a') -> readArea h data' s' a' = readArea h data s' a'.
Proof.
  intros Hh Hlen Ha Hs Himg data'. pose proof (areaOffset_bound h s a Ha Hs).
  assert (Hlen' : length data' = size h) by (unfold data'; rewrite length_f_write; lia).
  split_and!; [done | | apply drop_f_write; lia |].
  - unfold readHeader. rewrite Hlen', Hlen. replace (f_truncate data' headerAreaSize) with (f_truncate data headerAreaSize); [done|].
    assert (Hcut : forall d : list byte, length d = size h -> f_truncate d headerAreaSize = f_read d 0 headerAreaSize).
    { intros d Hd. unfold f_truncate, f_read. rewrite drop_0, resize_le; [done|]. rewrite Hd. unfold size. lia. }
    rewrite !Hcut by done. symmetry. apply f_read_write_apart; [lia|]. left. unfold areaOffset. lia.
  - intros s' a' Ha' Hne. apply readArea_ext; [done|]. apply f_read_write_apart; [lia|].
    destruct (areaOffset_apart h s a s' a' Ha Ha' Hne); lia.
Qed.

(** * The invariant of a file *)

(** The slot's newest record is in its area, and the other area holds nothing
    newer. *)
Definition slot_ok (h : Header) (data : list byte) (s : nat) (st : slotState) : Prop :=
  match st with
  | None => forall a, (a < 2)%nat -> readArea h data s a = Ok None
  | Some (rec, a) => (a < 2)%nat /\ readArea h data s a = Ok (Some rec) /\
      exists other, readArea h data s (1 - a) = Ok other /\ forall old, other = Some old -> newer rec old = true
  end.

Record Inv (f : File) : Prop := {
  inv_header : header_ok (file_header f);
  inv_length : length (file_data f) = size (file_header f);
  inv_read : readHeader (file_data f) = Ok (file_header f);
  inv_count : length (file_slots f) = Z.to_nat (h_SlotCount (file_header f));
  inv_slots : forall s st, file_slots f !! s = Some st -> slot_ok (file_header f) (file_data f) s st;
}.

Lemma open_slot_ok (h : Header) (data : list byte) (s : nat) (st : slotState) : slot_ok h data s st -> open_slot h data s = Ok st.
Proof.
  unfold open_slot. destruct st as [[rec a]|]; simpl.
  - intros (Ha & Hrec & other & Hother & Hnewer). destruct a as [|[|a]]; [| |lia]; simpl in Hother; rewrite Hrec, Hother; simpl.
    + destruct other as [old|]; [|done]. by rewrite (newer_asym _ _ (Hnewer old eq_refl)).
    + destruct other as [old|]; [by rewrite (Hnewer old eq_refl) | done].
  - intros Hnone. rewrite !Hnone by lia. done.
Qed.

Lemma open_slots_ok (h : Header) (data : list byte) (l : list slotState) (n : nat) :
  (forall i st, l !! i = Some st -> open_slot h data (n + i) = Ok st) -> open_slots h data (seq n (length l)) = Ok l.
Proof.
  revert n. induction l as [|st l IH]; intros n Hl; simpl; [done|].
  pose proof (Hl 0%nat st eq_refl) as H0. rewrite Nat.add_0_r in H0. rewrite H0. simpl.
  rewrite IH; [done|]. intros i st' Hi. replace (S n + i)%nat with (n + S i)%nat by lia. by apply Hl.
Qed.

Lemma open_inv (f : File) : Inv f -> open (file_data f) = Ok f.
Proof.
  intros [Hh Hlen Hread Hcount Hslots]. unfold open. rewrite Hread. simpl. rewrite <- Hcount, open_slots_ok.
  - by destruct f.
  - intros i st Hi. by apply open_slot_ok, Hslots.
Qed.

Lemma Create_inv (h : Header) (f : File) : header_ok h -> Create h true = Ok f -> Inv f /\ file_header f = h.
Proof.
  intros Hh H. unfold Create in H. destruct (_ || _); [done|]. destruct (_ <? _)%nat; [done|]. apply Ok_inj in H as <-.
  pose proof (length_encode_header h) as Hel. destruct Hh as [H1 H2 H3]. unfold MaxSessionRecord in H3.
  assert (Hsz : (headerAreaSize <= size h)%nat) by (unfold size; lia).
  split; [|done]. constructor; cbn [file_header file_data file_slots]; [done | apply length_f_truncate | | apply length_replicate |].
  - rewrite f_write_nil.
    destruct (f_truncate_prefix (encode_header h) [] (size h)) as (rest & Hrest & _); [unfold headerFixedSize, headerAreaSize in *; lia|].
    rewrite app_nil_r in Hrest. by apply (readHeader_encode h _ rest).
  - intros s st Hst. apply lookup_replicate in Hst as [-> Hs]. intros a Ha. unfold readArea.
    set (data := f_truncate _ _). set (off := areaOffset h s a). set (fixed := f_read data off recordFixedSize).
    destruct (Nat.eqb_spec (length fixed) recordFixedSize) as [Hf|]; cbn [negb]; [|done].
    destruct (sub_in_range (E:=session_error) fixed 0 4) as (m & Hm & _ & Hfix); [rewrite Hf; unfold recordFixedSize; lia|].
    simpl in Hm. rewrite Hm. cbn [mbind outcome_bind]. rewrite bool_decide_eq_false_2; [done|]. intros ->.
    apply (f_equal (fun l => l !! 0%nat)) in Hfix. rewrite drop_0 in Hfix. unfold fixed, f_read in Hfix.
    rewrite lookup_take_lt, lookup_drop, Nat.add_0_r in Hfix by (unfold recordFixedSize; lia).
    unfold data in Hfix. rewrite lookup_f_truncate, lookup_f_write in Hfix.
    rewrite (decide_False (P := (0 <= off < _)%nat)) in Hfix by (unfold off, areaOffset, headerAreaSize, headerFixedSize in *; lia).
    rewrite (decide_False (P := (off < 0)%nat)) in Hfix by lia. by case_decide.
Qed.

Lemma target_area_lt (h : Header) (data : list byte) (s : nat) (st : slotState) : slot_ok h data s st -> (target_area st < 2)%nat.
Proof. destruct st as [[rec a]|]; simpl; [intros (? & _); lia | lia]. Qed.

(** What a write, complete or not, does to the file: the bytes [img] replace
    the start of the area that does not hold the slot's newest record. *)
Lemma Write_spec (f : File) (s : nat) (rec : SlotRecord) (w : write_result) : Inv f ->
  Z.of_nat s < h_SlotCount (file_header f) -> record_ok (file_header f) rec ->
  exists st, file_slots f !! s = Some st /\ slot_ok (file_header f) (file_data f) s st /\
    Write f s rec w =
      match w with
      | Written => (mkFile (file_header f)
          (f_write (file_data f) (areaOffset (file_header f) s (target_area st)) (encode_record rec))
          (<[s := Some (rec, target_area st)]> (file_slots f)), Ok tt)
      | WriteFailed image => (mkFile (file_header f)
          (f_write (file_data f) (areaOffset (file_header f) s (target_area st)) image) (file_slots f), Err ErrFile)
      end.
Proof.
  intros HI Hs Hr. destruct (lookup_lt_is_Some_2 (file_slots f) s) as [st Hst]; [rewrite (inv_count _ HI); lia|].
  exists st. split; [done|]. split; [by apply (inv_slots _ HI)|]. unfold Write. rewrite Hst.
  rewrite (proj2 (Z.leb_gt _ _)) by lia. rewrite (proj2 (Z.ltb_ge _ _)) by apply Hr.
  rewrite (proj2 (Z.ltb_ge _ _)) by apply Hr. by destruct w.
Qed.

(** The slots other than the one written are as before. *)
Lemma write_frame (f : File) (s s' : nat) (st st' : slotState) (img : list byte) : Inv f ->
  Z.of_nat s < h_SlotCount (file_header f) -> (length img <= Z.to_nat (h_AreaSize (file_header f)))%nat ->
  slot_ok (file_header f) (file_data f) s st -> s <> s' -> slot_ok (file_header f) (file_data f) s' st' ->
  slot_ok (file_header f) (f_write (file_data f) (areaOffset (file_header f) s (target_area st)) img) s' st'.
Proof.
  intros HI Hs Himg Hst Hne Hst'. pose proof (target_area_lt _ _ _ _ Hst) as Ht.
  destruct (area_write _ _ img s (target_area st) (inv_header _ HI) (inv_length _ HI) Ht Hs Himg) as (_ & _ & _ & Hother).
  destruct st' as [[rec a]|]; simpl in *.
  - destruct Hst' as (Ha & Hrec & other & Ho & Hn). split; [done|]. rewrite !Hother by (lia || congruence). eauto.
  - intros a Ha. rewrite Hother by (lia || congruence). by apply Hst'.
Qed.

Lemma Write_inv (f : File) (s : nat) (rec : SlotRecord) : Inv f ->
  Z.of_nat s < h_SlotCount (file_header f) -> record_ok (file_header f) rec ->
  (forall old, Slot f s = Some old -> newer rec old = true) ->
  let f' := (Write f s rec Written).1 in
  Inv f' /\ file_header f' = file_header f /\ (Write f s rec Written).2 = Ok tt /\
  forall s', Slot f' s' = if decide (s = s') then Some rec else Slot f s'.
Proof.
  intros HI Hs Hr Hnew. destruct (Write_spec f s rec Written HI Hs Hr) as (st & Hst & Hok & ->).
  pose proof (target_area_lt _ _ _ _ Hok) as Ht. simpl. pose proof (lookup_lt_Some _ _ _ Hst) as Hlt.
  assert (Himg : (length (encode_record rec) <= Z.to_nat (h_AreaSize (file_header f)))%nat).
  { rewrite length_encode_record by apply Hr. destruct Hr. lia. }
  destruct (area_write _ _ (encode_record rec) s (target_area st) (inv_header _ HI) (inv_length _ HI) Ht Hs Himg)
    as (Hlen & Hread & (rest & Hrest) & Hother).
  split_and!; [constructor | done | done |]; cbn [file_header file_data file_slots].
  - apply HI.
  - done.
  - rewrite Hread. apply HI.
  - rewrite length_insert. apply HI.
  - intros s' st' Hs'. destruct (decide (s = s')) as [<-|Hne].
    + rewrite list_lookup_insert_eq in Hs' by done. injection Hs' as <-. split; [done|].
      split; [by apply (readArea_encode _ _ _ (inv_header _ HI) _ rest)|].
      rewrite Hother by (try (intros [=]); lia). destruct st as [[old a]|]; simpl in Hok |- *.
      * destruct Hok as (Ha & Hold & _). replace (1 - (1 - a))%nat with a by lia. rewrite Hold. exists (Some old). split; [done|].
        intros ? [= <-]. apply Hnew. unfold Slot. by rewrite Hst.
      * exists None. split; [apply Hok; lia | done].
    + rewrite list_lookup_insert_ne in Hs' by done. eapply write_frame; eauto. by apply (inv_slots _ HI).
  - intros s'. unfold Slot. cbn [file_slots]. case_decide as Hd; [subst; by rewrite list_lookup_insert_eq | by rewrite list_lookup_insert_ne].
Qed.

(** * Histories of writes *)

Definition run_writes (f : File) (ws : list (nat * SlotRecord)) : File :=
  foldl (fun f w => (Write f w.1 w.2 Written).1) f ws.

(** The record a slot was last given. *)
Definition last_written (s : nat) (ws : list (nat * SlotRecord)) : option SlotRecord :=
  last (base.filter (fun w => w.1 = s) ws).*2.

(** Every record is valid for the layout and newer than its slot's last. *)
Definition in_order (h : Header) (ws : list (nat * SlotRecord)) : Prop :=
  forall pre s rec post, ws = pre ++ (s, rec) :: post ->
    Z.of_nat s < h_SlotCount h /\ record_ok h rec /\ forall old, last_written s pre = Some old -> newer rec old = true.

Lemma last_written_snoc (s s' : nat) (rec : SlotRecord) (ws : list (nat * SlotRecord)) :
  last_written s' (ws ++ [(s, rec)]) = if decide (s = s') then Some rec else last_written s' ws.
Proof.
  unfold last_written. rewrite filter_app, filter_cons, filter_nil. simpl.
  case_decide; [rewrite fmap_app; apply last_snoc | by rewrite app_nil_r].
Qed.

Lemma run_writes_inv (h : Header) (f0 : File) (ws : list (nat * SlotRecord)) : header_ok h -> Create h true = Ok f0 ->
  in_order h ws -> Inv (run_writes f0 ws) /\ file_header (run_writes f0 ws) = h /\
  forall s, Slot (run_writes f0 ws) s = last_written s ws.
Proof.
  intros Hh Hc. destruct (Create_inv h f0 Hh Hc) as [HI0 Hh0].
  induction ws as [|[s rec] ws IH] using rev_ind; intros Hord.
  - split_and!; [done | done |]. intros s. unfold Create in Hc. destruct (_ || _); [done|]. destruct (_ <? _)%nat; [done|].
    apply Ok_inj in Hc as <-. unfold Slot. simpl. by destruct (replicate _ _ !! s) as [st|] eqn:Hl; [apply lookup_replicate in Hl as [-> _]|].
  - destruct IH as (HI & Hh' & Hslot). { intros pre s' rec' post ->. apply (Hord pre s' rec' (post ++ [(s, rec)])). by rewrite <- app_assoc. }
    destruct (Hord ws s rec [] eq_refl) as (Hs & Hr & Hnew). unfold run_writes. rewrite foldl_snoc. fold (run_writes f0 ws). simpl.
    rewrite <- Hh' in Hs, Hr. rewrite <- Hslot in Hnew.
    destruct (Write_inv (run_writes f0 ws) s rec HI Hs Hr Hnew) as (HI' & Hh'' & _ & Hslot').
    split_and!; [done | by rewrite Hh'' |]. intros s'. rewrite Hslot', last_written_snoc. case_decide; [done | apply Hslot].
Qed.

(** C19: a session file gives back what was written to it. Create a file and
    write records to its slots, each newer than its slot's last: the next
    process, which opens the file, finds the same header and, in every slot,
    the last record written there, with every field as it was. *)
Theorem session_file_reopens (h : Header) (f0 : File) (ws : list (nat * SlotRecord)) :
  header_ok h -> Create h true = Ok f0 -> in_order h ws ->
  exists f, open (file_data (run_writes f0 ws)) = Ok f /\ file_header f = h /\
    forall s, Slot f s = last_written s ws.
Proof.
  intros Hh Hc Ho. destruct (run_writes_inv h f0 ws Hh Hc Ho) as (HI & Hh' & Hslot).
  exists (run_writes f0 ws). split; [by apply open_inv | done].
Qed.

Lemma Slot_insert (f : File) (data : list byte) (h : Header) (s s' : nat) (st : slotState) : (s < length (file_slots f))%nat ->
  Slot (mkFile h data (<[s := st]> (file_slots f))) s' = if decide (s = s') then fst <$> st else Slot f s'.
Proof.
  intros Hs. unfold Slot. simpl. case_decide as Hd.
  - subst. rewrite list_lookup_insert_eq by done. by destruct st as [[]|].
  - by rewrite list_lookup_insert_ne.
Qed.

(** The scan of a slot after its other area was overwritten by bytes that
    read as [o], which is comparable with the newest record. *)
Lemma open_slot_torn (h : Header) (data : list byte) (s : nat) (st : slotState) (o : option SlotRecord) :
  (forall rec a, st = Some (rec, a) -> (a < 2)%nat) -> readArea h data s (target_area st) = Ok o ->
  readArea h data s (1 - target_area st) = Ok (fst <$> st) ->
  (forall r old, o = Some r -> fst <$> st = Some old -> newer r old = true \/ newer old r = true \/ r = old) ->
  exists st', open_slot h data s = Ok st' /\ (fst <$> st' = fst <$> st \/
    exists r, o = Some r /\ fst <$> st' = Some r /\ forall old, fst <$> st = Some old -> newer r old = true).
Proof.
  intros Ht Ho Hst Hcmp. unfold open_slot. destruct st as [[rec a]|]; simpl in *.
  - specialize (Ht rec a eq_refl). destruct o as [r|].
    + specialize (Hcmp r rec eq_refl eq_refl). destruct (newer r rec) eqn:Hn.
      * exists (Some (r, (1 - a)%nat)). split; [|right; exists r; split_and!; [done..|]; by intros ? [= <-]].
        destruct a as [|[|a]]; simpl in *; [| |lia]; rewrite Hst, Ho; simpl; [by rewrite Hn | by rewrite (newer_asym _ _ Hn)].
      * destruct a as [|[|a]]; simpl in *; [| |lia]; rewrite Hst, Ho; simpl; [rewrite Hn; eexists; split; [done | by left]|].
        destruct Hcmp as [?|[Hcmp| ->]]; [done | rewrite Hcmp; eexists; split; [done | by left]|].
        rewrite Hn. eexists. split; [done | by left].
    + exists (Some (rec, a)). split; [|by left]. destruct a as [|[|a]]; simpl in *; [| |lia]; by rewrite Hst, Ho.
  - rewrite Ho, Hst. simpl. destruct o as [r|]; eexists; (split; [done|]); [right; by exists r | by left].
Qed.

Lemma open_torn (f : File) (s : nat) (st : slotState) (img : list byte) (o : option SlotRecord) : Inv f ->
  Z.of_nat s < h_SlotCount (file_header f) -> (length img <= Z.to_nat (h_AreaSize (file_header f)))%nat ->
  file_slots f !! s = Some st ->
  let data := f_write (file_data f) (areaOffset (file_header f) s (target_area st)) img in
  readArea (file_header f) data s (target_area st) = Ok o ->
  (forall r old, o = Some r -> fst <$> st = Some old -> newer r old = true \/ newer old r = true \/ r = old) ->
  exists st', open data = Ok (mkFile (file_header f) data (<[s := st']> (file_slots f))) /\
    (fst <$> st' = fst <$> st \/
     exists r, o = Some r /\ fst <$> st' = Some r /\ forall old, fst <$> st = Some old -> newer r old = true).
Proof.
  intros HI Hs Himg Hst data Ho Hcmp. pose proof (inv_slots _ HI _ _ Hst) as Hok. pose proof (target_area_lt _ _ _ _ Hok) as Ht.
  destruct (area_write _ _ img s (target_area st) (inv_header _ HI) (inv_length _ HI) Ht Hs Himg) as (Hlen & Hread & _ & Hother).
  fold data in Hlen, Hread, Hother.
  assert (Hkept : readArea (file_header f) data s (1 - target_area st) = Ok (fst <$> st)).
  { rewrite Hother by (lia || (intros [= ?]; lia)). destruct st as [[rec a]|]; simpl in *; [|apply Hok; lia].
    destruct Hok as (Ha & Hrec & _). by replace (1 - (1 - a))%nat with a by lia. }
  destruct (open_slot_torn (file_header f) data s st o) as (st' & Hopen & Hst'); [| done..|].
  { intros rec a ->. apply Hok. }
  exists st'. split; [|done]. unfold open. rewrite Hread, (inv_read _ HI). simpl.
  rewrite <- (inv_count _ HI), <- (length_insert (file_slots f) s st'), open_slots_ok; [done|].
  intros i sti Hi. simpl. destruct (decide (s = i)) as [<-|Hne].
  - rewrite list_lookup_insert_eq in Hi by (by eapply lookup_lt_Some). by simplify_eq.
  - rewrite list_lookup_insert_ne in Hi by done. apply open_slot_ok. eapply write_frame; eauto. by apply (inv_slots _ HI).
Qed.

(** C18: a write interrupted by the death of the process loses nothing. While
    a record newer than its slot's last is being written, let any bytes stand
    in the place of its buffer, as long as they do not pass the checksum as a
    record that is neither the one being written nor older than the last one.
    The call reports an error, and the next process finds, in every other
    slot, its last record, and in this slot its last record or the one that
    was being written. *)
Theorem torn_write_keeps_records (h : Header) (f0 : File) (ws : list (nat * SlotRecord)) (s : nat) (rec : SlotRecord)
    (image : list byte) :
  header_ok h -> Create h true = Ok f0 -> in_order h (ws ++ [(s, rec)]) ->
  (length image <= length (encode_record rec))%nat ->
  let '(f, r) := Write (run_writes f0 ws) s rec (WriteFailed image) in
  (forall a r, (a < 2)%nat -> readArea h (file_data f) s a = Ok (Some r) -> last_written s ws = Some r \/ r = rec \/
     exists old, last_written s ws = Some old /\ newer old r = true) ->
  r = Err ErrFile /\
  exists g, open (file_data f) = Ok g /\ file_header g = h /\
    (forall s', s' <> s -> Slot g s' = last_written s' ws) /\
    (Slot g s = last_written s ws \/ Slot g s = Some rec).
Proof.
  intros Hh Hc Ho Himg. destruct (Ho ws s rec [] eq_refl) as (Hs & Hr & Hnew).
  destruct (run_writes_inv h f0 ws Hh Hc) as (HI & Hh' & Hslot).
  { intros pre s' rec' post ->. apply (Ho pre s' rec' (post ++ [(s, rec)])). by rewrite <- app_assoc. }
  set (f1 := run_writes f0 ws) in *.
  destruct (Write_spec f1 s rec (WriteFailed image) HI) as (st & Hst & Hok & ->); [by rewrite Hh' .. |].
  pose proof (target_area_lt _ _ _ _ Hok) as Ht. cbn [file_data]. intros Hcoll. split; [done|].
  rewrite Hh' in *. set (data := f_write _ _ _) in *.
  assert (Hlast : last_written s ws = fst <$> st) by (rewrite <- Hslot; unfold Slot; rewrite Hst; by destruct st as [[]|]).
  destruct (readArea_total h s (target_area st) Hh data) as [o Hread].
  destruct (open_torn f1 s st image o HI) as (st' & Hopen & Hst'); rewrite ?Hh'; [done | | done | done | |].
  { pose proof (length_encode_record rec (rok_digest _ _ Hr)). destruct Hr. lia. }
  { intros r old -> Hold. destruct (Hcoll _ r Ht Hread) as [Hl|[->|(old' & Hl & Hn)]].
    - rewrite Hlast, Hold in Hl. injection Hl as ->. by right; right.
    - left. apply Hnew. by rewrite Hlast.
    - rewrite Hlast, Hold in Hl. injection Hl as ->. by right; left. }
  pose proof (lookup_lt_Some _ _ _ Hst) as Hlt. rewrite Hh' in Hopen. fold data in Hopen.
  eexists. split; [exact Hopen|]. split; [done|]. split.
  - intros s' Hne. rewrite Slot_insert, decide_False by done. apply Hslot.
  - rewrite Slot_insert, decide_True, Hlast by done. destruct Hst' as [->|(r & -> & -> & Hnewer)]; [by left|].
    destruct (Hcoll _ r Ht Hread) as [Hl|[->|(old' & Hl & Hn)]]; [left; by rewrite <- Hlast, Hl | by right |].
    rewrite Hlast in Hl. specialize (Hnewer old' Hl). by rewrite (newer_asym _ _ Hn) in Hnewer.
Qed.

(** A session of two slots: a request on each slot, then the intent of the
    second request of slot 0. *)
Definition sample_header : Header := mkHeader 2 120 [Byte.x01].
Definition sample_record (seq kind : Z) : SlotRecord :=
  mkSlotRecord seq kind true (replicate 32 Byte.x07) [Byte.x55] [Byte.x11; Byte.x22].
Definition sample_file : File :=
  match Create sample_header true with Ok f => f | _ => mkFile sample_header [] [] end.
Definition sample_writes : list (nat * SlotRecord) := [(0%nat, sample_record 1 KindSlot); (1%nat, sample_record 1 KindSlot)].

Lemma sample_header_ok : header_ok sample_header.
Proof. constructor; simpl; unfold RecordOverhead, recordFixedSize, MaxSessionRecord, headerAreaSize, headerFixedSize; lia. Qed.

Lemma sample_record_ok (seq kind : Z) : is_u32 seq -> is_u8 kind -> record_ok sample_header (sample_record seq kind).
Proof. intros. constructor; simpl; unfold RecordOverhead, recordFixedSize; (done || lia). Qed.

Lemma sample_in_order : in_order sample_header (sample_writes ++ [(0%nat, sample_record 2 KindIntent)]).
Proof.
  intros pre s rec post Heq. unfold sample_writes in Heq.
  destruct pre as [|? [|? [|? [|? ?]]]]; simplify_eq/=;
    (split; [lia|]; split; [apply sample_record_ok; unfold is_u32, is_u8, KindSlot, KindIntent; lia|]); intros old Hold; vm_compute in Hold; simplify_eq/=; done.
Qed.

Lemma session_file_reopens_witness :
  exists f, open (file_data (run_writes sample_file (sample_writes ++ [(0%nat, sample_record 2 KindIntent)]))) = Ok f /\
    file_header f = sample_header /\
    forall s, Slot f s = last_written s (sample_writes ++ [(0%nat, sample_record 2 KindIntent)]).
Proof. apply (session_file_reopens sample_header sample_file); [exact sample_header_ok | done | exact sample_in_order]. Defined.

Lemma torn_write_keeps_records_witness :
  let '(f, r) := Write (run_writes sample_file sample_writes) 0 (sample_record 2 KindIntent)
    (WriteFailed (take 10 (encode_record (sample_record 2 KindIntent)))) in
  r = Err ErrFile /\
  exists g, open (file_data f) = Ok g /\ file_header g = sample_header /\
    (forall s', s' <> 0%nat -> Slot g s' = last_written s' sample_writes) /\
    (Slot g 0 = last_written 0 sample_writes \/ Slot g 0 = Some (sample_record 2 KindIntent)).
Proof.
  pose proof (torn_write_keeps_records sample_header sample_file sample_writes 0 (sample_record 2 KindIntent)
    (take 10 (encode_record (sample_record 2 KindIntent))) sample_header_ok eq_refl sample_in_order) as H.
  destruct (Write _ _ _ _) as [f r] eqn:Hw. apply H; [vm_compute; lia|].
  intros a r' Ha Hr'. assert (file_data f = file_data (Write (run_writes sample_file sample_writes) 0 (sample_record 2 KindIntent)
    (WriteFailed (take 10 (encode_record (sample_record 2 KindIntent))))).1) as Hf by (by rewrite Hw).
  rewrite Hf in Hr'. destruct a as [|[|a]]; [| |lia].
  - vm_compute in Hr'. injection Hr' as <-. left. vm_compute. reflexivity.
  - vm_compute in Hr'. discriminate Hr'.
Defined.
