(* ===== verification/LeaseGate.v ===== *)
(** Client incarnations and their lease: src/go/nfsd/internal/server/client_group.go,
    lease_gate.go, and the session membership of reply_resources.go and
    creation.go.

    A group counts the requests and session creations in progress for one
    client incarnation. Expiry and replacement are decided against these
    counts under the store's mutex, so each critical section is one atomic
    operation here, a function of the store. Groups and sessions are shared
    objects: the maps hold pointers into heaps. Times are nanoseconds, the zero
    time is 0. The wire record of a group is whether it is pending. *)

From Stdlib Require Import ZArith Lia.
From stdpp Require Import base numbers option gmap list.
From S2P Require Import Prelude Counting.

Definition NFS4_OK : Z := 0.
Definition NFS4ERR_DELAY : Z := 10008.
Definition NFS4ERR_STALE_CLIENTID : Z := 10022.
Definition NFS4ERR_BADSESSION : Z := 10052.

(** 90 seconds. *)
Definition leaseTime : Z := 90 * 1000000000.

(** * Groups *)

Inductive groupState := groupOpen | groupClosing | groupReplaced.
Inductive leaseGateState := gateLive | gateChecking | gateExpired.

Record clientGroup := mkGroup {
  g_incarnation : Z;
  g_wire : option bool; (* the wire record, and whether it is pending *)
  g_members : Z;
  g_provisional : Z;
  g_active : Z;
  g_creating : Z;
  g_state : groupState;
  g_quietUntil : Z;
  g_lease : leaseGateState;
  g_dropped : bool;
}.

Record session := mkSession {
  s_id : Z;
  s_clientID : Z;
  s_users : Z;
  s_destroyed : bool;
}.

Record sessionStore := mkStore {
  ss_gheap : gmap nat clientGroup;
  ss_gfresh : nat;
  ss_groups : gmap Z nat; (* by incarnation *)
  ss_groupCredits : Z;
  ss_groupLimit : Z;
  ss_sheap : gmap nat session;
  ss_sfresh : nat;
  ss_sessions : gmap Z nat; (* by session id *)
  ss_records : Z;
}.

(** ** Updates *)

Definition set_gheap (h : gmap nat clientGroup) (ss : sessionStore) : sessionStore :=
  mkStore h (ss_gfresh ss) (ss_groups ss) (ss_groupCredits ss) (ss_groupLimit ss)
    (ss_sheap ss) (ss_sfresh ss) (ss_sessions ss) (ss_records ss).
Definition set_groups (gs : gmap Z nat) (credits : Z) (ss : sessionStore) : sessionStore :=
  mkStore (ss_gheap ss) (ss_gfresh ss) gs credits (ss_groupLimit ss)
    (ss_sheap ss) (ss_sfresh ss) (ss_sessions ss) (ss_records ss).
Definition set_sessions (h : gmap nat session) (m : gmap Z nat) (records : Z) (ss : sessionStore) : sessionStore :=
  mkStore (ss_gheap ss) (ss_gfresh ss) (ss_groups ss) (ss_groupCredits ss) (ss_groupLimit ss)
    h (ss_sfresh ss) m records.

(** An assignment through a group pointer. *)
Definition upd (p : nat) (f : clientGroup -> clientGroup) (ss : sessionStore) : sessionStore :=
  set_gheap (alter f p (ss_gheap ss)) ss.

Definition add_counts (dprov dact dcre : Z) (g : clientGroup) : clientGroup :=
  mkGroup (g_incarnation g) (g_wire g) (g_members g) (g_provisional g + dprov) (g_active g + dact) (g_creating g + dcre)
    (g_state g) (g_quietUntil g) (g_lease g) (g_dropped g).
Definition set_state (st : groupState) (g : clientGroup) : clientGroup :=
  mkGroup (g_incarnation g) (g_wire g) (g_members g) (g_provisional g) (g_active g) (g_creating g)
    st (g_quietUntil g) (g_lease g) (g_dropped g).
Definition set_lease (l : leaseGateState) (g : clientGroup) : clientGroup :=
  mkGroup (g_incarnation g) (g_wire g) (g_members g) (g_provisional g) (g_active g) (g_creating g)
    (g_state g) (g_quietUntil g) l (g_dropped g).
Definition set_quiet (t : Z) (g : clientGroup) : clientGroup :=
  mkGroup (g_incarnation g) (g_wire g) (g_members g) (g_provisional g) (g_active g) (g_creating g)
    (g_state g) t (g_lease g) (g_dropped g).
Definition set_members (n : Z) (dropped : bool) (g : clientGroup) : clientGroup :=
  mkGroup (g_incarnation g) (g_wire g) n (g_provisional g) (g_active g) (g_creating g)
    (g_state g) (g_quietUntil g) (g_lease g) dropped.
Definition set_wire (w : option bool) (g : clientGroup) : clientGroup :=
  mkGroup (g_incarnation g) w (g_members g) (g_provisional g) (g_active g) (g_creating g)
    (g_state g) (g_quietUntil g) (g_lease g) (g_dropped g).

(** ** Tests *)

Definition busy (g : clientGroup) : bool := 0 <? g_provisional g + g_active g + g_creating g.

Definition leaseHeldLocked (now : Z) (g : clientGroup) : bool :=
  (0 <? g_provisional g) || (0 <? g_active g) || (now <? g_quietUntil g).

Definition is_closing (g : clientGroup) : bool := match g_state g with groupClosing => true | _ => false end.
Definition is_open (g : clientGroup) : bool := match g_state g with groupOpen => true | _ => false end.
Definition is_checking (g : clientGroup) : bool := match g_lease g with gateChecking => true | _ => false end.

(** * Operations on groups *)

(** [None] when every credit is held. *)
Definition groupLocked (incarnation : Z) (ss : sessionStore) : option (sessionStore * nat) :=
  match ss_groups ss !! incarnation with
  | Some p => Some (ss, p)
  | None =>
    if ss_groupLimit ss <=? ss_groupCredits ss then None
    else
      let p := ss_gfresh ss in
      let g := mkGroup incarnation None 0 0 0 0 groupOpen 0 gateLive false in
      Some (mkStore (<[p := g]> (ss_gheap ss)) (S p) (<[incarnation := p]> (ss_groups ss)) (ss_groupCredits ss + 1)
              (ss_groupLimit ss) (ss_sheap ss) (ss_sfresh ss) (ss_sessions ss) (ss_records ss), p)
  end.

Definition releaseGroupLocked (now : Z) (p : nat) (ss : sessionStore) : sessionStore :=
  match ss_gheap ss !! p with
  | Some g =>
    if bool_decide (g_wire g = None) && (g_members g =? 0) && negb (busy g) && negb (is_closing g) && negb (is_checking g) &&
       (g_dropped g || negb (now <? g_quietUntil g)) && bool_decide (ss_groups ss !! g_incarnation g = Some p)
    then set_groups (delete (g_incarnation g) (ss_groups ss)) (ss_groupCredits ss - 1) ss
    else ss
  | None => ss
  end.

(** [order] lists the pointers of the map in its iteration order. *)
Definition pruneGroupsLocked (now : Z) (order : list nat) (ss : sessionStore) : sessionStore :=
  fold_left (fun ss p => releaseGroupLocked now p ss) order ss.

Definition admissionStatusLocked (g : clientGroup) : Z :=
  match g_state g with
  | groupClosing => NFS4ERR_DELAY
  | groupReplaced => NFS4ERR_BADSESSION
  | groupOpen => NFS4_OK
  end.

(** The provisional hold of a SEQUENCE: its group, or the status that refuses it. *)
Definition holdRequest (sp : nat) (ss : sessionStore) : sessionStore * (option nat * Z) :=
  match ss_sheap ss !! sp with
  | None => (ss, (None, NFS4ERR_BADSESSION))
  | Some sess =>
    match ss_groups ss !! s_clientID sess with
    | None => (ss, (None, NFS4ERR_BADSESSION))
    | Some p =>
      if negb (bool_decide (ss_sessions ss !! s_id sess = Some sp)) then (ss, (None, NFS4ERR_BADSESSION))
      else
        match ss_gheap ss !! p with
        | None => (ss, (None, NFS4ERR_BADSESSION))
        | Some g =>
          if negb (admissionStatusLocked g =? NFS4_OK) then (ss, (None, admissionStatusLocked g))
          else
            match g_lease g with
            | gateChecking => (ss, (None, NFS4ERR_DELAY))
            | gateExpired => (ss, (None, NFS4ERR_BADSESSION))
            | gateLive => (upd p (add_counts 1 0 0) ss, (Some p, NFS4_OK))
            end
        end
    end
  end.

Definition gateStatus (p : nat) (ss : sessionStore) : Z :=
  match ss_gheap ss !! p with
  | Some g =>
    match g_lease g with
    | gateChecking => NFS4ERR_DELAY
    | gateExpired => NFS4ERR_BADSESSION
    | gateLive => NFS4_OK
    end
  | None => NFS4_OK
  end.

Definition activate (p : nat) (ss : sessionStore) : sessionStore := upd p (add_counts (-1) 1 0) ss.

(** The renewal at the end of an active hold. *)
Definition renew (now : Z) (g : clientGroup) : clientGroup :=
  if negb (g_dropped g) && (g_quietUntil g <? now + leaseTime) then set_quiet (now + leaseTime) g else g.

(** [requestHold.release] of a hold on [p]; it panics when a count underflows. *)
Definition release (now : Z) (p : nat) (active : bool) (ss : sessionStore) : outcome unit sessionStore :=
  let ss :=
    if active then upd p (fun g => renew now (add_counts 0 (-1) 0 g)) ss
    else upd p (add_counts (-1) 0 0) ss in
  match ss_gheap ss !! p with
  | Some g => if (g_active g <? 0) || (g_provisional g <? 0) then Panic else Ok (releaseGroupLocked now p ss)
  | None => Panic
  end.

Definition beginCreate (now incarnation : Z) (ss : sessionStore) : sessionStore * (option nat * Z) :=
  match groupLocked incarnation ss with
  | None => (ss, (None, NFS4ERR_DELAY))
  | Some (ss, p) =>
    match ss_gheap ss !! p with
    | None => (ss, (None, NFS4ERR_DELAY))
    | Some g =>
      let status :=
        match g_state g, g_lease g with
        | groupClosing, _ | _, gateChecking => NFS4ERR_DELAY
        | groupReplaced, _ | _, gateExpired => NFS4ERR_STALE_CLIENTID
        | groupOpen, gateLive => NFS4_OK
        end in
      if negb (status =? NFS4_OK) then (releaseGroupLocked now p ss, (None, status))
      else (upd p (add_counts 0 0 1) ss, (Some p, NFS4_OK))
    end
  end.

Definition endCreate (now : Z) (p : nat) (ss : sessionStore) : sessionStore :=
  releaseGroupLocked now p (upd p (add_counts 0 0 (-1)) ss).

Definition closeForReplacement (now incarnation : Z) (ss : sessionStore) : sessionStore * bool :=
  match groupLocked incarnation ss with
  | None => (ss, false)
  | Some (ss, p) =>
    match ss_gheap ss !! p with
    | None => (ss, false)
    | Some g =>
      if busy g || negb (is_open g) then (releaseGroupLocked now p ss, false)
      else (upd p (set_state groupClosing) ss, true)
    end
  end.

Definition endReplacement (now incarnation : Z) (state : groupState) (ss : sessionStore) : outcome unit sessionStore :=
  match ss_groups ss !! incarnation with
  | Some p =>
    match ss_gheap ss !! p with
    | Some g => if is_closing g then Ok (releaseGroupLocked now p (upd p (set_state state) ss)) else Panic
    | None => Panic
    end
  | None => Panic
  end.

(** * Sessions *)

(** [insertSessionLocked] of a new session object; the caller holds the group. *)
Definition insertSessionLocked (id clientID : Z) (ss : sessionStore) : outcome unit (sessionStore * nat) :=
  match groupLocked clientID ss with
  | None => Panic
  | Some (ss, p) =>
    let sp := ss_sfresh ss in
    let ss := mkStore (ss_gheap ss) (ss_gfresh ss) (ss_groups ss) (ss_groupCredits ss) (ss_groupLimit ss)
      (<[sp := mkSession id clientID 1 false]> (ss_sheap ss)) (S sp) (<[id := sp]> (ss_sessions ss)) (ss_records ss + 1) in
    Ok (upd p (fun g => set_members (g_members g + 1) false g) ss, sp)
  end.

Definition set_users (n : Z) (destroyed : bool) (s : session) : session := mkSession (s_id s) (s_clientID s) n destroyed.

Definition useSession (sp : nat) (ss : sessionStore) : sessionStore * bool :=
  match ss_sheap ss !! sp with
  | Some s =>
    if s_users s =? 0 then (ss, false)
    else (set_sessions (<[sp := set_users (s_users s + 1) (s_destroyed s) s]> (ss_sheap ss)) (ss_sessions ss) (ss_records ss) ss, true)
  | None => (ss, false)
  end.

(** The boolean says that the last use ended, which closes the session's file. *)
Definition releaseSessionUse (sp : nat) (ss : sessionStore) : outcome unit (sessionStore * bool) :=
  match ss_sheap ss !! sp with
  | Some s =>
    let users := s_users s - 1 in
    let h := <[sp := set_users users (s_destroyed s) s]> (ss_sheap ss) in
    if users <? 0 then Panic
    else if users =? 0 then Ok (set_sessions h (ss_sessions ss) (ss_records ss - 1) ss, true)
    else Ok (set_sessions h (ss_sessions ss) (ss_records ss) ss, false)
  | None => Panic
  end.

Definition detachSessionLocked (now : Z) (sp : nat) (ss : sessionStore) : sessionStore * bool :=
  match ss_sheap ss !! sp with
  | None => (ss, false)
  | Some s =>
    if negb (bool_decide (ss_sessions ss !! s_id s = Some sp)) then (ss, false)
    else
      let ss := set_sessions (ss_sheap ss) (delete (s_id s) (ss_sessions ss)) (ss_records ss) ss in
      match ss_groups ss !! s_clientID s with
      | Some p => (releaseGroupLocked now p (upd p (fun g => set_members (g_members g - 1) (g_dropped g) g) ss), true)
      | None => (ss, true)
      end
  end.

(** [sess.destroyed.Store(true)] and [detachSessionLocked], as the retirements do. *)
Definition destroy_and_detach (now : Z) (sp : nat) (ss : sessionStore) : sessionStore * bool :=
  match ss_sheap ss !! sp with
  | Some s => detachSessionLocked now sp
      (set_sessions (<[sp := set_users (s_users s) true s]> (ss_sheap ss)) (ss_sessions ss) (ss_records ss) ss)
  | None => (ss, false)
  end.

(** The group part of [retireWireLocked] and of [retireWireOf]. *)
Definition retireWireOf (now incarnation : Z) (ss : sessionStore) : sessionStore :=
  match ss_groups ss !! incarnation with
  | Some p =>
    match ss_gheap ss !! p with
    | Some g => if bool_decide (g_wire g = None) then ss else releaseGroupLocked now p (upd p (set_wire None) ss)
    | None => ss
    end
  | None => ss
  end.

(** The group part of [addWireLocked]: the incarnation's group has the record. *)
Definition addWireLocked (incarnation : Z) (pending : bool) (ss : sessionStore) : sessionStore :=
  match ss_groups ss !! incarnation with
  | Some p => upd p (set_wire (Some pending)) ss
  | None => ss
  end.

(** The group part of [confirmWireLocked]: the record, which is the group's, is
    not pending any more. *)
Definition confirmWireLocked (incarnation : Z) (ss : sessionStore) : sessionStore :=
  match ss_groups ss !! incarnation with
  | Some p => upd p (fun g => set_wire (option_map (fun _ => false) (g_wire g)) g) ss
  | None => ss
  end.

(** The session [commitLocked] inserts for the record's incarnation; [retired]
    is the flag of the record. The channel attributes and the cached reply are
    left out. *)
Definition commitLocked (now id incarnation : Z) (retired : bool) (ss : sessionStore) : outcome unit (sessionStore * option nat) :=
  let expired :=
    match ss_groups ss !! incarnation with
    | Some p => match ss_gheap ss !! p with Some g => match g_lease g with gateExpired => true | _ => false end | None => false end
    | None => false
    end in
  if retired || expired then Ok (ss, None)
  else
    let! (ss, sp) := insertSessionLocked id incarnation ss in
    let ss := confirmWireLocked incarnation ss in
    match ss_groups ss !! incarnation with
    | Some p => Ok (upd p (fun g => if g_quietUntil g <? now + leaseTime then set_quiet (now + leaseTime) g else g) ss, Some sp)
    | None => Ok (ss, Some sp)
    end.

(** The loop of [dropClientLocked] on the sessions, in the order of the map:
    it stops once the group has no member. The list is the detached sessions. *)
Fixpoint drop_sessions (now clientID : Z) (p : nat) (order : list nat) (ss : sessionStore) : sessionStore * list nat :=
  match order with
  | [] => (ss, [])
  | sp :: order =>
    match ss_gheap ss !! p, ss_sheap ss !! sp with
    | Some g, Some s =>
      if g_members g =? 0 then (ss, [])
      else if negb (s_clientID s =? clientID) then drop_sessions now clientID p order ss
      else
        let '(ss, detached) := destroy_and_detach now sp ss in
        let '(ss, retired) := drop_sessions now clientID p order ss in
        (ss, if detached then sp :: retired else retired)
    | _, _ => (ss, [])
    end
  end.

Definition set_dropped (g : clientGroup) : clientGroup :=
  mkGroup (g_incarnation g) (g_wire g) (g_members g) (g_provisional g) (g_active g) (g_creating g)
    (g_state g) 0 (g_lease g) true.

Definition dropClientLocked (now clientID : Z) (order : list nat) (ss : sessionStore) : sessionStore * list nat :=
  match ss_groups ss !! clientID with
  | None => (ss, [])
  | Some p =>
    let '(ss, retired) := drop_sessions now clientID p order (upd p set_dropped ss) in
    let ss :=
      match ss_gheap ss !! p with
      | Some g => if bool_decide (g_wire g = None) then ss else retireWireOf now clientID ss
      | None => ss
      end in
    (releaseGroupLocked now p ss, retired)
  end.

(** The loop of [retireIncarnationSessions]. *)
Fixpoint retire_sessions (now clientID : Z) (order : list nat) (ss : sessionStore) : sessionStore * list nat :=
  match order with
  | [] => (ss, [])
  | sp :: order =>
    match ss_sheap ss !! sp with
    | Some s =>
      if negb (s_clientID s =? clientID) then retire_sessions now clientID order ss
      else
        let '(ss, detached) := destroy_and_detach now sp ss in
        let '(ss, retired) := retire_sessions now clientID order ss in
        (ss, if detached then sp :: retired else retired)
    | None => retire_sessions now clientID order ss
    end
  end.

(** * Expiry *)

(** Where [decideExpired] is after its first critical section: the client is
    not expired, its record has to be removed, or it was expired already. *)
Inductive decision :=
| NotExpired
| Removing (p : nat)
| AlreadyExpired (p : nat).

Definition decide_begin (now clientID : Z) (startupLeaseHolds : bool) (ss : sessionStore) : sessionStore * decision :=
  match groupLocked clientID ss with
  | None => (ss, NotExpired)
  | Some (ss, p) =>
    match ss_gheap ss !! p with
    | None => (ss, NotExpired)
    | Some g =>
      match g_lease g with
      | gateExpired => (ss, AlreadyExpired p)
      | gateChecking => (releaseGroupLocked now p ss, NotExpired)
      | gateLive =>
        if leaseHeldLocked now g || (0 <? g_creating g) || startupLeaseHolds then (releaseGroupLocked now p ss, NotExpired)
        else if bool_decide (g_wire g = Some true) then (releaseGroupLocked now p ss, NotExpired)
        else (upd p (set_lease gateChecking) ss, Removing p)
      end
    end
  end.

(** The second critical section, after the record was removed or not. *)
Definition decide_end (now : Z) (p : nat) (removed : bool) (ss : sessionStore) : sessionStore :=
  if removed then upd p (set_lease gateExpired) ss
  else releaseGroupLocked now p (upd p (set_lease gateLive) ss).

(** * Histories *)

(** What the goroutines of the server hold between critical sections: a
    request's hold, a CREATE_SESSION in progress, a replacement in progress,
    an expiry being decided, the session use of an admitted request, and the
    membership use of a detached session. *)
Inductive token :=
| THold (p : nat) (active : bool)
| TCreate (p : nat)
| TClosing (p : nat)
| TDecide (p : nat)
| TUse (sp : nat)
| TMember (sp : nat).

(** [w_renewed] is when a group's lease was last renewed. *)
Record world := mkWorld {
  w_ss : sessionStore;
  w_tokens : gmap nat token;
  w_now : Z;
  w_renewed : gmap nat Z;
}.

Definition renewal (p : nat) (active : bool) (now : Z) (ss : sessionStore) (r : gmap nat Z) : gmap nat Z :=
  match ss_gheap ss !! p with
  | Some g => if active && negb (g_dropped g) then <[p := now]> r else r
  | None => r
  end.

Inductive step : world -> world -> Prop :=
| step_tick ss ts now r now' : now <= now' -> step (mkWorld ss ts now r) (mkWorld ss ts now' r)
| step_hold ss ts now r t sp ss' p st : ts !! t = None -> holdRequest sp ss = (ss', (Some p, st)) ->
    step (mkWorld ss ts now r) (mkWorld ss' (<[t := THold p false]> ts) now r)
| step_activate ss ts now r t p : ts !! t = Some (THold p false) ->
    step (mkWorld ss ts now r) (mkWorld (activate p ss) (<[t := THold p true]> ts) now r)
| step_release ss ts now r t p a ss' : ts !! t = Some (THold p a) -> release now p a ss = Ok ss' ->
    step (mkWorld ss ts now r) (mkWorld ss' (delete t ts) now (renewal p a now ss r))
| step_create ss ts now r t inc ss' p st : ts !! t = None -> beginCreate now inc ss = (ss', (Some p, st)) ->
    step (mkWorld ss ts now r) (mkWorld ss' (<[t := TCreate p]> ts) now r)
| step_create_refused ss ts now r inc ss' st : beginCreate now inc ss = (ss', (None, st)) ->
    step (mkWorld ss ts now r) (mkWorld ss' ts now r)
| step_commit ss ts now r t p g id retired ss' sp : ts !! t = Some (TCreate p) -> ss_gheap ss !! p = Some g ->
    ss_sessions ss !! id = None -> commitLocked now id (g_incarnation g) retired ss = Ok (ss', sp) ->
    step (mkWorld ss ts now r) (mkWorld ss' ts now (match sp with Some _ => <[p := now]> r | None => r end))
| step_end_create ss ts now r t p : ts !! t = Some (TCreate p) ->
    step (mkWorld ss ts now r) (mkWorld (endCreate now p ss) (delete t ts) now r)
| step_close ss ts now r t inc ss' p : ts !! t = None -> closeForReplacement now inc ss = (ss', true) ->
    ss_groups ss' !! inc = Some p ->
    step (mkWorld ss ts now r) (mkWorld ss' (<[t := TClosing p]> ts) now r)
| step_close_refused ss ts now r inc ss' : closeForReplacement now inc ss = (ss', false) ->
    step (mkWorld ss ts now r) (mkWorld ss' ts now r)
| step_end_replacement ss ts now r t p g st ss' : ts !! t = Some (TClosing p) -> ss_gheap ss !! p = Some g ->
    st <> groupClosing -> endReplacement now (g_incarnation g) st ss = Ok ss' ->
    step (mkWorld ss ts now r) (mkWorld ss' (delete t ts) now r)
| step_decide ss ts now r t inc startup ss' p : ts !! t = None -> decide_begin now inc startup ss = (ss', Removing p) ->
    step (mkWorld ss ts now r) (mkWorld ss' (<[t := TDecide p]> ts) now r)
| step_decide_other ss ts now r inc startup ss' d : decide_begin now inc startup ss = (ss', d) ->
    (forall p, d <> Removing p) -> step (mkWorld ss ts now r) (mkWorld ss' ts now r)
| step_decide_end ss ts now r t p removed : ts !! t = Some (TDecide p) ->
    step (mkWorld ss ts now r) (mkWorld (decide_end now p removed ss) (delete t ts) now r)
| step_use ss ts now r t sp ss' : ts !! t = None -> useSession sp ss = (ss', true) ->
    step (mkWorld ss ts now r) (mkWorld ss' (<[t := TUse sp]> ts) now r)
| step_release_use ss ts now r t sp ss' b : (ts !! t = Some (TUse sp) \/ ts !! t = Some (TMember sp)) ->
    releaseSessionUse sp ss = Ok (ss', b) ->
    step (mkWorld ss ts now r) (mkWorld ss' (delete t ts) now r)
| step_detach ss ts now r t sp ss' : ts !! t = None -> destroy_and_detach now sp ss = (ss', true) ->
    step (mkWorld ss ts now r) (mkWorld ss' (<[t := TMember sp]> ts) now r)
| step_detached ss ts now r sp ss' : destroy_and_detach now sp ss = (ss', false) ->
    step (mkWorld ss ts now r) (mkWorld ss' ts now r)
| step_drop ss ts now r inc p : ss_groups ss !! inc = Some p ->
    step (mkWorld ss ts now r) (mkWorld (upd p set_dropped ss) ts now r)
| step_wire ss ts now r inc pending : step (mkWorld ss ts now r) (mkWorld (addWireLocked inc pending ss) ts now r)
| step_retire_wire ss ts now r inc : step (mkWorld ss ts now r) (mkWorld (retireWireOf now inc ss) ts now r)
| step_release_group ss ts now r p : step (mkWorld ss ts now r) (mkWorld (releaseGroupLocked now p ss) ts now r).

Definition initial (limit : Z) : world :=
  mkWorld (mkStore ∅ 0 ∅ 0 limit ∅ 0 ∅ 0) ∅ 0 ∅.

Definition reachable (limit : Z) : world -> Prop := rtc step (initial limit).

(** * Invariant *)

Definition is_prov (p : nat) (tk : token) : bool := match tk with THold q false => bool_decide (q = p) | _ => false end.
Definition is_act (p : nat) (tk : token) : bool := match tk with THold q true => bool_decide (q = p) | _ => false end.
Definition is_cre (p : nat) (tk : token) : bool := match tk with TCreate q => bool_decide (q = p) | _ => false end.
Definition is_cls (p : nat) (tk : token) : bool := match tk with TClosing q => bool_decide (q = p) | _ => false end.
Definition is_dec (p : nat) (tk : token) : bool := match tk with TDecide q => bool_decide (q = p) | _ => false end.
Definition is_use (sp : nat) (tk : token) : bool := match tk with TUse q | TMember q => bool_decide (q = sp) | _ => false end.

Definition tok_ptr (tk : token) : option nat :=
  match tk with THold p _ | TCreate p | TClosing p | TDecide p => Some p | _ => None end.
Definition tok_sess (tk : token) : option nat :=
  match tk with TUse sp | TMember sp => Some sp | _ => None end.

(** The counts of a group are those of its holders, and a group that is not
    open and live has none. *)
Record group_ok (ts : gmap nat token) (p : nat) (g : clientGroup) : Prop := {
  go_prov : g_provisional g = Z.of_nat (count (is_prov p) ts);
  go_act : g_active g = Z.of_nat (count (is_act p) ts);
  go_cre : g_creating g = Z.of_nat (count (is_cre p) ts);
  go_cls : count (is_cls p) ts = bit (is_closing g);
  go_dec : count (is_dec p) ts = bit (is_checking g);
  go_gate : g_lease g <> gateLive \/ g_state g <> groupOpen ->
    g_provisional g = 0 /\ g_active g = 0 /\ g_creating g = 0;
}.

Definition belongs (ss : sessionStore) (inc : Z) (sp : nat) : bool :=
  match ss_sheap ss !! sp with Some s => s_clientID s =? inc | None => false end.
Definition attached (ss : sessionStore) (sp : nat) (s : session) : bool := bool_decide (ss_sessions ss !! s_id s = Some sp).

Record Inv (w : world) : Prop := {
  i_map : forall inc p, ss_groups (w_ss w) !! inc = Some p -> exists g, ss_gheap (w_ss w) !! p = Some g /\ g_incarnation g = inc;
  i_gfresh : forall p, is_Some (ss_gheap (w_ss w) !! p) -> (p < ss_gfresh (w_ss w))%nat;
  i_sfresh : forall sp, is_Some (ss_sheap (w_ss w) !! sp) -> (sp < ss_sfresh (w_ss w))%nat;
  i_credit : ss_groupCredits (w_ss w) = Z.of_nat (size (ss_groups (w_ss w))) /\ ss_groupCredits (w_ss w) <= ss_groupLimit (w_ss w);
  i_group : forall p g, ss_gheap (w_ss w) !! p = Some g -> group_ok (w_tokens w) p g;
  i_tok : forall t tk p, w_tokens w !! t = Some tk -> tok_ptr tk = Some p ->
    exists g, ss_gheap (w_ss w) !! p = Some g /\ ss_groups (w_ss w) !! g_incarnation g = Some p;
  i_sess : forall id sp, ss_sessions (w_ss w) !! id = Some sp ->
    exists s, ss_sheap (w_ss w) !! sp = Some s /\ s_id s = id /\ is_Some (ss_groups (w_ss w) !! s_clientID s);
  i_members : forall inc p g, ss_groups (w_ss w) !! inc = Some p -> ss_gheap (w_ss w) !! p = Some g ->
    g_members g = Z.of_nat (count (belongs (w_ss w) inc) (ss_sessions (w_ss w)));
  i_users : forall sp s, ss_sheap (w_ss w) !! sp = Some s ->
    s_users s = Z.of_nat (bit (attached (w_ss w) sp s) + count (is_use sp) (w_tokens w));
  i_stok : forall t tk sp, w_tokens w !! t = Some tk -> tok_sess tk = Some sp -> is_Some (ss_sheap (w_ss w) !! sp);
  i_records : ss_records (w_ss w) = Z.of_nat (count (fun s => 0 <? s_users s) (ss_sheap (w_ss w)));
  i_rfresh : forall p, is_Some (w_renewed w !! p) -> is_Some (ss_gheap (w_ss w) !! p);
  i_renew : forall p g t, w_renewed w !! p = Some t -> ss_gheap (w_ss w) !! p = Some g -> g_dropped g = false ->
    t + leaseTime <= g_quietUntil g;
}.

(** ** Changes of the tokens of one group *)

(** The tokens of [ts'] are those of [ts], except for one that refers to [p]. *)
Inductive tok_change (p : nat) (ts : gmap nat token) : gmap nat token -> Prop :=
| tc_same : tok_change p ts ts
| tc_add t tk : ts !! t = None -> tok_ptr tk = Some p -> tok_change p ts (<[t := tk]> ts)
| tc_set t tk tk' : ts !! t = Some tk -> tok_ptr tk = Some p -> tok_ptr tk' = Some p -> tok_change p ts (<[t := tk']> ts)
| tc_del t tk : ts !! t = Some tk -> tok_ptr tk = Some p -> tok_change p ts (delete t ts).

Lemma tok_change_count p ts ts' (P : token -> bool) : tok_change p ts ts' ->
  (forall tk, tok_ptr tk = Some p -> P tk = false) -> count P ts' = count P ts.
Proof.
  intros H HP. destruct H as [|t tk Ht Hp|t tk tk' Ht Hp Hp'|t tk Ht Hp]; [done|..].
  - by rewrite count_add, (HP tk Hp).
  - pose proof (count_update P ts t tk tk' Ht) as H. rewrite (HP tk Hp), (HP tk' Hp') in H. simpl in H. lia.
  - pose proof (count_remove P ts t tk Ht) as H. rewrite (HP tk Hp) in H. simpl in H. lia.
Qed.

Lemma tok_change_lookup p ts ts' t tk : tok_change p ts ts' -> ts' !! t = Some tk -> tok_ptr tk = Some p \/ ts !! t = Some tk.
Proof.
  intros H Ht. destruct H as [|t0 tk0 H1 H2|t0 tk0 tk1 H1 H2 H3|t0 tk0 H1 H2]; [by right|..].
  - destruct (decide (t = t0)) as [->|]; [rewrite lookup_insert_eq in Ht; left; congruence | rewrite lookup_insert_ne in Ht by done; by right].
  - destruct (decide (t = t0)) as [->|]; [rewrite lookup_insert_eq in Ht; left; congruence | rewrite lookup_insert_ne in Ht by done; by right].
  - apply lookup_delete_Some in Ht as [_ Ht]. by right.
Qed.

Lemma group_ok_other p q ts ts' g : tok_change p ts ts' -> q <> p -> group_ok ts q g -> group_ok ts' q g.
Proof.
  intros H Hne [H1 H2 H3 H4 H5 H6].
  assert (Hc : forall P, (forall tk, tok_ptr tk = Some p -> P tk = false) -> count P ts' = count P ts) by (intros; by eapply tok_change_count).
  constructor; [rewrite Hc; [done|] .. | done]; intros [] [= ->]; simpl; try done; try (destruct active; try done);
    by rewrite bool_decide_eq_false_2.
Qed.

(** A critical section that assigns through [p]. *)
Lemma upd_inv ss ts now r p g f ts' r' :
  Inv (mkWorld ss ts now r) -> ss_gheap ss !! p = Some g -> tok_change p ts ts' ->
  (ts' = ts \/ ss_groups ss !! g_incarnation g = Some p) ->
  g_incarnation (f g) = g_incarnation g -> g_members (f g) = g_members g -> group_ok ts' p (f g) ->
  (forall q, q <> p -> r' !! q = r !! q) ->
  (forall t, r' !! p = Some t -> g_dropped (f g) = false -> t + leaseTime <= g_quietUntil (f g)) ->
  Inv (mkWorld (upd p f ss) ts' now r').
Proof.
  intros [I1 I2 I3 I4 I5 I6 I7 I8 I9 I10 I11 I12 I13] Hp Htc Hmap Hinc Hmem Hok Hr Hrp. simpl in *.
  assert (Hl : forall q, ss_gheap (upd p f ss) !! q = if decide (q = p) then Some (f g) else ss_gheap ss !! q).
  { intros q. simpl. case_decide as Hd; [subst; by rewrite lookup_alter_eq, Hp | by rewrite lookup_alter_ne]. }
  assert (Huse : forall sp, count (is_use sp) ts' = count (is_use sp) ts).
  { intros sp. eapply tok_change_count; [done|]. by intros [] [= ->]. }
  constructor; cbn [w_ss w_tokens w_now w_renewed]; try done.
  - intros inc q Hq. rewrite Hl. destruct (I1 inc q Hq) as (g0 & H0 & H0'). case_decide; [subst; rewrite Hp in H0; simplify_eq; eauto | eauto].
  - intros q. rewrite Hl. case_decide; [subst; intros _; apply I2; by rewrite Hp | apply I2].
  - intros q g0. rewrite Hl. case_decide as Hd; [intros [= <-]; by subst|]. intros Hq. by eapply group_ok_other; eauto.
  - intros t tk q Ht Hq. rewrite Hl. destruct (tok_change_lookup _ _ _ _ _ Htc Ht) as [Hq'|Hold].
    + rewrite Hq in Hq'. injection Hq' as ->. rewrite decide_True by done. exists (f g). split; [done|]. simpl. rewrite Hinc.
      destruct Hmap as [->|Hm]; [|done]. destruct (I6 t tk p Ht Hq) as (g0 & H0 & H0'). by simplify_eq.
    + destruct (I6 t tk q Hold Hq) as (g0 & H0 & H0'). case_decide; [subst; simplify_eq; exists (f g); simpl; by rewrite Hinc | eauto].
  - intros inc q g0 Hq. rewrite Hl. case_decide; [subst; intros [= <-]; rewrite Hmem; by apply (I8 inc p g) | by apply I8].
  - intros sp s Hs. rewrite Huse. by apply I9.
  - intros t tk sp Ht Hs. destruct (tok_change_lookup _ _ _ _ _ Htc Ht) as [Hq'|Hold]; [by destruct tk | by eapply I10].
  - intros q. rewrite Hl. case_decide; [by eauto|]. rewrite Hr by done. apply I12.
  - intros q g0 t. rewrite Hl. case_decide; [subst; intros Ht [= <-]; by apply Hrp|]. rewrite Hr by done. by apply I13.
Qed.

(** ** Forgetting and making groups *)

Lemma release_group_inv ss ts now r now' p : Inv (mkWorld ss ts now r) -> Inv (mkWorld (releaseGroupLocked now' p ss) ts now r).
Proof.
  intros HI. unfold releaseGroupLocked. destruct (ss_gheap ss !! p) as [g|] eqn:Hp; [|done].
  destruct (_ && bool_decide _) eqn:Hc; [|done]. reflect_bools.
  repeat match goal with H : bool_decide _ = true |- _ => apply bool_decide_eq_true in H end.
  destruct HI as [I1 I2 I3 I4 I5 I6 I7 I8 I9 I10 I11 I12 I13]. simpl in *. destruct (I5 p g Hp) as [G1 G2 G3 G4 G5 _].
  unfold busy in *. apply Z.ltb_ge in H4.
  assert (Hnone : forall t tk, ts !! t = Some tk -> tok_ptr tk <> Some p).
  { intros t tk Ht Hq. rewrite H3 in G4. rewrite H2 in G5.
    destruct tk as [q [|]|q|q|q|q|q]; simplify_eq/=.
    - pose proof (count_positive (is_act p) ts t _ Ht ltac:(simpl; by rewrite bool_decide_eq_true_2)). lia.
    - pose proof (count_positive (is_prov p) ts t _ Ht ltac:(simpl; by rewrite bool_decide_eq_true_2)). lia.
    - pose proof (count_positive (is_cre p) ts t _ Ht ltac:(simpl; by rewrite bool_decide_eq_true_2)). lia.
    - pose proof (count_positive (is_cls p) ts t _ Ht ltac:(simpl; by rewrite bool_decide_eq_true_2)). simpl in G4. lia.
    - pose proof (count_positive (is_dec p) ts t _ Ht ltac:(simpl; by rewrite bool_decide_eq_true_2)). simpl in G5. lia. }
  constructor; simpl; try done.
  - intros inc q Hq. apply lookup_delete_Some in Hq as [_ Hq]. by apply I1.
  - rewrite map_size_delete_Some by (by eexists). rewrite (proj1 I4).
    pose proof (map_size_ne_0_lookup_2 (ss_groups ss) (g_incarnation g) ltac:(by eexists)). lia.
  - intros t tk q Ht Hq. destruct (I6 t tk q Ht Hq) as (g0 & H0' & H0''). exists g0. split; [done|].
    rewrite lookup_delete_ne; [done|]. intros Heq. rewrite <- Heq in H0''. rewrite H0'' in H0. simplify_eq. by eapply Hnone.
  - intros id sp Hs. destruct (I7 id sp Hs) as (s & Hs1 & Hs2 & Hs3). exists s. split; [done|]. split; [done|].
    rewrite lookup_delete_ne; [done|]. intros Heq.
    assert (Hm : count (belongs ss (g_incarnation g)) (ss_sessions ss) = 0%nat) by (rewrite (I8 _ p g) in H5 by done; lia).
    pose proof (count_zero _ _ _ _ Hm Hs) as Hb. unfold belongs in Hb. rewrite Hs1 in Hb. lia.
  - intros inc q g0 Hq. apply lookup_delete_Some in Hq as [_ Hq]. by apply I8.
Qed.

Lemma group_locked_inv ss ts now r inc ss' p : Inv (mkWorld ss ts now r) -> groupLocked inc ss = Some (ss', p) ->
  Inv (mkWorld ss' ts now r) /\ ss_groups ss' !! inc = Some p /\
  (exists g, ss_gheap ss' !! p = Some g /\ g_incarnation g = inc) /\
  ss_sheap ss' = ss_sheap ss /\ ss_sessions ss' = ss_sessions ss.
Proof.
  intros HI H. unfold groupLocked in H. destruct (ss_groups ss !! inc) as [q|] eqn:Hq.
  { injection H as <- <-. split_and!; [done | done | by apply (i_map _ HI) | done | done]. }
  destruct (Z.leb_spec (ss_groupLimit ss) (ss_groupCredits ss)); [done|]. injection H as <- <-. simpl.
  destruct HI as [I1 I2 I3 I4 I5 I6 I7 I8 I9 I10 I11 I12 I13]. simpl in *.
  assert (Hnew : ss_gheap ss !! ss_gfresh ss = None).
  { destruct (ss_gheap ss !! ss_gfresh ss) eqn:E; [|done]. specialize (I2 (ss_gfresh ss) ltac:(by eexists)). lia. }
  assert (Hne : forall q, is_Some (ss_gheap ss !! q) -> q <> ss_gfresh ss) by (intros q Hq' ->; rewrite Hnew in Hq'; by destruct Hq').
  split_and!; [|by rewrite lookup_insert_eq | eexists; by rewrite lookup_insert_eq | done | done].
  constructor; simpl; try done.
  - intros inc' q Hq'. destruct (decide (inc' = inc)) as [->|]; [rewrite lookup_insert_eq in Hq'; simplify_eq; eexists; by rewrite lookup_insert_eq|].
    rewrite lookup_insert_ne in Hq' by done. destruct (I1 inc' q Hq') as (g & Hg & ?). rewrite lookup_insert_ne; [eauto|]. symmetry. apply Hne. eauto.
  - intros q Hs. destruct (decide (q = ss_gfresh ss)); [lia|]. rewrite lookup_insert_ne in Hs by done. specialize (I2 q Hs). lia.
  - rewrite map_size_insert_None by done. lia.
  - intros q g Hg. destruct (decide (q = ss_gfresh ss)) as [->|]; [|rewrite lookup_insert_ne in Hg by done; by apply I5].
    rewrite lookup_insert_eq in Hg. injection Hg as <-.
    assert (Hz : forall P : token -> bool, (forall tk, P tk = true -> tok_ptr tk = Some (ss_gfresh ss)) -> count P ts = 0%nat).
    { intros P HP. apply count_none. intros t tk Ht. destruct (P tk) eqn:E; [|done].
      destruct (I6 t tk _ Ht (HP tk E)) as (g & Hg & _). congruence. }
    constructor; simpl; [rewrite Hz; [done|] .. | by intros [?|?]]; intros [] E; simpl in E; try done; try (destruct active; try done);
      apply bool_decide_eq_true in E; by subst.
  - intros t tk q Ht Htq. destruct (I6 t tk q Ht Htq) as (g & Hg & Hm). exists g. rewrite lookup_insert_ne by (symmetry; apply Hne; eauto).
    split; [done|]. rewrite lookup_insert_ne; [done|]. intros Heq. rewrite Heq in Hq. congruence.
  - intros id sp Hs. destruct (I7 id sp Hs) as (s & ? & ? & Hs'). exists s. split; [done|]. split; [done|]. by apply lookup_insert_is_Some'; right.
  - intros inc' q g Hq' Hg. destruct (decide (inc' = inc)) as [->|].
    + rewrite lookup_insert_eq in Hq'. injection Hq' as <-. rewrite lookup_insert_eq in Hg. injection Hg as <-. simpl.
      rewrite count_none; [done|]. intros id sp Hs. destruct (I7 id sp Hs) as (s & Hs1 & _ & Hs3). unfold belongs. simpl. rewrite Hs1.
      apply Z.eqb_neq. intros Heq. rewrite Heq, Hq in Hs3. by destruct Hs3.
    + rewrite lookup_insert_ne in Hq' by done. destruct (I1 inc' q Hq') as (g0 & Hg0 & _).
      rewrite lookup_insert_ne in Hg by (symmetry; apply Hne; eauto). by apply (I8 inc' q).
  - intros q Hs. destruct (I12 q Hs) as [g Hg]. rewrite lookup_insert_ne; [by eexists|]. symmetry. apply Hne. by eexists.
  - intros q g t Ht Hg. destruct (I12 q ltac:(by eexists)) as [g0 Hg0]. rewrite lookup_insert_ne in Hg by (symmetry; apply Hne; by eexists). by apply (I13 q).
Qed.

(** ** Session steps *)

Inductive stok_change (ts : gmap nat token) : gmap nat token -> Prop :=
| sc_same : stok_change ts ts
| sc_add t tk : ts !! t = None -> tok_ptr tk = None -> stok_change ts (<[t := tk]> ts)
| sc_del t tk : ts !! t = Some tk -> tok_ptr tk = None -> stok_change ts (delete t ts).

Lemma stok_change_count ts ts' (P : token -> bool) : stok_change ts ts' ->
  (forall tk, tok_ptr tk = None -> P tk = false) -> count P ts' = count P ts.
Proof.
  intros H HP. destruct H as [|t tk Ht Hp|t tk Ht Hp]; [done|..].
  - by rewrite count_add, (HP tk Hp).
  - pose proof (count_remove P ts t tk Ht) as H. rewrite (HP tk Hp) in H. simpl in H. lia.
Qed.

Lemma stok_change_lookup ts ts' t tk : stok_change ts ts' -> ts' !! t = Some tk -> tok_ptr tk = None \/ ts !! t = Some tk.
Proof.
  intros H Ht. destruct H as [|t0 tk0 H1 H2|t0 tk0 H1 H2]; [by right|..].
  - destruct (decide (t = t0)) as [->|]; [rewrite lookup_insert_eq in Ht; left; congruence | rewrite lookup_insert_ne in Ht by done; by right].
  - apply lookup_delete_Some in Ht as [_ Ht]. by right.
Qed.

Lemma group_ok_stok ts ts' p g : stok_change ts ts' -> group_ok ts p g -> group_ok ts' p g.
Proof.
  intros H [H1 H2 H3 H4 H5 H6].
  assert (Hc : forall P, (forall tk, tok_ptr tk = None -> P tk = false) -> count P ts' = count P ts) by (intros; by eapply stok_change_count).
  constructor; [rewrite Hc; [done | by intros []] .. | done].
Qed.

(** The number of uses and the flag of a session change, with the tokens. *)
Lemma sess_inv ss ts now r sp s n d ts' :
  Inv (mkWorld ss ts now r) -> ss_sheap ss !! sp = Some s -> stok_change ts ts' ->
  (forall q, q <> sp -> count (is_use q) ts' = count (is_use q) ts) ->
  (forall t tk q, ts' !! t = Some tk -> tok_sess tk = Some q -> q = sp \/ ts !! t = Some tk) ->
  n = Z.of_nat (bit (attached ss sp s) + count (is_use sp) ts') ->
  Inv (mkWorld (set_sessions (<[sp := set_users n d s]> (ss_sheap ss)) (ss_sessions ss)
    (ss_records ss + Z.of_nat (bit (0 <? n)) - Z.of_nat (bit (0 <? s_users s))) ss) ts' now r).
Proof.
  intros [I1 I2 I3 I4 I5 I6 I7 I8 I9 I10 I11 I12 I13] Hs Hsc Hother Htok Hn. simpl in *.
  assert (Hb : forall inc q, belongs (set_sessions (<[sp := set_users n d s]> (ss_sheap ss)) (ss_sessions ss) 0 ss) inc q = belongs ss inc q).
  { intros inc q. unfold belongs. simpl. destruct (decide (q = sp)) as [->|]; [by rewrite lookup_insert_eq, Hs | by rewrite lookup_insert_ne]. }
  constructor; simpl; try done.
  - intros q Hq. destruct (decide (q = sp)) as [->|]; [apply I3; by eexists|]. rewrite lookup_insert_ne in Hq by done. by apply I3.
  - intros p g Hp. eapply group_ok_stok; eauto.
  - intros t tk p Ht Hp. destruct (stok_change_lookup _ _ _ _ Hsc Ht) as [?|Ht']; [congruence | by eapply I6].
  - intros id q Hq. destruct (I7 id q Hq) as (s0 & Hs0 & H1 & H2). destruct (decide (q = sp)) as [->|].
    + rewrite Hs in Hs0. simplify_eq. eexists. rewrite lookup_insert_eq. split; [done|]. split; [done | exact H2].
    + exists s0. by rewrite lookup_insert_ne.
  - intros inc p g Hp Hg. rewrite (I8 inc p g Hp Hg). f_equal. apply count_ext. intros id q _. symmetry. apply Hb.
  - intros q s0 Hq. destruct (decide (q = sp)) as [->|Hne].
    + rewrite lookup_insert_eq in Hq. injection Hq as <-. exact Hn.
    + rewrite lookup_insert_ne in Hq by done. rewrite Hother by done. by apply I9.
  - intros t tk q Ht Hq. destruct (Htok t tk q Ht Hq) as [->|Ht']; [rewrite lookup_insert_eq; by eexists|].
    destruct (decide (q = sp)) as [->|]; [rewrite lookup_insert_eq; by eexists | rewrite lookup_insert_ne by done; by eapply I10].
  - pose proof (count_update (fun s => 0 <? s_users s) (ss_sheap ss) sp s (set_users n d s) Hs) as Hc. simpl in Hc. lia.
Qed.

(** ** Group steps *)

(** The counts of a group change by the tokens [dels] before and [adds] after. *)
Definition tok_bits (p : nat) (tk : token) : Z * Z * Z * nat * nat :=
  (Z.of_nat (bit (is_prov p tk)), Z.of_nat (bit (is_act p tk)), Z.of_nat (bit (is_cre p tk)), bit (is_cls p tk), bit (is_dec p tk)).

Definition counts_of (g : clientGroup) : Z * Z * Z * nat * nat :=
  (g_provisional g, g_active g, g_creating g, bit (is_closing g), bit (is_checking g)).

Definition gate_rule (g : clientGroup) : Prop :=
  g_lease g <> gateLive \/ g_state g <> groupOpen -> g_provisional g = 0 /\ g_active g = 0 /\ g_creating g = 0.

Lemma group_ok_add ts t p tk g g' : ts !! t = None -> group_ok ts p g -> gate_rule g' ->
  counts_of g' = (let '(a, b, c, d, e) := counts_of g in let '(a', b', c', d', e') := tok_bits p tk in
    (a + a', b + b', c + c', (d + d')%nat, (e + e')%nat)) ->
  group_ok (<[t := tk]> ts) p g'.
Proof.
  intros Ht [H1 H2 H3 H4 H5 _] Hg Hc. unfold counts_of, tok_bits in Hc. injection Hc as C1 C2 C3 C4 C5.
  constructor; rewrite ?(count_add _ _ _ _ Ht); try done; lia.
Qed.

Lemma group_ok_del ts t p tk g g' : ts !! t = Some tk -> group_ok ts p g -> gate_rule g' ->
  counts_of g = (let '(a, b, c, d, e) := counts_of g' in let '(a', b', c', d', e') := tok_bits p tk in
    (a + a', b + b', c + c', (d + d')%nat, (e + e')%nat)) ->
  group_ok (delete t ts) p g'.
Proof.
  intros Ht [H1 H2 H3 H4 H5 _] Hg Hc. unfold counts_of, tok_bits in Hc. injection Hc as C1 C2 C3 C4 C5.
  pose proof (fun P => count_remove P ts t tk Ht) as Hr.
  pose proof (Hr (is_prov p)). pose proof (Hr (is_act p)). pose proof (Hr (is_cre p)). pose proof (Hr (is_cls p)). pose proof (Hr (is_dec p)).
  constructor; try done; lia.
Qed.

(** The group changes, its counts do not. *)
Lemma group_ok_same ts p g g' : group_ok ts p g -> gate_rule g' -> counts_of g' = counts_of g -> group_ok ts p g'.
Proof.
  intros [H1 H2 H3 H4 H5 _] Hg Hc. unfold counts_of in Hc. injection Hc as C1 C2 C3 C4 C5. constructor; try done; lia.
Qed.

Lemma bool_decide_refl (p : nat) : bool_decide (p = p) = true.
Proof. by apply bool_decide_eq_true_2. Qed.

Ltac counts :=
  unfold counts_of, tok_bits, add_counts, is_closing, is_checking; simpl; rewrite ?bool_decide_refl; simpl;
  repeat match goal with |- (_, _) = (_, _) => apply f_equal2 end; lia.

Lemma hold_inv ss ts now r t sp ss' p st : Inv (mkWorld ss ts now r) -> ts !! t = None ->
  holdRequest sp ss = (ss', (Some p, st)) ->
  Inv (mkWorld ss' (<[t := THold p false]> ts) now r) /\
  exists s g, ss_sheap ss !! sp = Some s /\ ss_sessions ss !! s_id s = Some sp /\ ss_groups ss !! s_clientID s = Some p /\
    ss_gheap ss !! p = Some g /\ g_lease g = gateLive.
Proof.
  intros HI Ht H. unfold holdRequest in H. destruct (ss_sheap ss !! sp) as [s|] eqn:Hs; [|done].
  destruct (ss_groups ss !! s_clientID s) as [q|] eqn:Hq; [|done].
  destruct (bool_decide _) eqn:Hatt; [|done]. apply bool_decide_eq_true in Hatt. simpl in H.
  destruct (ss_gheap ss !! q) as [g|] eqn:Hg; [|done]. destruct (g_lease g) eqn:Hl; [|by repeat case_match..].
  destruct (g_state g) eqn:Hst; unfold admissionStatusLocked in H; rewrite Hst in H; [|done..]. simpl in H.
  injection H as <- <- _. split; [|by exists s, g].
  destruct (i_map _ HI _ _ Hq) as (g0 & Hg0 & Hinc). simpl in Hg0. rewrite Hg in Hg0. injection Hg0 as <-.
  pose proof (i_group _ HI q g Hg) as Hok. simpl in Hok.
  eapply upd_inv; eauto; [by apply tc_add | right; by rewrite Hinc | | by intros; apply (i_renew _ HI q g)].
  eapply group_ok_add; eauto; [|counts]. intros [Hn|Hn]; simpl in Hn; congruence.
Qed.

(** A holder's group is open and live. *)
Lemma token_group ss ts now r t tk p : Inv (mkWorld ss ts now r) -> ts !! t = Some tk -> tok_ptr tk = Some p ->
  exists g, ss_gheap ss !! p = Some g /\ ss_groups ss !! g_incarnation g = Some p /\ group_ok ts p g /\
    (match tk with THold _ _ | TCreate _ => g_lease g = gateLive /\ g_state g = groupOpen | _ => True end).
Proof.
  intros HI Ht Hp. destruct (i_tok _ HI t tk p Ht Hp) as (g & Hg & Hm). simpl in *.
  pose proof (i_group _ HI p g Hg) as Hok. exists g. split_and!; [done..|].
  destruct Hok as [H1 H2 H3 _ _ Hgate]. simpl in *.
  assert (Hbusy : (match tk with THold _ _ | TCreate _ => True | _ => False end) ->
    ~ (g_provisional g = 0 /\ g_active g = 0 /\ g_creating g = 0)).
  { intros Htk. rewrite H1, H2, H3. destruct tk as [q [|]|q|q|q|q|q]; simplify_eq/=; try done.
    - pose proof (count_positive (is_act p) ts t _ Ht ltac:(simpl; apply bool_decide_refl)). lia.
    - pose proof (count_positive (is_prov p) ts t _ Ht ltac:(simpl; apply bool_decide_refl)). lia.
    - pose proof (count_positive (is_cre p) ts t _ Ht ltac:(simpl; apply bool_decide_refl)). lia. }
  destruct tk; try done; (destruct (g_lease g) eqn:Hl, (g_state g) eqn:Hs; try done);
    exfalso; apply Hbusy; try done; apply Hgate; (left; congruence) || (right; congruence).
Qed.

Lemma activate_inv ss ts now r t p : Inv (mkWorld ss ts now r) -> ts !! t = Some (THold p false) ->
  Inv (mkWorld (activate p ss) (<[t := THold p true]> ts) now r).
Proof.
  intros HI Ht. destruct (token_group _ _ _ _ _ _ _ HI Ht eq_refl) as (g & Hg & Hm & Hok & Hl & Hst).
  eapply upd_inv; eauto; [by eapply tc_set | | by intros; apply (i_renew _ HI p g)].
  pose proof (fun P => count_update P ts t _ (THold p true) Ht) as Hc. destruct Hok as [H1 H2 H3 H4 H5 _].
  pose proof (Hc (is_prov p)) as C1. pose proof (Hc (is_act p)) as C2. pose proof (Hc (is_cre p)) as C3.
  pose proof (Hc (is_cls p)) as C4. pose proof (Hc (is_dec p)) as C5. simpl in C1, C2, C3, C4, C5.
  rewrite bool_decide_refl in C1, C2. simpl in C1, C2.
  constructor; simpl; try (unfold is_closing, is_checking in *; simpl; lia). intros [Hn|Hn]; congruence.
Qed.

Lemma counts_renew now g : counts_of (renew now g) = counts_of g.
Proof. unfold renew. by case_match. Qed.

Lemma release_inv ss ts now r t p a : Inv (mkWorld ss ts now r) -> ts !! t = Some (THold p a) ->
  exists ss', release now p a ss = Ok ss' /\ Inv (mkWorld ss' (delete t ts) now (renewal p a now ss r)).
Proof.
  intros HI Ht. destruct (token_group _ _ _ _ _ _ _ HI Ht eq_refl) as (g & Hg & Hm & Hok & Hl & Hst).
  set (f := fun g => if a then renew now (add_counts 0 (-1) 0 g) else add_counts (-1) 0 0 g).
  assert (Hf : (if a then upd p (fun g => renew now (add_counts 0 (-1) 0 g)) ss else upd p (add_counts (-1) 0 0) ss) = upd p f ss)
    by (by destruct a).
  assert (HI' : Inv (mkWorld (upd p f ss) (delete t ts) now (renewal p a now ss r))).
  { eapply upd_inv; eauto; [by eapply tc_del | unfold f; destruct a; unfold renew; by repeat case_match
      | unfold f; destruct a; unfold renew; by repeat case_match | | |].
    - eapply group_ok_del; eauto; [intros [Hn|Hn]; unfold f, renew in Hn; repeat case_match; simpl in Hn; congruence|].
      unfold f. destruct a; rewrite ?counts_renew; counts.
    - intros q Hne. unfold renewal. rewrite Hg. destruct (a && _); [by rewrite lookup_insert_ne | done].
    - intros t0 Hr Hd. unfold renewal in Hr. rewrite Hg in Hr.
      assert (Hdg : g_dropped g = false) by (unfold f, renew in Hd; by repeat case_match).
      rewrite Hdg, andb_true_r in Hr. unfold f, renew in *. destruct a; simpl in *.
      + rewrite lookup_insert_eq in Hr. injection Hr as <-. rewrite Hdg. simpl.
        destruct (Z.ltb_spec (g_quietUntil g) (now + leaseTime)); simpl; lia.
      + by apply (i_renew _ HI p g). }
  exists (releaseGroupLocked now p (upd p f ss)). split; [|by apply release_group_inv].
  unfold release. rewrite Hf. simpl. rewrite lookup_alter_eq, Hg. simpl.
  pose proof (i_group _ HI' p (f g)) as Hok'. simpl in Hok'. rewrite lookup_alter_eq, Hg in Hok'.
  destruct (Hok' eq_refl) as [G1 G2 _ _ _ _]. by rewrite !(proj2 (Z.ltb_ge _ _)) by lia.
Qed.

Lemma idle_counts ts p g : group_ok ts p g -> busy g = false -> g_provisional g = 0 /\ g_active g = 0 /\ g_creating g = 0.
Proof. intros [H1 H2 H3 _ _ _] Hb. unfold busy in Hb. apply Z.ltb_ge in Hb. lia. Qed.

(** A critical section that leaves the counts and the tokens alone. *)
Lemma upd_same_inv ss ts now r p g f r' : Inv (mkWorld ss ts now r) -> ss_gheap ss !! p = Some g ->
  g_incarnation (f g) = g_incarnation g -> g_members (f g) = g_members g -> gate_rule (f g) -> counts_of (f g) = counts_of g ->
  (forall q, q <> p -> r' !! q = r !! q) ->
  (forall t, r' !! p = Some t -> g_dropped (f g) = false -> t + leaseTime <= g_quietUntil (f g)) ->
  Inv (mkWorld (upd p f ss) ts now r').
Proof.
  intros HI Hg Hinc Hmem Hgate Hc Hr Hrp. eapply upd_inv; eauto; [apply tc_same|].
  eapply group_ok_same; eauto. by apply (i_group _ HI p g).
Qed.

Lemma create_inv ss ts now r t inc ss' p st : Inv (mkWorld ss ts now r) -> ts !! t = None ->
  beginCreate now inc ss = (ss', (Some p, st)) ->
  Inv (mkWorld ss' (<[t := TCreate p]> ts) now r) /\ ss_groups ss' !! inc = Some p.
Proof.
  intros HI Ht H. unfold beginCreate in H. destruct (groupLocked inc ss) as [[ss1 q]|] eqn:Hgl; [|done].
  destruct (group_locked_inv _ _ _ _ _ _ _ HI Hgl) as (HI1 & Hm & (g & Hg & Hinc) & _). rewrite Hg in H.
  destruct (g_state g) eqn:Hst, (g_lease g) eqn:Hl; simpl in H; try done. injection H as <- <- _. split; [|done].
  eapply upd_inv; eauto; [by apply tc_add | right; by rewrite Hinc | | by intros; apply (i_renew _ HI1 q g)].
  eapply group_ok_add; eauto; [by apply (i_group _ HI1 q g) | intros [Hn|Hn]; simpl in Hn; congruence | counts].
Qed.

Lemma create_refused_inv ss ts now r inc ss' st : Inv (mkWorld ss ts now r) ->
  beginCreate now inc ss = (ss', (None, st)) -> Inv (mkWorld ss' ts now r).
Proof.
  intros HI H. unfold beginCreate in H. destruct (groupLocked inc ss) as [[ss1 q]|] eqn:Hgl; [|by injection H as <- _].
  destruct (group_locked_inv _ _ _ _ _ _ _ HI Hgl) as (HI1 & _ & (g & Hg & _) & _). rewrite Hg in H.
  destruct (negb _); [|done]. injection H as <- _. by apply release_group_inv.
Qed.

Lemma end_create_inv ss ts now r t p : Inv (mkWorld ss ts now r) -> ts !! t = Some (TCreate p) ->
  Inv (mkWorld (endCreate now p ss) (delete t ts) now r).
Proof.
  intros HI Ht. destruct (token_group _ _ _ _ _ _ _ HI Ht eq_refl) as (g & Hg & Hm & Hok & Hl & Hst).
  apply release_group_inv. eapply upd_inv; eauto; [by eapply tc_del | | by intros; apply (i_renew _ HI p g)].
  eapply group_ok_del; eauto; [intros [Hn|Hn]; simpl in Hn; congruence | counts].
Qed.

Lemma close_inv ss ts now r t inc ss' p : Inv (mkWorld ss ts now r) -> ts !! t = None ->
  closeForReplacement now inc ss = (ss', true) -> ss_groups ss' !! inc = Some p ->
  Inv (mkWorld ss' (<[t := TClosing p]> ts) now r).
Proof.
  intros HI Ht H Hp. unfold closeForReplacement in H. destruct (groupLocked inc ss) as [[ss1 q]|] eqn:Hgl; [|done].
  destruct (group_locked_inv _ _ _ _ _ _ _ HI Hgl) as (HI1 & Hm & (g & Hg & Hinc) & _). rewrite Hg in H.
  destruct (busy g) eqn:Hb; [done|]. destruct (is_open g) eqn:Ho; [|done]. simpl in H. injection H as <-.
  simpl in Hp. rewrite Hm in Hp. injection Hp as <-. pose proof (i_group _ HI1 q g Hg) as Hok.
  eapply upd_inv; eauto; [by apply tc_add | right; by rewrite Hinc | | by intros; apply (i_renew _ HI1 q g)].
  eapply group_ok_add; eauto; [intros _; exact (idle_counts _ _ _ Hok Hb)|]. unfold is_open in Ho. destruct (g_state g) eqn:Hst; try done.
  unfold counts_of, is_closing. rewrite Hst. counts.
Qed.

Lemma close_refused_inv ss ts now r inc ss' : Inv (mkWorld ss ts now r) ->
  closeForReplacement now inc ss = (ss', false) -> Inv (mkWorld ss' ts now r).
Proof.
  intros HI H. unfold closeForReplacement in H. destruct (groupLocked inc ss) as [[ss1 q]|] eqn:Hgl; [|by injection H as <-].
  destruct (group_locked_inv _ _ _ _ _ _ _ HI Hgl) as (HI1 & _ & (g & Hg & _) & _). rewrite Hg in H.
  destruct (_ || _); [|done]. injection H as <-. by apply release_group_inv.
Qed.

(** The lease and the state only admit holders when they are open and live. *)
Lemma closing_idle ss ts now r t p : Inv (mkWorld ss ts now r) -> ts !! t = Some (TClosing p) ->
  exists g, ss_gheap ss !! p = Some g /\ ss_groups ss !! g_incarnation g = Some p /\ group_ok ts p g /\
    is_closing g = true /\ (g_provisional g = 0 /\ g_active g = 0 /\ g_creating g = 0).
Proof.
  intros HI Ht. destruct (token_group _ _ _ _ _ _ _ HI Ht eq_refl) as (g & Hg & Hm & Hok & _).
  pose proof (count_positive (is_cls p) ts t _ Ht ltac:(simpl; apply bool_decide_refl)) as Hc.
  pose proof (go_cls _ _ _ Hok) as Hb. assert (Hcl : is_closing g = true) by (destruct (is_closing g); simpl in Hb; [done | lia]).
  exists g. do 4 (split; [done|]). apply (go_gate _ _ _ Hok); right; unfold is_closing in Hcl; by destruct (g_state g).
Qed.

Lemma checking_idle ss ts now r t p : Inv (mkWorld ss ts now r) -> ts !! t = Some (TDecide p) ->
  exists g, ss_gheap ss !! p = Some g /\ ss_groups ss !! g_incarnation g = Some p /\ group_ok ts p g /\
    is_checking g = true /\ (g_provisional g = 0 /\ g_active g = 0 /\ g_creating g = 0).
Proof.
  intros HI Ht. destruct (token_group _ _ _ _ _ _ _ HI Ht eq_refl) as (g & Hg & Hm & Hok & _).
  pose proof (count_positive (is_dec p) ts t _ Ht ltac:(simpl; apply bool_decide_refl)) as Hc.
  pose proof (go_dec _ _ _ Hok) as Hb. assert (Hcl : is_checking g = true) by (destruct (is_checking g); simpl in Hb; [done | lia]).
  exists g. do 4 (split; [done|]). apply (go_gate _ _ _ Hok); left; unfold is_checking in Hcl; by destruct (g_lease g).
Qed.

Lemma end_replacement_inv ss ts now r t p g st : Inv (mkWorld ss ts now r) -> ts !! t = Some (TClosing p) ->
  ss_gheap ss !! p = Some g -> st <> groupClosing ->
  exists ss', endReplacement now (g_incarnation g) st ss = Ok ss' /\ Inv (mkWorld ss' (delete t ts) now r).
Proof.
  intros HI Ht Hg Hst. destruct (closing_idle _ _ _ _ _ _ HI Ht) as (g0 & Hg0 & Hm & Hok & Hcl & Hz).
  rewrite Hg in Hg0. injection Hg0 as <-. unfold endReplacement. rewrite Hm, Hg, Hcl. eexists. split; [done|].
  apply release_group_inv. eapply upd_inv; eauto; [by eapply tc_del | | by intros; apply (i_renew _ HI p g)].
  eapply group_ok_del; eauto; [by intros _|]. unfold counts_of. rewrite Hcl. destruct st; try done; counts.
Qed.

Lemma decide_begin_inv ss ts now r inc startup ss' d : Inv (mkWorld ss ts now r) ->
  decide_begin now inc startup ss = (ss', d) ->
  match d with
  | Removing p => forall t, ts !! t = None -> Inv (mkWorld ss' (<[t := TDecide p]> ts) now r)
  | _ => Inv (mkWorld ss' ts now r)
  end.
Proof.
  intros HI H. unfold decide_begin in H. destruct (groupLocked inc ss) as [[ss1 q]|] eqn:Hgl; [|by injection H as <- <-].
  destruct (group_locked_inv _ _ _ _ _ _ _ HI Hgl) as (HI1 & Hm & (g & Hg & Hinc) & _). rewrite Hg in H.
  pose proof (i_group _ HI1 q g Hg) as Hok.
  destruct (g_lease g) eqn:Hl; [|injection H as <- <-; by apply release_group_inv | by injection H as <- <-].
  destruct (leaseHeldLocked now g || _ || _) eqn:Hheld; [injection H as <- <-; by apply release_group_inv|].
  destruct (bool_decide _); [injection H as <- <-; by apply release_group_inv|]. injection H as <- <-. intros t Ht.
  eapply upd_inv; eauto; [by apply tc_add | right; by rewrite Hinc | | by intros; apply (i_renew _ HI1 q g)].
  eapply group_ok_add; eauto; [|unfold counts_of, is_checking; rewrite Hl; counts].
  intros _. apply orb_false_iff in Hheld as [Hheld _]. apply orb_false_iff in Hheld as [Hheld Hcre].
  unfold leaseHeldLocked in Hheld. apply orb_false_iff in Hheld as [Hheld _]. apply orb_false_iff in Hheld as [Hpr Hac].
  destruct Hok as [H1 H2 H3 _ _ _]. simpl in *. apply Z.ltb_ge in Hpr, Hac, Hcre. lia.
Qed.

Lemma decide_end_inv ss ts now r t p removed : Inv (mkWorld ss ts now r) -> ts !! t = Some (TDecide p) ->
  Inv (mkWorld (decide_end now p removed ss) (delete t ts) now r).
Proof.
  intros HI Ht. destruct (checking_idle _ _ _ _ _ _ HI Ht) as (g & Hg & Hm & Hok & Hcl & Hz).
  assert (Hl : forall l, l <> gateChecking -> Inv (mkWorld (upd p (set_lease l) ss) (delete t ts) now r)).
  { intros l Hl. eapply upd_inv; eauto; [by eapply tc_del | | by intros; apply (i_renew _ HI p g)].
    eapply group_ok_del; eauto; [by intros _|]. unfold counts_of. rewrite Hcl. destruct l; try done; counts. }
  unfold decide_end. destruct removed; [by apply Hl | apply release_group_inv; by apply Hl].
Qed.

Lemma drop_inv ss ts now r inc p : Inv (mkWorld ss ts now r) -> ss_groups ss !! inc = Some p ->
  Inv (mkWorld (upd p set_dropped ss) ts now r).
Proof.
  intros HI Hp. destruct (i_map _ HI _ _ Hp) as (g & Hg & _). simpl in Hg. pose proof (i_group _ HI p g Hg) as Hok.
  eapply upd_same_inv; eauto; [exact (go_gate _ _ _ Hok) | done].
Qed.

Lemma wire_inv ss ts now r p (w : clientGroup -> option bool) : Inv (mkWorld ss ts now r) ->
  Inv (mkWorld (upd p (fun g => set_wire (w g) g) ss) ts now r).
Proof.
  intros HI. destruct (ss_gheap ss !! p) as [g|] eqn:Hg.
  - pose proof (i_group _ HI p g Hg) as Hok. eapply upd_same_inv; eauto; [exact (go_gate _ _ _ Hok) | by intros; apply (i_renew _ HI p g)].
  - unfold upd. rewrite alter_id by congruence. by destruct ss.
Qed.

Lemma retire_wire_inv ss ts now r inc now' : Inv (mkWorld ss ts now r) -> Inv (mkWorld (retireWireOf now' inc ss) ts now r).
Proof. intros HI. unfold retireWireOf. repeat case_match; try done. apply release_group_inv. by apply (wire_inv _ _ _ _ _ (fun _ => None)). Qed.

Lemma add_wire_inv ss ts now r inc b : Inv (mkWorld ss ts now r) -> Inv (mkWorld (addWireLocked inc b ss) ts now r).
Proof. intros HI. unfold addWireLocked. case_match; [by apply (wire_inv _ _ _ _ _ (fun _ => Some b)) | done]. Qed.

Lemma confirm_wire_inv ss ts now r inc : Inv (mkWorld ss ts now r) -> Inv (mkWorld (confirmWireLocked inc ss) ts now r).
Proof. intros HI. unfold confirmWireLocked. case_match; [by apply wire_inv | done]. Qed.

(** ** Membership *)

(** [insertSessionLocked]: the group stops being dropped, so that what was
    renewed before says nothing any more. *)
Lemma insert_inv ss ts now r p inc id : Inv (mkWorld ss ts now r) -> ss_groups ss !! inc = Some p ->
  ss_sessions ss !! id = None ->
  Inv (mkWorld (upd p (fun g => set_members (g_members g + 1) false g)
    (mkStore (ss_gheap ss) (ss_gfresh ss) (ss_groups ss) (ss_groupCredits ss) (ss_groupLimit ss)
      (<[ss_sfresh ss := mkSession id inc 1 false]> (ss_sheap ss)) (S (ss_sfresh ss)) (<[id := ss_sfresh ss]> (ss_sessions ss))
      (ss_records ss + 1))) ts now (delete p r)).
Proof.
  intros [I1 I2 I3 I4 I5 I6 I7 I8 I9 I10 I11 I12 I13] Hp Hid. simpl in *.
  destruct (I1 inc p Hp) as (g & Hg & Hinc). set (f := fun g => set_members (g_members g + 1) false g).
  assert (Hl : forall q, alter f p (ss_gheap ss) !! q = if decide (q = p) then Some (f g) else ss_gheap ss !! q).
  { intros q. case_decide as Hd; [subst; by rewrite lookup_alter_eq, Hg | by rewrite lookup_alter_ne]. }
  assert (Hnew : ss_sheap ss !! ss_sfresh ss = None).
  { destruct (ss_sheap ss !! ss_sfresh ss) eqn:E; [|done]. specialize (I3 (ss_sfresh ss) ltac:(by eexists)). lia. }
  assert (Hne : forall sp, is_Some (ss_sheap ss !! sp) -> sp <> ss_sfresh ss) by (intros sp [] ->; congruence).
  assert (Hold : forall i sp, ss_sessions ss !! i = Some sp -> sp <> ss_sfresh ss).
  { intros i sp Hi. destruct (I7 i sp Hi) as (s & Hs & _). apply Hne. eauto. }
  constructor; simpl; try done.
  - intros i q Hq. rewrite Hl. destruct (I1 i q Hq) as (g0 & H0 & H0'). case_decide; [subst; simplify_eq; eauto | eauto].
  - intros q. rewrite Hl. case_decide; [subst; intros _; apply I2; eauto | apply I2].
  - intros sp [s Hs]. apply lookup_insert_Some in Hs as [[<- _]|[_ Hs]]; [lia|]. specialize (I3 sp ltac:(by eexists)). lia.
  - intros q g0. rewrite Hl. case_decide; [|by apply I5]. intros [= <-]. subst.
    eapply group_ok_same; [by apply I5 | exact (go_gate _ _ _ (I5 p g Hg)) | done].
  - intros t tk q Ht Hq. rewrite Hl. destruct (I6 t tk q Ht Hq) as (g0 & H0 & H0'). case_decide; [subst; simplify_eq; by exists (f g) | eauto].
  - intros i sp Hi. apply lookup_insert_Some in Hi as [[<- <-]|[_ Hi]].
    + rewrite lookup_insert_eq. eexists. split; [done|]. split; [done|]. by eexists.
    + destruct (I7 i sp Hi) as (s & Hs & ?). exists s. by rewrite lookup_insert_ne by (symmetry; by eapply Hold).
  - intros i q g0 Hq. rewrite count_add by done.
    rewrite (count_ext _ (belongs ss i)) by (intros j sp Hj; unfold belongs; simpl; by rewrite lookup_insert_ne by (symmetry; by eapply Hold)).
    unfold belongs at 1. simpl. rewrite lookup_insert_eq. simpl. rewrite Hl. case_decide as Hd.
    + subst q. destruct (I1 i p Hq) as (g1 & Hg1 & Hi). assert (i = inc) as -> by congruence. intros [= <-].
      rewrite Z.eqb_refl. simpl. rewrite (I8 inc p g Hp Hg). lia.
    + intros Hg0. rewrite (proj2 (Z.eqb_neq inc i)) by congruence. simpl. rewrite (I8 i q g0 Hq Hg0). lia.
  - intros sp s Hs. unfold attached. simpl. apply lookup_insert_Some in Hs as [[<- <-]|[Hn Hs]]; simpl.
    + rewrite lookup_insert_eq, bool_decide_eq_true_2 by done. rewrite count_none; [done|].
      intros t tk Ht. destruct (is_use (ss_sfresh ss) tk) eqn:E; [|done]. destruct tk; try done; apply bool_decide_eq_true in E as ->;
        destruct (I10 t _ (ss_sfresh ss) Ht eq_refl); congruence.
    + rewrite (I9 sp s Hs). unfold attached. destruct (decide (s_id s = id)) as [<-|]; [|by rewrite lookup_insert_ne by done].
      rewrite lookup_insert_eq, Hid. rewrite !bool_decide_eq_false_2; congruence.
  - intros t tk sp Ht Hs. destruct (I10 t tk sp Ht Hs) as [s Hs']. rewrite lookup_insert_ne by (symmetry; apply Hne; eauto). eauto.
  - rewrite count_add by done. simpl. lia.
  - intros q [t Ht]. apply lookup_delete_Some in Ht as [_ Ht]. rewrite Hl. case_decide; eauto.
  - intros q g0 t Ht. apply lookup_delete_Some in Ht as [Hn Ht]. rewrite Hl, decide_False by done. by apply I13.
Qed.

(** The commit of a CREATE_SESSION that is in progress: it never panics and,
    the creation being counted, never finds the incarnation expired. *)
Lemma commit_inv ss ts now r t p g id : Inv (mkWorld ss ts now r) -> ts !! t = Some (TCreate p) ->
  ss_gheap ss !! p = Some g -> ss_sessions ss !! id = None ->
  exists ss' sp, commitLocked now id (g_incarnation g) false ss = Ok (ss', Some sp) /\
    Inv (mkWorld ss' ts now (<[p := now]> r)) /\ ss_sessions ss' !! id = Some sp.
Proof.
  intros HI Ht Hg Hid. destruct (token_group _ _ _ _ _ _ _ HI Ht eq_refl) as (g0 & Hg0 & Hm & Hok & Hl & Hst).
  rewrite Hg in Hg0. injection Hg0 as <-.
  pose proof (insert_inv _ _ _ _ _ _ _ HI Hm Hid) as HI1. pose proof (confirm_wire_inv _ _ _ _ (g_incarnation g) HI1) as HI2.
  unfold commitLocked. rewrite Hm, Hg, Hl. unfold insertSessionLocked, groupLocked. rewrite Hm. simpl.
  unfold confirmWireLocked in *. simpl in HI2. rewrite Hm in HI2. simpl. rewrite Hm. simpl. rewrite Hm.
  do 2 eexists. split; [done|]. split; [|simpl; by rewrite lookup_insert_eq].
  set (g2 := set_wire (option_map (fun _ => false) (g_wire g)) (set_members (g_members g + 1) false g)).
  match type of HI2 with Inv (mkWorld ?s _ _ _) => assert (Hg2 : ss_gheap s !! p = Some g2) by (simpl; by rewrite !lookup_alter_eq, Hg) end.
  eapply upd_same_inv; eauto; [by case_match.. | | by case_match | |].
  - case_match; intros [Hn|Hn]; simpl in Hn; congruence.
  - intros q Hq. by rewrite lookup_insert_ne, lookup_delete_ne.
  - intros t0 H0 _. rewrite lookup_insert_eq in H0. injection H0 as <-.
    destruct (Z.ltb_spec (g_quietUntil g2) (now + leaseTime)); [cbn [set_quiet g_quietUntil]; lia | lia].
Qed.

Lemma set_sessions_same ss : set_sessions (ss_sheap ss) (ss_sessions ss) (ss_records ss) ss = ss.
Proof. by destruct ss. Qed.

Lemma use_inv ss ts now r t sp ss' : Inv (mkWorld ss ts now r) -> ts !! t = None -> useSession sp ss = (ss', true) ->
  Inv (mkWorld ss' (<[t := TUse sp]> ts) now r).
Proof.
  intros HI Ht H. unfold useSession in H. destruct (ss_sheap ss !! sp) as [s|] eqn:Hs; [|done].
  destruct (Z.eqb_spec (s_users s) 0); [done|]. injection H as <-.
  pose proof (i_users _ HI sp s Hs) as Hu. simpl in Hu.
  pose proof (sess_inv ss ts now r sp s (s_users s + 1) (s_destroyed s) (<[t := TUse sp]> ts) HI Hs) as H.
  rewrite (proj2 (Z.ltb_lt 0 (s_users s + 1))), (proj2 (Z.ltb_lt 0 (s_users s))) in H by lia. simpl in H. replace (ss_records ss + _ - _) with (ss_records ss) in H by lia.
  apply H; clear H.
  - by apply sc_add.
  - intros q Hq. rewrite count_add by done. simpl. by rewrite bool_decide_eq_false_2.
  - intros t0 tk q H0 Hq. apply lookup_insert_Some in H0 as [[<- <-]|[_ H0]]; [left; by simplify_eq/= | by right].
  - rewrite count_add by done. simpl. rewrite bool_decide_refl. simpl. lia.
Qed.

Lemma release_use_inv ss ts now r t sp : Inv (mkWorld ss ts now r) -> (ts !! t = Some (TUse sp) \/ ts !! t = Some (TMember sp)) ->
  exists ss' b, releaseSessionUse sp ss = Ok (ss', b) /\ Inv (mkWorld ss' (delete t ts) now r).
Proof.
  intros HI Ht. assert (exists tk, ts !! t = Some tk /\ tok_ptr tk = None /\ tok_sess tk = Some sp /\ forall q, is_use q tk = bool_decide (sp = q))
    as (tk & Htk & Hp & Hsp & Hq) by (destruct Ht; eauto 10).
  destruct (i_stok _ HI t tk sp Htk Hsp) as [s Hs]. simpl in Hs. pose proof (i_users _ HI sp s Hs) as Hu. simpl in Hu.
  pose proof (count_remove (is_use sp) ts t tk Htk) as Hc. rewrite Hq, bool_decide_refl in Hc. simpl in Hc.
  pose proof (sess_inv ss ts now r sp s (s_users s - 1) (s_destroyed s) (delete t ts) HI Hs) as H.
  rewrite (proj2 (Z.ltb_lt 0 (s_users s))) in H by lia. 
  assert (HI' : Inv (mkWorld (set_sessions (<[sp := set_users (s_users s - 1) (s_destroyed s) s]> (ss_sheap ss)) (ss_sessions ss)
    (ss_records ss + Z.of_nat (bit (0 <? s_users s - 1)) - 1) ss) (delete t ts) now r)).
  { apply H; clear H.
    - by eapply sc_del.
    - intros q Hne. pose proof (count_remove (is_use q) ts t tk Htk) as H. rewrite Hq, bool_decide_eq_false_2 in H by done. simpl in H. lia.
    - intros t0 tk0 q H0 Hq0. apply lookup_delete_Some in H0 as [_ H0]. by right.
    - lia. }
  unfold releaseSessionUse. rewrite Hs. rewrite (proj2 (Z.ltb_ge _ _)) by lia.
  destruct (Z.eqb_spec (s_users s - 1) 0) as [Hz|Hz].
  - do 2 eexists. split; [done|]. rewrite Hz in *. simpl in HI'. by replace (ss_records ss + _ - _) with (ss_records ss - 1) in HI' by lia.
  - do 2 eexists. split; [done|]. rewrite (proj2 (Z.ltb_lt 0 _)) in HI' by lia. simpl in HI'.
    by replace (ss_records ss + _ - _) with (ss_records ss) in HI' by lia.
Qed.

Lemma destroy_inv ss ts now r sp s : Inv (mkWorld ss ts now r) -> ss_sheap ss !! sp = Some s ->
  Inv (mkWorld (set_sessions (<[sp := set_users (s_users s) true s]> (ss_sheap ss)) (ss_sessions ss) (ss_records ss) ss) ts now r).
Proof.
  intros HI Hs. pose proof (sess_inv ss ts now r sp s (s_users s) true ts HI Hs (sc_same ts)) as H.
  replace (ss_records ss + _ - _) with (ss_records ss) in H by lia.
  apply H; [done | by right | by apply (i_users _ HI)].
Qed.

(** A session leaves the table: its membership use becomes a token. *)
Lemma detach_inv ss ts now r t sp s p : Inv (mkWorld ss ts now r) -> ts !! t = None -> ss_sheap ss !! sp = Some s ->
  ss_sessions ss !! s_id s = Some sp -> ss_groups ss !! s_clientID s = Some p ->
  Inv (mkWorld (upd p (fun g => set_members (g_members g - 1) (g_dropped g) g)
    (set_sessions (ss_sheap ss) (delete (s_id s) (ss_sessions ss)) (ss_records ss) ss)) (<[t := TMember sp]> ts) now r).
Proof.
  intros [I1 I2 I3 I4 I5 I6 I7 I8 I9 I10 I11 I12 I13] Ht Hs Hid Hp. simpl in *.
  destruct (I1 _ p Hp) as (g & Hg & Hinc). set (f := fun g => set_members (g_members g - 1) (g_dropped g) g).
  assert (Hl : forall q, alter f p (ss_gheap ss) !! q = if decide (q = p) then Some (f g) else ss_gheap ss !! q).
  { intros q. case_decide as Hd; [subst; by rewrite lookup_alter_eq, Hg | by rewrite lookup_alter_ne]. }
  assert (Hsc : stok_change ts (<[t := TMember sp]> ts)) by (by apply sc_add).
  constructor; simpl; try done.
  - intros i q Hq. rewrite Hl. destruct (I1 i q Hq) as (g0 & H0 & H0'). case_decide; [subst; simplify_eq; eauto | eauto].
  - intros q. rewrite Hl. case_decide; [subst; intros _; apply I2; eauto | apply I2].
  - intros q g0. rewrite Hl. intros Hq. eapply group_ok_stok; [done|]. case_decide; [|by apply I5]. injection Hq as <-. subst.
    eapply group_ok_same; [by apply I5 | exact (go_gate _ _ _ (I5 p g Hg)) | done].
  - intros t0 tk q Ht0 Hq. rewrite Hl. destruct (stok_change_lookup _ _ _ _ Hsc Ht0) as [?|Ht1]; [congruence|].
    destruct (I6 t0 tk q Ht1 Hq) as (g0 & H0 & H0'). case_decide; [subst; simplify_eq; by exists (f g) | eauto].
  - intros i q Hi. apply lookup_delete_Some in Hi as [_ Hi]. by apply I7.
  - intros i q g0 Hq. rewrite Hl. pose proof (count_remove (belongs ss i) (ss_sessions ss) (s_id s) sp Hid) as Hc.
    unfold belongs at 2 in Hc. rewrite Hs in Hc. unfold belongs in *. simpl. case_decide as Hd.
    + subst q. destruct (I1 i p Hq) as (g1 & Hg1 & Hi). assert (i = s_clientID s) as -> by congruence. intros [= <-].
      rewrite Z.eqb_refl in Hc. simpl in *. rewrite (I8 _ p g Hp Hg). lia.
    + intros Hg0. rewrite (proj2 (Z.eqb_neq (s_clientID s) i)) in Hc by congruence. simpl in Hc. rewrite (I8 i q g0 Hq Hg0). lia.
  - intros q s0 Hq. rewrite count_add by done. simpl. rewrite (I9 q s0 Hq). unfold attached. simpl.
    destruct (decide (sp = q)) as [<-|Hne].
    + assert (s0 = s) as -> by congruence. rewrite lookup_delete_eq, Hid, bool_decide_refl, bool_decide_eq_true_2 by done.
      rewrite (bool_decide_eq_false_2 (None = Some sp)) by done. simpl. lia.
    + rewrite (bool_decide_eq_false_2 (sp = q)) by done. simpl. destruct (decide (s_id s0 = s_id s)) as [E|E]; [|by rewrite lookup_delete_ne by done].
      rewrite E, lookup_delete_eq, Hid. rewrite !bool_decide_eq_false_2; congruence.
  - intros t0 tk q Ht0 Hq. apply lookup_insert_Some in Ht0 as [[<- <-]|[_ H0]]; [simplify_eq/=; eauto | by eapply I10].
  - intros q Hq. rewrite Hl. case_decide; eauto.
  - intros q g0 t0 Ht0. rewrite Hl. case_decide; [subst; intros [= <-]; by apply (I13 p g) | by apply I13].
Qed.

Lemma destroy_and_detach_inv ss ts now r now' sp ss' b : Inv (mkWorld ss ts now r) ->
  destroy_and_detach now' sp ss = (ss', b) ->
  if b then forall t, ts !! t = None -> Inv (mkWorld ss' (<[t := TMember sp]> ts) now r) else Inv (mkWorld ss' ts now r).
Proof.
  intros HI H. unfold destroy_and_detach in H. destruct (ss_sheap ss !! sp) as [s|] eqn:Hs; [|by injection H as <- <-].
  pose proof (destroy_inv _ _ _ _ _ _ HI Hs) as HI1. unfold detachSessionLocked in H. simpl in H. rewrite lookup_insert_eq in H. simpl in H.
  destruct (bool_decide _) eqn:Hb; simpl in H; [|by injection H as <- <-]. apply bool_decide_eq_true in Hb.
  destruct (i_sess _ HI1 _ _ Hb) as (s1 & Hs1 & _ & [p Hp]). simpl in Hs1, Hp. rewrite lookup_insert_eq in Hs1. injection Hs1 as <-.
  simpl in Hp. rewrite Hp in H. injection H as <- <-. intros t Ht. apply release_group_inv.
  eapply (detach_inv _ ts now r t sp (set_users (s_users s) true s) p HI1); simpl; [done | by apply lookup_insert_eq | done | done].
Qed.

Lemma lease_step_inv w w' : Inv w -> step w w' -> Inv w'.
Proof.
  intros HI Hs. destruct Hs; eauto using end_create_inv, drop_inv, decide_end_inv, add_wire_inv, retire_wire_inv, release_group_inv,
    activate_inv, close_inv, close_refused_inv, create_refused_inv, use_inv.
  - by destruct HI.
  - eapply hold_inv; eauto.
  - edestruct release_inv as (ss1 & H1 & H2); eauto. congruence.
  - eapply create_inv; eauto.
  - destruct retired; [unfold commitLocked in H2; simpl in H2; by injection H2 as <- <-|].
    edestruct (commit_inv ss ts now r t p g id) as (ss1 & sp1 & H3 & H4 & _); eauto. assert (Some sp1 = sp /\ ss1 = ss') as [<- <-] by (split; congruence). done.
  - edestruct (end_replacement_inv ss ts now r t p g st) as (ss1 & H3 & H4); eauto. congruence.
  - by apply (decide_begin_inv _ _ _ _ _ _ _ _ HI H0).
  - pose proof (decide_begin_inv _ _ _ _ _ _ _ _ HI H) as Hd. destruct d; try done. by destruct (H0 p).
  - edestruct release_use_inv as (ss1 & b1 & H1 & H2); eauto. congruence.
  - by apply (destroy_and_detach_inv _ _ _ _ _ _ _ _ HI H0).
  - by apply (destroy_and_detach_inv _ _ _ _ _ _ _ _ HI H).
Qed.

Lemma lease_reachable_inv limit w : 0 <= limit -> reachable limit w -> Inv w.
Proof.
  intros Hl. apply (rtc_ind_r Inv (initial limit)); [|intros; by eapply lease_step_inv].
  constructor; simpl; try done; intros; by simplify_map_eq.
Qed.

(** ** What an expiry leaves behind *)

(** The members of a group keep it. *)
Definition kept (ss : sessionStore) : Prop := forall id sp s, ss_sessions ss !! id = Some sp -> ss_sheap ss !! sp = Some s ->
  exists p g, ss_groups ss !! s_clientID s = Some p /\ ss_gheap ss !! p = Some g /\ g_incarnation g = s_clientID s /\ g_members g <> 0.

(** Sessions keep their identity and are never inserted again, an expired
    group stays expired, and the group of a session that remains does too. *)
Record keeps (ss ss' : sessionStore) : Prop := {
  k_sheap : forall sp s, ss_sheap ss !! sp = Some s ->
    exists s', ss_sheap ss' !! sp = Some s' /\ s_id s' = s_id s /\ s_clientID s' = s_clientID s;
  k_sess : forall id sp, ss_sessions ss' !! id = Some sp -> is_Some (ss_sheap ss !! sp) -> ss_sessions ss !! id = Some sp;
  k_lease : forall p g, ss_gheap ss !! p = Some g -> g_lease g = gateExpired -> exists g', ss_gheap ss' !! p = Some g' /\ g_lease g' = gateExpired;
  k_group : forall id sp s p, ss_sessions ss' !! id = Some sp -> ss_sheap ss !! sp = Some s ->
    ss_groups ss !! s_clientID s = Some p -> ss_groups ss' !! s_clientID s = Some p;
}.

Lemma keeps_refl ss : keeps ss ss.
Proof. constructor; eauto. Qed.

Lemma keeps_trans ss1 ss2 ss3 : keeps ss1 ss2 -> keeps ss2 ss3 -> keeps ss1 ss3.
Proof.
  intros [A1 A2 A3 A4] [B1 B2 B3 B4]. constructor.
  - intros sp s Hs. destruct (A1 sp s Hs) as (s' & Hs' & Hi & Hc). destruct (B1 sp s' Hs') as (s'' & ? & ? & ?). exists s''. split_and!; congruence.
  - intros id sp Hid Hs. apply A2; [|done]. apply B2; [done|]. destruct Hs as [s Hs]. destruct (A1 sp s Hs) as (s' & Hs' & _). eauto.
  - intros p g Hg Hl. destruct (A3 p g Hg Hl) as (g' & Hg' & Hl'). by apply (B3 p g').
  - intros id sp s p Hid Hs Hp. destruct (A1 sp s Hs) as (s' & Hs' & _ & Hc). rewrite <- Hc in *.
    apply (B4 id sp s' p); [done | done|]. rewrite Hc in *. apply (A4 id sp s p); [|done | done]. apply B2; eauto.
Qed.

Lemma keeps_upd p f ss : (forall g, ss_gheap ss !! p = Some g -> g_lease g = gateExpired -> g_lease (f g) = gateExpired) ->
  keeps ss (upd p f ss).
Proof.
  intros Hf. constructor; simpl; eauto. intros q g Hg Hl. destruct (decide (q = p)) as [->|].
  - rewrite lookup_alter_eq, Hg. eauto.
  - rewrite lookup_alter_ne by done. eauto.
Qed.

Lemma inv_kept w : Inv w -> kept (w_ss w).
Proof.
  intros HI id sp s Hid Hs. destruct (i_sess _ HI id sp Hid) as (s' & Hs' & _ & [p Hp]). rewrite Hs in Hs'. injection Hs' as <-.
  destruct (i_map _ HI _ _ Hp) as (g & Hg & Hinc). exists p, g. split_and!; try done.
  rewrite (i_members _ HI _ _ _ Hp Hg).
  pose proof (count_positive (belongs (w_ss w) (s_clientID s)) (ss_sessions (w_ss w)) id sp Hid
    ltac:(unfold belongs; rewrite Hs; apply Z.eqb_refl)). lia.
Qed.

Lemma kept_upd p f ss : (forall g, g_members (f g) = g_members g /\ g_incarnation (f g) = g_incarnation g) -> kept ss -> kept (upd p f ss).
Proof.
  intros Hf Hk id sp s Hid Hs. destruct (Hk id sp s Hid Hs) as (q & g & Hq & Hg & Hinc & Hm). simpl.
  destruct (decide (q = p)) as [->|]; [exists p, (f g) | exists q, g].
  - rewrite lookup_alter_eq, Hg. destruct (Hf g) as [-> ->]. done.
  - by rewrite lookup_alter_ne.
Qed.

Lemma keeps_release now p ss : kept ss -> keeps ss (releaseGroupLocked now p ss).
Proof.
  intros Hk. unfold releaseGroupLocked. destruct (ss_gheap ss !! p) as [g|] eqn:Hg; [|apply keeps_refl].
  destruct (_ && bool_decide _) eqn:Hc; [|apply keeps_refl]. reflect_bools.
  constructor; simpl; eauto. intros id sp s q Hid Hs Hq. rewrite lookup_delete_ne; [done|]. intros Heq.
  destruct (Hk id sp s Hid Hs) as (q' & g' & Hq' & Hg' & Hinc & Hm). rewrite <- Heq in Hq'.
  repeat match goal with H : bool_decide _ = true |- _ => apply bool_decide_eq_true in H end. congruence.
Qed.

(** An assignment that keeps the members, then [releaseGroupLocked]. *)
Lemma keeps_upd_release now p f ss : kept ss ->
  (forall g, g_members (f g) = g_members g /\ g_incarnation (f g) = g_incarnation g) ->
  (forall g, ss_gheap ss !! p = Some g -> g_lease g = gateExpired -> g_lease (f g) = gateExpired) ->
  keeps ss (releaseGroupLocked now p (upd p f ss)).
Proof. intros Hk Hm Hl. eapply keeps_trans; [by apply keeps_upd | apply keeps_release; by apply kept_upd]. Qed.

Lemma keeps_locked inc ss ss' p : kept ss -> (forall q, is_Some (ss_gheap ss !! q) -> (q < ss_gfresh ss)%nat) -> groupLocked inc ss = Some (ss', p) ->
  keeps ss ss' /\ kept ss'.
Proof.
  intros Hk Hfresh H. unfold groupLocked in H. destruct (ss_groups ss !! inc) as [q|] eqn:Hq; [injection H as <- <-; split; [apply keeps_refl | done]|].
  destruct (_ <=? _); [done|]. injection H as <- <-.
  assert (Hne : forall q, is_Some (ss_gheap ss !! q) -> q <> ss_gfresh ss) by (intros q Hs ->; specialize (Hfresh _ Hs); lia).
  split.
  - constructor; simpl; eauto.
    + intros q g Hg Hl. rewrite lookup_insert_ne by (symmetry; apply Hne; eauto). eauto.
    + intros id sp s q Hid Hs Hp. rewrite lookup_insert_ne; [done|]. congruence.
  - intros id sp s Hid Hs. destruct (Hk id sp s Hid Hs) as (q & g & Hp & Hg & Hm). exists q, g. simpl.
    rewrite !lookup_insert_ne; [done | symmetry; apply Hne; eauto | congruence].
Qed.

Lemma keeps_sessions ss h m n : (forall sp s, ss_sheap ss !! sp = Some s -> exists s', h !! sp = Some s' /\ s_id s' = s_id s /\ s_clientID s' = s_clientID s) ->
  (forall id sp, m !! id = Some sp -> ss_sessions ss !! id = Some sp) -> keeps ss (set_sessions h m n ss).
Proof. intros H1 H2. constructor; simpl; eauto. Qed.

Lemma keeps_users ss sp s n d k : ss_sheap ss !! sp = Some s ->
  keeps ss (set_sessions (<[sp := set_users n d s]> (ss_sheap ss)) (ss_sessions ss) k ss).
Proof.
  intros Hs. apply keeps_sessions; [|done]. intros q s0 Hq. destruct (decide (q = sp)) as [->|].
  - rewrite lookup_insert_eq. eexists. split; [done|]. by simplify_eq.
  - rewrite lookup_insert_ne by done. eauto.
Qed.

Lemma renew_fields now g : g_members (renew now g) = g_members g /\ g_incarnation (renew now g) = g_incarnation g /\ g_lease (renew now g) = g_lease g.
Proof. unfold renew. by case_match. Qed.

Ltac keeps_upds := first [by apply keeps_upd | by apply keeps_upd_release | by apply keeps_release].

Lemma keeps_locked_then inc ss ts now r ss1 p ss' : Inv (mkWorld ss ts now r) -> groupLocked inc ss = Some (ss1, p) ->
  (kept ss1 -> keeps ss1 ss') -> keeps ss ss'.
Proof.
  intros HI Hl H. destruct (keeps_locked _ _ _ _ (inv_kept _ HI) (i_gfresh _ HI) Hl) as [H1 H2]. eapply keeps_trans; [done | auto].
Qed.

Lemma keeps_detach ss ts now r t now' sp ss' b : Inv (mkWorld ss ts now r) -> ts !! t = None ->
  destroy_and_detach now' sp ss = (ss', b) -> keeps ss ss'.
Proof.
  intros HI Ht H. unfold destroy_and_detach in H. destruct (ss_sheap ss !! sp) as [s|] eqn:Hs; [|injection H as <- <-; apply keeps_refl].
  pose proof (destroy_inv _ _ _ _ _ _ HI Hs) as HI1. eapply keeps_trans; [exact (keeps_users ss sp s (s_users s) true (ss_records ss) Hs)|].
  unfold detachSessionLocked in H. simpl in H. rewrite lookup_insert_eq in H. simpl in H.
  destruct (bool_decide _) eqn:Hb; simpl in H; [|injection H as <- <-; apply keeps_refl]. apply bool_decide_eq_true in Hb.
  destruct (i_sess _ HI1 _ _ Hb) as (s1 & Hs1 & _ & [p Hp]). simpl in Hs1, Hp. rewrite lookup_insert_eq in Hs1. injection Hs1 as <-.
  simpl in Hp. rewrite Hp in H. injection H as <- <-.
  pose proof (detach_inv _ ts now r t sp (set_users (s_users s) true s) p HI1 Ht (lookup_insert_eq _ _ _) Hb Hp) as HI2.
  eapply keeps_trans; [|apply keeps_release; exact (inv_kept _ HI2)].
  eapply keeps_trans; [|by apply keeps_upd]. apply keeps_sessions; [simpl; eauto|]. intros id q Hq. by apply lookup_delete_Some in Hq as [_ ?].
Qed.

Lemma keeps_commit ss ts now r t p g id retired ss' sp : Inv (mkWorld ss ts now r) -> ts !! t = Some (TCreate p) ->
  ss_gheap ss !! p = Some g -> commitLocked now id (g_incarnation g) retired ss = Ok (ss', sp) -> keeps ss ss'.
Proof.
  intros HI Ht Hg H. destruct (token_group _ _ _ _ _ _ _ HI Ht eq_refl) as (g0 & Hg0 & Hm & Hok & Hl & Hst).
  rewrite Hg in Hg0. injection Hg0 as <-. unfold commitLocked in H. rewrite Hm, Hg, Hl in H.
  destruct retired; simpl in H; [injection H as <- _; apply keeps_refl|].
  unfold insertSessionLocked, groupLocked in H. rewrite Hm in H. simpl in H. unfold confirmWireLocked in H. simpl in H. rewrite Hm in H. simpl in H.
  rewrite Hm in H. injection H as <- _.
  eapply keeps_trans; [|apply keeps_upd; intros ? _ ?; by case_match].
  eapply keeps_trans; [|by apply keeps_upd]. eapply keeps_trans; [|by apply keeps_upd].
  assert (Hne : forall q, is_Some (ss_sheap ss !! q) -> q <> ss_sfresh ss) by (intros q Hq ->; pose proof (i_sfresh _ HI _ Hq) as Hf; simpl in Hf; lia).
  constructor; simpl; eauto.
  - intros q s Hs. rewrite lookup_insert_ne by (symmetry; apply Hne; eauto). eauto.
  - intros i q Hi Hq. apply lookup_insert_Some in Hi as [[_ <-]|[_ Hi]]; [by apply Hne in Hq | done].
Qed.

Lemma step_keeps w w' : Inv w -> step w w' -> keeps (w_ss w) (w_ss w').
Proof.
  intros HI Hs. destruct Hs; simpl; try apply keeps_refl.
  - destruct (hold_inv _ _ _ _ _ _ _ _ _ HI H H0) as (_ & s & g & _). unfold holdRequest in H0. repeat case_match; simplify_eq; keeps_upds.
  - by apply keeps_upd.
  - pose proof (fun g => renew_fields now (add_counts 0 (-1) 0 g)) as Hf. simpl in Hf.
    unfold release in H0. destruct a; repeat case_match; simplify_eq; (apply keeps_upd_release; [by apply (inv_kept _ HI)|..]); try done;
      [intros g'; destruct (Hf g'); tauto | intros g' _ Hg'; destruct (Hf g') as (_ & _ & ->); done].
  - unfold beginCreate in H0. destruct (groupLocked inc ss) as [[ss1 q]|] eqn:Hgl; [|done]. eapply keeps_locked_then; eauto.
    intros Hk. repeat case_match; simplify_eq; keeps_upds.
  - unfold beginCreate in H. destruct (groupLocked inc ss) as [[ss1 q]|] eqn:Hgl; [|injection H as <- _; apply keeps_refl].
    eapply keeps_locked_then; eauto. intros Hk. repeat case_match; simplify_eq; try apply keeps_refl; keeps_upds.
  - by eapply keeps_commit.
  - apply keeps_upd_release; [by apply (inv_kept _ HI) | done..].
  - unfold closeForReplacement in H0. destruct (groupLocked inc ss) as [[ss1 q]|] eqn:Hgl; [|done]. eapply keeps_locked_then; eauto.
    intros Hk. repeat case_match; simplify_eq; keeps_upds.
  - unfold closeForReplacement in H. destruct (groupLocked inc ss) as [[ss1 q]|] eqn:Hgl; [|injection H as <-; apply keeps_refl].
    eapply keeps_locked_then; eauto. intros Hk. repeat case_match; simplify_eq; try apply keeps_refl; keeps_upds.
  - unfold endReplacement in H2. repeat case_match; simplify_eq. apply keeps_upd_release; [by apply (inv_kept _ HI) | done..].
  - unfold decide_begin in H0. destruct (groupLocked inc ss) as [[ss1 q]|] eqn:Hgl; [|done]. eapply keeps_locked_then; eauto.
    intros Hk. repeat case_match; simplify_eq. apply keeps_upd. congruence.
  - unfold decide_begin in H. destruct (groupLocked inc ss) as [[ss1 q]|] eqn:Hgl; [|injection H as <- _; apply keeps_refl].
    eapply keeps_locked_then; eauto. intros Hk. repeat case_match; simplify_eq; try apply keeps_refl; try keeps_upds. by destruct (H0 q).
  - destruct (checking_idle _ _ _ _ _ _ HI H) as (g & Hg & _ & _ & Hc & _). unfold is_checking in Hc.
    unfold decide_end. destruct removed; [by apply keeps_upd|]. apply keeps_upd_release; [by apply (inv_kept _ HI) | done|].
    intros g' Hg' Hl. simplify_eq. by rewrite Hl in Hc.
  - unfold useSession in H0. repeat case_match; simplify_eq. by apply keeps_users.
  - unfold releaseSessionUse in H0. repeat case_match; simplify_eq; by apply keeps_users.
  - by eapply (keeps_detach ss ts).
  - destruct (fresh_key ts) as [t Ht]. by eapply (keeps_detach ss ts).
  - by apply keeps_upd.
  - unfold addWireLocked. case_match; [by apply keeps_upd | apply keeps_refl].
  - unfold retireWireOf. repeat case_match; try apply keeps_refl. apply keeps_upd_release; [by apply (inv_kept _ HI) | done..].
  - apply keeps_release. by apply (inv_kept _ HI).
Qed.

(** ** Retiring the sessions of an incarnation *)

Definition others (ss : sessionStore) (inc : Z) : gmap Z nat := filter (fun q => belongs ss inc q.2 = false) (ss_sessions ss).

Lemma detach_effect ss ts now r now' sp s ss' b : Inv (mkWorld ss ts now r) -> ss_sheap ss !! sp = Some s ->
  destroy_and_detach now' sp ss = (ss', b) ->
  b = bool_decide (ss_sessions ss !! s_id s = Some sp) /\
  ss_sessions ss' = (if b then delete (s_id s) (ss_sessions ss) else ss_sessions ss) /\
  (forall inc q, belongs ss' inc q = belongs ss inc q) /\
  exists ts', step (mkWorld ss ts now' r) (mkWorld ss' ts' now' r).
Proof.
  intros HI Hs H. assert (Hstep : exists ts', step (mkWorld ss ts now' r) (mkWorld ss' ts' now' r)).
  { destruct b; [|eexists; by eapply step_detached]. destruct (fresh_key ts) as [t Ht]. eexists. by eapply step_detach. }
  assert (Hr : forall p x, ss_sessions (releaseGroupLocked now' p x) = ss_sessions x /\ ss_sheap (releaseGroupLocked now' p x) = ss_sheap x)
    by (intros; unfold releaseGroupLocked; by repeat case_match).
  assert (Hb : forall inc q, belongs (set_sessions (<[sp := set_users (s_users s) true s]> (ss_sheap ss)) (ss_sessions ss) 0 ss) inc q = belongs ss inc q).
  { intros inc q. unfold belongs. simpl. destruct (decide (q = sp)) as [->|]; [by rewrite lookup_insert_eq, Hs | by rewrite lookup_insert_ne]. }
  unfold destroy_and_detach in H. rewrite Hs in H. unfold detachSessionLocked in H. simpl in H. rewrite lookup_insert_eq in H. simpl in H.
  destruct (bool_decide (ss_sessions ss !! s_id s = Some sp)) eqn:E; simpl in H; [|injection H as <- <-; by split_and!].
  destruct (ss_groups ss !! s_clientID s) as [p|]; injection H as <- <-; [|by split_and!].
  match goal with |- context [releaseGroupLocked now' p ?x] => destruct (Hr p x) as [E1 E2] end.
  split; [done|]. split; [by rewrite E1|]. split; [|done]. intros inc q. unfold belongs. rewrite E2. apply Hb.
Qed.

Lemma others_none ss inc : (forall id sp, ss_sessions ss !! id = Some sp -> belongs ss inc sp = false) -> others ss inc = ss_sessions ss.
Proof. intros H. apply map_filter_id. intros id sp. simpl. apply H. Qed.

(** What a loop over the sessions of [inc] has done when it ends in [ss'] with
    the list [retired]. *)
Record retires (now : Z) (r : gmap nat Z) (inc : Z) (ss : sessionStore) (ts : gmap nat token) (ss' : sessionStore) (retired : list nat) : Prop := {
  rt_sessions : ss_sessions ss' = others ss inc;
  rt_retired : forall sp, sp ∈ retired <-> exists id, ss_sessions ss !! id = Some sp /\ belongs ss inc sp = true;
  rt_steps : exists ts', rtc step (mkWorld ss ts now r) (mkWorld ss' ts' now r);
}.

Lemma retires_none now r inc ss ts : (forall id sp, ss_sessions ss !! id = Some sp -> belongs ss inc sp = false) ->
  retires now r inc ss ts ss [].
Proof.
  intros H. constructor; [by rewrite others_none | | by exists ts].
  intros sp. split; [by intros ?%elem_of_nil|]. intros (id & Hid & Hb). by rewrite (H id sp Hid) in Hb.
Qed.

Lemma retires_cons now r inc ss ts sp s ss1 b ts1 ss' retired : Inv (mkWorld ss ts now r) ->
  ss_sheap ss !! sp = Some s -> s_clientID s = inc -> destroy_and_detach now sp ss = (ss1, b) ->
  step (mkWorld ss ts now r) (mkWorld ss1 ts1 now r) -> retires now r inc ss1 ts1 ss' retired ->
  retires now r inc ss ts ss' (if b then sp :: retired else retired).
Proof.
  intros HI Hs Hc Hd Hstep [R1 R2 [ts' R3]]. destruct (detach_effect _ _ _ _ _ _ _ _ _ HI Hs Hd) as (Hb & Hsess & Hbel & _).
  assert (Hin : belongs ss inc sp = true) by (unfold belongs; rewrite Hs, Hc; apply Z.eqb_refl).
  assert (Huniq : forall id, ss_sessions ss !! id = Some sp -> id = s_id s).
  { intros id Hid. destruct (i_sess _ HI id sp Hid) as (s' & Hs' & Hi & _). simpl in Hs'. congruence. }
  constructor; [| |exists ts'; by eapply rtc_l].
  - rewrite R1. unfold others. transitivity (filter (fun q => belongs ss inc q.2 = false) (ss_sessions ss1)).
    { apply map_filter_ext. intros id q _. simpl. by rewrite Hbel. }
    rewrite Hsess. destruct b; [|done]. apply map_filter_delete_not. intros q Hq. simpl. symmetry in Hb. apply bool_decide_eq_true in Hb.
    simplify_eq. congruence.
  - intros q. assert (Hq : q ∈ (if b then sp :: retired else retired) <-> (b = true /\ q = sp) \/ q ∈ retired).
    { destruct b; [rewrite elem_of_cons; tauto|]. split; [by right | by intros [[? _]|?]]. }
    rewrite Hq, R2, Hsess. setoid_rewrite Hbel. destruct b; symmetry in Hb.
    + apply bool_decide_eq_true in Hb. setoid_rewrite lookup_delete_Some. split.
      * intros [[_ ->]|(id & [_ Hid] & Hq')]; eauto.
      * intros (id & Hid & Hq'). destruct (decide (q = sp)) as [->|]; [by left|]. right. exists id. split; [|done]. split; [|done]. congruence.
    + split; [intros [[? _]|?]; [done | done] | by right].
Qed.

(** The detached session is not in the table any more. *)
Lemma order_after ss ts now r now' sp s ss1 b inc order : Inv (mkWorld ss ts now r) -> ss_sheap ss !! sp = Some s ->
  destroy_and_detach now' sp ss = (ss1, b) ->
  (forall id q, ss_sessions ss !! id = Some q -> belongs ss inc q = true -> q ∈ sp :: order) ->
  forall id q, ss_sessions ss1 !! id = Some q -> belongs ss1 inc q = true -> q ∈ order.
Proof.
  intros HI Hs Hd Ho id q Hid Hq. destruct (detach_effect _ _ _ _ _ _ _ _ _ HI Hs Hd) as (Hb & Hsess & Hbel & _).
  rewrite Hbel in Hq. rewrite Hsess in Hid.
  assert (Hid0 : ss_sessions ss !! id = Some q) by (destruct b; [by apply lookup_delete_Some in Hid as [_ ?] | done]).
  destruct (proj1 (elem_of_cons _ _ _) (Ho id q Hid0 Hq)) as [->|]; [exfalso|done].
  destruct (i_sess _ HI id sp Hid0) as (s' & Hs' & Hi & _). simpl in Hs'. symmetry in Hb. assert (id = s_id s) as -> by congruence.
  destruct b; [by rewrite lookup_delete_eq in Hid | by apply bool_decide_eq_false in Hb].
Qed.

Lemma retires_loop now r inc order : forall ss ts ss' retired, Inv (mkWorld ss ts now r) ->
  (forall id sp, ss_sessions ss !! id = Some sp -> belongs ss inc sp = true -> sp ∈ order) ->
  retire_sessions now inc order ss = (ss', retired) -> retires now r inc ss ts ss' retired.
Proof.
  induction order as [|sp order IH]; intros ss ts ss' retired HI Ho H; simpl in H.
  { injection H as <- <-. apply retires_none. intros id sp Hid. destruct (belongs ss inc sp) eqn:E; [|done]. by apply Ho, elem_of_nil in Hid. }
  assert (Hskip : belongs ss inc sp = false -> forall id q, ss_sessions ss !! id = Some q -> belongs ss inc q = true -> q ∈ order).
  { intros Hb id q Hid Hq. specialize (Ho id q Hid Hq). apply elem_of_cons in Ho as [->|]; [congruence | done]. }
  unfold belongs in Hskip at 1. destruct (ss_sheap ss !! sp) as [s|] eqn:Hs; [|eauto].
  destruct (Z.eqb_spec (s_clientID s) inc) as [Hc|Hc]; simpl in H; [|eauto].
  destruct (destroy_and_detach now sp ss) as [ss1 b] eqn:Hd. destruct (retire_sessions now inc order ss1) as [ss2 rest] eqn:Hr.
  injection H as <- <-. destruct (detach_effect _ _ _ _ _ _ _ _ _ HI Hs Hd) as (Hb & Hsess & Hbel & ts1 & Hstep).
  eapply retires_cons; eauto. eapply IH; [by eapply lease_step_inv | | done].
  by eapply order_after.
Qed.

(** A group that has no member has no session in the table, forgotten or not. *)
Lemma no_members ss ts now r inc p g : Inv (mkWorld ss ts now r) -> (ss_groups ss !! inc = Some p \/ ss_groups ss !! inc = None) ->
  ss_gheap ss !! p = Some g -> g_members g = 0 -> forall id sp, ss_sessions ss !! id = Some sp -> belongs ss inc sp = false.
Proof.
  intros HI Hp Hg Hm id sp Hid. destruct (i_sess _ HI id sp Hid) as (s & Hs & _ & [q Hq]). simpl in Hs, Hq.
  destruct Hp as [Hp|Hp].
  - rewrite (i_members _ HI inc p g Hp Hg) in Hm. simpl in Hm. apply (count_zero (belongs ss inc) (ss_sessions ss) id sp); [lia | done].
  - unfold belongs. rewrite Hs. apply Z.eqb_neq. congruence.
Qed.

Lemma detach_group now sp ss ss' b inc p : destroy_and_detach now sp ss = (ss', b) ->
  (ss_groups ss !! inc = Some p \/ ss_groups ss !! inc = None) -> is_Some (ss_gheap ss !! p) ->
  (ss_groups ss' !! inc = Some p \/ ss_groups ss' !! inc = None) /\ is_Some (ss_gheap ss' !! p).
Proof.
  intros H Hp Hg. unfold destroy_and_detach, detachSessionLocked in H. destruct (ss_sheap ss !! sp) as [s|]; [|by injection H as <- <-].
  simpl in H. rewrite lookup_insert_eq in H. simpl in H. destruct (negb _); [by injection H as <- <-|].
  destruct (ss_groups ss !! s_clientID s) as [q|]; injection H as <- <-; [|done]. unfold releaseGroupLocked. simpl.
  assert (Hg' : forall f, is_Some (alter f q (ss_gheap ss) !! p)) by (intros; by apply lookup_alter_is_Some).
  destruct (alter _ q (ss_gheap ss) !! q) as [g|]; [|by simpl]. destruct (_ && bool_decide _); [|by simpl]. simpl. split; [|done].
  destruct (decide (g_incarnation g = inc)) as [->|]; [right; apply lookup_delete_eq | by rewrite lookup_delete_ne].
Qed.

Lemma drop_loop now r inc p order : forall ss ts ss' retired, Inv (mkWorld ss ts now r) ->
  (ss_groups ss !! inc = Some p \/ ss_groups ss !! inc = None) -> is_Some (ss_gheap ss !! p) ->
  (forall id sp, ss_sessions ss !! id = Some sp -> belongs ss inc sp = true -> sp ∈ order) ->
  (forall sp, sp ∈ order -> is_Some (ss_sheap ss !! sp)) ->
  drop_sessions now inc p order ss = (ss', retired) -> retires now r inc ss ts ss' retired.
Proof.
  induction order as [|sp order IH]; intros ss ts ss' retired HI Hp Hg Ho Hex H; simpl in H.
  { injection H as <- <-. apply retires_none. intros id sp Hid. destruct (belongs ss inc sp) eqn:E; [|done]. by apply Ho, elem_of_nil in Hid. }
  destruct Hg as [g Hg]. destruct (Hex sp) as [s Hs]; [by apply elem_of_cons; left|]. rewrite Hg, Hs in H.
  destruct (Z.eqb_spec (g_members g) 0); [injection H as <- <-; apply retires_none; by eapply no_members|].
  assert (Hskip : belongs ss inc sp = false -> forall id q, ss_sessions ss !! id = Some q -> belongs ss inc q = true -> q ∈ order).
  { intros Hb id q Hid Hq. specialize (Ho id q Hid Hq). apply elem_of_cons in Ho as [->|]; [congruence | done]. }
  unfold belongs in Hskip at 1. rewrite Hs in Hskip.
  assert (Hex' : forall q, q ∈ order -> is_Some (ss_sheap ss !! q)) by (intros q Hq; apply Hex, elem_of_cons; by right).
  destruct (Z.eqb_spec (s_clientID s) inc) as [Hc|Hc]; simpl in H; [|eapply IH; eauto].
  destruct (destroy_and_detach now sp ss) as [ss1 b] eqn:Hd. destruct (drop_sessions now inc p order ss1) as [ss2 rest] eqn:Hr.
  injection H as <- <-. destruct (detach_effect _ _ _ _ _ _ _ _ _ HI Hs Hd) as (Hb & Hsess & Hbel & ts1 & Hstep).
  destruct (detach_group _ _ _ _ _ _ _ Hd Hp) as [Hp1 Hg1]; [by eexists|].
  eapply retires_cons; eauto. eapply IH; [by eapply lease_step_inv | done | done | | | done].
  - by eapply order_after.
  - intros q Hq. destruct (Hex' q Hq) as [s0 Hs0]. destruct (k_sheap _ _ (step_keeps _ _ HI Hstep) q s0 Hs0) as (s' & Hs' & _). by exists s'.
Qed.

Lemma reachable_keeps limit w w' : 0 <= limit -> reachable limit w -> rtc step w w' -> keeps (w_ss w) (w_ss w').
Proof.
  intros Hl Hw Hs. revert Hw. induction Hs as [w|w w1 w' H1 Hs IH]; intros Hw; [apply keeps_refl|].
  eapply keeps_trans; [by apply step_keeps; [eapply lease_reachable_inv|] | apply IH; by eapply rtc_r].
Qed.

(** * Properties *)

(** C16: in every history of requests, session creations, replacements and
    expiries, the incarnation of a request or of a session creation in progress
    has its group in the table, open and live, until the request or the creation
    ends; the counts never underflow, so that no hold, session use or
    replacement panics when it ends, and the session of a creation in progress
    is always inserted; and a group credit is held for each group of the table. *)
Theorem lease_gate_safe limit w : 0 <= limit -> reachable limit w ->
  (ss_groupCredits (w_ss w) = Z.of_nat (size (ss_groups (w_ss w))) /\ ss_groupCredits (w_ss w) <= ss_groupLimit (w_ss w)) /\
  (forall t p a, w_tokens w !! t = Some (THold p a) \/ w_tokens w !! t = Some (TCreate p) ->
    exists g, ss_gheap (w_ss w) !! p = Some g /\ ss_groups (w_ss w) !! g_incarnation g = Some p /\
      admissionStatusLocked g = NFS4_OK /\ gateStatus p (w_ss w) = NFS4_OK) /\
  (forall t p a, w_tokens w !! t = Some (THold p a) -> exists ss', release (w_now w) p a (w_ss w) = Ok ss') /\
  (forall t p g id, w_tokens w !! t = Some (TCreate p) -> ss_gheap (w_ss w) !! p = Some g -> ss_sessions (w_ss w) !! id = None ->
    exists ss' sp, commitLocked (w_now w) id (g_incarnation g) false (w_ss w) = Ok (ss', Some sp) /\ ss_sessions ss' !! id = Some sp) /\
  (forall t p g st, w_tokens w !! t = Some (TClosing p) -> ss_gheap (w_ss w) !! p = Some g -> st <> groupClosing ->
    exists ss', endReplacement (w_now w) (g_incarnation g) st (w_ss w) = Ok ss') /\
  (forall t sp, w_tokens w !! t = Some (TUse sp) \/ w_tokens w !! t = Some (TMember sp) ->
    exists ss' last, releaseSessionUse sp (w_ss w) = Ok (ss', last)).
Proof.
  intros Hl Hw. pose proof (lease_reachable_inv _ _ Hl Hw) as HI. destruct w as [ss ts now r]. simpl in *.
  split; [exact (i_credit _ HI)|]. split_and!.
  - intros t p a Ht. destruct Ht as [Ht|Ht]; destruct (token_group _ _ _ _ _ _ _ HI Ht eq_refl) as (g & Hg & Hm & _ & Hlive & Hst);
      exists g; unfold admissionStatusLocked, gateStatus; rewrite Hg, Hlive, Hst; done.
  - intros t p a Ht. destruct (release_inv _ _ _ _ _ _ _ HI Ht) as (ss' & H & _). eauto.
  - intros t p g id Ht Hg Hid. destruct (commit_inv _ _ _ _ _ _ _ _ HI Ht Hg Hid) as (ss' & sp & H & _ & Hs). eauto.
  - intros t p g st Ht Hg Hst. destruct (end_replacement_inv _ _ _ _ _ _ _ _ HI Ht Hg Hst) as (ss' & H & _). eauto.
  - intros t sp Ht. destruct (release_use_inv _ _ _ _ _ _ HI Ht) as (ss' & b & H & _). eauto.
Qed.

(** C20: the removal of a client's record starts only when no request and no
    session creation of the incarnation is in progress and a whole lease has
    passed since the last one that renewed it ended, unless the client was
    dropped, and not during the startup lease. *)
Theorem expiry_needs_idle_lease limit w inc startup ss' p : 0 <= limit -> reachable limit w ->
  decide_begin (w_now w) inc startup (w_ss w) = (ss', Removing p) ->
  startup = false /\
  (forall t a, w_tokens w !! t <> Some (THold p a)) /\ (forall t, w_tokens w !! t <> Some (TCreate p)) /\
  (forall t g, w_renewed w !! p = Some t -> ss_gheap (w_ss w) !! p = Some g -> g_dropped g = false -> t + leaseTime <= w_now w).
Proof.
  intros Hl Hw H. pose proof (lease_reachable_inv _ _ Hl Hw) as HI. destruct w as [ss ts now r]. simpl in *.
  unfold decide_begin in H. destruct (groupLocked inc ss) as [[ss1 q]|] eqn:Hgl; [|done].
  destruct (group_locked_inv _ _ _ _ _ _ _ HI Hgl) as (HI1 & Hm & (g & Hg & Hinc) & _). rewrite Hg in H.
  destruct (g_lease g) eqn:Hlease; try done. destruct (_ || startup) eqn:Hheld; [done|]. destruct (bool_decide _); [done|].
  injection H as <- <-. unfold leaseHeldLocked in Hheld. reflect_bools.
  destruct (i_group _ HI1 q g Hg) as [G1 G2 G3 _ _ _]. simpl in *.
  split; [by destruct startup|]. split_and!.
  - intros t [|] Ht; [pose proof (count_positive (is_act q) ts t _ Ht (bool_decide_refl q)) | pose proof (count_positive (is_prov q) ts t _ Ht (bool_decide_refl q))]; lia.
  - intros t Ht. pose proof (count_positive (is_cre q) ts t _ Ht (bool_decide_refl q)). lia.
  - intros t g0 Ht Hg0 Hd. assert (Heq : g0 = g); [|subst; pose proof (i_renew _ HI q g t Ht Hg0 Hd); lia].
    unfold groupLocked in Hgl. destruct (ss_groups ss !! inc); [injection Hgl as <- <-; congruence|].
    destruct (_ <=? _); [done|]. injection Hgl as <- <-. pose proof (i_gfresh _ HI (ss_gfresh ss)) as Hf. simpl in Hf.
    rewrite Hg0 in Hf. specialize (Hf ltac:(by eexists)). lia.
Qed.

(** An expiry is final. Once the incarnation of a session is expired, no
    later SEQUENCE on the session is admitted, whatever the requests, creations,
    replacements and retirements in between. *)
Theorem expired_is_final limit w w' p g sp s : 0 <= limit -> reachable limit w -> rtc step w w' ->
  ss_gheap (w_ss w) !! p = Some g -> g_lease g = gateExpired -> ss_groups (w_ss w) !! g_incarnation g = Some p ->
  ss_sheap (w_ss w) !! sp = Some s -> s_clientID s = g_incarnation g ->
  exists st, holdRequest sp (w_ss w') = (w_ss w', (None, st)) /\ st <> NFS4_OK.
Proof.
  intros Hl Hw Hs Hg Hlease Hp Hsp Hc. pose proof (reachable_keeps _ _ _ Hl Hw Hs) as Hk.
  destruct (k_sheap _ _ Hk sp s Hsp) as (s' & Hs' & _ & Hc'). unfold holdRequest. rewrite Hs'.
  destruct (ss_groups (w_ss w') !! s_clientID s') as [q|] eqn:Hq; [|by eexists].
  destruct (bool_decide _) eqn:Hb; [|by eexists]. apply bool_decide_eq_true in Hb. simpl.
  assert (q = p) as ->. { pose proof (k_group _ _ Hk _ _ _ p Hb Hsp). rewrite Hc' in Hq. rewrite Hc in *. specialize (H Hp). congruence. }
  destruct (k_lease _ _ Hk p g Hg Hlease) as (g' & Hg' & Hl'). rewrite Hg', Hl'.
  unfold admissionStatusLocked. destruct (g_state g'); by eexists.
Qed.

(** Dropping an incarnation takes exactly its sessions out of the table, in
    whatever order the table is visited and though the loop stops early, and
    returns exactly these sessions for draining; the result is again a state of
    the histories. *)
Theorem drop_client_exact limit w inc p order ss' retired : 0 <= limit -> reachable limit w ->
  ss_groups (w_ss w) !! inc = Some p ->
  (forall sp, sp ∈ order <-> exists id, ss_sessions (w_ss w) !! id = Some sp) ->
  dropClientLocked (w_now w) inc order (w_ss w) = (ss', retired) ->
  ss_sessions ss' = others (w_ss w) inc /\
  (forall sp, sp ∈ retired <-> exists id, ss_sessions (w_ss w) !! id = Some sp /\ belongs (w_ss w) inc sp = true) /\
  exists ts', rtc step w (mkWorld ss' ts' (w_now w) (w_renewed w)).
Proof.
  intros Hl Hw Hp Ho H. pose proof (lease_reachable_inv _ _ Hl Hw) as HI. destruct w as [ss ts now r]. simpl in *.
  unfold dropClientLocked in H. rewrite Hp in H. destruct (drop_sessions now inc p order (upd p set_dropped ss)) as [ss1 rest] eqn:Hd.
  injection H as <- <-. pose proof (step_drop ss ts now r inc p Hp) as Hs0. destruct (i_map _ HI _ _ Hp) as (g & Hg & _). simpl in Hg.
  assert (HR : retires now r inc (upd p set_dropped ss) ts ss1 rest).
  { eapply drop_loop; eauto; [by eapply drop_inv | simpl; rewrite lookup_alter_eq, Hg; by eexists | |].
    - intros id sp Hid _. apply Ho. eauto.
    - intros sp Hsp. apply Ho in Hsp as [id Hid]. destruct (i_sess _ HI id sp Hid) as (s & Hs & _). by exists s. }
  destruct HR as [R1 R2 [ts' R3]].
  assert (Hrel : forall q x, ss_sessions (releaseGroupLocked now q x) = ss_sessions x) by (intros; unfold releaseGroupLocked; by repeat case_match).
  set (ss2 := match ss_gheap ss1 !! p with Some g => _ | None => _ end).
  assert (H2 : ss_sessions ss2 = ss_sessions ss1 /\ rtc step (mkWorld ss1 ts' now r) (mkWorld ss2 ts' now r)).
  { subst ss2. destruct (ss_gheap ss1 !! p); [|done]. destruct (bool_decide _); [done|]. split; [|apply rtc_once, step_retire_wire].
    unfold retireWireOf. repeat case_match; try done. by rewrite Hrel. }
  split; [rewrite Hrel, (proj1 H2); exact R1|]. split; [exact R2|]. exists ts'.
  eapply rtc_l; [exact Hs0|]. etrans; [exact R3|]. etrans; [exact (proj2 H2)|]. apply rtc_once, step_release_group.
Qed.

(** ** A history *)

(** Incarnation 7 creates the session 100 and a request holds it. *)
Definition demo1 : sessionStore := (beginCreate 0 7 (w_ss (initial 4))).1.
Definition demo2 : sessionStore := match commitLocked 0 100 7 false demo1 with Ok (ss, _) => ss | _ => demo1 end.
Definition demo3 : world := mkWorld (endCreate 0 0 demo2) (delete 0%nat (<[0%nat := TCreate 0]> ∅)) 0 (<[0%nat := 0]> ∅).
Definition demo4 : world :=
  mkWorld (holdRequest 0 (w_ss demo3)).1 (<[1%nat := THold 0 false]> (w_tokens demo3)) 0 (w_renewed demo3).
(** The lease of the unused session runs out, and the record is removed. *)
Definition demo5 : world := mkWorld (w_ss demo3) (w_tokens demo3) leaseTime (w_renewed demo3).
Definition demo6 : world :=
  mkWorld (decide_end leaseTime 0 true (decide_begin leaseTime 7 false (w_ss demo3)).1)
    (delete 1%nat (<[1%nat := TDecide 0]> (w_tokens demo3))) leaseTime (w_renewed demo3).

Lemma demo3_reachable : reachable 4 demo3.
Proof.
  eapply rtc_l; [apply (step_create _ _ _ _ 0 7 demo1 0 NFS4_OK); vm_compute; reflexivity|].
  eapply rtc_l; [eapply (step_commit demo1 _ 0 _ 0 0 (mkGroup 7 None 0 0 0 1 groupOpen 0 gateLive false) 100 false demo2 (Some 0%nat)); [reflexivity.. | by vm_compute]|].
  apply rtc_once. apply (step_end_create _ _ _ _ 0 0). reflexivity.
Qed.

Lemma demo4_reachable : reachable 4 demo4.
Proof. eapply rtc_r; [apply demo3_reachable|]. apply (step_hold _ _ _ _ 1 0 _ 0 NFS4_OK); vm_compute; reflexivity. Qed.

Lemma demo5_reachable : reachable 4 demo5.
Proof. eapply rtc_r; [apply demo3_reachable|]. apply step_tick. by vm_compute. Qed.

Lemma demo6_reachable : reachable 4 demo6.
Proof.
  eapply rtc_r; [eapply rtc_r; [apply demo5_reachable|] |].
  - apply (step_decide _ _ _ _ 1 7 false (decide_begin leaseTime 7 false (w_ss demo3)).1 0); vm_compute; reflexivity.
  - apply (step_decide_end _ _ _ _ 1 0 true). reflexivity.
Qed.

Lemma lease_gate_safe_witness : exists ss', release 0 0 false (w_ss demo4) = Ok ss'.
Proof.
  destruct (lease_gate_safe 4 demo4 ltac:(lia) demo4_reachable) as (_ & _ & H & _). apply (H 1%nat). reflexivity.
Defined.

Lemma expiry_needs_idle_lease_witness : 0 + leaseTime <= w_now demo5.
Proof.
  eapply (expiry_needs_idle_lease 4 demo5 7 false (decide_begin leaseTime 7 false (w_ss demo3)).1 0 ltac:(lia) demo5_reachable
    ltac:(vm_compute; reflexivity)); vm_compute; reflexivity.
Defined.

Lemma expired_is_final_witness : exists st, holdRequest 0 (w_ss demo6) = (w_ss demo6, (None, st)) /\ st <> NFS4_OK.
Proof.
  eapply (expired_is_final 4 demo6 demo6 0 _ 0 _ ltac:(lia) demo6_reachable (rtc_refl _ _)); vm_compute; reflexivity.
Defined.

Lemma demo3_sessions sp : sp ∈ [0%nat] <-> exists id, ss_sessions (w_ss demo3) !! id = Some sp.
Proof.
  assert (E : ss_sessions (w_ss demo3) = {[100 := 0%nat]}) by (by vm_compute). rewrite E, list_elem_of_singleton. split.
  - intros ->. exists 100. apply lookup_singleton_eq.
  - intros (id & Hid). by apply lookup_singleton_Some in Hid as [_ <-].
Qed.

Lemma drop_client_exact_witness : ss_sessions (dropClientLocked 0 7 [0%nat] (w_ss demo3)).1 = others (w_ss demo3) 7.
Proof.
  apply (drop_client_exact 4 demo3 7 0 [0%nat] _ (dropClientLocked 0 7 [0%nat] (w_ss demo3)).2 ltac:(lia) demo3_reachable eq_refl demo3_sessions).
  apply surjective_pairing.
Defined.
