(* ===== verification/ReplyCache.v ===== *)
(** The reply cache: the reference counted buffers of
    src/go/nfsd/internal/server/reply_resources.go and their use by the slots in
    ops_session.go and session_persist.go.

    A slot keeps the reply of its last request for a retransmission. A buffer
    is charged against a limit before the request runs; admissions, slots and
    the replies being sent share it by counting references. Buffers are shared
    objects in a heap, slots are keyed by their identity. Each operation runs
    under the cache's mutex, and here is one atomic step. *)

From Stdlib Require Import ZArith Lia.
From stdpp Require Import base numbers option gmap list.
From S2P Require Import Prelude Counting.

Definition cachedReplyOverhead : Z := 128.

Record cachedReply := mkReply {
  b_refs : Z;
  b_charge : Z;
  b_data : option (list byte);
}.

(** The part of a [sessionSlot] that refers to its reply; [sl_dead] says that
    the session is destroyed or fatal. *)
Record replySlot := mkReplySlot {
  sl_buffer : option nat;
  sl_reply : option (list byte);
  sl_reserved : Z;
  sl_dead : bool;
}.

Record cache := mkCache {
  c_heap : gmap nat cachedReply;
  c_fresh : nat;
  c_cachedBytes : Z;
  c_cachedBuffers : Z;
  c_cacheLimit : Z;
  c_slots : gmap nat replySlot;
}.

Definition slot_of (c : cache) (s : nat) : replySlot := default (mkReplySlot None None 0 false) (c_slots c !! s).

Definition set_heap (h : gmap nat cachedReply) (bytes buffers : Z) (c : cache) : cache :=
  mkCache h (c_fresh c) bytes buffers (c_cacheLimit c) (c_slots c).
Definition set_slot (s : nat) (sl : replySlot) (c : cache) : cache :=
  mkCache (c_heap c) (c_fresh c) (c_cachedBytes c) (c_cachedBuffers c) (c_cacheLimit c) (<[s := sl]> (c_slots c)).

(** * Operations *)

Definition retain (b : nat) (c : cache) : outcome unit cache :=
  match c_heap c !! b with
  | Some r =>
    if b_refs r =? 0 then Panic
    else Ok (set_heap (<[b := mkReply (b_refs r + 1) (b_charge r) (b_data r)]> (c_heap c)) (c_cachedBytes c) (c_cachedBuffers c) c)
  | None => Panic
  end.

(** [releaseLocked], and [release] of a buffer that is not nil. *)
Definition releaseLocked (b : nat) (c : cache) : outcome unit cache :=
  match c_heap c !! b with
  | Some r =>
    let refs := b_refs r - 1 in
    if refs <? 0 then Panic
    else if refs =? 0 then
      Ok (set_heap (<[b := mkReply 0 0 None]> (c_heap c)) (c_cachedBytes c - b_charge r) (c_cachedBuffers c - 1) c)
    else Ok (set_heap (<[b := mkReply refs (b_charge r) (b_data r)]> (c_heap c)) (c_cachedBytes c) (c_cachedBuffers c) c)
  | None => Panic
  end.

Definition storeBody (b : nat) (data : list byte) (c : cache) : outcome unit cache :=
  match c_heap c !! b with
  | Some r =>
    let actual := Z.of_nat (length data) + cachedReplyOverhead in
    if b_charge r <? actual then Panic
    else Ok (set_heap (<[b := mkReply (b_refs r) actual (Some data)]> (c_heap c))
               (c_cachedBytes c - (b_charge r - actual)) (c_cachedBuffers c) c)
  | None => Panic
  end.

(** The buffer reserved for a request on the slot, charged with its overhead;
    the addition is one of [int]s. *)
Definition reserveSlotReply (s : nat) (bytes : Z) (c : cache) : cache * option nat :=
  if sl_dead (slot_of c s) then (c, None)
  else
    let credit :=
      match sl_buffer (slot_of c s) with
      | Some old => match c_heap c !! old with Some r => if b_refs r =? 1 then b_charge r else 0 | None => 0 end
      | None => 0
      end in
    let charge := to_signed 64 (bytes + cachedReplyOverhead) in
    if (charge <? cachedReplyOverhead) || (c_cacheLimit c <? c_cachedBytes c - credit + charge) then (c, None)
    else
      let b := c_fresh c in
      (mkCache (<[b := mkReply 1 charge None]> (c_heap c)) (S b) (c_cachedBytes c + charge) (c_cachedBuffers c + 1)
         (c_cacheLimit c) (c_slots c), Some b).

Definition release_old (old : option nat) (c : cache) : outcome unit cache :=
  match old with Some b => releaseLocked b c | None => Ok c end.

Definition installSlotReply (s b : nat) (c : cache) : outcome unit cache :=
  match c_heap c !! b with
  | Some r =>
    let sl := slot_of c s in
    release_old (sl_buffer sl) (set_slot s (mkReplySlot (Some b) None (b_charge r) (sl_dead sl)) c)
  | None => Panic
  end.

(** The body of the loop of [drainSession]. *)
Definition drain_slot (s : nat) (c : cache) : outcome unit cache :=
  let sl := slot_of c s in
  release_old (sl_buffer sl) (set_slot s (mkReplySlot None None 0 (sl_dead sl)) c).

(** What [finish] does with the slot's buffer: nothing is kept for a session
    that is gone. A nil buffer would be dereferenced. *)
Definition finish_slot (s : nat) (saved : list byte) (c : cache) : outcome unit cache :=
  let sl := slot_of c s in
  if sl_dead sl then drain_slot s c
  else
    match sl_buffer sl with
    | None => Panic
    | Some b =>
      let! c := storeBody b saved c in
      match c_heap c !! b with
      | Some r => Ok (set_slot s (mkReplySlot (Some b) (b_data r) (b_charge r) (sl_dead sl)) c)
      | None => Panic
      end
    end.

Definition kill_slot (s : nat) (c : cache) : cache :=
  let sl := slot_of c s in set_slot s (mkReplySlot (sl_buffer sl) (sl_reply sl) (sl_reserved sl) true) c.

(** * Histories *)

(** An admission holds its reservation of [n] bytes, a request runs on a slot
    with such a reservation, and the reply of a retransmission is being sent. *)
Inductive holder :=
| HReserve (b : nat) (n : Z)
| HRun (s : nat) (n : Z)
| HView (b : nat) (d : option (list byte)).

Definition is_run (s : nat) (h : holder) : bool := match h with HRun s' _ => bool_decide (s' = s) | _ => false end.

(** The requests that run on a slot. *)
Definition running (s : nat) (hs : gmap nat holder) : nat := count (is_run s) hs.

(** [step B] are the steps with reservations of at most [B] bytes. A request
    is admitted to a slot on which none runs, and its saved reply is no longer
    than its reservation. *)
Inductive step (B : Z) : cache * gmap nat holder -> cache * gmap nat holder -> Prop :=
| step_reserve c hs t s n c' b : hs !! t = None -> 0 <= n <= B -> reserveSlotReply s n c = (c', Some b) ->
    step B (c, hs) (c', <[t := HReserve b n]> hs)
| step_undo c hs t b n c' : hs !! t = Some (HReserve b n) -> releaseLocked b c = Ok c' ->
    step B (c, hs) (c', delete t hs)
| step_install c hs t s b n c' : hs !! t = Some (HReserve b n) -> running s hs = 0%nat -> installSlotReply s b c = Ok c' ->
    step B (c, hs) (c', <[t := HRun s n]> hs)
| step_replay c hs t s b c' : hs !! t = None -> running s hs = 0%nat -> sl_buffer (slot_of c s) = Some b -> retain b c = Ok c' ->
    step B (c, hs) (c', <[t := HView b (sl_reply (slot_of c s))]> hs)
| step_sent c hs t b d c' : hs !! t = Some (HView b d) -> releaseLocked b c = Ok c' ->
    step B (c, hs) (c', delete t hs)
| step_kill c hs s : step B (c, hs) (kill_slot s c, hs)
| step_drain c hs s c' : sl_dead (slot_of c s) = true -> drain_slot s c = Ok c' -> step B (c, hs) (c', hs)
| step_finish c hs t s n saved c' : hs !! t = Some (HRun s n) -> Z.of_nat (length saved) <= n -> finish_slot s saved c = Ok c' ->
    step B (c, hs) (c', delete t hs).

Definition empty_cache (limit : Z) : cache := mkCache ∅ 0 0 0 limit ∅.
Definition reachable (B limit : Z) : cache * gmap nat holder -> Prop := rtc (step B) (empty_cache limit, ∅).

(** * Invariant *)

Definition slot_holds (b : nat) (sl : replySlot) : bool := bool_decide (sl_buffer sl = Some b).
Definition reserves (b : nat) (h : holder) : bool := match h with HReserve b' _ => bool_decide (b' = b) | _ => false end.
Definition views (b : nat) (h : holder) : bool := match h with HView b' _ => bool_decide (b' = b) | _ => false end.

(** The slots, reservations and views that refer to a buffer. *)
Definition owners (c : cache) (hs : gmap nat holder) (b : nat) : nat := count (slot_holds b) (c_slots c) + count (reserves b) hs.
Definition holders (c : cache) (hs : gmap nat holder) (b : nat) : nat := owners c hs b + count (views b) hs.

(** [x] is a buffer with one reference more, that an operation has in hand. *)
Record buf_ok (B : Z) (c : cache) (hs : gmap nat holder) (x : option nat) (b : nat) (r : cachedReply) : Prop := {
  bo_refs : b_refs r = Z.of_nat (holders c hs b + bit (bool_decide (x = Some b)));
  bo_owner : (owners c hs b <= 1)%nat;
  bo_zero : b_refs r = 0 -> r = mkReply 0 0 None;
  bo_charge : 0 <= b_charge r <= B + cachedReplyOverhead;
}.

Definition slot_ok (c : cache) (hs : gmap nat holder) (s : nat) (sl : replySlot) : Prop :=
  match sl_buffer sl with
  | None => sl_reply sl = None /\ sl_reserved sl = 0
  | Some b => exists r, c_heap c !! b = Some r /\ sl_reserved sl = b_charge r /\ sl_reply sl = b_data r /\
      (running s hs = 0%nat -> is_Some (b_data r))
  end.

Definition holder_ok (c : cache) (h : holder) : Prop :=
  match h with
  | HReserve b n => c_heap c !! b = Some (mkReply 1 (n + cachedReplyOverhead) None)
  | HRun s n => sl_dead (slot_of c s) = false ->
      exists b refs, sl_buffer (slot_of c s) = Some b /\ c_heap c !! b = Some (mkReply refs (n + cachedReplyOverhead) None)
  | HView b d => exists r, c_heap c !! b = Some r /\ b_data r = d /\ is_Some d
  end.

Record Inv (B limit : Z) (x : option nat) (w : cache * gmap nat holder) : Prop := {
  i_limit : c_cacheLimit w.1 = limit;
  i_fresh : forall b, is_Some (c_heap w.1 !! b) -> (b < c_fresh w.1)%nat;
  i_buf : forall b r, c_heap w.1 !! b = Some r -> buf_ok B w.1 w.2 x b r;
  i_slot : forall s sl, c_slots w.1 !! s = Some sl -> slot_ok w.1 w.2 s sl;
  i_hold : forall t h, w.2 !! t = Some h -> holder_ok w.1 h;
  i_run : forall s, (running s w.2 <= 1)%nat;
  i_bytes : c_cachedBytes w.1 = total b_charge (c_heap w.1);
  i_buffers : c_cachedBuffers w.1 = Z.of_nat (count (fun r => 0 <? b_refs r) (c_heap w.1));
  i_bound : c_cachedBytes w.1 <= Z.max 0 limit + B + cachedReplyOverhead;
}.

Section invariant.
Context (B limit : Z).

Lemma slot_of_set (c : cache) s s' sl : slot_of (set_slot s sl c) s' = if decide (s' = s) then sl else slot_of c s'.
Proof. unfold slot_of. simpl. case_decide; [subst; by rewrite lookup_insert_eq | by rewrite lookup_insert_ne]. Qed.

(** A slot that was never used is an empty one. *)
Lemma slot_inv c hs x s : Inv B limit x (c, hs) -> slot_ok c hs s (slot_of c s).
Proof. intros HI. unfold slot_of. destruct (c_slots c !! s) as [sl|] eqn:E; [by apply (i_slot _ _ _ _ HI) | done]. Qed.

Lemma slot_holds_count c s b : count (slot_holds b) (c_slots c) =
  (bit (slot_holds b (slot_of c s)) + count (slot_holds b) (delete s (c_slots c)))%nat.
Proof.
  unfold slot_of. destruct (c_slots c !! s) as [sl|] eqn:E; [by apply count_delete|]. by rewrite count_absent.
Qed.

Lemma slot_holds_self b sl : sl_buffer sl = Some b -> slot_holds b sl = true.
Proof. intros H. by apply bool_decide_eq_true_2. Qed.

(** The buffer of a slot is referred to. *)
Lemma slot_owner c hs s b : sl_buffer (slot_of c s) = Some b -> (0 < owners c hs b)%nat.
Proof. intros Hb. unfold owners. rewrite (slot_holds_count c s), slot_holds_self by done. simpl. lia. Qed.

(** No other slot has the buffer of a slot. *)
Lemma owners_other c s b : sl_buffer (slot_of c s) = Some b -> forall hs, (owners c hs b <= 1)%nat ->
  (forall s', s' <> s -> sl_buffer (slot_of c s') <> Some b) /\ count (reserves b) hs = 0%nat.
Proof.
  intros Hb hs Ho. unfold owners in Ho. rewrite (slot_holds_count c s), slot_holds_self in Ho by done. simpl in Ho. split; [|lia].
  intros s' Hne Hb'. unfold slot_of in Hb'. destruct (c_slots c !! s') as [sl|] eqn:E; [|done].
  pose proof (count_positive (slot_holds b) (delete s (c_slots c)) s' sl ltac:(by rewrite lookup_delete_ne) (slot_holds_self _ _ Hb')). lia.
Qed.

Lemma holder_count c hs t h b : hs !! t = Some h -> (match h with HReserve b' _ | HView b' _ => b' = b | HRun _ _ => False end) ->
  (0 < holders c hs b)%nat.
Proof.
  intros Ht Hb. unfold holders, owners. destruct h as [b' n| |b' d]; [..|done|]; subst b'.
  - pose proof (count_positive (reserves b) hs t _ Ht ltac:(by apply bool_decide_eq_true_2)). lia.
  - pose proof (count_positive (views b) hs t _ Ht ltac:(by apply bool_decide_eq_true_2)). lia.
Qed.

(** The entry of one buffer changes, and with it the reference in hand. *)
Lemma heap_inv c hs x x' b r r' : Inv B limit x (c, hs) -> c_heap c !! b = Some r -> buf_ok B c hs x' b r' ->
  (forall b', b' <> b -> x = Some b' <-> x' = Some b') ->
  (b_charge r' = b_charge r /\ b_data r' = b_data r /\ count (reserves b) hs = 0%nat \/ holders c hs b = 0%nat) ->
  b_charge r' <= b_charge r ->
  Inv B limit x' (set_heap (<[b := r']> (c_heap c)) (c_cachedBytes c - b_charge r + b_charge r')
    (c_cachedBuffers c - Z.of_nat (bit (0 <? b_refs r)) + Z.of_nat (bit (0 <? b_refs r'))) c, hs).
Proof.
  intros [I0 I1 I2 I3 I4 I5 I6 I7 I8] Hr Hok Hx Hsame Hle. simpl in *.
  assert (Hl : forall b', <[b := r']> (c_heap c) !! b' = if decide (b' = b) then Some r' else c_heap c !! b').
  { intros b'. case_decide; [subst; by rewrite lookup_insert_eq | by rewrite lookup_insert_ne]. }
  constructor; simpl; try done.
  - intros b'. rewrite Hl. case_decide; [subst; intros _; apply I1; eauto | apply I1].
  - intros b' r0. rewrite Hl. case_decide as Hd; [intros [= <-]; subst; by destruct Hok; constructor|]. intros Hb'. destruct (I2 b' r0 Hb') as [R1 R2 R3 R4].
    constructor; try done. rewrite R1. by rewrite (bool_decide_ext _ _ (Hx b' Hd)).
  - intros s sl Hs. specialize (I3 s sl Hs). unfold slot_ok in *. destruct (sl_buffer sl) as [b0|] eqn:Eb; [|done].
    destruct I3 as (r0 & H0 & H1 & H2 & H3). simpl. rewrite Hl. case_decide as Hd; [|by exists r0]. subst b0.
    assert (r0 = r) as -> by congruence. exists r'. destruct Hsame as [(-> & -> & _)|Hz]; [done|].
    pose proof (slot_owner c hs s b) as Ho. unfold slot_of in Ho. rewrite Hs in Ho. specialize (Ho Eb). unfold holders in Hz. lia.
  - intros t h Ht. specialize (I4 t h Ht). destruct h as [b0 n|s n|b0 d]; simpl in *.
    + rewrite Hl. case_decide; [|done]. subst b0. pose proof (count_positive (reserves b) hs t _ Ht ltac:(by apply bool_decide_eq_true_2)) as Hc.
      destruct Hsame as [(_ & _ & Hz)|Hz]; [lia|]. unfold holders, owners in Hz. lia.
    + intros Hdead. destruct (I4 Hdead) as (b0 & refs & H1 & H2). exists b0, (if decide (b0 = b) then b_refs r' else refs).
      rewrite Hl. case_decide; [|done]. subst b0.
      destruct Hsame as [(Hc & Hdt & _)|Hz]; [|pose proof (slot_owner c hs s b H1); unfold holders in Hz; lia].
      split; [done|]. rewrite Hr in H2. injection H2 as ->. destruct r' as [rf ch dt]; simpl in *; congruence.
    + destruct I4 as (r0 & H0 & H1 & H2). exists (if decide (b0 = b) then r' else r0). rewrite Hl. case_decide; [|done]. subst b0.
      assert (r0 = r) as -> by congruence. destruct Hsame as [(_ & Hdt & _)|Hz]; [by rewrite Hdt|]. pose proof (holder_count c hs t _ b Ht eq_refl). lia.
  - rewrite (total_update b_charge _ _ _ _ Hr). lia.
  - pose proof (count_update (fun r => 0 <? b_refs r) (c_heap c) b r r' Hr). lia.
  - lia.
Qed.

Lemma release_x c hs b r : Inv B limit (Some b) (c, hs) -> c_heap c !! b = Some r -> count (reserves b) hs = 0%nat ->
  exists c', releaseLocked b c = Ok c' /\ Inv B limit None (c', hs) /\ c_slots c' = c_slots c.
Proof.
  intros HI Hr Hres. pose proof (i_buf _ _ _ _ HI b r Hr) as [R1 R2 R3 R4]. simpl in *.
  rewrite bool_decide_eq_true_2 in R1 by done. simpl in R1. unfold releaseLocked. rewrite Hr, (proj2 (Z.ltb_ge _ _)) by lia.
  assert (Hx : forall b', b' <> b -> Some b = Some b' <-> None = Some b') by (intros; split; congruence).
  destruct (Z.eqb_spec (b_refs r - 1) 0) as [Hz|Hz].
  - eexists. split; [done|]. split; [|done].
    pose proof (heap_inv c hs (Some b) None b r (mkReply 0 0 None) HI Hr) as H. rewrite (proj2 (Z.ltb_lt 0 (b_refs r))) in H by lia. simpl in H.
    replace (c_cachedBytes c - b_charge r + 0) with (c_cachedBytes c - b_charge r) in H by lia.
    replace (c_cachedBuffers c - _ + _) with (c_cachedBuffers c - 1) in H by lia.
    apply H; [|done | right; lia | lia]. constructor; simpl; try done; lia.
  - eexists. split; [done|]. split; [|done].
    pose proof (heap_inv c hs (Some b) None b r (mkReply (b_refs r - 1) (b_charge r) (b_data r)) HI Hr) as H.
    rewrite (proj2 (Z.ltb_lt 0 (b_refs r))), (proj2 (Z.ltb_lt 0 (b_refs (mkReply (b_refs r - 1) _ _)))) in H by (simpl; lia). cbn [b_charge b_refs bit] in H.
    replace (c_cachedBytes c - b_charge r + b_charge r) with (c_cachedBytes c) in H by lia.
    replace (c_cachedBuffers c - _ + _) with (c_cachedBuffers c) in H by lia.
    apply H; [|done | by left | done]. constructor; simpl; try done; try lia.
Qed.

(** The slots and the holders change, the buffers do not. *)
Lemma frame_inv c hs x slots' hs' x' : Inv B limit x (c, hs) ->
  let c' := mkCache (c_heap c) (c_fresh c) (c_cachedBytes c) (c_cachedBuffers c) (c_cacheLimit c) slots' in
  (forall b r, c_heap c !! b = Some r ->
    (holders c' hs' b + bit (bool_decide (x' = Some b)) = holders c hs b + bit (bool_decide (x = Some b)))%nat /\ (owners c' hs' b <= 1)%nat) ->
  (forall s, (running s hs' <= 1)%nat) ->
  (forall s sl, slots' !! s = Some sl -> slot_ok c' hs' s sl) ->
  (forall t h, hs' !! t = Some h -> holder_ok c' h) ->
  Inv B limit x' (c', hs').
Proof.
  intros [I0 I1 I2 I3 I4 I5 I6 I7 I8] c' Ha Hc Hd He. simpl in *. constructor; simpl; try done.
  intros b r Hb. destruct (I2 b r Hb) as [R1 R2 R3 R4], (Ha b r Hb) as [Hh Ho]. constructor; try done. by rewrite R1, Hh.
Qed.

Lemma owners_set c s sl hs b :
  (owners (set_slot s sl c) hs b + bit (bool_decide (sl_buffer (slot_of c s) = Some b)) =
   owners c hs b + bit (bool_decide (sl_buffer sl = Some b)))%nat.
Proof. unfold owners. simpl. rewrite count_insert, (slot_holds_count c s b). unfold slot_holds. lia. Qed.

Lemma owners_end_run c c' s sl hs t s' n b : c_slots c' = <[s := sl]> (c_slots c) -> sl_buffer sl = sl_buffer (slot_of c s) ->
  hs !! t = Some (HRun s' n) ->
  owners c' (delete t hs) b = owners c hs b /\ holders c' (delete t hs) b = holders c hs b.
Proof.
  intros Hc' Hb Ht. pose proof (owners_set c s sl hs b) as Ho. rewrite Hb in Ho. unfold holders, owners in *. rewrite Hc'. cbn [set_slot c_slots] in Ho.
  pose proof (count_remove (reserves b) hs t _ Ht) as H1. pose proof (count_remove (views b) hs t _ Ht) as H2. simpl in H1, H2. lia.
Qed.

Lemma running_zero s hs t n : running s hs = 0%nat -> hs !! t <> Some (HRun s n).
Proof. intros Hz Ht. pose proof (count_zero _ _ _ _ Hz Ht) as H. simpl in H. by apply bool_decide_eq_false in H. Qed.

(** A slot lets its buffer go; the reference stays in hand. *)
Lemma drop_slot_inv c hs s : Inv B limit None (c, hs) -> (running s hs = 0%nat \/ sl_dead (slot_of c s) = true) ->
  Inv B limit (sl_buffer (slot_of c s)) (set_slot s (mkReplySlot None None 0 (sl_dead (slot_of c s))) c, hs).
Proof.
  intros HI Hs. apply (frame_inv c hs None); try done.
  - intros b r Hb. pose proof (bo_owner _ _ _ _ _ _ (i_buf _ _ _ _ HI b r Hb)) as Ho. simpl in Ho.
    pose proof (owners_set c s (mkReplySlot None None 0 (sl_dead (slot_of c s))) hs b) as H. simpl in H. unfold holders.
    rewrite (bool_decide_eq_false_2 (None = Some b)) in * by done. unfold set_slot in H. simpl in *. lia.
  - apply (i_run _ _ _ _ HI).
  - intros s' sl Hs'. apply lookup_insert_Some in Hs' as [[<- <-]|[Hne Hs']]; [done|]. apply (i_slot _ _ _ _ HI s' sl Hs').
  - intros t h Ht. pose proof (i_hold _ _ _ _ HI t h Ht) as Hh. destruct h as [|s' n|]; try done. simpl in Hh |- *.
    pose proof (slot_of_set c s s' (mkReplySlot None None 0 (sl_dead (slot_of c s)))) as E. unfold set_slot in E. rewrite E.
    case_decide; [|done]. subst s'. simpl. intros Hd. destruct Hs as [Hz|]; [|congruence]. by apply running_zero in Ht.
Qed.

(** A holder ends; its reference stays in hand. *)
Lemma drop_holder_inv c hs t h b : Inv B limit None (c, hs) -> hs !! t = Some h ->
  (match h with HReserve b' _ | HView b' _ => b' = b | HRun _ _ => False end) ->
  Inv B limit (Some b) (c, delete t hs) /\ count (reserves b) (delete t hs) = 0%nat /\ is_Some (c_heap c !! b).
Proof.
  intros HI Ht Hb.
  assert (Hrun : forall s, running s (delete t hs) = running s hs).
  { intros s. unfold running. pose proof (count_remove (is_run s) hs t h Ht) as H. destruct h; simpl in H; [lia | done | lia]. }
  pose proof (i_hold _ _ _ _ HI t h Ht) as Hh.
  assert (Hheap : is_Some (c_heap c !! b)) by (destruct h; simpl in *; subst; [by eexists | done | destruct Hh as (r & ? & _); by eexists]).
  destruct Hheap as [r Hr]. pose proof (i_buf _ _ _ _ HI b r Hr) as [R1 R2 _ _]. simpl in R1, R2.
  split; [|split; [|by eexists]].
  - replace c with (mkCache (c_heap c) (c_fresh c) (c_cachedBytes c) (c_cachedBuffers c) (c_cacheLimit c) (c_slots c)) by (by destruct c).
    apply (frame_inv c hs None); try done.
    + intros b' r' Hb'. pose proof (bo_owner _ _ _ _ _ _ (i_buf _ _ _ _ HI b' r' Hb')) as Ho. unfold holders, owners in *. simpl in *.
      pose proof (count_remove (reserves b') hs t h Ht). pose proof (count_remove (views b') hs t h Ht).
      destruct h; simpl in *; subst; [|done|]; (rewrite (bool_decide_ext (Some b = Some b') (b = b')) by (split; congruence)); lia.
    + intros s. rewrite Hrun. apply (i_run _ _ _ _ HI).
    + intros s sl Hs. pose proof (i_slot _ _ _ _ HI s sl Hs) as Ho. unfold slot_ok in *. simpl in *. destruct (sl_buffer sl); [|done].
      destruct Ho as (r0 & ? & ? & ? & ?). exists r0. by rewrite Hrun.
    + intros t' h' Ht'. apply lookup_delete_Some in Ht' as [_ Ht']. apply (i_hold _ _ _ _ HI t' h' Ht').
  - pose proof (count_remove (reserves b) hs t h Ht) as Hc. destruct h; simpl in *; subst; [|done|].
    + rewrite bool_decide_eq_true_2 in Hc by done. simpl in Hc. rewrite Hh in Hr. injection Hr as <-. simpl in R1.
      unfold holders, owners in R1. lia.
    + destruct (decide (count (reserves b) hs = 0%nat)) as [Hz|Hz]; [lia|]. exfalso.
      destruct (count_some (reserves b) hs ltac:(lia)) as (t' & h' & Ht' & Hh'). destruct h' as [b' n'| |]; try done.
      simpl in Hh'. apply bool_decide_eq_true in Hh' as ->. pose proof (i_hold _ _ _ _ HI t' _ Ht') as Hh2. simpl in Hh2.
      assert (r = mkReply 1 (n' + cachedReplyOverhead) None) as -> by congruence. simpl in R1. unfold holders, owners in R1.
      pose proof (count_positive (views b) hs t _ Ht ltac:(by apply bool_decide_eq_true_2)). lia.
Qed.

Lemma release_set b s sl c : releaseLocked b (set_slot s sl c) = (let! c' := releaseLocked b c in Ok (set_slot s sl c')).
Proof. unfold releaseLocked. simpl. by repeat case_match. Qed.

Lemma set_slot_twice s sl sl' c : set_slot s sl (set_slot s sl' c) = set_slot s sl c.
Proof. unfold set_slot. simpl. by rewrite insert_insert_eq. Qed.

Lemma drain_inv c hs s : Inv B limit None (c, hs) -> (running s hs = 0%nat \/ sl_dead (slot_of c s) = true) ->
  exists c', drain_slot s c = Ok c' /\ Inv B limit None (c', hs) /\ slot_of c' s = mkReplySlot None None 0 (sl_dead (slot_of c s)).
Proof.
  intros HI Hs. pose proof (drop_slot_inv c hs s HI Hs) as HI1. unfold drain_slot, release_old.
  destruct (sl_buffer (slot_of c s)) as [b|] eqn:Hb; [|eexists; split; [done|]; split; [done|]; by rewrite slot_of_set, decide_True].
  pose proof (slot_inv _ _ _ s HI) as Hsl. unfold slot_ok in Hsl. rewrite Hb in Hsl. destruct Hsl as (r & Hr & _).
  pose proof (bo_owner _ _ _ _ _ _ (i_buf _ _ _ _ HI b r Hr)) as Ho. unfold owners in Ho. simpl in Ho.
  rewrite (slot_holds_count c s b), slot_holds_self in Ho by done. simpl in Ho.
  destruct (release_x _ _ b r HI1 Hr ltac:(lia)) as (c' & H1 & H2 & H3). exists c'. split; [done|]. split; [done|].
  unfold slot_of. rewrite H3. simpl. by rewrite lookup_insert_eq.
Qed.

(** The reservation of an admitted request becomes the slot's buffer. *)
Lemma attach_inv c hs t s b n : Inv B limit None (c, hs) -> hs !! t = Some (HReserve b n) -> running s hs = 0%nat ->
  sl_buffer (slot_of c s) = None ->
  Inv B limit None (set_slot s (mkReplySlot (Some b) None (n + cachedReplyOverhead) (sl_dead (slot_of c s))) c, <[t := HRun s n]> hs).
Proof.
  intros HI Ht Hs He. pose proof (i_hold _ _ _ _ HI t _ Ht) as Hb. simpl in Hb.
  set (sl := mkReplySlot (Some b) None (n + cachedReplyOverhead) (sl_dead (slot_of c s))).
  assert (Hsl : forall s', slot_of (set_slot s sl c) s' = if decide (s' = s) then sl else slot_of c s') by (intros; apply slot_of_set).
  assert (Hrun : forall s', running s' (<[t := HRun s n]> hs) = if decide (s' = s) then 1%nat else running s' hs).
  { intros s'. unfold running. pose proof (count_update (is_run s') hs t _ (HRun s n) Ht) as H. simpl in H.
    destruct (decide (s' = s)) as [Hd|Hd]; [subst; rewrite bool_decide_eq_true_2 in H by done; unfold running in Hs; simpl in H; lia|].
    rewrite bool_decide_eq_false_2 in H by congruence. simpl in H. lia. }
  apply (frame_inv c hs None); try done.
  - intros b' r' Hb'. pose proof (bo_owner _ _ _ _ _ _ (i_buf _ _ _ _ HI b' r' Hb')) as Ho. simpl in Ho.
    pose proof (owners_set c s sl (<[t := HRun s n]> hs) b') as H. rewrite He in H. unfold set_slot in H. simpl in H.
    rewrite (bool_decide_eq_false_2 (None = Some b')) in * by done. unfold holders.
    pose proof (count_update (reserves b') hs t _ (HRun s n) Ht) as C1. pose proof (count_update (views b') hs t _ (HRun s n) Ht) as C2.
    simpl in C1, C2. rewrite (bool_decide_ext (Some b = Some b') (b = b')) in H by (split; congruence). unfold owners in *. simpl in *. lia.
  - intros s'. rewrite Hrun. case_decide; [lia | apply (i_run _ _ _ _ HI)].
  - intros s' sl' Hs'. apply lookup_insert_Some in Hs' as [[<- <-]|[Hne Hs']].
    + unfold slot_ok, sl. cbn [sl_buffer]. eexists. split; [exact Hb|]. split; [done|]. split; [done|]. rewrite Hrun, decide_True by done. done.
    + pose proof (i_slot _ _ _ _ HI s' sl' Hs') as Ho. unfold slot_ok in *. destruct (sl_buffer sl'); [|done].
      destruct Ho as (r0 & ? & ? & ? & ?). exists r0. by rewrite Hrun, decide_False.
  - intros t' h Ht'. apply lookup_insert_Some in Ht' as [[<- <-]|[Hne Ht']].
    + simpl. pose proof (Hsl s) as E. unfold set_slot in E. rewrite E, decide_True by done. intros _. exists b, 1. done.
    + pose proof (i_hold _ _ _ _ HI t' h Ht') as Hh. destruct h as [|s' n'|]; try done. simpl in Hh |- *.
      pose proof (Hsl s') as E. unfold set_slot in E. rewrite E. case_decide; [|done]. subst s'. by apply running_zero in Ht'.
Qed.

Lemma install_reply_inv c hs t s b n : Inv B limit None (c, hs) -> hs !! t = Some (HReserve b n) -> running s hs = 0%nat ->
  exists c', installSlotReply s b c = Ok c' /\ Inv B limit None (c', <[t := HRun s n]> hs).
Proof.
  intros HI Ht Hs. pose proof (i_hold _ _ _ _ HI t _ Ht) as Hb. simpl in Hb.
  destruct (drain_inv c hs s HI (or_introl Hs)) as (c1 & Hd & HI1 & Hsl). unfold installSlotReply. rewrite Hb. cbn [b_charge].
  pose proof (attach_inv c1 hs t s b n HI1 Ht Hs ltac:(by rewrite Hsl)) as HI2. rewrite Hsl in HI2. cbn [sl_dead] in HI2.
  eexists. split; [|exact HI2]. unfold drain_slot, release_old in *. destruct (sl_buffer (slot_of c s)) as [old|].
  - rewrite release_set. rewrite release_set in Hd. destruct (releaseLocked old c) as [c0|e|]; try done. simpl in Hd |- *. injection Hd as <-.
    by rewrite set_slot_twice.
  - injection Hd as <-. by rewrite set_slot_twice.
Qed.

(** A holder of a buffer that is in hand. *)
Lemma add_holder_inv c hs t h b : Inv B limit (Some b) (c, hs) -> hs !! t = None ->
  match h with HReserve b' _ | HView b' _ => b' = b | HRun _ _ => False end -> holder_ok c h ->
  (match h with HReserve _ _ => owners c hs b = 0%nat | _ => True end) ->
  Inv B limit None (c, <[t := h]> hs).
Proof.
  intros HI Ht Hb Hh Hown.
  assert (Hrun : forall s, running s (<[t := h]> hs) = running s hs).
  { intros s. unfold running. rewrite count_add by done. by destruct h. }
  replace c with (mkCache (c_heap c) (c_fresh c) (c_cachedBytes c) (c_cachedBuffers c) (c_cacheLimit c) (c_slots c)) by (by destruct c).
  apply (frame_inv c hs (Some b)); try done.
  - intros b' r' Hb'. pose proof (bo_owner _ _ _ _ _ _ (i_buf _ _ _ _ HI b' r' Hb')) as Ho. unfold holders, owners in *. simpl in *.
    rewrite !count_add by done. rewrite (bool_decide_ext (Some b = Some b') (b = b')) by (split; congruence).
    rewrite ?(bool_decide_eq_false_2 (None = Some b')) by done.
    destruct h; simpl in *; subst; [|done|lia]. destruct (decide (b = b')) as [<-|]; [rewrite bool_decide_eq_true_2 by done; simpl; lia|].
    rewrite bool_decide_eq_false_2 by done. simpl. lia.
  - intros s. rewrite Hrun. apply (i_run _ _ _ _ HI).
  - intros s sl Hs. pose proof (i_slot _ _ _ _ HI s sl Hs) as Ho. unfold slot_ok in *. simpl in *. destruct (sl_buffer sl); [|done].
    destruct Ho as (r0 & ? & ? & ? & ?). exists r0. by rewrite Hrun.
  - intros t' h' Ht'. apply lookup_insert_Some in Ht' as [[<- <-]|[Hne Ht']]; [done|]. apply (i_hold _ _ _ _ HI t' h' Ht').
Qed.

Lemma replay_inv c hs t s b : Inv B limit None (c, hs) -> hs !! t = None -> running s hs = 0%nat -> sl_buffer (slot_of c s) = Some b ->
  exists c', retain b c = Ok c' /\ Inv B limit None (c', <[t := HView b (sl_reply (slot_of c s))]> hs) /\ is_Some (sl_reply (slot_of c s)).
Proof.
  intros HI Ht Hs Hb. pose proof (slot_inv _ _ _ s HI) as Hsl. unfold slot_ok in Hsl. rewrite Hb in Hsl.
  destruct Hsl as (r & Hr & Hres & Hrep & Hdone). destruct (i_buf _ _ _ _ HI b r Hr) as [R1 R2 R3 R4]. simpl in R1, R2.
  pose proof (slot_owner c hs s b Hb) as Hown. unfold holders in R1. simpl in R1.
  unfold retain. rewrite Hr. destruct (Z.eqb_spec (b_refs r) 0); [lia|]. eexists. split; [done|]. rewrite Hrep. split; [|by apply Hdone].
  pose proof (heap_inv c hs None (Some b) b r (mkReply (b_refs r + 1) (b_charge r) (b_data r)) HI Hr) as H.
  rewrite (proj2 (Z.ltb_lt 0 (b_refs r))), (proj2 (Z.ltb_lt 0 (b_refs (mkReply (b_refs r + 1) _ _)))) in H by (simpl; lia). cbn [b_charge b_refs bit] in H.
  replace (c_cachedBytes c - b_charge r + b_charge r) with (c_cachedBytes c) in H by lia.
  replace (c_cachedBuffers c - _ + _) with (c_cachedBuffers c) in H by lia.
  eapply add_holder_inv; [apply H | done | done | simpl; rewrite lookup_insert_eq; eexists; split; [done|]; split; [done | by apply Hdone] | done].
  - constructor; simpl; try done; [rewrite bool_decide_eq_true_2 by done; unfold holders; simpl; lia | lia].
  - intros b' Hne. split; congruence.
  - left. split; [done|]. split; [done|]. unfold owners in *. rewrite (slot_holds_count c s b), slot_holds_self in R2 by done. simpl in R2. lia.
  - done.
Qed.

Lemma release_holder_inv c hs t h b : Inv B limit None (c, hs) -> hs !! t = Some h ->
  (match h with HReserve b' _ | HView b' _ => b' = b | HRun _ _ => False end) ->
  exists c', releaseLocked b c = Ok c' /\ Inv B limit None (c', delete t hs).
Proof.
  intros HI Ht Hb. destruct (drop_holder_inv _ _ _ _ _ HI Ht Hb) as (HI1 & Hres & r & Hr).
  destruct (release_x _ _ _ _ HI1 Hr Hres) as (c' & H1 & H2 & _). eauto.
Qed.

Lemma reserve_inv c hs t s n c' b : Inv B limit None (c, hs) -> hs !! t = None -> 0 <= n <= B -> B < 2 ^ 62 ->
  reserveSlotReply s n c = (c', Some b) -> Inv B limit None (c', <[t := HReserve b n]> hs).
Proof.
  intros HI Ht Hn HB H. unfold reserveSlotReply in H. destruct (sl_dead _); [done|]. set (credit := match sl_buffer _ with Some _ => _ | None => 0 end) in H.
  assert (Hcr : 0 <= credit <= B + cachedReplyOverhead).
  { unfold credit. destruct (sl_buffer _) as [old|]; [|unfold cachedReplyOverhead; lia].
    destruct (c_heap c !! old) as [r|] eqn:Hr; [|unfold cachedReplyOverhead; lia]. destruct (_ =? 1); [|unfold cachedReplyOverhead; lia].
    exact (bo_charge _ _ _ _ _ _ (i_buf _ _ _ _ HI _ _ Hr)). }
  assert (Hch : to_signed 64 (n + cachedReplyOverhead) = n + cachedReplyOverhead).
  { unfold to_signed, cachedReplyOverhead in *. rewrite Z.mod_small by lia. by rewrite decide_True by lia. }
  rewrite Hch in H. destruct (_ || _) eqn:Hc; [done|]. reflect_bools. injection H as <- <-.
  destruct HI as [I0 I1 I2 I3 I4 I5 I6 I7 I8]. simpl in *.
  assert (Hnew : c_heap c !! c_fresh c = None).
  { destruct (c_heap c !! c_fresh c) eqn:E; [|done]. specialize (I1 (c_fresh c) ltac:(by eexists)). lia. }
  assert (Hne : forall b, is_Some (c_heap c !! b) -> b <> c_fresh c) by (intros b [] ->; congruence).
  assert (Hslots : count (slot_holds (c_fresh c)) (c_slots c) = 0%nat).
  { apply count_none. intros s' sl Hs'. apply bool_decide_eq_false_2. intros Hb. pose proof (I3 s' sl Hs') as Ho. unfold slot_ok in Ho.
    rewrite Hb in Ho. destruct Ho as (r & Hr & _). simpl in Hr. congruence. }
  assert (Hhs : count (reserves (c_fresh c)) hs = 0%nat /\ count (views (c_fresh c)) hs = 0%nat).
  { split; apply count_none; intros t' h Ht'; pose proof (I4 t' h Ht') as Ho; destruct h; try done; apply bool_decide_eq_false_2; intros ->;
      simpl in Ho; [congruence | destruct Ho as (r & Hr & _); congruence]. }
  destruct Hhs as [Hh1 Hh2].
  eapply (add_holder_inv _ _ _ _ (c_fresh c)); [|done | done | simpl; by rewrite lookup_insert_eq | unfold owners; simpl; lia].
  constructor; simpl; try done.
  - intros b [r Hb]. apply lookup_insert_Some in Hb as [[<- _]|[_ Hb]]; [lia|]. specialize (I1 b ltac:(by eexists)). lia.
  - intros b r Hb. apply lookup_insert_Some in Hb as [[<- <-]|[Hb0 Hb]].
    + constructor; simpl; unfold holders, owners; simpl; rewrite ?bool_decide_eq_true_2 by done; simpl; try lia. unfold cachedReplyOverhead in *; lia.
    + destruct (I2 b r Hb) as [R1 R2 R3 R4]. constructor; try done. rewrite R1. rewrite (bool_decide_eq_false_2 (Some _ = Some b)) by congruence. done.
  - intros s' sl Hs'. pose proof (I3 s' sl Hs') as Ho. unfold slot_ok in *. simpl in *. destruct (sl_buffer sl) as [b|]; [|done].
    destruct Ho as (r & Hr & Ho). exists r. by rewrite lookup_insert_ne by (symmetry; apply Hne; eauto).
  - intros t' h Ht'. pose proof (I4 t' h Ht') as Ho. destruct h; simpl in *.
    + by rewrite lookup_insert_ne by (symmetry; apply Hne; eauto).
    + intros Hd. destruct (Ho Hd) as (b & refs & Hb & Hr). exists b, refs. by rewrite lookup_insert_ne by (symmetry; apply Hne; eauto).
    + destruct Ho as (r & Hr & Ho). exists r. by rewrite lookup_insert_ne by (symmetry; apply Hne; eauto).
  - rewrite total_add by done. simpl. lia.
  - rewrite count_add by done. simpl. lia.
  - lia.
Qed.

Lemma kill_inv c hs s : Inv B limit None (c, hs) -> Inv B limit None (kill_slot s c, hs).
Proof.
  intros HI. unfold kill_slot. set (sl := mkReplySlot _ _ _ true). pose proof (slot_inv _ _ _ s HI) as Hsl.
  apply (frame_inv c hs None); try done.
  - intros b r Hb. pose proof (bo_owner _ _ _ _ _ _ (i_buf _ _ _ _ HI b r Hb)) as Ho. simpl in Ho.
    pose proof (owners_set c s sl hs b) as H. unfold set_slot in H. unfold holders, sl in *. cbn [sl_buffer] in H. simpl in *. unfold owners in *. simpl in *. lia.
  - apply (i_run _ _ _ _ HI).
  - intros s' sl' Hs'. apply lookup_insert_Some in Hs' as [[<- <-]|[Hne Hs']]; [exact Hsl|]. apply (i_slot _ _ _ _ HI s' sl' Hs').
  - intros t h Ht. pose proof (i_hold _ _ _ _ HI t h Ht) as Hh. destruct h as [|s' n|]; try done. simpl in Hh |- *.
    pose proof (slot_of_set c s s' sl) as E. unfold set_slot in E. rewrite E. case_decide; [done|]. exact Hh.
Qed.

(** A holder that refers to no buffer ends, the slot being empty or complete. *)
Lemma end_run_inv c hs t s n : Inv B limit None (c, hs) -> hs !! t = Some (HRun s n) ->
  (forall b r, sl_buffer (slot_of c s) = Some b -> c_heap c !! b = Some r -> is_Some (b_data r)) ->
  Inv B limit None (c, delete t hs).
Proof.
  intros HI Ht Hdone.
  replace c with (mkCache (c_heap c) (c_fresh c) (c_cachedBytes c) (c_cachedBuffers c) (c_cacheLimit c) (c_slots c)) by (by destruct c).
  assert (Hrun : forall s', s' <> s -> running s' (delete t hs) = running s' hs).
  { intros s' Hne. unfold running. pose proof (count_remove (is_run s') hs t _ Ht) as H. simpl in H. rewrite bool_decide_eq_false_2 in H by congruence. simpl in H. lia. }
  apply (frame_inv c hs None); try done.
  - intros b r Hb. pose proof (bo_owner _ _ _ _ _ _ (i_buf _ _ _ _ HI b r Hb)) as Ho. unfold holders, owners in *. simpl in *.
    pose proof (count_remove (reserves b) hs t _ Ht). pose proof (count_remove (views b) hs t _ Ht). simpl in *. lia.
  - intros s'. pose proof (i_run _ _ _ _ HI s') as H. simpl in H. unfold running in *. pose proof (count_remove (is_run s') hs t _ Ht). lia.
  - intros s' sl Hs'. pose proof (i_slot _ _ _ _ HI s' sl Hs') as Ho. unfold slot_ok in *. simpl in *. destruct (sl_buffer sl) as [b|] eqn:Hb; [|done].
    destruct Ho as (r & H1 & H2 & H3 & H4). exists r. do 3 (split; [done|]). destruct (decide (s' = s)) as [->|Hne]; [|by rewrite Hrun].
    intros _. apply (Hdone b r); [unfold slot_of; by rewrite Hs' | done].
  - intros t' h Ht'. apply lookup_delete_Some in Ht' as [_ Ht']. apply (i_hold _ _ _ _ HI t' h Ht').
Qed.

Lemma run_one hs t t' s n n' x c : Inv B limit x (c, hs) -> hs !! t = Some (HRun s n) -> hs !! t' = Some (HRun s n') -> t = t'.
Proof. intros HI Ht Ht'. by apply (count_one (is_run s) hs t t' _ _ (i_run _ _ _ _ HI s) Ht Ht'); apply bool_decide_eq_true_2. Qed.

(** The saved reply of the request that runs on a slot. *)
Lemma store_inv c hs t s n saved b : Inv B limit None (c, hs) -> hs !! t = Some (HRun s n) -> Z.of_nat (length saved) <= n ->
  sl_dead (slot_of c s) = false -> sl_buffer (slot_of c s) = Some b ->
  exists c' r, storeBody b saved c = Ok c' /\ c_heap c' !! b = Some r /\ b_data r = Some saved /\
    Inv B limit None (set_slot s (mkReplySlot (Some b) (b_data r) (b_charge r) false) c', delete t hs).
Proof.
  intros HI Ht Hlen Hd Hb. pose proof (i_hold _ _ _ _ HI t _ Ht Hd) as (b0 & refs & Hb0 & Hr). simpl in Hb0, Hr. rewrite Hb in Hb0. injection Hb0 as <-.
  unfold storeBody. rewrite Hr. cbn [b_charge b_refs]. rewrite (proj2 (Z.ltb_ge _ _)) by lia.
  set (r' := mkReply refs (Z.of_nat (length saved) + cachedReplyOverhead) (Some saved)).
  eexists. exists r'. split; [done|]. split; [simpl; by rewrite lookup_insert_eq|]. split; [done|].
  pose proof HI as [I0 I1 I2 I3 I4 I5 I6 I7 I8]. simpl in *. destruct (I2 b _ Hr) as [R1 R2 R3 R4].
  pose proof (slot_owner c hs s b Hb) as Hown. destruct (owners_other c s b Hb hs R2) as [Hoth Hres].
  assert (Hh : forall c', c_slots c' = <[s := mkReplySlot (Some b) (b_data r') (b_charge r') false]> (c_slots c) -> forall b',
    owners c' (delete t hs) b' = owners c hs b' /\ holders c' (delete t hs) b' = holders c hs b').
  { intros c' Hc' b'. by apply (owners_end_run c c' s _ hs t s n b' Hc'). }
  match goal with |- Inv _ _ _ (?x, _) => pose proof (Hh x eq_refl) as Hh' end. clear Hh.
  constructor; cbn [fst snd]; try done.
  - intros b' [r0 Hb']. simpl in Hb'. apply lookup_insert_Some in Hb' as [[<- _]|[_ Hb']]; apply I1; by eexists.
  - intros b' r0 Hb'. simpl in Hb'. apply lookup_insert_Some in Hb' as [[<- <-]|[Hne Hb']].
    + destruct (Hh' b) as [E1 E2]. constructor; rewrite ?E1, ?E2; try done; simpl in *; [|unfold cachedReplyOverhead in *; lia].
      intros Hz. unfold holders in R1. lia.
    + destruct (I2 b' r0 Hb') as [S1 S2 S3 S4]. destruct (Hh' b') as [E1 E2]. by constructor; rewrite ?E1, ?E2.
  - intros s' sl Hs'. simpl in Hs'. apply lookup_insert_Some in Hs' as [[<- <-]|[Hne Hs']].
    + unfold slot_ok. simpl. exists r'. by rewrite lookup_insert_eq.
    + pose proof (I3 s' sl Hs') as Ho. unfold slot_ok in *. simpl in *. destruct (sl_buffer sl) as [b0|] eqn:Eb; [|done].
      destruct Ho as (r0 & H1 & H2 & H3 & H4). exists r0. rewrite lookup_insert_ne. 
      * do 3 (split; [done|]). intros Hz. apply H4. unfold running in *. pose proof (count_remove (is_run s') hs t _ Ht) as Hc. simpl in Hc.
        rewrite bool_decide_eq_false_2 in Hc by done. simpl in Hc. lia.
      * intros <-. apply (Hoth s'); [done|]. unfold slot_of. by rewrite Hs'.
  - intros t' h Ht'. apply lookup_delete_Some in Ht' as [Hne Ht']. pose proof (I4 t' h Ht') as Ho. destruct h as [b0 n'|s' n'|b0 d]; simpl in *.
    + rewrite lookup_insert_ne; [done|]. intros ->. pose proof (count_zero _ _ _ _ Hres Ht') as E. by apply bool_decide_eq_false in E.
    + assert (Hs' : s' <> s) by (intros ->; by apply Hne, (run_one _ _ _ _ _ _ _ _ HI Ht Ht')).
      rewrite slot_of_set, decide_False by done. intros Hd'. destruct (Ho Hd') as (b0 & rf & H1 & H2). exists b0, rf. split; [done|].
      rewrite lookup_insert_ne; [done|]. intros <-. by apply (Hoth s').
    + destruct Ho as (r0 & H1 & H2 & H3). exists r0. rewrite lookup_insert_ne; [done|]. intros <-. rewrite Hr in H1. injection H1 as <-. subst d. by destruct H3.
  - intros s'. specialize (I5 s'). unfold running in *. pose proof (count_remove (is_run s') hs t _ Ht). lia.
  - simpl. rewrite (total_update b_charge _ _ _ _ Hr). simpl. lia.
  - pose proof (count_update (fun r => 0 <? b_refs r) (c_heap c) b _ r' Hr) as Hc. simpl in *. lia.
  - simpl. lia.
Qed.

Lemma finish_inv c hs t s n saved : Inv B limit None (c, hs) -> hs !! t = Some (HRun s n) -> Z.of_nat (length saved) <= n ->
  exists c', finish_slot s saved c = Ok c' /\ Inv B limit None (c', delete t hs) /\
    sl_reply (slot_of c' s) = (if sl_dead (slot_of c s) then None else Some saved).
Proof.
  intros HI Ht Hlen. unfold finish_slot. destruct (sl_dead (slot_of c s)) eqn:Hd.
  - destruct (drain_inv c hs s HI (or_intror Hd)) as (c' & H1 & H2 & H3). exists c'. split; [done|]. rewrite H3. split; [|done].
    eapply end_run_inv; eauto. intros b r Hb. by rewrite H3 in Hb.
  - destruct (i_hold _ _ _ _ HI t _ Ht Hd) as (b & refs & Hb & _). simpl in Hb. rewrite Hb.
    destruct (store_inv _ _ _ _ _ _ _ HI Ht Hlen Hd Hb) as (c' & r & H1 & H2 & H3 & H4). rewrite H1. simpl. rewrite H2.
    eexists. split; [done|]. split; [done|]. by rewrite slot_of_set, decide_True.
Qed.

Lemma cache_step_inv w w' : B < 2 ^ 62 -> Inv B limit None w -> step B w w' -> Inv B limit None w'.
Proof.
  intros HB HI Hs. destruct Hs; eauto using reserve_inv, kill_inv.
  - destruct (release_holder_inv _ _ _ _ b HI H eq_refl) as (c1 & H1 & H2). congruence.
  - destruct (install_reply_inv _ _ _ _ _ _ HI H H0) as (c1 & H2 & H3). congruence.
  - destruct (replay_inv _ _ _ _ _ HI H H0 H1) as (c1 & H3 & H4 & _). congruence.
  - destruct (release_holder_inv _ _ _ _ b HI H eq_refl) as (c1 & H1 & H2). congruence.
  - destruct (drain_inv _ _ s HI (or_intror H)) as (c1 & H1 & H2 & _). congruence.
  - destruct (finish_inv _ _ _ _ _ _ HI H H0) as (c1 & H2 & H3 & _). congruence.
Qed.

Lemma cache_reachable_inv w : 0 <= B < 2 ^ 62 -> reachable B limit w -> Inv B limit None w.
Proof.
  intros HB. apply (rtc_ind_r (Inv B limit None) (empty_cache limit, ∅)); [|intros; eapply cache_step_inv; [lia | done..]].
  constructor; simpl; try done; try (intros; by simplify_map_eq).
  - intros s. unfold running. rewrite count_none; [lia | done].
  - unfold cachedReplyOverhead. lia.
Qed.

End invariant.

(** * Properties *)

(** C24: the accounting of the reply cache, for histories with reservations of
    at most [B] bytes. The bytes and buffers counted are those of the buffers
    still referred to by a slot, an admission or a reply being sent, so that
    nothing is counted once they are gone, and the bytes exceed the limit by at
    most one buffer. No operation panics: a reference count never underflows, a
    released buffer is never used, and a saved reply fits its reservation. And a
    retransmission sends the saved reply of its slot, which later requests on
    the slot do not disturb. *)
Theorem reply_cache_sound B limit w : 0 <= B < 2 ^ 62 -> reachable B limit w ->
  let '(c, hs) := w in
  (c_cachedBytes c = total b_charge (c_heap c) /\ c_cachedBytes c <= Z.max 0 limit + B + cachedReplyOverhead /\
   c_cachedBuffers c = Z.of_nat (count (fun r => 0 <? b_refs r) (c_heap c))) /\
  (forall b r, c_heap c !! b = Some r -> holders c hs b = 0%nat -> b_charge r = 0) /\
  (forall t b n, hs !! t = Some (HReserve b n) -> exists c', releaseLocked b c = Ok c') /\
  (forall t s b n, hs !! t = Some (HReserve b n) -> running s hs = 0%nat -> exists c', installSlotReply s b c = Ok c') /\
  (forall t s n saved, hs !! t = Some (HRun s n) -> Z.of_nat (length saved) <= n -> exists c', finish_slot s saved c = Ok c' /\
     sl_reply (slot_of c' s) = (if sl_dead (slot_of c s) then None else Some saved)) /\
  (forall s b, running s hs = 0%nat -> sl_buffer (slot_of c s) = Some b ->
     (exists c', retain b c = Ok c') /\ is_Some (sl_reply (slot_of c s))) /\
  (forall t b d, hs !! t = Some (HView b d) -> (exists c', releaseLocked b c = Ok c') /\ exists r, c_heap c !! b = Some r /\ b_data r = d).
Proof.
  intros HB Hw. pose proof (cache_reachable_inv _ _ _ HB Hw) as HI. destruct w as [c hs].
  split; [exact (conj (i_bytes _ _ _ _ HI) (conj (i_bound _ _ _ _ HI) (i_buffers _ _ _ _ HI)))|]. split_and!.
  - intros b r Hb Hz. destruct (i_buf _ _ _ _ HI b r Hb) as [R1 _ R3 _]. simpl in R1. rewrite Hz in R1. by rewrite (R3 R1).
  - intros t b n Ht. destruct (release_holder_inv _ _ _ _ _ _ b HI Ht eq_refl) as (c' & H & _). eauto.
  - intros t s b n Ht Hs. destruct (install_reply_inv _ _ _ _ _ _ _ _ HI Ht Hs) as (c' & H & _). eauto.
  - intros t s n saved Ht Hlen. destruct (finish_inv _ _ _ _ _ _ _ _ HI Ht Hlen) as (c' & H & _ & Hr). eauto.
  - intros s b Hs Hb. destruct (fresh_key hs) as [t Ht]. destruct (replay_inv _ _ _ _ _ _ _ HI Ht Hs Hb) as (c' & H & _ & Hr). eauto.
  - intros t b d Ht. destruct (release_holder_inv _ _ _ _ _ _ b HI Ht eq_refl) as (c' & H & _). split; [eauto|].
    destruct (i_hold _ _ _ _ HI t _ Ht) as (r & Hr & Hd & _). eauto.
Qed.

(** A request runs on slot 0, its reply is saved and sent again. *)
Definition demo_reserved : cache := (reserveSlotReply 0 10 (empty_cache 1000)).1.
Definition ok_or (o : outcome unit cache) (c : cache) : cache := match o with Ok c => c | _ => c end.
Definition demo_installed : cache := ok_or (installSlotReply 0 0 demo_reserved) demo_reserved.
Definition demo_finished : cache := ok_or (finish_slot 0 [Byte.x2a] demo_installed) demo_installed.
Definition demo_holders : gmap nat holder := delete 0%nat (<[0%nat := HRun 0 10]> (<[0%nat := HReserve 0 10]> ∅)).

Lemma demo_reachable : reachable 100 1000 (demo_finished, demo_holders).
Proof.
  eapply rtc_l; [apply (step_reserve 100 _ _ 0 0 10 demo_reserved 0); [done | lia | by vm_compute]|].
  eapply rtc_l; [apply (step_install 100 _ _ 0 0 0 10 demo_installed); by vm_compute|].
  apply rtc_once. apply (step_finish 100 _ _ 0 0 10 [Byte.x2a]); by vm_compute.
Qed.

Lemma reply_cache_sound_witness : exists c', retain 0 demo_finished = Ok c'.
Proof.
  destruct (reply_cache_sound 100 1000 (demo_finished, demo_holders) ltac:(lia) demo_reachable) as (_ & _ & _ & _ & _ & H & _).
  apply (H 0%nat 0%nat); by vm_compute.
Defined.
