(* ===== verification/ReplayRecord.v ===== *)
(** What a session file records about a session and its requests: the
    effective user of src/go/nfsd/internal/server/rpc_request.go, the session
    record and the users of session_persist.go, and the intents of
    replay_intent.go.

    A Go string is its bytes. The reader of an intent is threaded explicitly;
    like the Go one it remembers the first failure and goes on with zeros. *)

From Stdlib Require Import ZArith Lia.
From stdpp Require Import base numbers option sorting list.
From S2P Require Import Prelude SessionFile.

(** * Effective users *)

Definition AUTH_NONE : Z := 0.
Definition AUTH_SYS : Z := 1.

Record effectiveUser := mkUser {
  eu_flavor : Z;
  eu_uid : Z;
  eu_gid : Z;
  eu_groups : list byte;
}.

#[export] Instance effectiveUser_eq_dec : EqDecision effectiveUser.
Proof. solve_decision. Defined.

(** [(n+3) &^ 3]. *)
Definition pad4 (n : Z) : Z := Z.ldiff (n + 3) 3.

(** The groups of the credential, [count] words from [off] on. *)
Fixpoint read_groups (body : list byte) (off count : nat) : outcome unit (list Z) :=
  match count with
  | O => Ok []
  | S count =>
    let! g := be_at 4 body off in
    let! gs := read_groups body (off + 4) count in
    Ok (g :: gs)
  end.

(** The loop on the sorted groups: each group once, without the primary one. *)
Fixpoint canonical_groups (gid : Z) (prev : option Z) (gs : list Z) : list byte :=
  match gs with
  | [] => []
  | g :: gs =>
    if (g =? gid) || bool_decide (prev = Some g) then canonical_groups gid prev gs
    else be_bytes 4 g ++ canonical_groups gid (Some g) gs
  end.

(** [effectiveUser] of a request with the credential [flavor], [body]. *)
Definition effective_user (flavor : Z) (body : list byte) : outcome unit effectiveUser :=
  if flavor =? AUTH_NONE then
    if negb (length body =? 0)%nat then Err tt else Ok (mkUser AUTH_NONE 65534 65534 [])
  else if flavor =? AUTH_SYS then
    if (length body <? 8)%nat then Err tt
    else
      let! name := be_at 4 body 4 in
      if 255 <? name then Err tt
      else
        let off := Z.to_nat (8 + pad4 name) in
        if (length body <? off + 12)%nat then Err tt
        else
          let! uid := be_at 4 body off in
          let! gid := be_at 4 body (off + 4) in
          let! count := be_at 4 body (off + 8) in
          let off := (off + 12)%nat in
          if (16 <? count) || negb (Z.of_nat off + 4 * count =? Z.of_nat (length body)) then Err tt
          else
            let! groups := read_groups body off (Z.to_nat count) in
            Ok (mkUser flavor uid gid (canonical_groups gid None (merge_sort Z.le groups)))
  else Err tt.

Definition encodeUser (u : effectiveUser) : list byte :=
  be_bytes 4 (eu_flavor u) ++ be_bytes 4 (eu_uid u) ++ be_bytes 4 (eu_gid u) ++ eu_groups u.

(** [None] is Go's [false]. *)
Definition decodeUser (b : list byte) : outcome unit (option effectiveUser) :=
  if (length b <? 12)%nat then Ok None
  else
    let! flavor := be_at 4 b 0 in
    let! uid := be_at 4 b 4 in
    let! gid := be_at 4 b 8 in
    let! groups := sub b 12 (length b) in
    Ok (Some (mkUser flavor uid gid groups)).

(** * Session records *)

Record channelAttrs := mkAttrs {
  ca_headerPad : Z;
  ca_maxReq : Z;
  ca_maxResp : Z;
  ca_maxCached : Z;
  ca_maxOps : Z;
  ca_maxReqs : Z;
}.

Record sessionRecord := mkSessionRecord {
  sr_incarnation : Z;
  sr_wireClientID : Z;
  sr_fore : channelAttrs;
  sr_back : channelAttrs;
  sr_cbProgram : Z;
  sr_backRequested : bool;
  sr_cbFlavor : Z;
  sr_cbBody : list byte;
}.

Definition sessionRecordFixedSize : nat := 1 + 8 + 8 + 2 * 6 * 4 + 4 + 1 + 4 + 2.

Definition encode_channel (a : channelAttrs) : list byte :=
  be_bytes 4 (ca_headerPad a) ++ be_bytes 4 (ca_maxReq a) ++ be_bytes 4 (ca_maxResp a) ++ be_bytes 4 (ca_maxCached a) ++
  be_bytes 4 (ca_maxOps a) ++ be_bytes 4 (ca_maxReqs a).

Definition encode_session (r : sessionRecord) : list byte :=
  [byte_of 1] ++ be_bytes 8 (sr_incarnation r) ++ be_bytes 8 (sr_wireClientID r) ++
  encode_channel (sr_fore r) ++ encode_channel (sr_back r) ++ be_bytes 4 (sr_cbProgram r) ++
  [byte_of (if sr_backRequested r then 1 else 0)] ++ be_bytes 4 (sr_cbFlavor r) ++
  be_bytes 2 (Z.of_nat (length (sr_cbBody r))) ++ sr_cbBody r.

Definition decode_channel (b : list byte) (off : nat) : outcome unit channelAttrs :=
  let! headerPad := be_at 4 b off in
  let! maxReq := be_at 4 b (off + 4) in
  let! maxResp := be_at 4 b (off + 8) in
  let! maxCached := be_at 4 b (off + 12) in
  let! maxOps := be_at 4 b (off + 16) in
  let! maxReqs := be_at 4 b (off + 20) in
  Ok (mkAttrs headerPad maxReq maxResp maxCached maxOps maxReqs).

Definition decodeSessionRecord (b : list byte) : outcome unit sessionRecord :=
  if (length b <? sessionRecordFixedSize)%nat then Err tt
  else
    let! version := index b 0 in
    if negb (byte_val version =? 1) then Err tt
    else
      let! incarnation := be_at 8 b 1 in
      let! wireClientID := be_at 8 b 9 in
      let! fore := decode_channel b 17 in
      let! back := decode_channel b 41 in
      let! cbProgram := be_at 4 b 65 in
      let! flags := index b 69 in
      let! flavor := be_at 4 b 70 in
      let! bodyLen := be_at 2 b 74 in
      if negb (Z.of_nat (length b) =? 76 + bodyLen) then Err tt
      else
        let! body := sub b 76 (length b) in
        Ok (mkSessionRecord incarnation wireClientID fore back cbProgram (negb (Z.land (byte_val flags) 1 =? 0)) flavor body).

(** * Intents *)

Definition NF4DIR : Z := 2.
Definition NF4LNK : Z := 5.
Definition OP_CREATE : Z := 6.
Definition OP_REMOVE : Z := 28.
Definition OP_RENAME : Z := 29.

Definition intentRename : Z := 1.
Definition intentRemove : Z := 2.
Definition intentCreate : Z := 3.

Record VfsEdge := mkVfsEdge { ve_ID : Z; ve_CreationTime : Z }.

#[export] Instance VfsEdge_eq_dec : EqDecision VfsEdge.
Proof. solve_decision. Defined.

Record renameIntent := mkRename {
  rn_srcDir : Z;
  rn_srcName : list byte;
  rn_src : VfsEdge;
  rn_dstDir : Z;
  rn_dstName : list byte;
  rn_dst : Z;
}.

Record removeIntent := mkRemove { rm_dir : Z; rm_name : list byte; rm_edge : VfsEdge }.

Record createIntent := mkCreate { cr_dir : Z; cr_name : list byte; cr_objType : Z; cr_target : list byte }.

(** The dynamic type of the value [decodeIntent] returns. *)
Inductive intent :=
| IRename (i : renameIntent)
| IRemove (i : removeIntent)
| ICreate (i : createIntent).

Definition intentHeader (kind op : Z) : list byte := [byte_of kind] ++ be_bytes 2 op.

Definition appendName (name : list byte) : list byte := be_bytes 2 (Z.of_nat (length name)) ++ name.

Definition encode_rename (i : renameIntent) (op : Z) : list byte :=
  intentHeader intentRename op ++ be_bytes 8 (rn_srcDir i) ++ appendName (rn_srcName i) ++
  be_bytes 8 (ve_ID (rn_src i)) ++ be_bytes 8 (ve_CreationTime (rn_src i)) ++
  be_bytes 8 (rn_dstDir i) ++ appendName (rn_dstName i) ++ be_bytes 8 (rn_dst i).

Definition encode_remove (i : removeIntent) (op : Z) : list byte :=
  intentHeader intentRemove op ++ be_bytes 8 (rm_dir i) ++ appendName (rm_name i) ++
  be_bytes 8 (ve_ID (rm_edge i)) ++ be_bytes 8 (ve_CreationTime (rm_edge i)).

Definition encode_create (i : createIntent) (op : Z) : list byte :=
  intentHeader intentCreate op ++ be_bytes 8 (cr_dir i) ++ appendName (cr_name i) ++
  be_bytes 4 (cr_objType i) ++ appendName (cr_target i).

Definition encode_intent (i : intent) (op : Z) : list byte :=
  match i with IRename i => encode_rename i op | IRemove i => encode_remove i op | ICreate i => encode_create i op end.

Record intentReader := mkReader { ir_b : list byte; ir_bad : bool }.

Definition take_bytes (n : nat) (r : intentReader) : intentReader * list byte :=
  if ir_bad r || (length (ir_b r) <? n)%nat then (mkReader (ir_b r) true, replicate n zero_byte)
  else (mkReader (drop n (ir_b r)) false, take n (ir_b r)).

Definition read_u64 (r : intentReader) : intentReader * Z := let '(r, v) := take_bytes 8 r in (r, be_val v).
Definition read_u32 (r : intentReader) : intentReader * Z := let '(r, v) := take_bytes 4 r in (r, be_val v).
Definition read_name (r : intentReader) : intentReader * list byte :=
  let '(r, v) := take_bytes 2 r in take_bytes (Z.to_nat (be_val v)) r.

Definition read_done {A} (a : A) (r : intentReader) : outcome unit A :=
  if ir_bad r || negb (length (ir_b r) =? 0)%nat then Err tt else Ok a.

Definition decodeIntentFields (kind : Z) (r : intentReader) : outcome unit intent :=
  if kind =? intentRename then
    let '(r, srcDir) := read_u64 r in
    let '(r, srcName) := read_name r in
    let '(r, srcID) := read_u64 r in
    let '(r, srcTime) := read_u64 r in
    let '(r, dstDir) := read_u64 r in
    let '(r, dstName) := read_name r in
    let '(r, dst) := read_u64 r in
    read_done (IRename (mkRename srcDir srcName (mkVfsEdge srcID srcTime) dstDir dstName dst)) r
  else if kind =? intentRemove then
    let '(r, dir) := read_u64 r in
    let '(r, name) := read_name r in
    let '(r, id) := read_u64 r in
    let '(r, time) := read_u64 r in
    read_done (IRemove (mkRemove dir name (mkVfsEdge id time))) r
  else if kind =? intentCreate then
    let '(r, dir) := read_u64 r in
    let '(r, name) := read_name r in
    let '(r, objType) := read_u32 r in
    let '(r, target) := read_name r in
    if negb (objType =? NF4DIR) && negb (objType =? NF4LNK) then Err tt
    else read_done (ICreate (mkCreate dir name objType target)) r
  else Err tt.

Definition decodeIntent (b : list byte) : outcome unit (Z * intent) :=
  if (length b <? 3)%nat then Err tt
  else
    let! op := be_at 2 b 1 in
    let! kind := index b 0 in
    let! fields := sub b 3 (length b) in
    let! i := decodeIntentFields (byte_val kind) (mkReader fields false) in
    Ok (op, i).

Definition intentOperation (i : intent) : Z :=
  match i with IRename _ => OP_RENAME | IRemove _ => OP_REMOVE | ICreate _ => OP_CREATE end.

(** * Sizes *)

Definition maxTernNameLength : Z := 255.
Definition maxIntentRecord : Z := 1 + 2 + 8 + 2 + maxTernNameLength + 8 + 8 + 8 + 2 + maxTernNameLength + 8.
Definition maxUserRecord : Z := 512.

(** The sum is one of [uint32]s. *)
Definition slotAreaSize (maxCached : Z) : Z :=
  wrap32 (Z.max maxCached maxIntentRecord + maxUserRecord + Z.of_nat RecordOverhead).

(** * Users *)

(** The groups [canonical_groups] writes. *)
Fixpoint kept_groups (gid : Z) (prev : option Z) (gs : list Z) : list Z :=
  match gs with
  | [] => []
  | g :: gs => if (g =? gid) || bool_decide (prev = Some g) then kept_groups gid prev gs else g :: kept_groups gid (Some g) gs
  end.

Lemma canonical_kept gid prev gs : canonical_groups gid prev gs = concat (be_bytes 4 <$> kept_groups gid prev gs).
Proof. revert prev. induction gs as [|g gs IH]; intros prev; simpl; [done|]. destruct (_ || _); simpl; by rewrite IH. Qed.

(** What is kept of a sorted list: each group but the primary one, once. *)
Lemma kept_groups_spec gid gs : forall prev, Sorted Z.le gs -> (forall p g, prev = Some p -> g ∈ gs -> p <= g) -> prev <> Some gid ->
  StronglySorted Z.lt (kept_groups gid prev gs) /\
  (forall g, g ∈ kept_groups gid prev gs <-> g ∈ gs /\ g <> gid /\ prev <> Some g).
Proof.
  induction gs as [|g gs IH]; intros prev Hs Hp Hg; simpl.
  { split; [constructor|]. intros x. rewrite elem_of_nil. tauto. }
  apply Sorted_StronglySorted in Hs; [|intros ???; lia]. apply StronglySorted_inv in Hs as [Hs Hall]. rewrite Forall_forall in Hall.
  destruct ((g =? gid) || bool_decide (prev = Some g)) eqn:Hc.
  - destruct (IH prev (StronglySorted_Sorted Hs)) as [H1 H2]; [intros p x Hpx Hx; apply (Hp p x Hpx); by apply elem_of_cons; right | done|].
    split; [done|]. intros x. rewrite H2, elem_of_cons. apply orb_true_iff in Hc. rewrite Z.eqb_eq, bool_decide_eq_true in Hc.
    split; [tauto|]. intros ([->|Hx] & Hne & Hnp); [|tauto]. destruct Hc; congruence.
  - apply orb_false_iff in Hc. rewrite Z.eqb_neq, bool_decide_eq_false in Hc. destruct Hc as [Hne Hnp].
    destruct (IH (Some g) (StronglySorted_Sorted Hs)) as [H1 H2]; [intros p x [= ->] Hx; by apply Hall | congruence|]. split.
    + constructor; [done|]. apply Forall_forall. intros x Hx. apply H2 in Hx as (Hx & _ & Hgx). specialize (Hall x Hx).
      assert (g <> x) by congruence. lia.
    + intros x. rewrite !elem_of_cons, H2. split.
      2: { intros (Hin & Hxg & Hxp). destruct (decide (x = g)) as [->|Hxx]; [by left|]. right. split; [by destruct Hin|]. split; [done | congruence]. }
      intros [->|(Hx & Hxg & Hxp)]; [tauto|]. split; [tauto|]. split; [done|]. intros ->. specialize (Hall x Hx).
      pose proof (Hp x g eq_refl ltac:(apply elem_of_cons; by left)). assert (x = g) by lia. congruence.
Qed.

Lemma lt_sorted_ext (l1 l2 : list Z) : StronglySorted Z.lt l1 -> StronglySorted Z.lt l2 -> (forall x, x ∈ l1 <-> x ∈ l2) -> l1 = l2.
Proof.
  revert l2. induction l1 as [|a l1 IH]; intros [|b l2] H1 H2 Hx; [done|..].
  - exfalso. apply (not_elem_of_nil b), Hx, elem_of_cons. by left.
  - exfalso. apply (not_elem_of_nil a), Hx, elem_of_cons. by left.
  - apply StronglySorted_inv in H1 as [H1 Ha]. apply StronglySorted_inv in H2 as [H2 Hb]. rewrite Forall_forall in Ha, Hb.
    assert (a = b) as ->.
    { pose proof (proj1 (Hx a) ltac:(apply elem_of_cons; by left)) as Ha'. pose proof (proj2 (Hx b) ltac:(apply elem_of_cons; by left)) as Hb'.
      apply elem_of_cons in Ha' as [->|Ha']; [done|]. apply elem_of_cons in Hb' as [->|Hb']; [done|].
      specialize (Ha b Hb'). specialize (Hb a Ha'). lia. }
    f_equal. apply IH; [done..|]. intros x. specialize (Hx x). rewrite !elem_of_cons in Hx. split; intros Hin.
    + destruct (proj1 Hx (or_intror Hin)) as [->|]; [|done]. specialize (Ha b Hin). lia.
    + destruct (proj2 Hx (or_intror Hin)) as [->|]; [|done]. specialize (Hb b Hin). lia.
Qed.

Lemma concat_be_inj (l1 l2 : list Z) : Forall is_u32 l1 -> Forall is_u32 l2 ->
  concat (be_bytes 4 <$> l1) = concat (be_bytes 4 <$> l2) -> l1 = l2.
Proof.
  revert l2. induction l1 as [|a l1 IH]; intros [|b l2] H1 H2 H; [done|..].
  - apply (f_equal length) in H. cbn [fmap list_fmap concat] in H. rewrite length_app, length_be_bytes in H. simpl in H. lia.
  - apply (f_equal length) in H. cbn [fmap list_fmap concat] in H. rewrite length_app, length_be_bytes in H. simpl in H. lia.
  - cbn [fmap list_fmap concat] in H. apply app_inj_1 in H as [Hab H]; [|by rewrite !length_be_bytes].
    inversion_clear H1. inversion_clear H2. f_equal; [|by apply IH].
    apply (f_equal be_val) in Hab. by rewrite !be_val_bytes_u32 in Hab.
Qed.

Definition sorted_groups (gid : Z) (gs : list Z) : list Z := kept_groups gid None (merge_sort Z.le gs).

Lemma sorted_groups_spec gid gs : StronglySorted Z.lt (sorted_groups gid gs) /\ forall g, g ∈ sorted_groups gid gs <-> g ∈ gs /\ g <> gid.
Proof.
  destruct (kept_groups_spec gid (merge_sort Z.le gs) None) as [H1 H2]; [apply Sorted_merge_sort; intros x y; lia | done | done|].
  split; [done|]. intros g. unfold sorted_groups. rewrite H2, (merge_sort_Permutation Z.le gs). split; [tauto | intros []; split; [done | split; done]].
Qed.

Lemma groups_identity gid gs gs' : Forall is_u32 gs -> Forall is_u32 gs' ->
  canonical_groups gid None (merge_sort Z.le gs) = canonical_groups gid None (merge_sort Z.le gs') <->
  (forall g, g <> gid -> g ∈ gs <-> g ∈ gs').
Proof.
  intros Hu Hu'. rewrite !canonical_kept. fold (sorted_groups gid gs) (sorted_groups gid gs').
  destruct (sorted_groups_spec gid gs) as [S1 E1], (sorted_groups_spec gid gs') as [S2 E2]. rewrite Forall_forall in Hu, Hu'. split.
  - intros H. apply concat_be_inj in H; [|apply Forall_forall; intros x; rewrite ?E1, ?E2; intros []; auto..].
    intros g Hg. specialize (E1 g). specialize (E2 g). rewrite H in E1. tauto.
  - intros H. f_equal. f_equal. apply lt_sorted_ext; [done..|]. intros x. rewrite E1, E2. specialize (H x). tauto.
Qed.

(** The body of an AUTH_SYS credential, with the padding of its machine name. *)
Definition auth_sys (stamp uid gid : Z) (name pad : list byte) (gs : list Z) : list byte :=
  be_bytes 4 stamp ++ be_bytes 4 (Z.of_nat (length name)) ++ (name ++ pad) ++
  be_bytes 4 uid ++ be_bytes 4 gid ++ be_bytes 4 (Z.of_nat (length gs)) ++ concat (be_bytes 4 <$> gs).

Lemma read_groups_encoded (body pre : list byte) (gs : list Z) : forall off, body = pre ++ concat (be_bytes 4 <$> gs) -> length pre = off ->
  Forall is_u32 gs -> read_groups body off (length gs) = Ok gs.
Proof.
  revert pre. induction gs as [|g gs IH]; intros pre off Hb Hoff Hu; [done|]. inversion_clear Hu. cbn [read_groups length].
  cbn [fmap list_fmap concat] in Hb. rewrite (be_mid 4 body pre (concat (be_bytes 4 <$> gs)) off g Hb Hoff) by (simpl; unfold is_u32 in *; lia).
  cbn [mbind outcome_bind]. rewrite (IH (pre ++ be_bytes 4 g) (off + 4)%nat); [done | by rewrite <- app_assoc | rewrite length_app, length_be_bytes; lia | done].
Qed.

Lemma length_groups (gs : list Z) : length (concat (be_bytes 4 <$> gs)) = (4 * length gs)%nat.
Proof. induction gs as [|g gs IH]; [done|]. cbn [fmap list_fmap concat length]. rewrite length_app, length_be_bytes, IH. lia. Qed.

Lemma effective_user_encoded stamp uid gid name pad gs : is_u32 uid -> is_u32 gid -> (length name <= 255)%nat ->
  Z.of_nat (length (name ++ pad)) = pad4 (Z.of_nat (length name)) -> (length gs <= 16)%nat -> Forall is_u32 gs ->
  effective_user AUTH_SYS (auth_sys stamp uid gid name pad gs) =
  Ok (mkUser AUTH_SYS uid gid (canonical_groups gid None (merge_sort Z.le gs))).
Proof.
  intros Huid Hgid Hn Hpad Hgs Hu. unfold effective_user. cbn [Z.eqb AUTH_SYS AUTH_NONE].
  set (body := auth_sys stamp uid gid name pad gs). set (np := name ++ pad) in *.
  assert (Hlen : length body = (8 + length np + 12 + 4 * length gs)%nat).
  { unfold body, auth_sys. fold np. rewrite !length_app, !length_be_bytes, length_groups. lia. }
  rewrite (proj2 (Nat.ltb_ge _ _)) by lia.
  rewrite (be_mid 4 body (be_bytes 4 stamp) (np ++ be_bytes 4 uid ++ be_bytes 4 gid ++ be_bytes 4 (Z.of_nat (length gs)) ++ concat (be_bytes 4 <$> gs)) 4
    (Z.of_nat (length name))) by (first [reflexivity | apply length_be_bytes | simpl; lia]).
  cbn [mbind outcome_bind]. rewrite (proj2 (Z.ltb_ge _ _)) by lia. rewrite <- Hpad.
  replace (Z.to_nat (8 + Z.of_nat (length np))) with (8 + length np)%nat by lia.
  rewrite (proj2 (Nat.ltb_ge _ _)) by lia.
  set (pre := be_bytes 4 stamp ++ be_bytes 4 (Z.of_nat (length name)) ++ np).
  assert (Hpre : length pre = (8 + length np)%nat) by (unfold pre; rewrite !length_app, !length_be_bytes; lia).
  rewrite (be_mid 4 body pre (be_bytes 4 gid ++ be_bytes 4 (Z.of_nat (length gs)) ++ concat (be_bytes 4 <$> gs)) (8 + length np) uid)
    by (first [assumption | unfold pre, body, auth_sys; fold np; by rewrite <- !app_assoc]).
  cbn [mbind outcome_bind].
  rewrite (be_mid 4 body (pre ++ be_bytes 4 uid) (be_bytes 4 (Z.of_nat (length gs)) ++ concat (be_bytes 4 <$> gs)) (8 + length np + 4) gid)
    by (first [assumption | unfold pre, body, auth_sys; fold np; by rewrite <- !app_assoc | rewrite length_app, length_be_bytes; lia]).
  cbn [mbind outcome_bind].
  rewrite (be_mid 4 body (pre ++ be_bytes 4 uid ++ be_bytes 4 gid) (concat (be_bytes 4 <$> gs)) (8 + length np + 8) (Z.of_nat (length gs)))
    by (first [unfold pre, body, auth_sys; fold np; by rewrite <- !app_assoc | rewrite !length_app, !length_be_bytes; lia | simpl; lia]).
  cbn [mbind outcome_bind]. rewrite (proj2 (Z.ltb_ge 16 _)) by lia. rewrite (proj2 (Z.eqb_eq _ _)) by lia. cbn [orb negb].
  rewrite Nat2Z.id. rewrite (read_groups_encoded body (pre ++ be_bytes 4 uid ++ be_bytes 4 gid ++ be_bytes 4 (Z.of_nat (length gs))) gs); [done| | |done].
  - unfold pre, body, auth_sys. fold np. by rewrite <- !app_assoc.
  - rewrite !length_app, !length_be_bytes. lia.
Qed.

Lemma decodeUser_encode u : is_u32 (eu_flavor u) -> is_u32 (eu_uid u) -> is_u32 (eu_gid u) -> decodeUser (encodeUser u) = Ok (Some u).
Proof.
  destruct u as [fl uid gid gs]. simpl. intros H1 H2 H3. unfold decodeUser, encodeUser. simpl eu_flavor. simpl eu_uid. simpl eu_gid. simpl eu_groups.
  set (b := be_bytes 4 fl ++ _). assert (Hlen : length b = (12 + length gs)%nat) by (unfold b; rewrite !length_app, !length_be_bytes; lia).
  rewrite (proj2 (Nat.ltb_ge _ _)) by lia.
  rewrite (be_mid 4 b [] (be_bytes 4 uid ++ be_bytes 4 gid ++ gs) 0 fl) by (first [assumption | reflexivity]). cbn [mbind outcome_bind].
  rewrite (be_mid 4 b (be_bytes 4 fl) (be_bytes 4 gid ++ gs) 4 uid) by (first [assumption | reflexivity]). cbn [mbind outcome_bind].
  rewrite (be_mid 4 b (be_bytes 4 fl ++ be_bytes 4 uid) gs 8 gid) by (first [assumption | unfold b; by rewrite <- app_assoc | rewrite length_app, !length_be_bytes; reflexivity]).
  cbn [mbind outcome_bind].
  rewrite (sub_mid b (be_bytes 4 fl ++ be_bytes 4 uid ++ be_bytes 4 gid) gs [] 12 (length b)); [done | | |rewrite Hlen; lia].
  - unfold b. by rewrite app_nil_r, <- !app_assoc.
  - by rewrite !length_app, !length_be_bytes.
Qed.

(** * Session records *)

Definition channel_ok (a : channelAttrs) : Prop :=
  is_u32 (ca_headerPad a) /\ is_u32 (ca_maxReq a) /\ is_u32 (ca_maxResp a) /\ is_u32 (ca_maxCached a) /\ is_u32 (ca_maxOps a) /\ is_u32 (ca_maxReqs a).

Record session_ok (r : sessionRecord) : Prop := {
  so_incarnation : is_u64 (sr_incarnation r);
  so_wire : is_u64 (sr_wireClientID r);
  so_fore : channel_ok (sr_fore r);
  so_back : channel_ok (sr_back r);
  so_program : is_u32 (sr_cbProgram r);
  so_flavor : is_u32 (sr_cbFlavor r);
  so_body : Z.of_nat (length (sr_cbBody r)) < 2 ^ 16;
}.

Lemma length_encode_channel a : length (encode_channel a) = 24%nat.
Proof. unfold encode_channel. by rewrite !length_app, !length_be_bytes. Qed.

(** Reading an integer at the cursor [off], which moves on to [off']. *)
Lemma be_eat {E} n (data : list byte) off off' v rest : drop off data = be_bytes n v ++ rest -> (off <= length data)%nat ->
  0 <= v < 256 ^ Z.of_nat n -> (off + n = off')%nat ->
  @be_at E n data off = Ok v /\ drop off' data = rest /\ (off' <= length data)%nat.
Proof.
  intros Hd Hoff Hv <-. destruct (@be_at_drop E data off (be_bytes n v) rest n Hd Hoff (length_be_bytes n v)) as (-> & H2 & H3).
  by rewrite be_val_be_bytes, Z.mod_small.
Qed.

Lemma byte_eat {E} (data : list byte) off off' x rest : drop off data = [x] ++ rest -> (off + 1 = off')%nat ->
  @index E _ data off = Ok x /\ drop off' data = rest /\ (off' <= length data)%nat.
Proof. intros Hd <-. by apply index_drop. Qed.

(** Reads the next integer of [H : drop off data = ...] up to [off']. *)
Ltac eat H off' :=
  let L := fresh "L" in let E := fresh "E" in let H' := fresh "H" in
  rewrite <- ?app_assoc in H;
  lazymatch type of H with
  | drop ?off ?data = be_bytes ?n ?v ++ ?rest =>
    destruct (@be_eat unit n data off off' v rest H) as (E & H' & L); [lia | assumption || (simpl; lia) | lia|]
  | drop ?off ?data = [?x] ++ ?rest =>
    destruct (@byte_eat unit data off off' x rest H) as (E & H' & L); [lia|]
  end;
  rewrite E; clear E H; rename H' into H; cbn [mbind outcome_bind].

Lemma decode_channel_encode (b rest : list byte) (a : channelAttrs) (off : nat) : channel_ok a -> drop off b = encode_channel a ++ rest ->
  (off <= length b)%nat -> decode_channel b off = Ok a /\ drop (off + 24) b = rest /\ (off + 24 <= length b)%nat.
Proof.
  intros (H1 & H2 & H3 & H4 & H5 & H6) H Hoff. destruct a as [a1 a2 a3 a4 a5 a6]. unfold encode_channel in H. cbn [ca_headerPad ca_maxReq ca_maxResp ca_maxCached ca_maxOps ca_maxReqs] in *. unfold decode_channel.
  eat H (off + 4)%nat. eat H (off + 8)%nat. eat H (off + 12)%nat. eat H (off + 16)%nat. eat H (off + 20)%nat. eat H (off + 24)%nat. done.
Qed.

Lemma length_encode_session r : length (encode_session r) = (76 + length (sr_cbBody r))%nat.
Proof. unfold encode_session. rewrite !length_app, !length_encode_channel, !length_be_bytes. simpl. lia. Qed.

Lemma decodeSessionRecord_encode r : session_ok r -> decodeSessionRecord (encode_session r) = Ok r.
Proof.
  intros [H1 H2 H3 H4 H5 H6 H7]. pose proof (length_encode_session r) as Hlen. unfold decodeSessionRecord.
  rewrite (proj2 (Nat.ltb_ge _ _)) by (rewrite Hlen; unfold sessionRecordFixedSize; lia).
  set (b := encode_session r) in *. assert (H : drop 0 b = encode_session r) by done. unfold encode_session in H.
  eat H 1%nat. change (byte_val (byte_of 1) =? 1) with true. cbn [negb]. eat H 9%nat. eat H 17%nat.
  rewrite <- ?app_assoc in H. destruct (decode_channel_encode b _ _ 17 H3 H L1) as (E & H' & L2). rewrite E. cbn [mbind outcome_bind].
  destruct (decode_channel_encode b _ _ 41 H4 H' L2) as (E' & H'' & L3). rewrite E'. cbn [mbind outcome_bind].
  clear H H' E E'. change (41 + 24)%nat with 65%nat in H'', L3. eat H'' 69%nat. eat H'' 70%nat. eat H'' 74%nat.
  assert (Hbl : 0 <= Z.of_nat (length (sr_cbBody r)) < 256 ^ Z.of_nat 2) by (simpl; lia). eat H'' 76%nat.
  rewrite (proj2 (Z.eqb_eq (Z.of_nat (length b)) (76 + Z.of_nat (length (sr_cbBody r))))) by lia. cbn [negb].
  rewrite (sub_mid b (take 76 b) (sr_cbBody r) [] 76 (length b)); [|by rewrite app_nil_r, <- H'', take_drop | rewrite length_take; lia | lia].
  cbn [mbind outcome_bind]. rewrite byte_val_of. destruct r as [inc w f bk pr br fl bd]. simpl. by destruct br.
Qed.

(** * Intents *)

Definition edge_ok (e : VfsEdge) : Prop := is_u64 (ve_ID e) /\ is_u64 (ve_CreationTime e).
Definition name_ok (n : list byte) : Prop := Z.of_nat (length n) < 2 ^ 16.

Definition intent_ok (i : intent) : Prop :=
  match i with
  | IRename i => is_u64 (rn_srcDir i) /\ name_ok (rn_srcName i) /\ edge_ok (rn_src i) /\ is_u64 (rn_dstDir i) /\ name_ok (rn_dstName i) /\ is_u64 (rn_dst i)
  | IRemove i => is_u64 (rm_dir i) /\ name_ok (rm_name i) /\ edge_ok (rm_edge i)
  | ICreate i => is_u64 (cr_dir i) /\ name_ok (cr_name i) /\ (cr_objType i = NF4DIR \/ cr_objType i = NF4LNK) /\ name_ok (cr_target i)
  end.

(** ** Reading what was written *)

Lemma take_bytes_app a rest : take_bytes (length a) (mkReader (a ++ rest) false) = (mkReader rest false, a).
Proof.
  unfold take_bytes. cbn [ir_b ir_bad orb]. rewrite (proj2 (Nat.ltb_ge _ _)) by (rewrite length_app; lia).
  by rewrite drop_app_length, take_app_length.
Qed.

Lemma read_u64_app v rest : is_u64 v -> read_u64 (mkReader (be_bytes 8 v ++ rest) false) = (mkReader rest false, v).
Proof. intros Hv. unfold read_u64. pose proof (take_bytes_app (be_bytes 8 v) rest) as H. rewrite length_be_bytes in H. rewrite H. by rewrite be_val_bytes_u64. Qed.

Lemma read_u32_app v rest : is_u32 v -> read_u32 (mkReader (be_bytes 4 v ++ rest) false) = (mkReader rest false, v).
Proof. intros Hv. unfold read_u32. pose proof (take_bytes_app (be_bytes 4 v) rest) as H. rewrite length_be_bytes in H. rewrite H. by rewrite be_val_bytes_u32. Qed.

Lemma read_name_app n rest : name_ok n -> read_name (mkReader (appendName n ++ rest) false) = (mkReader rest false, n).
Proof.
  intros Hn. unfold read_name, appendName. rewrite <- app_assoc.
  pose proof (take_bytes_app (be_bytes 2 (Z.of_nat (length n))) (n ++ rest)) as H. rewrite length_be_bytes in H. rewrite H.
  rewrite be_val_bytes_u16 by (unfold is_u16, name_ok in *; lia). rewrite Nat2Z.id. apply take_bytes_app.
Qed.

Create Rewrite HintDb reader.
#[local] Hint Rewrite read_u64_app read_u32_app read_name_app using (assumption || tauto) : reader.

Lemma decode_fields_encode i op fields : intent_ok i -> encode_intent i op = intentHeader (match i with IRename _ => intentRename | IRemove _ => intentRemove | ICreate _ => intentCreate end) op ++ fields ->
  decodeIntentFields (match i with IRename _ => intentRename | IRemove _ => intentRemove | ICreate _ => intentCreate end) (mkReader fields false) = Ok i.
Proof.
  intros Hok Hf. destruct i as [i|i|i]; cbn [intent_ok encode_intent] in Hok, Hf; apply app_inv_head in Hf as <-; unfold decodeIntentFields; cbn [Z.eqb intentRename intentRemove intentCreate Pos.eqb].
  - destruct i as [sd sn [si st] dd dn dst]. unfold edge_ok in Hok. cbn [rn_srcDir rn_srcName rn_src rn_dstDir rn_dstName rn_dst ve_ID ve_CreationTime] in *. destruct Hok as (H1 & H2 & [H3 H3'] & H4 & H5 & H6).
    rewrite <- ?app_assoc. rewrite <- (app_nil_r (be_bytes 8 dst)). by autorewrite with reader.
  - destruct i as [d n [ei et]]. unfold edge_ok in Hok. cbn [rm_dir rm_name rm_edge ve_ID ve_CreationTime] in *. destruct Hok as (H1 & H2 & [H3 H3']).
    rewrite <- ?app_assoc. rewrite <- (app_nil_r (be_bytes 8 et)). by autorewrite with reader.
  - destruct i as [d n ot tg]. cbn [cr_dir cr_name cr_objType cr_target] in *. destruct Hok as (H1 & H2 & H3 & H4).
    assert (is_u32 ot) by (unfold is_u32, NF4DIR, NF4LNK in *; destruct H3; lia).
    rewrite <- ?app_assoc. rewrite <- (app_nil_r (appendName tg)). autorewrite with reader. destruct H3 as [->| ->]; done.
Qed.

Lemma decodeIntent_encode i op : intent_ok i -> is_u16 op -> decodeIntent (encode_intent i op) = Ok (op, i).
Proof.
  intros Hok Hop. set (kind := match i with IRename _ => intentRename | IRemove _ => intentRemove | ICreate _ => intentCreate end).
  assert (exists fields, encode_intent i op = intentHeader kind op ++ fields) as [fields Hf] by (destruct i; eexists; reflexivity).
  pose proof (decode_fields_encode i op fields Hok Hf) as Hd. fold kind in Hd. rewrite Hf. unfold decodeIntent, intentHeader.
  set (b := ([byte_of kind] ++ be_bytes 2 op) ++ fields).
  assert (Hlen : length b = (3 + length fields)%nat) by (unfold b; rewrite !length_app, length_be_bytes; simpl; lia).
  rewrite (proj2 (Nat.ltb_ge _ _)) by lia.
  rewrite (be_mid 2 b [byte_of kind] fields 1 op); [|unfold b; by rewrite <- app_assoc | done | exact Hop]. cbn [mbind outcome_bind].
  rewrite (index_mid b [] (be_bytes 2 op ++ fields) 0 (byte_of kind)); [|unfold b; by rewrite <- app_assoc | done]. cbn [mbind outcome_bind].
  rewrite (sub_mid b ([byte_of kind] ++ be_bytes 2 op) fields [] 3 (length b)); [|by rewrite app_nil_r | by rewrite length_app, length_be_bytes | lia].
  cbn [mbind outcome_bind]. assert (byte_val (byte_of kind) = kind) as -> by (rewrite byte_val_of; by destruct i).
  by rewrite Hd.
Qed.

(** ** Only what was written is read *)

Lemma take_bytes_inv n r r' v : take_bytes n r = (r', v) -> ir_bad r' = false ->
  ir_bad r = false /\ ir_b r = v ++ ir_b r' /\ length v = n.
Proof.
  unfold take_bytes. destruct (ir_bad r) eqn:Hb; simpl; [by intros [= <- _]|]. destruct (Nat.ltb_spec (length (ir_b r)) n); [by intros [= <- _]|].
  intros [= <- <-] _. simpl. rewrite take_drop, length_take. split_and!; [done..|lia].
Qed.

Lemma be_val_inv n v : length v = n -> v = be_bytes n (be_val v) /\ 0 <= be_val v < 256 ^ Z.of_nat n.
Proof. intros <-. split; [by rewrite be_bytes_be_val | apply be_val_bound]. Qed.

Lemma read_u64_inv r r' x : read_u64 r = (r', x) -> ir_bad r' = false -> ir_bad r = false /\ ir_b r = be_bytes 8 x ++ ir_b r' /\ is_u64 x.
Proof.
  unfold read_u64. destruct (take_bytes 8 r) as [r1 v] eqn:E. intros [= <- <-] Hb. destruct (take_bytes_inv _ _ _ _ E Hb) as (H1 & H2 & H3).
  destruct (be_val_inv 8 v H3) as [Hv Hu]. rewrite <- Hv. done.
Qed.

Lemma read_u32_inv r r' x : read_u32 r = (r', x) -> ir_bad r' = false -> ir_bad r = false /\ ir_b r = be_bytes 4 x ++ ir_b r' /\ is_u32 x.
Proof.
  unfold read_u32. destruct (take_bytes 4 r) as [r1 v] eqn:E. intros [= <- <-] Hb. destruct (take_bytes_inv _ _ _ _ E Hb) as (H1 & H2 & H3).
  destruct (be_val_inv 4 v H3) as [Hv Hu]. rewrite <- Hv. done.
Qed.

Lemma read_name_inv r r' x : read_name r = (r', x) -> ir_bad r' = false -> ir_bad r = false /\ ir_b r = appendName x ++ ir_b r' /\ name_ok x.
Proof.
  unfold read_name. destruct (take_bytes 2 r) as [r1 v] eqn:E. intros H Hb. destruct (take_bytes_inv _ _ _ _ H Hb) as (H1 & H2 & H3).
  destruct (take_bytes_inv _ _ _ _ E H1) as (H4 & H5 & H6). destruct (be_val_inv 2 v H6) as [Hv Hu].
  split; [done|]. unfold appendName, name_ok. rewrite H3, Z2Nat.id, <- Hv, <- app_assoc, <- H2 by lia. split; [done | lia].
Qed.

Lemma read_done_inv {A} (a x : A) r : read_done a r = Ok x -> x = a /\ ir_bad r = false /\ ir_b r = [].
Proof.
  unfold read_done. destruct (ir_bad r); [done|]. simpl. destruct (Nat.eqb_spec (length (ir_b r)) 0); [|done]. intros [= <-].
  split_and!; [done..|by apply nil_length_inv].
Qed.

(** Case analysis on the reads of a decoder, from the first to the last. *)
Ltac reads H :=
  repeat match type of H with
  | context [let '(_, _) := ?f ?r in _] =>
    let r' := fresh "r" in let x := fresh "x" in let E := fresh "E" in destruct (f r) as [r' x] eqn:E
  end.

Ltac unread :=
  match goal with
  | Hb : ir_bad ?r = false, E : read_u64 _ = (?r, _) |- _ => apply read_u64_inv in E as (? & ? & ?); [|exact Hb]; clear Hb
  | Hb : ir_bad ?r = false, E : read_u32 _ = (?r, _) |- _ => apply read_u32_inv in E as (? & ? & ?); [|exact Hb]; clear Hb
  | Hb : ir_bad ?r = false, E : read_name _ = (?r, _) |- _ => apply read_name_inv in E as (? & ? & ?); [|exact Hb]; clear Hb
  end.

Lemma decode_fields_inv kind fields i : decodeIntentFields kind (mkReader fields false) = Ok i ->
  intent_ok i /\ forall op, encode_intent i op = intentHeader kind op ++ fields.
Proof.
  unfold decodeIntentFields. intros H. destruct (Z.eqb_spec kind intentRename) as [->|]; [|destruct (Z.eqb_spec kind intentRemove) as [->|]; [|
    destruct (Z.eqb_spec kind intentCreate) as [->|]; [|done]]]; reads H.
  - apply read_done_inv in H as (-> & Hb & Hnil). repeat unread. rewrite Hnil, app_nil_r in *.
    split; [by split_and!|]. intros op. simpl in *. unfold encode_rename. simpl. congruence.
  - apply read_done_inv in H as (-> & Hb & Hnil). repeat unread. rewrite Hnil, app_nil_r in *.
    split; [by split_and!|]. intros op. simpl in *. unfold encode_remove. simpl. congruence.
  - destruct (_ && _) eqn:Hc; [done|]. apply read_done_inv in H as (-> & Hb & Hnil). repeat unread. rewrite Hnil, app_nil_r in *.
    assert (Hot : x1 = NF4DIR \/ x1 = NF4LNK) by (destruct (Z.eqb_spec x1 NF4DIR); [by left|]; destruct (Z.eqb_spec x1 NF4LNK); [by right | done]).
    split; [by split_and!|]. intros op. simpl in *. unfold encode_create. simpl. congruence.
Qed.

Lemma decodeIntent_inv b op i : decodeIntent b = Ok (op, i) -> intent_ok i /\ is_u16 op /\ b = encode_intent i op.
Proof.
  destruct b as [|k [|o1 [|o2 fields]]]; try done. unfold decodeIntent. cbn [length Nat.ltb Nat.leb].
  rewrite (sub_mid (k :: o1 :: o2 :: fields) [k; o1; o2] fields [] 3) by (first [by rewrite app_nil_r | reflexivity]).
  unfold be_at, sub, index. cbn -[decodeIntentFields byte_val be_val]. destruct (decodeIntentFields _ _) as [i'|e|] eqn:Hf; intros [= <- <-].
  apply decode_fields_inv in Hf as [Hok Henc]. split; [done|]. destruct (be_val_inv 2 [o1; o2] eq_refl) as [Hb Hu]. split; [exact Hu|].
  rewrite Henc. unfold intentHeader. rewrite byte_of_val. change (take 0 fields) with (@nil byte). rewrite <- Hb. done.
Qed.

(** ** Totality *)

Lemma decodeIntent_total b : decodeIntent b <> Panic.
Proof.
  destruct b as [|k [|o1 [|o2 fields]]]; try done. unfold decodeIntent. cbn [length Nat.ltb Nat.leb].
  rewrite (sub_mid (k :: o1 :: o2 :: fields) [k; o1; o2] fields [] 3) by (first [by rewrite app_nil_r | reflexivity]).
  unfold be_at, sub, index. cbn -[decodeIntentFields byte_val be_val].
  assert (Hf : decodeIntentFields (byte_val k) (mkReader fields false) <> Panic); [|by destruct (decodeIntentFields _ _)].
  unfold decodeIntentFields, read_done. by repeat case_match.
Qed.

Lemma be_at_Ok {E} n (b : list byte) off : (off + n <= length b)%nat -> exists v, @be_at E n b off = Ok v /\ 0 <= v < 256 ^ Z.of_nat n.
Proof.
  intros H. destruct (@be_at_in_range E b off n H) as (bs & Hb & Hl & _). exists (be_val bs). split; [done|]. rewrite <- Hl. apply be_val_bound.
Qed.

Ltac read_at := match goal with
  | |- context [be_at ?n ?b ?off] =>
    let v := fresh "v" in let H := fresh "Hat" in let Hv := fresh "Hv" in
    destruct (@be_at_Ok unit n b off) as (v & H & Hv); [lia | rewrite H; clear H; cbn [mbind outcome_bind]]
  | |- context [index ?b ?i] =>
    let v := fresh "x" in let H := fresh "Hat" in
    destruct (@index_in_range unit _ b i) as (v & H & _); [lia | rewrite H; clear H; cbn [mbind outcome_bind]]
  end.

Lemma read_groups_total body count : forall off, (off + 4 * count <= length body)%nat ->
  exists gs, read_groups body off count = Ok gs /\ length gs = count /\ Forall is_u32 gs.
Proof.
  induction count as [|count IH]; intros off H; cbn [read_groups]; [by exists []|]. read_at.
  destruct (IH (off + 4)%nat ltac:(lia)) as (gs & -> & Hl & Hu). cbn [mbind outcome_bind]. eexists. split; [done|]. split; [simpl; lia | by constructor].
Qed.

Lemma decodeSessionRecord_total b : decodeSessionRecord b <> Panic.
Proof.
  unfold decodeSessionRecord, decode_channel. destruct (Nat.ltb_spec (length b) sessionRecordFixedSize) as [|Hl]; [done|].
  unfold sessionRecordFixedSize in Hl. cbn in Hl. repeat read_at. destruct (@sub_in_range unit _ b 76 (length b - 76)) as (bs & Hs & _); [lia|].
  replace (76 + (length b - 76))%nat with (length b) in Hs by lia. rewrite Hs. cbn [mbind outcome_bind].
  by repeat case_match.
Qed.

Lemma kept_length gid gs : forall prev, (length (kept_groups gid prev gs) <= length gs)%nat.
Proof. induction gs as [|g gs IH]; intros prev; simpl; [lia|]. destruct (_ || _); simpl; [specialize (IH prev) | specialize (IH (Some g))]; lia. Qed.

(** What [effectiveUser] returns fits its record. *)
Lemma effective_user_spec flavor body : is_u32 flavor -> effective_user flavor body <> Panic /\
  forall u, effective_user flavor body = Ok u ->
    is_u32 (eu_flavor u) /\ is_u32 (eu_uid u) /\ is_u32 (eu_gid u) /\ (length (encodeUser u) <= 76)%nat.
Proof.
  intros Hf. unfold effective_user. destruct (Z.eqb_spec flavor AUTH_NONE) as [_|_]; [destruct (negb _); split; try done; intros u [= <-]; unfold is_u32, AUTH_NONE; simpl; split_and!; lia|].
  destruct (flavor =? AUTH_SYS); [|by split]. destruct (Nat.ltb_spec (length body) 8); [by split|].
  destruct (@be_at_Ok unit 4 body 4) as (name & -> & _); [lia|]. cbn [mbind outcome_bind]. destruct (255 <? name); [by split|].
  set (off := Z.to_nat (8 + pad4 name)). destruct (Nat.ltb_spec (length body) (off + 12)); [by split|].
  destruct (@be_at_Ok unit 4 body off) as (uid & -> & Hu); [lia|]. destruct (@be_at_Ok unit 4 body (off + 4)) as (gid & -> & Hg); [lia|].
  destruct (@be_at_Ok unit 4 body (off + 8)) as (n & -> & Hn); [lia|]. cbn [mbind outcome_bind].
  destruct ((16 <? n) || _) eqn:Hc; [by split|]. apply orb_false_iff in Hc as [Hc1 Hc2]. apply Z.ltb_ge in Hc1. apply negb_false_iff, Z.eqb_eq in Hc2.
  destruct (read_groups_total body (Z.to_nat n) (off + 12) ltac:(lia)) as (gs & -> & Hl & Hgs).
  cbn [mbind outcome_bind]. split; [done|]. intros u [= <-]. cbn [eu_flavor eu_uid eu_gid]. split_and!; try done.
  unfold encodeUser. cbn [eu_flavor eu_uid eu_gid eu_groups]. rewrite !length_app, !length_be_bytes, canonical_kept, length_groups.
  pose proof (kept_length gid (merge_sort Z.le gs) None). rewrite (Permutation_length (merge_sort_Permutation Z.le gs)) in *. lia.
Qed.

(** ** Sizes *)

Definition name_short (n : list byte) : Prop := Z.of_nat (length n) <= maxTernNameLength.

Definition intent_short (i : intent) : Prop :=
  match i with
  | IRename i => name_short (rn_srcName i) /\ name_short (rn_dstName i)
  | IRemove i => name_short (rm_name i)
  | ICreate i => name_short (cr_name i) /\ name_short (cr_target i)
  end.

Lemma length_encode_intent i op : intent_short i -> Z.of_nat (length (encode_intent i op)) <= maxIntentRecord.
Proof.
  unfold name_short, maxIntentRecord, maxTernNameLength. destruct i; cbn [intent_short encode_intent]; unfold name_short, maxTernNameLength;
    unfold encode_rename, encode_remove, encode_create, intentHeader, appendName; rewrite !length_app, !length_be_bytes; cbn [length]; lia.
Qed.

(** * Properties *)

(** A restart reads back what was recorded. The intent of every RENAME,
    REMOVE and CREATE decodes to itself and the index of its operation, and
    nothing else decodes to it; the record of a session and the effective user
    of a request decode to themselves; no record, however damaged, makes a
    decoder panic. *)
Theorem replay_records_roundtrip :
  (forall i op, intent_ok i -> is_u16 op -> decodeIntent (encode_intent i op) = Ok (op, i)) /\
  (forall b op i, decodeIntent b = Ok (op, i) -> intent_ok i /\ is_u16 op /\ b = encode_intent i op) /\
  (forall r, session_ok r -> decodeSessionRecord (encode_session r) = Ok r) /\
  (forall flavor body u, is_u32 flavor -> effective_user flavor body = Ok u -> decodeUser (encodeUser u) = Ok (Some u)) /\
  (forall b, decodeIntent b <> Panic /\ decodeSessionRecord b <> Panic).
Proof.
  split_and!.
  - exact decodeIntent_encode.
  - exact decodeIntent_inv.
  - exact decodeSessionRecord_encode.
  - intros flavor body u Hf Hu. destruct (proj2 (effective_user_spec flavor body Hf) u Hu) as (H1 & H2 & H3 & _). by apply decodeUser_encode.
  - intros b. split; [apply decodeIntent_total | apply decodeSessionRecord_total].
Qed.

(** The area of a slot holds every intent. The record of an intent with
    names of at most 255 bytes, made for a request with a decoded credential,
    fits the area that the session's file was made with, whatever the size of
    the replies the session caches, so that the write is never refused. *)
Theorem intent_record_fits maxCached seq digest flavor body u i op h : 0 <= maxCached < 2 ^ 31 -> is_u32 seq -> length digest = 32%nat ->
  is_u32 flavor -> effective_user flavor body = Ok u -> intent_short i -> h_AreaSize h = slotAreaSize maxCached ->
  record_ok h (mkSlotRecord seq KindIntent false digest (encodeUser u) (encode_intent i op)).
Proof.
  intros Hm Hseq Hd Hf Hu Hi Hh. destruct (proj2 (effective_user_spec flavor body Hf) u Hu) as (_ & _ & _ & Hlen).
  pose proof (length_encode_intent i op Hi) as Hi'.
  assert (Harea : slotAreaSize maxCached = Z.max maxCached maxIntentRecord + maxUserRecord + Z.of_nat RecordOverhead).
  { unfold slotAreaSize, wrap32. apply Z.mod_small. unfold maxIntentRecord, maxTernNameLength, maxUserRecord, RecordOverhead, recordFixedSize. lia. }
  constructor; cbn [r_Seq r_Kind r_Digest r_User r_Payload]; [done | by vm_compute | done | lia | rewrite Hh, Harea; unfold maxUserRecord; lia].
Qed.

(** The effective user is an identity of the caller. Two AUTH_SYS
    credentials give the same user exactly when they have the same uid, gid and
    set of other groups, whatever their time stamps, machine names, and the
    order and repetitions of their groups; and no credential makes the decoder
    panic. *)
Theorem user_identity stamp stamp' uid uid' gid gid' name name' pad pad' gs gs' :
  is_u32 uid -> is_u32 uid' -> is_u32 gid -> is_u32 gid' -> (length name <= 255)%nat -> (length name' <= 255)%nat ->
  Z.of_nat (length (name ++ pad)) = pad4 (Z.of_nat (length name)) -> Z.of_nat (length (name' ++ pad')) = pad4 (Z.of_nat (length name')) ->
  (length gs <= 16)%nat -> (length gs' <= 16)%nat -> Forall is_u32 gs -> Forall is_u32 gs' ->
  (effective_user AUTH_SYS (auth_sys stamp uid gid name pad gs) = effective_user AUTH_SYS (auth_sys stamp' uid' gid' name' pad' gs') <->
   uid = uid' /\ gid = gid' /\ forall g, g <> gid -> g ∈ gs <-> g ∈ gs') /\
  (forall flavor body, is_u32 flavor -> effective_user flavor body <> Panic).
Proof.
  intros Hu Hu' Hg Hg' Hn Hn' Hp Hp' Hl Hl' Hgs Hgs'. split; [|intros; by apply effective_user_spec].
  rewrite !effective_user_encoded by done. split.
  - intros [= -> -> H]. split_and!; [done..|]. by apply groups_identity.
  - intros (-> & -> & H). do 2 f_equal. by apply groups_identity.
Qed.

(** ** Witnesses *)

Definition sample_remove : intent := IRemove (mkRemove 5 [Byte.x61] (mkVfsEdge 9 77)).

Lemma replay_records_roundtrip_witness : decodeIntent (encode_intent sample_remove 2) = Ok (2, sample_remove).
Proof. apply replay_records_roundtrip; by vm_compute. Defined.

Lemma intent_record_fits_witness :
  record_ok (mkHeader 1 (slotAreaSize 0) []) (mkSlotRecord 7 KindIntent false (replicate 32 zero_byte) (encodeUser (mkUser AUTH_NONE 65534 65534 [])) (encode_intent sample_remove 2)).
Proof. apply (intent_record_fits 0 7 (replicate 32 zero_byte) AUTH_NONE []); by vm_compute. Defined.

Lemma user_identity_witness :
  effective_user AUTH_SYS (auth_sys 1 1000 100 [Byte.x61] [Byte.x00; Byte.x00; Byte.x00] [7; 100; 3]) =
  effective_user AUTH_SYS (auth_sys 2 1000 100 [] [] [3; 7; 7]).
Proof.
  assert (H7 : Forall is_u32 [7; 100; 3]) by (rewrite !Forall_cons; unfold is_u32; split_and!; [lia.. | constructor]).
  assert (H3 : Forall is_u32 [3; 7; 7]) by (rewrite !Forall_cons; unfold is_u32; split_and!; [lia.. | constructor]).
  apply (proj1 (user_identity 1 2 1000 1000 100 100 [Byte.x61] [] [Byte.x00; Byte.x00; Byte.x00] [] [7; 100; 3] [3; 7; 7]
    ltac:(by vm_compute) ltac:(by vm_compute) ltac:(by vm_compute) ltac:(by vm_compute) ltac:(simpl; lia) ltac:(simpl; lia)
    eq_refl eq_refl ltac:(simpl; lia) ltac:(simpl; lia) H7 H3)).
  split_and!; [done..|]. intros g Hg. rewrite !elem_of_cons, !elem_of_nil. tauto.
Defined.
