(* ===== verification/ReplayGate.v ===== *)
(** Requests that a restart may run again: the session file of
    src/go/nfsd/internal/server/session_persist.go, the gates and decisions of
    replay_decide.go, and the operations of ops_namespace.go that write an
    intent before their effect, composed as compoundBody of server.go composes
    them.

    The result bodies and the log are left out: an operation gives its status
    and the effects it submitted to the file system. What TernFS, the staging
    directory and the operating system answer is a parameter of each operation.
    [sf_path] says whether the file is still on the staging disk; an unlink
    that fails leaves it there. *)

From Stdlib Require Import ZArith Lia.
From stdpp Require Import base numbers option list.
From S2P Require Import Prelude Ids SessionFile ReplayRecord.

Definition NFS4_OK : Z := 0.
Definition NFS4ERR_NOENT : Z := 2.
Definition NFS4ERR_IO : Z := 5.
Definition NFS4ERR_EXIST : Z := 17.
Definition NFS4ERR_NOTDIR : Z := 20.
Definition NFS4ERR_INVAL : Z := 22.
Definition NFS4ERR_NAMETOOLONG : Z := 63.
Definition NFS4ERR_NOTSUPP : Z := 10004.
Definition NFS4ERR_SERVERFAULT : Z := 10006.
Definition NFS4ERR_BADTYPE : Z := 10007.
Definition NFS4ERR_NOFILEHANDLE : Z := 10020.
Definition NFS4ERR_SYMLINK : Z := 10029.
Definition NFS4ERR_BADNAME : Z := 10041.
Definition NFS4ERR_FILE_OPEN : Z := 10046.
Definition NFS4ERR_RESTOREFH : Z := 10030.
Definition NFS4ERR_REP_TOO_BIG : Z := 10066.
Definition NFS4ERR_DEADSESSION : Z := 10078.

(** * The session file *)

Inductive sessionFileState := fileNone | fileLive | fileGone | filePoisoned.

#[export] Instance sessionFileState_eq_dec : EqDecision sessionFileState.
Proof. solve_decision. Defined.

Record sessionFile := mkSessionFile {
  sf_f : option File;
  sf_state : sessionFileState;
  sf_onDisk : bool;
  sf_poisoned : bool;
  sf_path : bool;
}.

Definition noFile : sessionFile := mkSessionFile None fileNone false false false.

Definition attach (f : File) (sf : sessionFile) : sessionFile := mkSessionFile (Some f) fileLive true (sf_poisoned sf) true.

(** [sessionFile.write]: the state it found and whether the write failed. A
    write to a file of the session never panics. *)
Definition write (sf : sessionFile) (slot : nat) (rec : SlotRecord) (w : write_result) : sessionFile * (sessionFileState * bool) :=
  match sf_state sf, sf_f sf with
  | fileLive, Some f =>
    let '(f, res) := Write f slot rec w in
    (mkSessionFile (Some f) (sf_state sf) (sf_onDisk sf) (sf_poisoned sf) (sf_path sf),
     (fileLive, match res with Ok _ => false | _ => true end))
  | state, _ => (sf, (state, false))
  end.

Definition permits (sf : sessionFile) : bool := negb (bool_decide (sf_state sf = filePoisoned)).

(** [invalidate]; [unlinked] is whether the unlink succeeds. *)
Definition invalidate (sf : sessionFile) (unlinked : bool) : sessionFile * sessionFileState :=
  if negb (bool_decide (sf_state sf = fileLive)) then (sf, sf_state sf)
  else if negb unlinked then (mkSessionFile (sf_f sf) filePoisoned (sf_onDisk sf) true (sf_path sf), filePoisoned)
  else (mkSessionFile (sf_f sf) fileGone false (sf_poisoned sf) false, fileGone).

(** [close], with the session's last use. *)
Definition close (sf : sessionFile) (unlinked : bool) : sessionFile :=
  match sf_f sf with
  | None => sf
  | Some _ =>
    if bool_decide (sf_state sf = fileLive) || bool_decide (sf_state sf = filePoisoned) then
      if unlinked then mkSessionFile None fileGone false (sf_poisoned sf) false
      else mkSessionFile None (sf_state sf) (sf_onDisk sf) (sf_poisoned sf) (sf_path sf)
    else mkSessionFile None (sf_state sf) (sf_onDisk sf) (sf_poisoned sf) (sf_path sf)
  end.

(** [writeRecord]: false when the file is on disk without the record. *)
Definition writeRecord (sf : sessionFile) (slot : nat) (rec : SlotRecord) (w : write_result) (unlinked : bool) : sessionFile * bool :=
  let '(sf, (state, failed)) := write sf slot rec w in
  if bool_decide (state = fileLive) then
    if negb failed then (sf, true)
    else let '(sf, state) := invalidate sf unlinked in (sf, negb (bool_decide (state = filePoisoned)))
  else (sf, negb (bool_decide (state = filePoisoned))).

Definition dropSessionFile (sf : sessionFile) (unlinked : bool) : sessionFile * bool :=
  let '(sf, state) := invalidate sf unlinked in (sf, negb (bool_decide (state = filePoisoned))).

(** * Compounds *)

(** The slot a compound's SEQUENCE claimed. *)
Record slotIdentity := mkSlotIdentity {
  si_slotID : nat;
  si_seq : Z;
  si_digest : list byte;
  si_user : effectiveUser;
}.

Record replayState := mkReplay {
  rs_pending : bool;
  rs_malformed : bool;
  rs_op : Z;
  rs_intent : option intent;
  rs_raw : list byte;
}.

Definition maxCompoundOperations : Z := 128.

Definition newReplayState (present : bool) (b : list byte) : replayState :=
  if negb present then mkReplay false false 0 None []
  else
    match decodeIntent b with
    | Ok (op, i) =>
      if (op <? 1) || (maxCompoundOperations <=? op) then mkReplay true true 0 None []
      else mkReplay true false op (Some i) b
    | _ => mkReplay true true 0 None []
    end.

Record compoundState := mkCompound {
  st_current : option Z;
  st_saved : option Z;
  st_slot : option slotIdentity; (* None without a session *)
  st_opIndex : Z;
  st_intentOp : Z;
  st_mutated : bool;
  st_replay : replayState;
}.

Definition set_current (id : option Z) (st : compoundState) : compoundState :=
  mkCompound id (st_saved st) (st_slot st) (st_opIndex st) (st_intentOp st) (st_mutated st) (st_replay st).
Definition set_saved (id : option Z) (st : compoundState) : compoundState :=
  mkCompound (st_current st) id (st_slot st) (st_opIndex st) (st_intentOp st) (st_mutated st) (st_replay st).
Definition set_index (i : Z) (st : compoundState) : compoundState :=
  mkCompound (st_current st) (st_saved st) (st_slot st) i (st_intentOp st) (st_mutated st) (st_replay st).
Definition set_intentOp (i : Z) (st : compoundState) : compoundState :=
  mkCompound (st_current st) (st_saved st) (st_slot st) (st_opIndex st) i (st_mutated st) (st_replay st).
Definition set_mutated (st : compoundState) : compoundState :=
  mkCompound (st_current st) (st_saved st) (st_slot st) (st_opIndex st) (st_intentOp st) true (st_replay st).
Definition set_replay (r : replayState) (st : compoundState) : compoundState :=
  mkCompound (st_current st) (st_saved st) (st_slot st) (st_opIndex st) (st_intentOp st) (st_mutated st) r.

(** ** The gates *)

Definition OP_CLOSE : Z := 4.
Definition OP_COMMIT : Z := 5.
Definition OP_LOOKUP : Z := 15.
Definition OP_OPEN : Z := 18.
Definition OP_OPEN_DOWNGRADE : Z := 21.
Definition OP_PUTFH : Z := 22.
Definition OP_RESTOREFH : Z := 31.
Definition OP_SAVEFH : Z := 32.
Definition OP_SETATTR : Z := 34.
Definition OP_WRITE : Z := 38.
Definition OP_BIND_CONN_TO_SESSION : Z := 41.
Definition OP_EXCHANGE_ID : Z := 42.
Definition OP_CREATE_SESSION : Z := 43.
Definition OP_DESTROY_SESSION : Z := 44.
Definition OP_FREE_STATEID : Z := 45.
Definition OP_DESTROY_CLIENTID : Z := 57.
Definition OP_RECLAIM_COMPLETE : Z := 58.

Definition operationMutates (op : Z) : bool :=
  bool_decide (op ∈ [OP_CLOSE; OP_COMMIT; OP_CREATE; OP_OPEN; OP_OPEN_DOWNGRADE; OP_REMOVE; OP_RENAME; OP_SETATTR; OP_WRITE;
    OP_EXCHANGE_ID; OP_CREATE_SESSION; OP_DESTROY_SESSION; OP_DESTROY_CLIENTID; OP_BIND_CONN_TO_SESSION; OP_RECLAIM_COMPLETE;
    OP_FREE_STATEID]).

Definition recoveryEffect (op : Z) : bool := operationMutates op && negb (op =? OP_COMMIT).

Definition replayGate (st : compoundState) (opnum : Z) : Z :=
  let r := st_replay st in
  let refuse :=
    if negb (rs_pending r) then false
    else if rs_malformed r then recoveryEffect opnum
    else if st_opIndex st <? rs_op r then recoveryEffect opnum
    else if st_opIndex st =? rs_op r then
      match rs_intent r with Some i => negb (opnum =? intentOperation i) | None => true end
    else recoveryEffect opnum in
  if refuse then NFS4ERR_DEADSESSION else NFS4_OK.

Definition mutationGate (st : compoundState) (sf : sessionFile) (opnum : Z) (unlinked : bool) : compoundState * sessionFile * Z :=
  match st_slot st with
  | None => (st, sf, NFS4_OK)
  | Some _ =>
    if negb (recoveryEffect opnum) then (st, sf, NFS4_OK)
    else if negb (st_mutated st) then (set_mutated st, sf, NFS4_OK)
    else
      let '(sf, dropped) := dropSessionFile sf unlinked in
      (st, sf, if dropped then NFS4_OK else NFS4ERR_SERVERFAULT)
  end.

Definition takeIntent (st : compoundState) : compoundState * option intent :=
  let r := st_replay st in
  if negb (rs_pending r) || rs_malformed r || negb (st_opIndex st =? rs_op r) then (st, None)
  else
    (set_intentOp (st_opIndex st + 1) (set_replay (mkReplay false (rs_malformed r) (rs_op r) (rs_intent r) (rs_raw r)) st), rs_intent r).

(** The intent of the operation at [st_opIndex], on the compound's slot. *)
Definition persistIntent (st : compoundState) (sf : sessionFile) (payload : list byte) (w : write_result) (unlinked : bool) :
    compoundState * sessionFile * Z :=
  match st_slot st with
  | None => (st, sf, NFS4_OK)
  | Some sl =>
    if negb (st_intentOp st =? 0) && (st_intentOp st =? st_opIndex st + 1) then
      if negb (bool_decide (payload = rs_raw (st_replay st))) then (st, sf, NFS4ERR_DEADSESSION)
      else if negb (permits sf) then (st, sf, NFS4ERR_SERVERFAULT)
      else (st, sf, NFS4_OK)
    else
      let '(sf, written) := writeRecord sf (si_slotID sl)
        (mkSlotRecord (si_seq sl) KindIntent false (si_digest sl) (encodeUser (si_user sl)) payload) w unlinked in
      if negb written then (st, sf, NFS4ERR_SERVERFAULT)
      else (set_intentOp (st_opIndex st + 1) st, sf, NFS4_OK)
  end.

(** ** Decisions *)

(** What a lookup in TernFS gives; [Failed] has the status of the error. *)
Inductive lookup (A : Type) := Found (a : A) | NotExist | Failed (status : Z).
Arguments Found {A} a.
Arguments NotExist {A}.
Arguments Failed {A} status.

Definition lookup_status {A} (l : lookup A) : Z :=
  match l with Found _ => NFS4_OK | NotExist => NFS4ERR_NOENT | Failed s => s end.

Inductive replayVerdict := replayNone | replayApplied | replayUndecidable.

Definition decideRenameReplay (st : compoundState) (srcDir : Z) (oldName : list byte) (dstDir : Z) (newName : list byte)
    (edge : lookup VfsEdge) (cur : lookup Z) : compoundState * replayVerdict * Z :=
  let '(st, v) := takeIntent st in
  match v with
  | None => (st, replayNone, NFS4_OK)
  | Some (IRename i) =>
    if negb ((rn_srcDir i =? srcDir) && bool_decide (rn_srcName i = oldName) && (rn_dstDir i =? dstDir) && bool_decide (rn_dstName i = newName))
    then (st, replayUndecidable, NFS4ERR_DEADSESSION)
    else
      match edge with
      | Failed s => (st, replayUndecidable, s)
      | _ =>
        if match edge with Found e => bool_decide (e = rn_src i) | _ => false end then (st, replayNone, NFS4_OK)
        else
          match cur with
          | Failed s => (st, replayUndecidable, s)
          | Found id => if id =? ve_ID (rn_src i) then (st, replayApplied, NFS4_OK) else (st, replayUndecidable, NFS4ERR_DEADSESSION)
          | NotExist => (st, replayUndecidable, NFS4ERR_DEADSESSION)
          end
      end
  | Some _ => (st, replayUndecidable, NFS4ERR_DEADSESSION)
  end.

Definition decideRemoveReplay (st : compoundState) (dir : Z) (name : list byte) (edge : lookup VfsEdge) : compoundState * replayVerdict * Z :=
  let '(st, v) := takeIntent st in
  match v with
  | None => (st, replayNone, NFS4_OK)
  | Some (IRemove i) =>
    if negb ((rm_dir i =? dir) && bool_decide (rm_name i = name)) then (st, replayUndecidable, NFS4ERR_DEADSESSION)
    else
      match edge with
      | Found e => if bool_decide (e = rm_edge i) then (st, replayNone, NFS4_OK) else (st, replayApplied, NFS4_OK)
      | NotExist => (st, replayApplied, NFS4_OK)
      | Failed s => (st, replayUndecidable, s)
      end
  | Some _ => (st, replayUndecidable, NFS4ERR_DEADSESSION)
  end.

Definition decideCreateReplay (st : compoundState) : compoundState * replayVerdict * Z :=
  let '(st, v) := takeIntent st in
  match v with
  | None => (st, replayNone, NFS4_OK)
  | Some _ => (st, replayUndecidable, NFS4ERR_DEADSESSION)
  end.

(** * Operations *)

(** [toTernFSName]: the status, the name being the bytes themselves. *)
Definition slash : byte := Byte.x2f.
Definition dot : byte := Byte.x2e.

Definition toTernFSName (data : list byte) : Z :=
  if (length data =? 0)%nat then NFS4ERR_INVAL
  else if maxTernNameLength <? Z.of_nat (length data) then NFS4ERR_NAMETOOLONG
  else if bool_decide (data = [dot]) || bool_decide (data = [dot; dot]) || bool_decide (slash ∈ data) || bool_decide (zero_byte ∈ data)
  then NFS4ERR_BADNAME
  else NFS4_OK.

Definition inode_type (id : Z) : Z := Z.land (Z.shiftr id 61) 3.
Definition is_dir (id : Z) : bool := inode_type id =? 1.

Definition requireDirectory (id : Z) : Z :=
  if inode_type id =? 1 then NFS4_OK else if inode_type id =? 3 then NFS4ERR_SYMLINK else NFS4ERR_NOTDIR.

(** What the rest of the server, TernFS and the operating system answer to one
    operation: the status of the checks before it runs, the unlink of the
    mutation gate, the lookups of the decision, the staging targets (retired,
    active or busy) and the fence of their writers, the lookups of the
    operation, the write of the intent, the guard of the writers, the status
    and the inode of the effect, and whether the result fits the reply. *)
Record answers := mkAnswers {
  an_admitted : Z;
  an_gateUnlink : bool;
  an_decideEdge : lookup VfsEdge;
  an_decideDst : lookup Z;
  an_retireSource : Z;
  an_sourceActive : bool;
  an_retireTarget : Z;
  an_fence : Z;
  an_edge : lookup VfsEdge;
  an_dst : lookup Z;
  an_write : write_result;
  an_unlink : bool;
  an_guard : bool;
  an_effect : Z;
  an_newID : Z;
  an_fits : bool;
}.

(** A call that changes the file system: the operation, the intent that
    protects it if it has one, and the session file at the time. *)
Record effect := mkEffect {
  ef_index : Z;
  ef_op : Z;
  ef_intent : option intent;
  ef_file : sessionFile;
}.

Abbreviation op_result := (compoundState * sessionFile * Z * option effect)%type.

(** The intent of the operation, then its effect once the writers are guarded. *)
Definition protect (st : compoundState) (sf : sessionFile) (i : intent) (an : answers) : op_result :=
  let '(st, sf, status) := persistIntent st sf (encode_intent i (st_opIndex st)) (an_write an) (an_unlink an) in
  if negb (status =? NFS4_OK) then (st, sf, status, None)
  else if negb (an_guard an) then (st, sf, NFS4ERR_IO, None)
  else (st, sf, an_effect an, Some (mkEffect (st_opIndex st) (intentOperation i) (Some i) sf)).

Definition opRename (oldName newName : list byte) (st : compoundState) (sf : sessionFile) (an : answers) : op_result :=
  match st_current st, st_saved st with
  | Some cur, Some saved =>
    if negb (requireDirectory saved =? NFS4_OK) then (st, sf, requireDirectory saved, None)
    else if negb (requireDirectory cur =? NFS4_OK) then (st, sf, requireDirectory cur, None)
    else if negb (toTernFSName oldName =? NFS4_OK) then (st, sf, toTernFSName oldName, None)
    else if negb (toTernFSName newName =? NFS4_OK) then (st, sf, toTernFSName newName, None)
    else
      let '(st, verdict, status) := decideRenameReplay st saved oldName cur newName (an_decideEdge an) (an_decideDst an) in
      match verdict with
      | replayApplied => (st, sf, NFS4_OK, None)
      | replayUndecidable => (st, sf, status, None)
      | replayNone =>
        if (saved =? cur) && bool_decide (oldName = newName) then (st, sf, NFS4_OK, None)
        else if negb (an_retireSource an =? NFS4_OK) then (st, sf, an_retireSource an, None)
        else if negb (an_retireTarget an =? NFS4_OK) then (st, sf, an_retireTarget an, None)
        else if an_sourceActive an && negb (saved =? cur) then (st, sf, NFS4ERR_FILE_OPEN, None)
        else if negb (an_fence an =? NFS4_OK) then (st, sf, an_fence an, None)
        else
          match an_edge an with
          | Found edge =>
            match an_dst an with
            | Failed s => (st, sf, s, None)
            | dst =>
              if match dst with Found id => xorb (is_dir (ve_ID edge)) (is_dir id) | _ => false end then (st, sf, NFS4ERR_EXIST, None)
              else protect st sf (IRename (mkRename saved oldName edge cur newName (match dst with Found id => id | _ => 0 end))) an
            end
          | l => (st, sf, lookup_status l, None)
          end
      end
  | _, _ => (st, sf, NFS4ERR_NOFILEHANDLE, None)
  end.

Definition opRemove (name : list byte) (st : compoundState) (sf : sessionFile) (an : answers) : op_result :=
  match st_current st with
  | Some cur =>
    if negb (requireDirectory cur =? NFS4_OK) then (st, sf, requireDirectory cur, None)
    else if negb (toTernFSName name =? NFS4_OK) then (st, sf, toTernFSName name, None)
    else
      let '(st, verdict, status) := decideRemoveReplay st cur name (an_decideEdge an) in
      match verdict with
      | replayApplied => (st, sf, NFS4_OK, None)
      | replayUndecidable => (st, sf, status, None)
      | replayNone =>
        if negb (an_retireSource an =? NFS4_OK) then (st, sf, an_retireSource an, None)
        else if negb (an_fence an =? NFS4_OK) then (st, sf, an_fence an, None)
        else
          match an_edge an with
          | Found edge => protect st sf (IRemove (mkRemove cur name edge)) an
          | l => (st, sf, lookup_status l, None)
          end
      end
  | None => (st, sf, NFS4ERR_NOFILEHANDLE, None)
  end.

(** The effect of a CREATE has no guard; a new object becomes the current
    filehandle. *)
Definition create_object (st : compoundState) (sf : sessionFile) (i : intent) (an : answers) : op_result :=
  let '(st, sf, status) := persistIntent st sf (encode_intent i (st_opIndex st)) (an_write an) (an_unlink an) in
  if negb (status =? NFS4_OK) then (st, sf, status, None)
  else
    (if an_effect an =? NFS4_OK then set_current (Some (an_newID an)) st else st, sf, an_effect an,
     Some (mkEffect (st_opIndex st) (intentOperation i) (Some i) sf)).

Definition NF4REG : Z := 1.

(** [an_fence] is the status of the check of the attributes, [an_retireSource]
    and [an_sourceActive] what [stagingTargetBusy] answers. *)
Definition opCreate (name : list byte) (objType : Z) (target : list byte) (st : compoundState) (sf : sessionFile) (an : answers) : op_result :=
  match st_current st with
  | Some cur =>
    if negb (is_dir cur) then (st, sf, NFS4ERR_NOTDIR, None)
    else if negb (toTernFSName name =? NFS4_OK) then (st, sf, toTernFSName name, None)
    else if objType =? NF4REG then (st, sf, NFS4ERR_BADTYPE, None)
    else if negb ((objType =? NF4DIR) || (objType =? NF4LNK)) then (st, sf, NFS4ERR_NOTSUPP, None)
    else if negb (an_fence an =? NFS4_OK) then (st, sf, an_fence an, None)
    else
      let '(st, verdict, status) := decideCreateReplay st in
      match verdict with
      | replayNone =>
        if negb (an_retireSource an =? NFS4_OK) then (st, sf, an_retireSource an, None)
        else if an_sourceActive an then (st, sf, NFS4ERR_FILE_OPEN, None)
        else
          match an_dst an with
          | Found _ => (st, sf, NFS4ERR_EXIST, None)
          | Failed s => (st, sf, s, None)
          | NotExist =>
            if objType =? NF4DIR then create_object st sf (ICreate (mkCreate cur name NF4DIR [])) an
            else if (length target =? 0)%nat then (st, sf, NFS4ERR_INVAL, None)
            else if maxTernNameLength <? Z.of_nat (length target) then (st, sf, NFS4ERR_NAMETOOLONG, None)
            else create_object st sf (ICreate (mkCreate cur name NF4LNK target)) an
          end
      | _ => (st, sf, status, None)
      end
  | None => (st, sf, NFS4ERR_NOFILEHANDLE, None)
  end.

(** The operations of a compound. [AOther] is any operation without an intent:
    one that mutates is taken to have its effect. *)
Inductive operation :=
| ARename (oldName newName : list byte)
| ARemove (name : list byte)
| ACreate (name : list byte) (objType : Z) (target : list byte)
| APutfh (id : option Z)
| ASavefh
| ARestorefh
| ALookup (name : list byte) (id : lookup Z)
| AOther (opnum : Z).

Definition op_num (a : operation) : Z :=
  match a with
  | ARename _ _ => OP_RENAME | ARemove _ => OP_REMOVE | ACreate _ _ _ => OP_CREATE | APutfh _ => OP_PUTFH
  | ASavefh => OP_SAVEFH | ARestorefh => OP_RESTOREFH | ALookup _ _ => OP_LOOKUP | AOther n => n
  end.

(** An operation with an intent is never an [AOther]. *)
Definition operation_ok (a : operation) : Prop :=
  match a with AOther n => n <> OP_RENAME /\ n <> OP_REMOVE /\ n <> OP_CREATE | _ => True end.

Definition run_operation (a : operation) (st : compoundState) (sf : sessionFile) (an : answers) : op_result :=
  match a with
  | ARename oldName newName => opRename oldName newName st sf an
  | ARemove name => opRemove name st sf an
  | ACreate name objType target => opCreate name objType target st sf an
  | APutfh (Some id) => (set_current (Some id) st, sf, NFS4_OK, None)
  | APutfh None => (st, sf, an_effect an, None)
  | ASavefh =>
    match st_current st with
    | Some id => (set_saved (Some id) st, sf, NFS4_OK, None)
    | None => (st, sf, NFS4ERR_NOFILEHANDLE, None)
    end
  | ARestorefh =>
    match st_saved st with
    | Some id => (set_current (Some id) st, sf, NFS4_OK, None)
    | None => (st, sf, NFS4ERR_RESTOREFH, None)
    end
  | ALookup name l =>
    match st_current st with
    | None => (st, sf, NFS4ERR_NOFILEHANDLE, None)
    | Some cur =>
      if negb (requireDirectory cur =? NFS4_OK) then (st, sf, requireDirectory cur, None)
      else if negb (toTernFSName name =? NFS4_OK) then (st, sf, toTernFSName name, None)
      else match l with Found id => (set_current (Some id) st, sf, NFS4_OK, None) | _ => (st, sf, lookup_status l, None) end
    end
  | AOther n => (st, sf, an_effect an, if recoveryEffect n then Some (mkEffect (st_opIndex st) n None sf) else None)
  end.

(** The loop of [compoundBody] after SEQUENCE, from [index] on. A result over
    the limit ends it: the status then is for an operation without an effect,
    and one that mutates gets no reply and retires the session. *)
Fixpoint run_ops (index : Z) (ops : list (operation * answers)) (st : compoundState) (sf : sessionFile) :
    compoundState * sessionFile * list effect * Z :=
  match ops with
  | [] => (st, sf, [], NFS4_OK)
  | (a, an) :: ops =>
    if negb (an_admitted an =? NFS4_OK) then (st, sf, [], an_admitted an)
    else
      let st := set_index index st in
      if negb (replayGate st (op_num a) =? NFS4_OK) then (st, sf, [], replayGate st (op_num a))
      else
        let '(st, sf, status) := mutationGate st sf (op_num a) (an_gateUnlink an) in
        if negb (status =? NFS4_OK) then (st, sf, [], status)
        else
          let '(st, sf, status, e) := run_operation a st sf an in
          if negb (an_fits an) then (st, sf, option_list e, NFS4ERR_REP_TOO_BIG)
          else if negb (status =? NFS4_OK) then (st, sf, option_list e, status)
          else
            let '(st, sf, log, status) := run_ops (index + 1) ops st sf in
            (st, sf, option_list e ++ log, status)
  end.

(** The compound after its SEQUENCE claimed the slot. *)
Definition sequenced (sl : slotIdentity) (present : bool) (raw : list byte) : compoundState :=
  mkCompound None None (Some sl) 0 0 false (newReplayState present raw).

(** * Invariant *)

Section compound.
Context (sl : slotIdentity) (present : bool) (raw : list byte).
Context (Hseq : is_u32 (si_seq sl)) (Hdigest : length (si_digest sl) = 32%nat).

(** The restored intent, if there is one. *)
Definition restored : replayState := newReplayState present raw.

Definition intent_record (payload : list byte) : SlotRecord :=
  mkSlotRecord (si_seq sl) KindIntent false (si_digest sl) (encodeUser (si_user sl)) payload.

(** A process that opens the file finds the intent on the slot. *)
Definition recorded (sf : sessionFile) (payload : list byte) : Prop :=
  exists f rec, sf_f sf = Some f /\ open (file_data f) = Ok f /\ Slot f (si_slotID sl) = Some rec /\
    r_Kind rec = KindIntent /\ r_Seq rec = si_seq sl /\ r_Payload rec = payload.

(** The slot's record is that of an earlier request. *)
Definition older (sf : sessionFile) : Prop :=
  forall f old, sf_f sf = Some f -> Slot f (si_slotID sl) = Some old -> SeqAfter (si_seq sl) (r_Seq old) = true.

Definition file_ok (sf : sessionFile) : Prop :=
  match sf_state sf with
  | fileLive => sf_path sf = true /\ exists f, sf_f sf = Some f /\ Inv f /\ Z.of_nat (si_slotID sl) < h_SlotCount (file_header f)
  | filePoisoned => sf_path sf = true
  | _ => sf_path sf = false
  end.

Lemma Write_Ok f s rec w f' : Inv f -> Z.of_nat s < h_SlotCount (file_header f) -> is_u32 (r_Seq rec) -> is_u8 (r_Kind rec) ->
  length (r_Digest rec) = 32%nat -> (forall old, Slot f s = Some old -> newer rec old = true) -> Write f s rec w = (f', Ok tt) ->
  Inv f' /\ file_header f' = file_header f /\ Slot f' s = Some rec.
Proof.
  intros HI Hs H1 H2 H3 Hnew H. assert (Hr : record_ok (file_header f) rec).
  { unfold Write in H. destruct (_ <=? _); [done|]. destruct (_ || _) eqn:Hc; [done|]. reflect_bools. by constructor. }
  destruct (Write_spec f s rec w HI Hs Hr) as (st & _ & _ & Hw). rewrite H in Hw. destruct w; [|done].
  destruct (Write_inv f s rec HI Hs Hr Hnew) as (HI' & Hh & _ & Hslot). rewrite H in HI', Hh, Hslot. simpl in *.
  split; [done|]. split; [done|]. by rewrite Hslot, decide_True.
Qed.

(** After [writeRecord] of an intent the file is as before, gone, or holds it. *)
Lemma write_intent sf payload w unlinked sf' written : file_ok sf -> (sf_state sf = fileLive -> older sf) ->
  writeRecord sf (si_slotID sl) (intent_record payload) w unlinked = (sf', written) ->
  file_ok sf' /\ (sf_path sf = false -> sf_path sf' = false) /\ (sf_state sf <> fileLive -> sf' = sf) /\
  (written = false -> sf_state sf' = filePoisoned) /\
  (written = true -> sf_state sf' <> filePoisoned /\ (sf_state sf' = fileLive -> recorded sf' payload)).
Proof.
  intros Hok Hold H. unfold writeRecord, write in H. destruct (sf_state sf) eqn:Hst.
  - simpl in H. injection H as <- <-. rewrite Hst. by split_and!.
  - unfold file_ok in Hok. rewrite Hst in Hok. destruct Hok as (Hp & f & Hf & HI & Hs). rewrite Hf in H.
    destruct (Write f (si_slotID sl) (intent_record payload) w) as [f' res] eqn:Hw.
    rewrite (bool_decide_eq_true_2 (fileLive = fileLive)) in H by done.
    assert (Hfail : (let '(sf0, state) := invalidate (mkSessionFile (Some f') fileLive (sf_onDisk sf) (sf_poisoned sf) (sf_path sf)) unlinked in
      (sf0, negb (bool_decide (state = filePoisoned)))) = (sf', written) ->
      file_ok sf' /\ (written = false -> sf_state sf' = filePoisoned) /\ (written = true -> sf_state sf' = fileGone)).
    { unfold invalidate, file_ok. simpl. destruct unlinked; simpl; intros [= <- <-]; simpl; by split_and!. }
    destruct res as [[]|e|]; cbn [negb] in H.
    + injection H as <- <-. destruct (Write_Ok f (si_slotID sl) (intent_record payload) w f') as (HI' & Hh & Hslot); try done.
      { intros old Ho. unfold newer, intent_record. cbn [r_Seq r_Kind]. by rewrite (Hold eq_refl f old Hf Ho). }
      split_and!; try done; unfold file_ok; simpl; try congruence.
      * split; [done|]. exists f'. by rewrite Hh.
      * intros _. split; [done|]. intros _. exists f', (intent_record payload). split_and!; try done. by apply open_inv.
    + destruct (Hfail H) as (H1 & H2 & H3). split_and!; try done; try congruence; intros Hwr; rewrite (H3 Hwr); done.
    + destruct (Hfail H) as (H1 & H2 & H3). split_and!; try done; try congruence; intros Hwr; rewrite (H3 Hwr); done.
  - simpl in H. injection H as <- <-. rewrite Hst. by split_and!.
  - simpl in H. injection H as <- <-. by split_and!.
Qed.

(** ** The state between two operations and inside one *)

(** [n] counts the effects so far. *)
Record between (index : Z) (st : compoundState) (sf : sessionFile) (n : nat) : Prop := {
  bt_slot : st_slot st = Some sl;
  bt_file : file_ok sf;
  bt_replay : st_replay st = restored \/
    st_replay st = mkReplay false (rs_malformed restored) (rs_op restored) (rs_intent restored) (rs_raw restored);
  bt_taken : present = true -> rs_pending (st_replay st) = false -> st_intentOp st <> 0;
  bt_intentOp : 0 <= st_intentOp st <= index;
  bt_mutated : st_intentOp st <> 0 -> st_mutated st = true;
  bt_restored : present = true -> sf_state sf = fileLive -> recorded sf raw;
  bt_older : present = false -> st_intentOp st = 0 -> sf_state sf = fileLive -> older sf;
  bt_count : sf_path sf = true -> (n <= if st_mutated st then 1 else 0)%nat;
}.

(** Inside an operation that may have an effect. *)
Record inside (index : Z) (st : compoundState) (sf : sessionFile) (n : nat) : Prop := {
  in_slot : st_slot st = Some sl;
  in_file : file_ok sf;
  in_replay : st_replay st = restored \/
    st_replay st = mkReplay false (rs_malformed restored) (rs_op restored) (rs_intent restored) (rs_raw restored);
  in_taken : present = true -> rs_pending (st_replay st) = false -> st_intentOp st <> 0;
  in_index : st_opIndex st = index /\ 0 < index;
  in_intentOp : 0 <= st_intentOp st <= index + 1;
  in_mutated : st_mutated st = true;
  in_restored : present = true -> sf_state sf = fileLive -> recorded sf raw;
  in_older : present = false -> st_intentOp st = 0 -> sf_state sf = fileLive -> older sf;
  in_earlier : st_intentOp st <> 0 -> st_intentOp st <> index + 1 -> sf_state sf <> fileLive;
  in_now : st_intentOp st = index + 1 -> rs_raw (st_replay st) = raw /\ present = true;
  in_first : sf_path sf = true -> n = 0%nat;
}.

Lemma inside_done index st sf n k : inside index st sf n -> (k <= 1)%nat -> between (index + 1) st sf (n + k).
Proof.
  intros [] Hk. constructor; try done. intros Hp. rewrite in_mutated0, (in_first0 Hp). lia.
Qed.

(** What passing the replay gate says of an operation with an effect. *)
Definition gated (index op : Z) (st : compoundState) : Prop :=
  rs_pending (st_replay st) = true ->
  rs_malformed restored = false /\ rs_op restored = index /\ exists i, rs_intent restored = Some i /\ op = intentOperation i.

Lemma invalidate_ok sf unlinked sf' state : file_ok sf -> invalidate sf unlinked = (sf', state) -> state <> filePoisoned ->
  file_ok sf' /\ sf_state sf' = state /\ sf_state sf' <> fileLive /\ sf_path sf' = false.
Proof.
  unfold invalidate, file_ok. intros Hok H Hne. destruct (sf_state sf) eqn:Hst; simpl in H; try (injection H as <- <-; by rewrite Hst).
  destruct unlinked; simpl in H; injection H as <- <-; [by simpl | done].
Qed.

Lemma gate_inside index st sf n op unlinked st' sf' : 0 < index -> between index st sf n -> recoveryEffect op = true ->
  replayGate (set_index index st) op = NFS4_OK -> mutationGate (set_index index st) sf op unlinked = (st', sf', NFS4_OK) ->
  inside index st' sf' n /\ gated index op st' /\ st_replay st' = st_replay st.
Proof.
  intros Hi Hb Hop Hr Hm.
  assert (Hgate : gated index op st).
  { intros Hp. unfold replayGate in Hr. simpl in Hr. rewrite Hp, Hop in Hr. cbn [negb] in Hr.
    destruct (bt_replay _ _ _ _ Hb) as [E|E]; rewrite E in Hr, Hp; [|done]. destruct (rs_malformed restored); [done|].
    destruct (index <? rs_op restored); [done|]. destruct (Z.eqb_spec index (rs_op restored)); [|done].
    destruct (rs_intent restored) as [i|]; [|done]. destruct (Z.eqb_spec op (intentOperation i)); [|done]. eauto. }
  unfold mutationGate in Hm. simpl in Hm. rewrite (bt_slot _ _ _ _ Hb), Hop in Hm. cbn [negb] in Hm. destruct Hb.
  destruct (st_mutated st) eqn:Hmut; cbn [negb] in Hm.
  - unfold dropSessionFile in Hm. destruct (invalidate sf unlinked) as [sf1 state] eqn:Hinv.
    destruct (bool_decide (state = filePoisoned)) eqn:Hpo; [done|]. apply bool_decide_eq_false in Hpo. injection Hm as <- <-.
    destruct (invalidate_ok _ _ _ _ bt_file0 Hinv Hpo) as (Hok & Hs1 & Hs2 & Hs3).
    split; [|split; [exact Hgate | done]]. constructor; simpl; try done; try lia; congruence.
  - injection Hm as <- <-. split; [|split; [exact Hgate | done]].
    assert (Hz : st_intentOp st = 0) by (destruct (decide (st_intentOp st = 0)) as [|Hn]; [done | specialize (bt_mutated0 Hn); congruence]).
    constructor; simpl; try done; try lia; try congruence. intros Hp. specialize (bt_count0 Hp). lia.
Qed.

Lemma take_inside index st sf n op st' v : inside index st sf n -> gated index op st -> takeIntent st = (st', v) ->
  inside index st' sf n /\ rs_pending (st_replay st') = false /\
  match v with
  | Some i => rs_pending (st_replay st) = true /\ rs_intent restored = Some i /\ st_intentOp st' = index + 1
  | None => rs_pending (st_replay st) = false /\ st' = st
  end.
Proof.
  intros Hin Hg H. unfold takeIntent in H. destruct (in_index _ _ _ _ Hin) as [Hidx Hpos]. rewrite Hidx in H.
  destruct (rs_pending (st_replay st)) eqn:Hp; cbn [negb orb] in H; [|by injection H as <- <-].
  destruct (Hg Hp) as (Hmal & Hop & i & Hi & _).
  destruct (in_replay _ _ _ _ Hin) as [E|E]; rewrite E in H, Hp; [|done].
  rewrite Hmal, Hop, Z.eqb_refl in H. simpl in H. injection H as <- <-. split; [|by rewrite Hi].
  assert (Hpresent : present = true /\ rs_raw restored = raw).
  { unfold restored, newReplayState in Hp, Hmal |- *. destruct present; [|done]. simpl in *. split; [done|].
    destruct (decodeIntent raw) as [[o x]|e|]; [|done..]. by destruct (_ || _). }
  destruct Hpresent as [Hpr Hraw].
  destruct Hin. constructor; simpl; try done; try lia; try congruence.
  right. by rewrite Hmal, Hop, Hi.
Qed.

Lemma persist_inside index st sf n payload w unlinked st' sf' status : inside index st sf n -> rs_pending (st_replay st) = false ->
  persistIntent st sf payload w unlinked = (st', sf', status) ->
  (forall k, (k <= 1)%nat -> between (index + 1) st' sf' (n + k)) /\ st_opIndex st' = index /\
  (status = NFS4_OK -> (sf_path sf' = false \/ recorded sf' payload) /\ (st_intentOp st = index + 1 -> payload = raw)).
Proof.
  intros Hin Hp H. destruct (in_index _ _ _ _ Hin) as [Hidx Hpos]. unfold persistIntent in H. rewrite (in_slot _ _ _ _ Hin), Hidx in H.
  destruct (negb (st_intentOp st =? 0) && (st_intentOp st =? index + 1)) eqn:Hc.
  - apply andb_true_iff in Hc as [_ Hc]. apply Z.eqb_eq in Hc. destruct (in_now _ _ _ _ Hin Hc) as [Hraw Hpr]. rewrite Hraw in H.
    destruct (bool_decide (payload = raw)) eqn:Hpl; cbn [negb] in H; [|injection H as <- <- <-; split; [intros; by apply inside_done | by split]].
    apply bool_decide_eq_true in Hpl as ->. unfold permits in H. pose proof (in_file _ _ _ _ Hin) as Hok. unfold file_ok in Hok.
    destruct (bool_decide (sf_state sf = filePoisoned)) eqn:Hpo; cbn [negb] in H; injection H as <- <- <-;
      (split; [intros; by apply inside_done|]; split; [done|]); [done|].
    apply bool_decide_eq_false in Hpo. intros _. split; [|done]. destruct (sf_state sf) eqn:Hst; try (by left). right. by apply (in_restored _ _ _ _ Hin).
  - assert (Hnow : st_intentOp st <> index + 1).
    { intros E. rewrite E, Z.eqb_refl, andb_true_r in Hc. apply negb_false_iff, Z.eqb_eq in Hc. lia. }
    destruct (writeRecord sf _ _ w unlinked) as [sf1 written] eqn:Hw.
    assert (Hold : sf_state sf = fileLive -> older sf).
    { intros Hl. destruct (decide (st_intentOp st = 0)) as [Hz|Hz]; [|by destruct (in_earlier _ _ _ _ Hin Hz Hnow)].
      destruct present eqn:Hpr; [by destruct (in_taken _ _ _ _ Hin Hpr Hp)|]. by apply (in_older _ _ _ _ Hin). }
    destruct (write_intent _ _ _ _ _ _ (in_file _ _ _ _ Hin) Hold Hw) as (Hok' & Hpath & Hsame & Hnw & Hwr).
    assert (Hlive : present = true -> sf1 = sf /\ sf_state sf <> fileLive).
    { intros Hpr. assert (sf_state sf <> fileLive); [|auto]. intros Hl. destruct (decide (st_intentOp st = 0)) as [Hz|Hz];
        [by destruct (in_taken _ _ _ _ Hin Hpr Hp) | by destruct (in_earlier _ _ _ _ Hin Hz Hnow)]. }
    assert (Hres : present = true -> sf_state sf1 = fileLive -> recorded sf1 raw) by (intros Hpr; destruct (Hlive Hpr) as [-> ?]; done).
    assert (Hcount : forall k, (k <= 1)%nat -> sf_path sf1 = true -> (n + k <= 1)%nat).
    { intros k Hk Hp1. destruct (sf_path sf) eqn:Hp0; [rewrite (in_first _ _ _ _ Hin Hp0); lia | by rewrite Hpath in Hp1]. }
    destruct Hin. destruct written; cbn [negb] in H; injection H as <- <- <-.
    + split; [|split; [done|]]; [|intros _; split; [|done]].
      * intros k Hk. constructor; simpl; try done; try lia; try congruence. rewrite in_mutated0. auto.
      * destruct (Hwr eq_refl) as [Hnp Hrec]. unfold file_ok in Hok'. destruct (sf_state sf1); try (by left). right. auto.
    + split; [|by split]. intros k Hk. constructor; try done; try lia.
      * intros _ _ E. by rewrite (Hnw eq_refl) in E.
      * rewrite in_mutated0. auto.
Qed.

(** ** Operations *)

Definition effect_ok (index : Z) (e : effect) : Prop :=
  ef_index e = index /\ recoveryEffect (ef_op e) = true /\
  forall i, ef_intent e = Some i -> sf_path (ef_file e) = false \/ recorded (ef_file e) (encode_intent i index).

Definition op_post (index : Z) (n : nat) (r : op_result) : Prop :=
  let '(st, sf, _, oe) := r in
  between (index + 1) st sf (n + length (option_list oe)) /\ forall e, oe = Some e -> effect_ok index e.

(** The effect is that of the restored intent, which was not applied. *)
Definition rerun_ok (an : answers) (e : effect) : Prop :=
  (match rs_intent restored with
   | Some (IRename i) => an_decideEdge an = Found (rn_src i)
   | Some (IRemove i) => an_decideEdge an = Found (rm_edge i)
   | _ => False
   end) /\ exists i, ef_intent e = Some i /\ encode_intent i (ef_index e) = raw.

Lemma op_post_none index n st sf status : inside index st sf n -> op_post index n (st, sf, status, None).
Proof. intros H. split; [|done]. simpl. by apply inside_done; [|lia]. Qed.

Lemma protect_post index st sf n i an : inside index st sf n -> rs_pending (st_replay st) = false ->
  op_post index n (protect st sf i an) /\
  forall e, (protect st sf i an).2 = Some e -> ef_index e = index /\ ef_intent e = Some i /\ (st_intentOp st = index + 1 -> encode_intent i index = raw).
Proof.
  intros Hin Hp. unfold protect. destruct (in_index _ _ _ _ Hin) as [-> Hpos].
  destruct (persistIntent st sf _ _ _) as [[st' sf'] status] eqn:H.
  destruct (persist_inside _ _ _ _ _ _ _ _ _ _ Hin Hp H) as (Hb & Hidx & Hok).
  destruct (Z.eqb_spec status NFS4_OK) as [Hs|Hs]; cbn [negb]; [|split; [split; [apply Hb; simpl; lia | done] | done]].
  destruct (an_guard an); cbn [negb]; [|split; [split; [apply Hb; simpl; lia | done] | done]].
  destruct (Hok Hs) as [Hrec Hraw]. split; [split; [apply Hb; simpl; lia|]|]; intros e [= <-]; simpl; [|by rewrite Hidx].
  split; [done|]. split; [by destruct i|]. by intros ? [= <-].
Qed.

Lemma create_post index st sf n i an : inside index st sf n -> rs_pending (st_replay st) = false ->
  op_post index n (create_object st sf i an) /\ forall e, (create_object st sf i an).2 = Some e -> st_intentOp st = index + 1 -> ef_index e = index.
Proof.
  intros Hin Hp. unfold create_object. destruct (in_index _ _ _ _ Hin) as [-> Hpos].
  destruct (persistIntent st sf _ _ _) as [[st' sf'] status] eqn:H.
  destruct (persist_inside _ _ _ _ _ _ _ _ _ _ Hin Hp H) as (Hb & Hidx & Hok).
  destruct (Z.eqb_spec status NFS4_OK) as [Hs|Hs]; cbn [negb]; [|split; [split; [apply Hb; simpl; lia | done] | done]].
  destruct (Hok Hs) as [Hrec _]. split; [split|]; [|intros e [= <-]; simpl..]; [|split; [done|]; split; [by destruct i|]; by intros ? [= <-] | done].
  specialize (Hb 1%nat ltac:(lia)). destruct (an_effect an =? NFS4_OK); [|exact Hb]. by destruct Hb.
Qed.

Lemma decide_rename_inside index st sf n op srcDir oldName dstDir newName edge cur st' verdict status :
  inside index st sf n -> gated index op st ->
  decideRenameReplay st srcDir oldName dstDir newName edge cur = (st', verdict, status) ->
  inside index st' sf n /\ (verdict = replayNone -> rs_pending (st_replay st') = false /\
    (rs_pending (st_replay st) = true -> st_intentOp st' = index + 1 /\ exists i, rs_intent restored = Some (IRename i) /\ edge = Found (rn_src i))).
Proof.
  intros Hin Hg H. unfold decideRenameReplay in H. destruct (takeIntent st) as [st1 v] eqn:Ht.
  destruct (take_inside _ _ _ _ _ _ _ Hin Hg Ht) as (Hin' & Hp' & Hv). destruct v as [[i|i|i]|].
  - destruct Hv as (_ & Hi & Ho). destruct (negb _); [by injection H as <- <- <-|].
    destruct edge as [e| |s]; [destruct (bool_decide (e = rn_src i)) eqn:He|..]; try (repeat case_match; by injection H as <- <- <-).
    injection H as <- <- <-. apply bool_decide_eq_true in He as ->. split; [done|]. intros _. split; [done|]. intros _. split; [done|]. by exists i.
  - by injection H as <- <- <-.
  - by injection H as <- <- <-.
  - injection H as <- <- <-. destruct Hv as [Hpf ->]. split; [done|]. intros _. split; [done|]. congruence.
Qed.

Lemma decide_remove_inside index st sf n op dir name edge st' verdict status :
  inside index st sf n -> gated index op st -> decideRemoveReplay st dir name edge = (st', verdict, status) ->
  inside index st' sf n /\ (verdict = replayNone -> rs_pending (st_replay st') = false /\
    (rs_pending (st_replay st) = true -> st_intentOp st' = index + 1 /\ exists i, rs_intent restored = Some (IRemove i) /\ edge = Found (rm_edge i))).
Proof.
  intros Hin Hg H. unfold decideRemoveReplay in H. destruct (takeIntent st) as [st1 v] eqn:Ht.
  destruct (take_inside _ _ _ _ _ _ _ Hin Hg Ht) as (Hin' & Hp' & Hv). destruct v as [[i|i|i]|].
  - by injection H as <- <- <-.
  - destruct Hv as (_ & Hi & Ho). destruct (negb _); [by injection H as <- <- <-|].
    destruct edge as [e| |s]; [destruct (bool_decide (e = rm_edge i)) eqn:He|..]; injection H as <- <- <-; try done.
    apply bool_decide_eq_true in He as ->. split; [done|]. intros _. split; [done|]. intros _. split; [done|]. by exists i.
  - by injection H as <- <- <-.
  - injection H as <- <- <-. destruct Hv as [Hpf ->]. split; [done|]. intros _. split; [done|]. congruence.
Qed.

Lemma decide_create_inside index st sf n op st' verdict status :
  inside index st sf n -> gated index op st -> decideCreateReplay st = (st', verdict, status) ->
  inside index st' sf n /\ (verdict = replayNone -> rs_pending (st_replay st') = false /\ rs_pending (st_replay st) = false).
Proof.
  intros Hin Hg H. unfold decideCreateReplay in H. destruct (takeIntent st) as [st1 v] eqn:Ht.
  destruct (take_inside _ _ _ _ _ _ _ Hin Hg Ht) as (Hin' & Hp' & Hv). destruct v as [i|]; injection H as <- <- <-; [done|].
  destruct Hv as [Hpf ->]. done.
Qed.

(** What an operation inside the gates leaves. *)
Definition op_good (index : Z) (n : nat) (pending : bool) (an : answers) (r : op_result) : Prop :=
  op_post index n r /\ (pending = true -> forall e, r.2 = Some e -> rerun_ok an e).

Lemma op_good_none index n pending an st sf status : inside index st sf n -> op_good index n pending an (st, sf, status, None).
Proof. intros H. split; [by apply op_post_none | done]. Qed.

Lemma rename_good index st sf n oldName newName an : inside index st sf n -> gated index OP_RENAME st ->
  op_good index n (rs_pending (st_replay st)) an (opRename oldName newName st sf an).
Proof.
  intros Hin Hg. unfold opRename. pose proof (fun st status => op_good_none index n (rs_pending (st_replay st)) an st sf status) as Hnone.
  destruct (st_current st) as [cur|]; [|by apply Hnone]. destruct (st_saved st) as [saved|]; [|by apply Hnone].
  do 4 (destruct (negb _); [by apply Hnone|]).
  destruct (decideRenameReplay _ _ _ _ _ _ _) as [[st1 verdict] status] eqn:Hd.
  destruct (decide_rename_inside _ _ _ _ _ _ _ _ _ _ _ _ _ _ Hin Hg Hd) as [Hin1 Hv].
  pose proof (fun status => op_good_none index n (rs_pending (st_replay st)) an st1 sf status Hin1) as Hn1.
  destruct verdict; [|apply Hn1..]. destruct (Hv eq_refl) as [Hp Hre].
  destruct (_ && bool_decide _); [apply Hn1|]. do 2 (destruct (negb _); [apply Hn1|]). destruct (_ && _); [apply Hn1|]. destruct (negb _); [apply Hn1|].
  destruct (an_edge an) as [edge| |s]; [|apply Hn1..].
  assert (Hgood : forall i, op_good index n (rs_pending (st_replay st)) an (protect st1 sf i an)).
  { intros i. destruct (protect_post index st1 sf n i an Hin1 Hp) as [H1 H2]. split; [done|]. intros Hpend e He.
    destruct (H2 e He) as (He1 & He2 & He3). destruct (Hre Hpend) as (Ho & i0 & Hi0 & Hedge). unfold rerun_ok. rewrite Hi0. split; [done|].
    exists i. rewrite He1. auto. }
  destruct (an_dst an); [destruct (xorb _ _); [apply Hn1 | apply Hgood] | apply Hgood | apply Hn1].
Qed.

Lemma remove_good index st sf n name an : inside index st sf n -> gated index OP_REMOVE st ->
  op_good index n (rs_pending (st_replay st)) an (opRemove name st sf an).
Proof.
  intros Hin Hg. unfold opRemove. pose proof (fun status => op_good_none index n (rs_pending (st_replay st)) an st sf status Hin) as Hnone.
  destruct (st_current st) as [cur|]; [|apply Hnone]. do 2 (destruct (negb _); [apply Hnone|]).
  destruct (decideRemoveReplay _ _ _ _) as [[st1 verdict] status] eqn:Hd.
  destruct (decide_remove_inside _ _ _ _ _ _ _ _ _ _ _ Hin Hg Hd) as [Hin1 Hv].
  pose proof (fun status => op_good_none index n (rs_pending (st_replay st)) an st1 sf status Hin1) as Hn1.
  destruct verdict; [|apply Hn1..]. destruct (Hv eq_refl) as [Hp Hre]. do 2 (destruct (negb _); [apply Hn1|]).
  destruct (an_edge an) as [edge| |s]; [|apply Hn1..].
  destruct (protect_post index st1 sf n (IRemove (mkRemove cur name edge)) an Hin1 Hp) as [H1 H2]. split; [done|]. intros Hpend e He.
  destruct (H2 e He) as (He1 & He2 & He3). destruct (Hre Hpend) as (Ho & i0 & Hi0 & Hedge). unfold rerun_ok. rewrite Hi0. split; [done|].
  exists (IRemove (mkRemove cur name edge)). rewrite He1. auto.
Qed.

Lemma create_good index st sf n name objType target an : inside index st sf n -> gated index OP_CREATE st ->
  op_good index n (rs_pending (st_replay st)) an (opCreate name objType target st sf an).
Proof.
  intros Hin Hg. unfold opCreate. pose proof (fun status => op_good_none index n (rs_pending (st_replay st)) an st sf status Hin) as Hnone.
  destruct (st_current st) as [cur|]; [|apply Hnone]. do 2 (destruct (negb _); [apply Hnone|]).
  destruct (objType =? NF4REG); [apply Hnone|]. do 2 (destruct (negb _); [apply Hnone|]).
  destruct (decideCreateReplay _) as [[st1 verdict] status] eqn:Hd.
  destruct (decide_create_inside _ _ _ _ _ _ _ _ Hin Hg Hd) as [Hin1 Hv].
  pose proof (fun status => op_good_none index n (rs_pending (st_replay st)) an st1 sf status Hin1) as Hn1.
  destruct verdict; [|apply Hn1..]. destruct (Hv eq_refl) as [Hp1 Hp]. rewrite Hp in *. destruct (negb _); [apply Hn1|].
  destruct (an_sourceActive an); [apply Hn1|]. destruct (an_dst an); [apply Hn1| |apply Hn1].
  assert (Hgood : forall i, op_good index n false an (create_object st1 sf i an)) by (intros i; split; [by apply create_post | done]).
  destruct (objType =? NF4DIR); [apply Hgood|]. destruct (_ =? 0)%nat; [apply Hn1|]. destruct (_ <? _); [apply Hn1 | apply Hgood].
Qed.

Lemma operation_good index st sf n a an : inside index st sf n -> gated index (op_num a) st -> operation_ok a ->
  recoveryEffect (op_num a) = true -> op_good index n (rs_pending (st_replay st)) an (run_operation a st sf an).
Proof.
  intros Hin Hg Ha Hr. destruct a as [o w|name|name t target|id| | |name l|op]; cbn [run_operation op_num] in *;
    [by apply rename_good | by apply remove_good | by apply create_good | by vm_compute in Hr.. |].
  rewrite Hr. destruct (in_index _ _ _ _ Hin) as [Hidx _]. split.
  - split; [by apply inside_done; simpl|]. intros e [= <-]. by rewrite Hidx.
  - intros Hp. destruct (Hg Hp) as (_ & _ & i & _ & ->). destruct i; simpl in Ha; tauto.
Qed.

(** ** Compounds *)

Lemma between_weaken index st sf n st' : between index st sf n -> st_slot st' = st_slot st -> st_replay st' = st_replay st ->
  st_intentOp st' = st_intentOp st -> st_mutated st' = st_mutated st -> between (index + 1) st' sf n.
Proof. intros [] H1 H2 H3 H4. constructor; rewrite ?H1, ?H2, ?H3, ?H4; try done; lia. Qed.

(** An operation without an effect moves only the filehandles. *)
Lemma handles_only st sf an a st' sf' status e : recoveryEffect (op_num a) = false -> run_operation a st sf an = (st', sf', status, e) ->
  e = None /\ sf' = sf /\ st_slot st' = st_slot st /\ st_replay st' = st_replay st /\ st_intentOp st' = st_intentOp st /\ st_mutated st' = st_mutated st.
Proof.
  intros Hr H. destruct a as [o w|name|name t target|[id|]| | |name l|op]; cbn [run_operation op_num] in *; [by vm_compute in Hr..| | | | | |].
  - by injection H as <- <- <- <-.
  - by injection H as <- <- <- <-.
  - destruct (st_current st); by injection H as <- <- <- <-.
  - destruct (st_saved st); by injection H as <- <- <- <-.
  - destruct (st_current st); [|by injection H as <- <- <- <-]. do 2 (destruct (negb _); [by injection H as <- <- <- <-|]).
    destruct l; by injection H as <- <- <- <-.
  - rewrite Hr in H. by injection H as <- <- <- <-.
Qed.

(** A restored intent is still to be decided, or the compound is past it. *)
Definition progress (index : Z) (st : compoundState) : Prop :=
  present = true -> rs_pending (st_replay st) = true \/ rs_malformed restored = false /\ rs_op restored < index.

(** An effect of the operations from [index] on. *)
Definition effect_good (index : Z) (ops : list (operation * answers)) (e : effect) : Prop :=
  index <= ef_index e /\ effect_ok (ef_index e) e /\
  (present = true -> rs_malformed restored = false /\ rs_op restored <= ef_index e /\
    (ef_index e = rs_op restored -> exists a an, ops !! Z.to_nat (ef_index e - index) = Some (a, an) /\ rerun_ok an e)).

Lemma effect_good_later index x ops e : effect_good (index + 1) ops e -> effect_good index (x :: ops) e.
Proof.
  intros (H1 & H2 & H3). split; [lia|]. split; [done|]. intros Hp. destruct (H3 Hp) as (Hm & Ho & Hr). split_and!; [done..|]. intros E.
  destruct (Hr E) as (a & an & Hl & Hre). exists a, an. split; [|done].
  by replace (Z.to_nat (ef_index e - index)) with (S (Z.to_nat (ef_index e - (index + 1)))) by lia.
Qed.

Lemma between_stop index st sf n : between index st sf n -> between index (set_index index st) sf n.
Proof. intros []. by constructor. Qed.

(** A failed second mutation leaves the compound as it was. *)
Lemma gate_refused index st sf n op unlinked st' sf' status : between index st sf n ->
  mutationGate (set_index index st) sf op unlinked = (st', sf', status) -> status <> NFS4_OK -> between index st' sf' n.
Proof.
  intros Hb H Hs. unfold mutationGate, dropSessionFile in H. simpl in H. rewrite (bt_slot _ _ _ _ Hb) in H.
  destruct (negb _); [by injection H as <- <- <-|]. destruct (negb _); [by injection H as <- <- <-|].
  unfold invalidate in H. pose proof (bt_file _ _ _ _ Hb) as Hok. unfold file_ok in Hok.
  destruct (sf_state sf) eqn:Hst; simpl in H; try (injection H as <- <- <-; by try apply between_stop).
  destruct unlinked; simpl in H; injection H as <- <- <-; [done|]. destruct Hb, Hok. by constructor.
Qed.

Lemma run_good ops : forall index st sf n st' sf' log status, 0 < index -> between index st sf n -> progress index st ->
  Forall (fun p => operation_ok p.1) ops -> run_ops index ops st sf = (st', sf', log, status) ->
  (exists j, between j st' sf' (n + length log)) /\ Forall (effect_good index ops) log.
Proof.
  induction ops as [|[a an] ops IH]; intros index st sf n st' sf' log status Hpos Hb Hpr Hops H; simpl in H.
  { injection H as <- <- <- <-. rewrite Nat.add_0_r. eauto. }
  inversion Hops as [|? ? Ha Hops']; subst. simpl in Ha.
  destruct (negb (an_admitted an =? NFS4_OK)); [injection H as <- <- <- <-; rewrite Nat.add_0_r; eauto|].
  destruct (Z.eqb_spec (replayGate (set_index index st) (op_num a)) NFS4_OK) as [Hrg|_]; cbn [negb] in H;
    [|injection H as <- <- <- <-; rewrite Nat.add_0_r; eauto using between_stop].
  destruct (mutationGate (set_index index st) sf (op_num a) (an_gateUnlink an)) as [[st1 sf1] s1] eqn:Hmg.
  destruct (Z.eqb_spec s1 NFS4_OK) as [->|Hs1]; cbn [negb] in H; [|injection H as <- <- <- <-; rewrite Nat.add_0_r; eauto using gate_refused].
  destruct (run_operation a st1 sf1 an) as [[[st2 sf2] s2] e] eqn:Hrun.
  assert (Hstep : between (index + 1) st2 sf2 (n + length (option_list e)) /\ progress (index + 1) st2 /\
    Forall (effect_good index ((a, an) :: ops)) (option_list e)).
  { destruct (recoveryEffect (op_num a)) eqn:Hrec.
    - destruct (gate_inside _ _ _ _ _ _ _ _ Hpos Hb Hrec Hrg Hmg) as (Hin & Hg & Hsame).
      pose proof (operation_good _ _ _ _ _ an Hin Hg Ha Hrec) as [Hpost Hre]. rewrite Hrun in Hpost, Hre. destruct Hpost as [Hb2 Heff].
      assert (Hdone : present = true -> rs_malformed restored = false /\ rs_op restored < index + 1).
      { intros Hp. destruct (rs_pending (st_replay st1)) eqn:Hp1; [destruct (Hg Hp1) as (? & ? & _); split; [done | lia]|].
        destruct (Hpr Hp) as [Hp0|[? ?]]; [congruence | split; [done | lia]]. }
      split; [done|]. split; [by right; apply Hdone|]. destruct e as [e|]; [|done]. apply Forall_singleton.
      destruct (Heff e eq_refl) as (Hidx & Hop & Hi). split; [lia|]. split; [by rewrite Hidx|]. intros Hp. destruct (Hdone Hp) as [Hm Hlt].
      split_and!; [done | lia|]. intros E. exists a, an. rewrite Hidx, Z.sub_diag. split; [done|]. apply Hre; [|done].
      destruct (Hpr Hp) as [Hp0|[_ ?]]; [congruence | lia].
    - unfold mutationGate in Hmg. rewrite Hrec in Hmg. assert (st1 = set_index index st /\ sf1 = sf) as [-> ->].
      { destruct (st_slot _); by injection Hmg as <- <-. }
      destruct (handles_only _ _ _ _ _ _ _ _ Hrec Hrun) as (-> & -> & H1 & H2 & H3 & H4). rewrite Nat.add_0_r.
      split; [by apply (between_weaken index (set_index index st)); [apply between_stop|..]|]. split; [|done].
      intros Hp. rewrite H2. destruct (Hpr Hp) as [?|[? ?]]; [by left | right; split; [done | lia]]. }
  destruct Hstep as (Hb2 & Hpr2 & Hlog). destruct (negb (an_fits an)); [injection H as <- <- <- <-; eauto|]. destruct (negb (s2 =? NFS4_OK)); [injection H as <- <- <- <-; eauto|].
  destruct (run_ops (index + 1) ops st2 sf2) as [[[st3 sf3] log3] s3] eqn:Hrest. injection H as <- <- <- <-.
  destruct (IH (index + 1) _ _ _ _ _ _ _ ltac:(lia) Hb2 Hpr2 Hops' Hrest) as [[j Hj] Hlater]. rewrite length_app, Nat.add_assoc. split; [eauto|].
  apply Forall_app. split; [done|]. eapply Forall_impl; [exact Hlater|]. intros. by apply effect_good_later.
Qed.

End compound.

(** The session file as SEQUENCE finds it: a restored intent is on the slot,
    and otherwise the slot's record is that of an earlier request. *)
Record file_start (sl : slotIdentity) (present : bool) (raw : list byte) (sf : sessionFile) : Prop := {
  fs_seq : is_u32 (si_seq sl);
  fs_digest : length (si_digest sl) = 32%nat;
  fs_file : file_ok sl sf;
  fs_restored : present = true -> sf_state sf = fileLive -> recorded sl sf raw;
  fs_older : present = false -> sf_state sf = fileLive -> older sl sf;
}.

Lemma restored_pending raw : rs_pending (newReplayState true raw) = true.
Proof. unfold newReplayState. cbn [negb]. destruct (decodeIntent raw) as [[o i]| |]; [|done..]. by destruct (_ || _). Qed.

Lemma start_between sl present raw sf : file_start sl present raw sf ->
  between sl present raw 1 (sequenced sl present raw) sf 0 /\ progress present raw 1 (sequenced sl present raw).
Proof.
  intros []. split; [constructor; cbn [sequenced st_slot st_replay st_intentOp st_mutated]; try (done || lia || auto) |].
  - intros ->. by rewrite restored_pending.
  - intros ->. left. apply restored_pending.
Qed.

Section demo.

Definition demo_dir : Z := 2 ^ 61 + 7.
Definition demo_edge : VfsEdge := mkVfsEdge 11 12.
Definition demo_slot : slotIdentity := mkSlotIdentity 0 5 (replicate 32 Byte.x07) (mkUser 1 0 0 []).
Definition demo_answers : answers :=
  mkAnswers NFS4_OK true (Found demo_edge) NotExist NFS4_OK false NFS4_OK NFS4_OK (Found demo_edge) NotExist Written true true NFS4_OK 0 true.
Definition demo_header : Header := mkHeader 2 160 [Byte.x01].
Definition demo_file : File := match Create demo_header true with Ok f => f | _ => mkFile demo_header [] [] end.
Definition demo_intent : intent := IRemove (mkRemove demo_dir [Byte.x61] demo_edge).
Definition demo_raw : list byte := encode_intent demo_intent 2.
Definition demo_ops : list (operation * answers) :=
  [(APutfh (Some demo_dir), demo_answers); (ARemove [Byte.x61], demo_answers); (ARemove [Byte.x62], demo_answers)].

(** The file as a process finds it that stopped between the intent and the reply. *)
Definition demo_intent_file : sessionFile :=
  (writeRecord (attach demo_file noFile) 0 (intent_record demo_slot demo_raw) Written true).1.

Lemma demo_start : file_start demo_slot false [] (attach demo_file noFile).
Proof.
  assert (HI : Inv demo_file /\ file_header demo_file = demo_header).
  { apply Create_inv; [constructor; simpl; unfold RecordOverhead, recordFixedSize, MaxSessionRecord, headerAreaSize, headerFixedSize; lia|].
    by vm_compute. }
  destruct HI as [HI Hh]. constructor; try done.
  - split; [done|]. exists demo_file. split_and!; [done..|]. by rewrite Hh.
  - intros _ _ f old [= <-] H. by vm_compute in H.
Qed.

Lemma demo_restart : file_start demo_slot true demo_raw demo_intent_file.
Proof.
  destruct demo_start as [H1 H2 H3 _ H4]. unfold demo_intent_file.
  destruct (writeRecord _ _ _ _ _) as [sf' written] eqn:Hw.
  destruct (write_intent demo_slot H1 H2 _ _ _ _ _ _ H3 (H4 eq_refl) Hw) as (Hok & _ & _ & _ & Hrec).
  constructor; try done. intros _. apply Hrec.
  assert (E : (writeRecord (attach demo_file noFile) 0 (intent_record demo_slot demo_raw) Written true).2 = true) by (by vm_compute). by rewrite Hw in E.
Qed.

Lemma demo_ops_ok : Forall (fun p : operation * answers => operation_ok p.1) demo_ops.
Proof. repeat constructor. Qed.

End demo.

(** * Properties *)

(** C11: no effect without its record. When a RENAME, REMOVE or CREATE changes
    the file system, its intent is already the slot's record, so a process that
    reopens the session file there finds it and can decide the retry; or the
    session file is off the disk and the session does not outlive the process.
    And a compound that leaves the session file on disk has let at most one
    operation change the file system. Whatever the staging disk and TernFS
    answer. *)
Theorem intent_before_effect (sl : slotIdentity) (present : bool) (raw : list byte) (sf : sessionFile) (ops : list (operation * answers))
    (st' : compoundState) (sf' : sessionFile) (log : list effect) (status : Z) :
  file_start sl present raw sf -> Forall (fun p => operation_ok p.1) ops ->
  run_ops 1 ops (sequenced sl present raw) sf = (st', sf', log, status) ->
  (forall e i, e ∈ log -> ef_intent e = Some i ->
     sf_path (ef_file e) = false \/ recorded sl (ef_file e) (encode_intent i (ef_index e))) /\
  (sf_path sf' = true -> (length log <= 1)%nat).
Proof.
  intros Hs Hops H. destruct (start_between _ _ _ _ Hs) as [Hb Hp]. destruct Hs.
  destruct (run_good sl present raw fs_seq0 fs_digest0 ops 1 _ _ _ _ _ _ _ ltac:(lia) Hb Hp Hops H) as [[j Hj] Hlog].
  split.
  - intros e i He Hi. rewrite Forall_forall in Hlog. destruct (Hlog e He) as (_ & (_ & _ & Hr) & _). auto.
  - intros Hpath. pose proof (bt_count _ _ _ _ _ _ _ Hj Hpath) as Hc. simpl in Hc. destruct (st_mutated st'); lia.
Qed.

Lemma intent_before_effect_witness :
  let '(_, sf', log, status) := run_ops 1 demo_ops (sequenced demo_slot false []) (attach demo_file noFile) in
  status = NFS4_OK /\ length log = 2%nat /\ sf_path sf' = false /\
  forall e i, e ∈ log -> ef_intent e = Some i -> sf_path (ef_file e) = false \/ recorded demo_slot (ef_file e) (encode_intent i (ef_index e)).
Proof.
  assert (E : let '(_, sf', log, status) := run_ops 1 demo_ops (sequenced demo_slot false []) (attach demo_file noFile) in
    status = NFS4_OK /\ length log = 2%nat /\ sf_path sf' = false) by (by vm_compute).
  pose proof (intent_before_effect demo_slot false [] (attach demo_file noFile) demo_ops) as H.
  destruct (run_ops _ _ _ _) as [[[st' sf'] log] status]. destruct E as (E1 & E2 & E3). split_and!; [done..|].
  exact (proj1 (H st' sf' log status demo_start demo_ops_ok eq_refl)).
Defined.

(** C12: a retry repeats only what did not happen. When a restarted gateway runs
    a request again whose intent was left on the slot, the request changes
    nothing if the intent cannot be read, nothing before the operation the
    intent belongs to, and that operation runs again only as the same record
    and only if the edge it recorded is still in place; a CREATE with an intent
    is not repeated. *)
Theorem retry_repeats_only_unapplied (sl : slotIdentity) (raw : list byte) (sf : sessionFile) (ops : list (operation * answers))
    (st' : compoundState) (sf' : sessionFile) (log : list effect) (status : Z) (e : effect) :
  file_start sl true raw sf -> Forall (fun p => operation_ok p.1) ops ->
  run_ops 1 ops (sequenced sl true raw) sf = (st', sf', log, status) -> e ∈ log ->
  exists op i0, decodeIntent raw = Ok (op, i0) /\ op <= ef_index e /\
    (ef_index e = op -> exists a an i, ops !! Z.to_nat (op - 1) = Some (a, an) /\ ef_intent e = Some i /\ encode_intent i op = raw /\
      match i0 with
      | IRename r => an_decideEdge an = Found (rn_src r)
      | IRemove r => an_decideEdge an = Found (rm_edge r)
      | ICreate _ => False
      end).
Proof.
  intros Hs Hops H He. destruct (start_between _ _ _ _ Hs) as [Hb Hp]. destruct Hs.
  destruct (run_good sl true raw fs_seq0 fs_digest0 ops 1 _ _ _ _ _ _ _ ltac:(lia) Hb Hp Hops H) as [_ Hlog].
  rewrite Forall_forall in Hlog. destruct (Hlog e He) as (_ & _ & Hr). destruct (Hr eq_refl) as (Hm & Hle & Hre).
  unfold rerun_ok, restored, newReplayState in *. cbn [negb] in *. destruct (decodeIntent raw) as [[op i0]| |]; [|done..].
  destruct (_ || _); [done|]. cbn [rs_malformed rs_op rs_intent] in *.
  exists op, i0. split_and!; [done..|]. intros E. destruct (Hre E) as (a & an & Hl & Hedge & i & Hi & Henc). exists a, an, i.
  rewrite <- E. split_and!; [done..|]. by destruct i0.
Qed.

Lemma retry_repeats_only_unapplied_witness :
  exists st' sf' e e2, run_ops 1 demo_ops (sequenced demo_slot true demo_raw) demo_intent_file = (st', sf', [e; e2], NFS4_OK) /\
    exists op i0, decodeIntent demo_raw = Ok (op, i0) /\ op <= ef_index e /\
      (ef_index e = op -> exists a an i, demo_ops !! Z.to_nat (op - 1) = Some (a, an) /\ ef_intent e = Some i /\ encode_intent i op = demo_raw /\
        match i0 with
        | IRename r => an_decideEdge an = Found (rn_src r)
        | IRemove r => an_decideEdge an = Found (rm_edge r)
        | ICreate _ => False
        end).
Proof.
  assert (E : let '(_, _, log, status) := run_ops 1 demo_ops (sequenced demo_slot true demo_raw) demo_intent_file in
    status = NFS4_OK /\ length log = 2%nat) by (by vm_compute).
  pose proof (fun st' sf' log status e => retry_repeats_only_unapplied demo_slot demo_raw demo_intent_file demo_ops st' sf' log status e demo_restart demo_ops_ok) as H.
  destruct (run_ops _ _ _ _) as [[[st' sf'] log] status]. destruct E as [-> E]. destruct log as [|e [|e2 [|]]]; try done.
  exists st', sf', e, e2. split; [done|]. exact (H st' sf' [e; e2] NFS4_OK e eq_refl ltac:(left)).
Defined.
