(* ===== verification/SlotTable.v ===== *)
(** The slots of a session: SEQUENCE admission and the saved replies of
    src/go/nfsd/internal/server/ops_session.go, and the restoring of a session
    at startup of session_persist.go.

    A slot runs one request at a time and keeps the reply of the last one, in
    memory and in the session file; after a restart the slots are rebuilt from
    the file. The abstract view is [slot_spec]: what a slot is running and the
    last thing it durably knows, the reply of a request or the intent of one.
    The memory of the saved replies is accounted in ReplyCache.v; here a slot
    has a buffer or not, and the grants of the resources are parameters of the
    admission. *)

From Stdlib Require Import ZArith Lia.
From stdpp Require Import base numbers option relations list.
From S2P Require Import Prelude SessionFile ReplayRecord ReplayGate.

Definition NFS4ERR_DELAY : Z := 10008.
Definition NFS4ERR_RESOURCE : Z := 10018.
Definition NFS4ERR_BADSESSION : Z := 10052.
Definition NFS4ERR_BADSLOT : Z := 10053.
Definition NFS4ERR_SEQ_MISORDERED : Z := 10063.
Definition NFS4ERR_REQ_TOO_BIG : Z := 10065.
Definition NFS4ERR_REP_TOO_BIG_TO_CACHE : Z := 10067.
Definition NFS4ERR_RETRY_UNCACHED_REP : Z := 10068.
Definition NFS4ERR_TOO_MANY_OPS : Z := 10070.
Definition NFS4ERR_SEQ_FALSE_RETRY : Z := 10076.
Definition NFS4ERR_BAD_HIGH_SLOT : Z := 10077.

(** * Data *)

(** [sl_buffer] is whether the slot holds a buffer; [sl_reply] is nil until the
    reply is stored in it. *)
Record sessionSlot := mkSessionSlot {
  sl_seq : Z;
  sl_inUse : bool;
  sl_cached : bool;
  sl_reply : option (list byte);
  sl_occupied : bool;
  sl_digest : list byte;
  sl_user : effectiveUser;
  sl_buffer : bool;
  sl_restored : bool;
  sl_hasIntent : bool;
  sl_intent : list byte;
}.

Definition noUser : effectiveUser := mkUser 0 0 0 [].
Definition emptySlot : sessionSlot := mkSessionSlot 0 false false None false (replicate 32 zero_byte) noUser false false false [].

Record session := mkSession {
  se_slots : list sessionSlot;
  se_maxOps : Z;
  se_maxReq : Z;
  se_maxResp : Z;
  se_maxCached : Z;
  se_destroyed : bool;
  se_fatal : bool;
  se_file : sessionFile;
}.

Definition set_slots (slots : list sessionSlot) (sess : session) : session :=
  mkSession slots (se_maxOps sess) (se_maxReq sess) (se_maxResp sess) (se_maxCached sess) (se_destroyed sess) (se_fatal sess) (se_file sess).
Definition set_file (sf : sessionFile) (sess : session) : session :=
  mkSession (se_slots sess) (se_maxOps sess) (se_maxReq sess) (se_maxResp sess) (se_maxCached sess) (se_destroyed sess) (se_fatal sess) sf.

Definition dead (sess : session) : bool := se_destroyed sess || se_fatal sess.

Record SEQUENCE4args := mkSequence { sa_sequenceid : Z; sa_slotid : nat; sa_highest_slotid : Z; sa_cachethis : bool }.

Record sequenceAdmission := mkAdmission {
  ad_digest : list byte;
  ad_user : effectiveUser;
  ad_requestBytes : Z;
  ad_operations : Z;
  ad_sequenceReplyBytes : Z;
  ad_uncachedBytes : Z;
}.

(** What the rest of the server grants: the session is known, the slot's mutex
    is free, the hold of the incarnation, the use of the session, the
    association of the connection, the reply buffer, the lease gate again, and
    whether the session was retired meanwhile. *)
Record grants := mkGrants {
  gr_known : bool;
  gr_tryLock : bool;
  gr_hold : Z;
  gr_use : bool;
  gr_association : bool;
  gr_reply : bool;
  gr_gate : Z;
  gr_retired : bool;
}.

Inductive resource := Hold | Use | Association | Reply.
Inductive resource_event := Take (r : resource) | Release (r : resource) | Commit (r : resource).

(** [q_replay] is the saved reply of a retransmission; [q_slot] is set for a
    request that runs. *)
Record sequenceResult := mkResult {
  q_status : Z;
  q_slot : option nat;
  q_seq : Z;
  q_replay : option (list byte);
  q_cache : bool;
  q_budget : Z;
  q_hasIntent : bool;
  q_intent : list byte;
}.

Definition refused (status : Z) : sequenceResult := mkResult status None 0 None false 0 false [].

(** * The identity of a request *)

Definition OP_SEQUENCE : Z := 53.
Definition sequenceArgs : Z := 16 + 4 + 4 + 4 + 4.

(** The bytes [replayDigest] hashes. *)
Definition replay_input (body : list byte) : outcome unit (list byte) :=
  if (4 <=? length body)%nat then
    let! tagLen := be_at 4 body 0 in
    let argsOff := 4 + pad4 tagLen + 4 + 4 + 4 in
    if (argsOff <=? Z.of_nat (length body)) && (argsOff + sequenceArgs <=? Z.of_nat (length body)) then
      let! opnum := be_at 4 body (Z.to_nat (argsOff - 4)) in
      if opnum =? OP_SEQUENCE then
        let! before := sub body 0 (Z.to_nat argsOff) in
        let! after := sub body (Z.to_nat (argsOff + sequenceArgs)) (length body) in
        Ok (before ++ after)
      else Ok body
    else Ok body
  else Ok body.

Definition replayDigest (sha256 : list byte -> list byte) (body : list byte) : outcome unit (list byte) :=
  let! input := replay_input body in Ok (sha256 input).

(** * Admission *)

Inductive request_kind := NewRequest | Retransmission | Rerun.

(** The switch on the sequence id: the kind of request, or the status that
    refuses it. *)
Definition sequence_kind (slot : sessionSlot) (seq : Z) (a : sequenceAdmission) : Z + request_kind :=
  if sl_occupied slot && (seq =? sl_seq slot) then
    if sl_inUse slot then inl NFS4ERR_DELAY
    else if negb (bool_decide (sl_digest slot = ad_digest a)) || negb (bool_decide (sl_user slot = ad_user a)) then inl NFS4ERR_SEQ_FALSE_RETRY
    else if negb (sl_buffer slot) then if negb (sl_restored slot) then inl NFS4ERR_BADSESSION else inr Rerun
    else inr Retransmission
  else if negb (sl_inUse slot) && (sl_occupied slot && (seq =? wrap32 (sl_seq slot + 1)) || negb (sl_occupied slot) && (seq =? 1)) then inr NewRequest
  else if negb (sl_inUse slot) && sl_restored slot && SeqAfter seq (sl_seq slot) then inr NewRequest
  else inl NFS4ERR_SEQ_MISORDERED.

(** The deferred undo of an admission that is not committed. *)
Definition unwind (trace : list resource_event) (undo : list resource) (status : Z) : list resource_event * Z :=
  (trace ++ map Release undo, status).

(** The resources taken in turn; [undo] has the last one first. *)
Definition take_resources (kind : request_kind) (g : grants) : list resource_event * Z :=
  if negb (gr_hold g =? NFS4_OK) then unwind [] [] (gr_hold g)
  else
    let '(trace, undo) := ([Take Hold], [Hold]) in
    if negb (gr_use g) then unwind trace undo NFS4ERR_BADSESSION
    else
      let '(trace, undo) := (trace ++ [Take Use], Use :: undo) in
      if negb (gr_association g) then unwind trace undo NFS4ERR_RESOURCE
      else
        let '(trace, undo) := (trace ++ [Take Association], Association :: undo) in
        let wants := match kind with Retransmission => false | _ => true end in
        if wants && negb (gr_reply g) then unwind trace undo NFS4ERR_RESOURCE
        else
          let '(trace, undo) := if wants then (trace ++ [Take Reply], Reply :: undo) else (trace, undo) in
          if negb (gr_gate g =? NFS4_OK) then unwind trace undo (gr_gate g)
          else if gr_retired g then unwind trace undo NFS4ERR_BADSESSION
          else (trace ++ [Commit Association; Commit Hold], NFS4_OK).

Definition claim_slot (seq : Z) (a : sequenceAdmission) : sessionSlot :=
  mkSessionSlot seq true false None true (ad_digest a) (ad_user a) true false false [].

Definition startSequence (sess : session) (args : SEQUENCE4args) (a : sequenceAdmission) (g : grants) :
    session * sequenceResult * list resource_event :=
  let slots := Z.of_nat (length (se_slots sess)) in
  let least := Z.max (ad_sequenceReplyBytes a) (ad_uncachedBytes a) in
  if negb (gr_known g) || se_destroyed sess || se_fatal sess then (sess, refused NFS4ERR_BADSESSION, [])
  else if slots <=? Z.of_nat (sa_slotid args) then (sess, refused NFS4ERR_BADSLOT, [])
  else if (sa_highest_slotid args <? Z.of_nat (sa_slotid args)) || (slots <=? sa_highest_slotid args) then (sess, refused NFS4ERR_BAD_HIGH_SLOT, [])
  else if Z.min (se_maxOps sess) maxCompoundOperations <? ad_operations a then (sess, refused NFS4ERR_TOO_MANY_OPS, [])
  else if se_maxReq sess <? ad_requestBytes a then (sess, refused NFS4ERR_REQ_TOO_BIG, [])
  else if se_maxResp sess <? least then (sess, refused NFS4ERR_REP_TOO_BIG, [])
  else if sa_cachethis args && (se_maxCached sess <? least) then (sess, refused NFS4ERR_REP_TOO_BIG_TO_CACHE, [])
  else
    match se_slots sess !! sa_slotid args with
    | None => (sess, refused NFS4ERR_BADSLOT, [])
    | Some slot =>
      let seq := sa_sequenceid args in
      if negb (gr_tryLock g) then (sess, refused NFS4ERR_DELAY, [])
      else
        match sequence_kind slot seq a with
        | inl status => (sess, refused status, [])
        | inr kind =>
          let '(trace, status) := take_resources kind g in
          if negb (status =? NFS4_OK) then (sess, refused status, trace)
          else
            match kind with
            | Retransmission => (sess, mkResult NFS4_OK None 0 (sl_reply slot) false 0 false [], trace ++ [Release Use])
            | _ =>
              let hasIntent := match kind with Rerun => sl_hasIntent slot | _ => false end in
              (set_slots (<[sa_slotid args := claim_slot seq a]> (se_slots sess)) sess,
               mkResult NFS4_OK (Some (sa_slotid args)) seq None (sa_cachethis args)
                 (if sa_cachethis args then Z.min (se_maxResp sess) (se_maxCached sess) else se_maxResp sess)
                 hasIntent (if hasIntent then sl_intent slot else []),
               trace)
            end
        end
    end.

(** * Replies *)

Definition OP_ACCESS : Z := 3.
Definition OP_REMOVEXATTR : Z := 75.
Definition OP_ILLEGAL : Z := 10044.

Definition knownOperation (op : Z) : bool := (OP_ACCESS <=? op) && (op <=? OP_REMOVEXATTR).
Definition wireOperation (op : Z) : Z := if negb (knownOperation op) then OP_ILLEGAL else op.
Definition resultErrorSize (op : Z) : Z := if op =? OP_SETATTR then 12 else 8.

Definition appendResultError (body : list byte) (op status : Z) : list byte :=
  let op := wireOperation op in
  body ++ be_bytes 4 op ++ be_bytes 4 status ++ (if op =? OP_SETATTR then be_bytes 4 0 else []).

(** SETCLIENTID, SETCLIENTID_CONFIRM, OPEN_CONFIRM, RELEASE_LOCKOWNER, RENEW. *)
Definition mandatoryUnsupported (op : Z) : bool := bool_decide (op ∈ [35; 36; 20; 39; 30]).

(** binary.BigEndian.PutUint32 on a slice. *)
Definition put_u32 (b : list byte) (off : nat) (v : Z) : outcome unit (list byte) :=
  if (off + 4 <=? length b)%nat then Ok (take off b ++ be_bytes 4 v ++ drop (off + 4) b) else Panic.

(** What [finish] saves of a reply it was not asked to cache: SEQUENCE and the
    error of the next operation. *)
Definition uncached_reply (reply : list byte) : outcome unit (list byte) :=
  let! tagLen := be_at 4 reply 4 in
  let countOff := Z.to_nat (8 + pad4 tagLen) in
  let seqEnd := (countOff + 4 + 44)%nat in
  let! count := be_at 4 reply countOff in
  let! saved := sub reply 0 seqEnd in
  let! saved := put_u32 saved countOff 1 in
  if 1 <? count then
    let! op := be_at 4 reply seqEnd in
    let! status :=
      if (op =? OP_ILLEGAL) || mandatoryUnsupported op then be_at 4 reply (seqEnd + 4) else Ok NFS4ERR_RETRY_UNCACHED_REP in
    let! saved := put_u32 saved 0 status in
    let! saved := put_u32 saved countOff 2 in
    Ok (appendResultError saved op status)
  else Ok saved.

Definition saved_reply (cache : bool) (reply : list byte) : outcome unit (list byte) :=
  if cache then Ok reply else uncached_reply reply.

(** A slot of a retired session lets go of its reply. *)
Definition drained (slot : sessionSlot) : sessionSlot :=
  mkSessionSlot (sl_seq slot) (sl_inUse slot) (sl_cached slot) None (sl_occupied slot) (sl_digest slot) (sl_user slot) false
    (sl_restored slot) (sl_hasIntent slot) (sl_intent slot).

Definition retireSession (fatal : bool) (sess : session) : session :=
  mkSession (map drained (se_slots sess)) (se_maxOps sess) (se_maxReq sess) (se_maxResp sess) (se_maxCached sess)
    (se_destroyed sess || negb fatal) (se_fatal sess || fatal) (se_file sess).

Definition end_slot (slot : sessionSlot) (cached : bool) (reply : option (list byte)) (buffer : bool) : sessionSlot :=
  mkSessionSlot (sl_seq slot) false cached reply (sl_occupied slot) (sl_digest slot) (sl_user slot) buffer
    (sl_restored slot) (sl_hasIntent slot) (sl_intent slot).

(** [finish] for the request that claimed slot [s]; [w] and [unlinked] are what
    becomes of the record's write and of an unlink after it. *)
Definition finish (sess : session) (s : nat) (seq : Z) (cache : bool) (reply : list byte) (w : write_result) (unlinked : bool) : outcome unit session :=
  match se_slots sess !! s with
  | None => Panic
  | Some slot =>
    let retire sess := if sf_poisoned (se_file sess) then retireSession true sess else sess in
    if dead sess then Ok (retire (set_slots (<[s := end_slot slot false None false]> (se_slots sess)) sess))
    else
      let! saved := saved_reply cache reply in
      let sess := set_slots (<[s := end_slot slot cache (Some saved) (sl_buffer slot)]> (se_slots sess)) sess in
      let '(sf, _) := writeRecord (se_file sess) s
        (mkSlotRecord seq KindSlot cache (sl_digest slot) (encodeUser (sl_user slot)) saved) w unlinked in
      Ok (retire (set_file sf sess))
  end.

(** * Restoring *)

Definition recordedRequest (f : File) : bool :=
  existsb (fun s => bool_decide (is_Some (Slot f s))) (seq 0 (Z.to_nat (h_SlotCount (file_header f)))).

(** One slot from its record; [None] when the cache cannot hold its reply. *)
Definition restore_slot (rec : option SlotRecord) (reserved : bool) : outcome unit (option sessionSlot) :=
  match rec with
  | None => Ok (Some (mkSessionSlot 0 false false None false (replicate 32 zero_byte) noUser false true false []))
  | Some rec =>
    let! user := decodeUser (r_User rec) in
    let user := default noUser user in
    let slot cached reply buffer hasIntent intent :=
      mkSessionSlot (r_Seq rec) false cached reply true (r_Digest rec) user buffer true hasIntent intent in
    if r_Kind rec =? KindIntent then Ok (Some (slot false None false true (r_Payload rec)))
    else if r_Kind rec =? KindSlot then
      if negb reserved then Ok None else Ok (Some (slot (r_CacheThis rec) (Some (r_Payload rec)) true false []))
    else Ok (Some (slot false None false false []))
  end.

Fixpoint restore_slots (f : File) (reserved : nat -> bool) (slots : list nat) : outcome unit (option (list sessionSlot)) :=
  match slots with
  | [] => Ok (Some [])
  | i :: slots =>
    let! slot := restore_slot (Slot f i) (reserved i) in
    match slot with
    | None => Ok None
    | Some slot =>
      let! rest := restore_slots f reserved slots in
      Ok (match rest with None => None | Some rest => Some (slot :: rest) end)
    end
  end.

(** [live]: a client record confirms the incarnation; [credit]: there is a
    record and a group credit for the session. *)
Definition restoreSession (f : File) (rec : sessionRecord) (live : bool) (reserved : nat -> bool) (credit : bool) : outcome unit (option session) :=
  if negb live then Ok None
  else
    let! slots := restore_slots f reserved (seq 0 (Z.to_nat (h_SlotCount (file_header f)))) in
    match slots with
    | None => Ok None
    | Some slots =>
      if negb credit then Ok None
      else
        Ok (Some (mkSession slots (ca_maxOps (sr_fore rec)) (ca_maxReq (sr_fore rec)) (ca_maxResp (sr_fore rec)) (ca_maxCached (sr_fore rec))
          false false (attach f noFile)))
    end.

(** One file of the loop of [restoreSessions]; a file that gives no session is
    removed. *)
Definition restore_file (f : File) (live : Z -> bool) (reserved : nat -> bool) (credit : bool) : outcome unit (option session) :=
  if negb (recordedRequest f) then Ok None
  else
    match decodeSessionRecord (h_Session (file_header f)) with
    | Ok rec => restoreSession f rec (live (sr_incarnation rec)) reserved credit
    | Err _ => Ok None
    | Panic => Panic
    end.

(** * Histories *)

Record request := mkRequest { rq_seq : Z; rq_digest : list byte; rq_user : effectiveUser }.

Inductive event :=
| Ran (s : nat) (q : request) (restored : option (list byte)) (* the compound starts, with the intent a restart left *)
| Intent (s : nat) (payload : list byte) (* an intent is on disk *)
| Saved (s : nat) (reply : list byte)
| Replied (s : nat) (q : request) (reply : list byte) (* a retransmission gets a saved reply *)
| Restart.

Definition running (slot : sessionSlot) : request := mkRequest (sl_seq slot) (sl_digest slot) (sl_user slot).
Definition asked (args : SEQUENCE4args) (a : sequenceAdmission) : request := mkRequest (sa_sequenceid args) (ad_digest a) (ad_user a).

Definition user_ok (u : effectiveUser) : Prop := is_u32 (eu_flavor u) /\ is_u32 (eu_uid u) /\ is_u32 (eu_gid u).
Definition request_ok (q : request) : Prop := is_u32 (rq_seq q) /\ length (rq_digest q) = 32%nat /\ user_ok (rq_user q).

(** The identity of the request on a slot, as the compound uses it. *)
Definition identity (s : nat) (q : request) : slotIdentity := mkSlotIdentity s (rq_seq q) (rq_digest q) (rq_user q).

Definition sequence_event (args : SEQUENCE4args) (a : sequenceAdmission) (r : sequenceResult) : list event :=
  match q_slot r, q_replay r with
  | Some s, _ => [Ran s (asked args a) (if q_hasIntent r then Some (q_intent r) else None)]
  | None, Some reply => [Replied (sa_slotid args) (asked args a) reply]
  | None, None => []
  end.

(** The steps of the requests of a session, in any interleaving, and of a
    process that stops and restores the session from its file. A compound
    writes an intent only over the record of an earlier request
    ([intent_before_effect] shows that it writes at most one while the file is
    on disk); it may drop the file at any time. *)
Inductive step : session * list event -> session * list event -> Prop :=
| step_sequence sess log args a g sess' r trace :
    request_ok (asked args a) -> startSequence sess args a g = (sess', r, trace) ->
    step (sess, log) (sess', sequence_event args a r ++ log)
| step_intent sess log s slot payload w unlinked sf' written :
    se_slots sess !! s = Some slot -> sl_inUse slot = true ->
    (sf_state (se_file sess) = fileLive -> older (identity s (running slot)) (se_file sess)) ->
    writeRecord (se_file sess) s (intent_record (identity s (running slot)) payload) w unlinked = (sf', written) ->
    step (sess, log) (set_file sf' sess, (if bool_decide (sf_state sf' = fileLive) then [Intent s payload] else []) ++ log)
| step_drop sess log unlinked :
    step (sess, log) (set_file (dropSessionFile (se_file sess) unlinked).1 sess, log)
| step_finish sess log s slot cache reply w unlinked sess' :
    se_slots sess !! s = Some slot -> sl_inUse slot = true -> finish sess s (sl_seq slot) cache reply w unlinked = Ok sess' ->
    step (sess, log) (sess', (if dead sess then [] else match saved_reply cache reply with Ok saved => [Saved s saved] | _ => [] end) ++ log)
| step_retire sess log fatal : step (sess, log) (retireSession fatal sess, log)
| step_restart sess log f g rec live reserved credit sess' :
    dead sess = false -> sf_state (se_file sess) = fileLive -> sf_f (se_file sess) = Some f -> open (file_data f) = Ok g ->
    restoreSession g rec live reserved credit = Ok (Some sess') ->
    step (sess, log) (sess', Restart :: log).

(** A session just created: its slots are empty, and it has a new file or none. *)
Definition created (sess : session) : Prop :=
  Forall (eq emptySlot) (se_slots sess) /\
  (se_file sess = noFile \/
   exists h f, header_ok h /\ Create h true = Ok f /\ se_file sess = attach f noFile /\ h_SlotCount h = Z.of_nat (length (se_slots sess))).

Definition reachable (w : session * list event) : Prop := exists sess0, created sess0 /\ rtc step (sess0, []) w.

(** * The specification of a slot *)

(** The last thing a slot durably knows of a request. *)
Inductive known := Answered (reply : list byte) | Intended (payload : list byte).

Record slot_spec := mkSpec { sp_running : option request; sp_last : option (request * known) }.

Definition later (q : request) (last : option (request * known)) : Prop :=
  match last with None => True | Some (q0, _) => SeqAfter (rq_seq q) (rq_seq q0) = true end.

(** One request at a time. A request runs if it is later than the last one
    known, or if it is that one and only its intent is known, which it then
    gets. A retransmission of an answered request gets the answer. A restart
    forgets what was running and nothing else. *)
Inductive spec_step (s : nat) : event -> slot_spec -> slot_spec -> Prop :=
| spec_ran q last : later q last -> spec_step s (Ran s q None) (mkSpec None last) (mkSpec (Some q) last)
| spec_rerun q p : spec_step s (Ran s q (Some p)) (mkSpec None (Some (q, Intended p))) (mkSpec (Some q) (Some (q, Intended p)))
| spec_intent q last p : later q last -> spec_step s (Intent s p) (mkSpec (Some q) last) (mkSpec (Some q) (Some (q, Intended p)))
| spec_saved q last r : spec_step s (Saved s r) (mkSpec (Some q) last) (mkSpec None (Some (q, Answered r)))
| spec_replied q r : spec_step s (Replied s q r) (mkSpec None (Some (q, Answered r))) (mkSpec None (Some (q, Answered r)))
| spec_restart running last : spec_step s Restart (mkSpec running last) (mkSpec None last).

Definition event_slot (e : event) : option nat :=
  match e with Ran s _ _ | Intent s _ | Saved s _ | Replied s _ _ => Some s | Restart => None end.

(** The history of slot [s], newest event first, and the state it leaves. *)
Inductive accepts (s : nat) : list event -> slot_spec -> Prop :=
| accepts_nil : accepts s [] (mkSpec None None)
| accepts_other e log sp : event_slot e <> None -> event_slot e <> Some s -> accepts s log sp -> accepts s (e :: log) sp
| accepts_step e log sp sp' : accepts s log sp -> spec_step s e sp sp' -> accepts s (e :: log) sp'.

(** * Refinement *)

Definition matches (s : nat) (rec : option SlotRecord) (last : option (request * known)) : Prop :=
  match last with
  | None => rec = None
  | Some (q, Answered r) => exists c, rec = Some (mkSlotRecord (rq_seq q) KindSlot c (rq_digest q) (encodeUser (rq_user q)) r)
  | Some (q, Intended p) => rec = Some (intent_record (identity s q) p)
  end.

(** A slot with no request in progress. *)
Definition idle (slot : sessionSlot) (last : option (request * known)) : Prop :=
  match last with
  | None => sl_occupied slot = false
  | Some (q, Answered r) => sl_occupied slot = true /\ running slot = q /\ sl_buffer slot = true /\ sl_reply slot = Some r
  | Some (q, Intended p) =>
    sl_occupied slot = true /\ running slot = q /\ sl_buffer slot = false /\ sl_restored slot = true /\ sl_hasIntent slot = true /\ sl_intent slot = p
  end.

Record slot_inv (sess : session) (s : nat) (slot : sessionSlot) (sp : slot_spec) : Prop := {
  si_ok : sl_occupied slot = true -> request_ok (running slot);
  si_last : forall q k, sp_last sp = Some (q, k) -> request_ok q;
  si_run : sl_inUse slot = true -> sl_occupied slot = true /\ sp_running sp = Some (running slot) /\
    (later (running slot) (sp_last sp) \/ exists p, sp_last sp = Some (running slot, Intended p));
  si_buffer : dead sess = false -> sl_inUse slot = true -> sl_buffer slot = true;
  si_idle : dead sess = false -> sl_inUse slot = false -> sp_running sp = None /\ idle slot (sp_last sp);
  si_file : forall f, sf_state (se_file sess) = fileLive -> sf_f (se_file sess) = Some f -> matches s (Slot f s) (sp_last sp);
}.

Definition file_inv (sess : session) : Prop :=
  sf_state (se_file sess) = fileLive ->
  exists f, sf_f (se_file sess) = Some f /\ SessionFile.Inv f /\ h_SlotCount (file_header f) = Z.of_nat (length (se_slots sess)).

Definition Inv (w : session * list event) : Prop :=
  file_inv w.1 /\ forall s slot, se_slots w.1 !! s = Some slot -> exists sp, accepts s w.2 sp /\ slot_inv w.1 s slot sp.

Lemma accepts_frame s t log sp (es : list event) : Forall (fun e => event_slot e = Some t) es -> s <> t -> accepts s log sp -> accepts s (es ++ log) sp.
Proof. intros Hes Hne. induction Hes as [|e es He _ IH]; [done|]. intros H. simpl. apply accepts_other; [by rewrite He | rewrite He; congruence | auto]. Qed.

(** ** SEQUENCE *)

Lemma startSequence_cases sess args a g sess' r trace : startSequence sess args a g = (sess', r, trace) ->
  (sess' = sess /\ sequence_event args a r = []) \/
  (dead sess = false /\ exists slot kind, se_slots sess !! sa_slotid args = Some slot /\ sequence_kind slot (sa_sequenceid args) a = inr kind /\
   match kind with
   | Retransmission => sess' = sess /\ q_slot r = None /\ q_replay r = sl_reply slot
   | _ => sess' = set_slots (<[sa_slotid args := claim_slot (sa_sequenceid args) a]> (se_slots sess)) sess /\ q_slot r = Some (sa_slotid args) /\
       (if q_hasIntent r then Some (q_intent r) else None) =
         match kind with Rerun => if sl_hasIntent slot then Some (sl_intent slot) else None | _ => None end
   end).
Proof.
  intros H. unfold startSequence in H. destruct (_ || se_fatal sess) eqn:Hd; [injection H as <- <- <-; by left|].
  do 6 (case_match; [injection H as <- <- <-; by left|]). destruct (se_slots sess !! sa_slotid args) as [slot|]; [|injection H as <- <- <-; by left].
  destruct (negb (gr_tryLock g)); [injection H as <- <- <-; by left|].
  destruct (sequence_kind slot (sa_sequenceid args) a) as [status|kind] eqn:Hk; [injection H as <- <- <-; by left|].
  destruct (take_resources kind g) as [tr status]. destruct (negb (status =? NFS4_OK)); [injection H as <- <- <-; by left|]. right.
  apply orb_false_iff in Hd as [Hd Hf]. apply orb_false_iff in Hd as [_ Hd]. split; [unfold dead; by rewrite Hd, Hf|]. exists slot, kind. split; [done|]. split; [done|].
  destruct kind; injection H as <- <- <-; simpl; split_and!; try done. by destruct (sl_hasIntent slot).
Qed.

(** What an idle slot makes of a request. *)
Lemma kind_idle slot last seq a kind : sl_inUse slot = false -> idle slot last -> is_u32 seq -> (sl_occupied slot = true -> is_u32 (sl_seq slot)) ->
  sequence_kind slot seq a = inr kind ->
  let q := mkRequest seq (ad_digest a) (ad_user a) in
  match kind with
  | NewRequest => later q last
  | Retransmission => exists r, last = Some (q, Answered r) /\ sl_reply slot = Some r
  | Rerun => exists p, last = Some (q, Intended p) /\ sl_hasIntent slot = true /\ sl_intent slot = p
  end.
Proof.
  intros Hu Hidle Hseq Hok H. unfold sequence_kind in H. rewrite Hu in H. cbn [negb andb] in H.
  destruct (sl_occupied slot && (seq =? sl_seq slot)) eqn:Hrep.
  - apply andb_true_iff in Hrep as [Hocc Heq]. apply Z.eqb_eq in Heq. destruct (_ || _) eqn:Hid; [done|].
    apply orb_false_iff in Hid as [Hid1 Hid2]. apply negb_false_iff, bool_decide_eq_true in Hid1, Hid2.
    unfold idle, running in Hidle. rewrite <- Heq, Hid1, Hid2, Hocc in Hidle. destruct last as [[q [r|p]]|]; [| |done].
    + destruct Hidle as (_ & Hq & Hb & Hr). rewrite Hb in H. injection H as <-. exists r. by rewrite <- Hq.
    + destruct Hidle as (_ & Hq & Hb & Hrs & Hi & Hp). rewrite Hb, Hrs in H. injection H as <-. exists p. by rewrite <- Hq.
  - assert (Hnew : kind = NewRequest /\ (sl_occupied slot = true -> SeqAfter seq (sl_seq slot) = true)).
    { destruct (sl_occupied slot && (seq =? wrap32 (sl_seq slot + 1)) || negb (sl_occupied slot) && (seq =? 1)) eqn:H1.
      - injection H as <-. split; [done|]. intros Hocc. rewrite Hocc in H1. cbn [negb andb] in H1. rewrite orb_false_r in H1.
        apply Z.eqb_eq in H1 as ->. apply SeqAfter_succ. auto.
      - destruct (sl_restored slot && SeqAfter seq (sl_seq slot)) eqn:H2; [|done]. injection H as <-. apply andb_true_iff in H2 as [_ ->]. done. }
    destruct Hnew as [-> Hafter]. unfold later. destruct last as [[q k]|]; [|done]. simpl.
    assert (Hq : sl_occupied slot = true /\ running slot = q) by (destruct k; simpl in Hidle; tauto). destruct Hq as [Hocc <-]. by apply Hafter.
Qed.

(** ** Changes of one slot *)

(** The file of [sess'] says of slot [t] what that of [sess] said. *)
Definition same_record (sess sess' : session) (t : nat) : Prop :=
  forall f', sf_state (se_file sess') = fileLive -> sf_f (se_file sess') = Some f' ->
  exists f, sf_state (se_file sess) = fileLive /\ sf_f (se_file sess) = Some f /\ Slot f' t = Slot f t.

Lemma slot_inv_frame sess sess' t slot sp : (dead sess' = false -> dead sess = false) -> same_record sess sess' t ->
  slot_inv sess t slot sp -> slot_inv sess' t slot sp.
Proof.
  intros Hd Hf []. constructor; auto. intros f' Hl Hf'. destruct (Hf f' Hl Hf') as (f & Hl0 & Hf0 & ->). auto.
Qed.

Lemma update_slot_inv sess log s slot' sess' es sp' : Inv (sess, log) -> file_inv sess' -> se_slots sess' = <[s := slot']> (se_slots sess) ->
  (dead sess' = false -> dead sess = false) -> (forall t, s <> t -> same_record sess sess' t) ->
  Forall (fun e => event_slot e = Some s) es -> accepts s (es ++ log) sp' -> slot_inv sess' s slot' sp' -> Inv (sess', es ++ log).
Proof.
  intros [_ Hs] Hf Hsl Hd Hrec Hes Hacc HI. split; [exact Hf|]. intros t slot Ht. simpl in Ht |- *. rewrite Hsl in Ht.
  destruct (decide (s = t)) as [->|Hne].
  - destruct (decide (t < length (se_slots sess))%nat) as [Hlt|Hge].
    + rewrite list_lookup_insert_eq in Ht by done. injection Ht as <-. eauto.
    + rewrite list_insert_ge in Ht by lia. apply lookup_lt_Some in Ht. lia.
  - rewrite list_lookup_insert_ne in Ht by done. destruct (Hs t slot Ht) as (sp & Ha & Hi). exists sp.
    split; [by eapply accepts_frame | by eapply slot_inv_frame; [exact Hd | apply Hrec | exact Hi]].
Qed.

Lemma same_record_refl sess sess' t : se_file sess' = se_file sess -> same_record sess sess' t.
Proof. intros E f' Hl Hf'. rewrite E in Hl, Hf'. eauto. Qed.

(** A slot claimed by the request [asked args a]. *)
Lemma claim_inv sess log args a slot sp sp' e : Inv (sess, log) -> request_ok (asked args a) ->
  se_slots sess !! sa_slotid args = Some slot -> slot_inv sess (sa_slotid args) slot sp -> accepts (sa_slotid args) log sp ->
  event_slot e = Some (sa_slotid args) -> spec_step (sa_slotid args) e sp sp' -> sp_last sp' = sp_last sp -> sp_running sp' = Some (asked args a) ->
  (later (asked args a) (sp_last sp) \/ exists p, sp_last sp = Some (asked args a, Intended p)) ->
  Inv (set_slots (<[sa_slotid args := claim_slot (sa_sequenceid args) a]> (se_slots sess)) sess, e :: log).
Proof.
  intros HI Hq Hsl Hi Hacc He Hst Hl Hr Hlater. eapply (update_slot_inv sess log _ _ _ [e]); [done | | done | done | | by repeat constructor | |].
  - intros Hlive. simpl. rewrite length_insert. by apply HI.
  - intros t _. by apply same_record_refl.
  - by eapply accepts_step.
  - destruct Hi. constructor; simpl; rewrite ?Hl, ?Hr; done.
Qed.

Lemma sequence_inv sess log args a g sess' r trace : Inv (sess, log) -> request_ok (asked args a) ->
  startSequence sess args a g = (sess', r, trace) -> Inv (sess', sequence_event args a r ++ log).
Proof.
  intros HInv Hq H. destruct (startSequence_cases _ _ _ _ _ _ _ H) as [[-> ->]|(Hd & slot & kind & Hsl & Hk & Hr)]; [done|].
  destruct (proj2 HInv _ _ Hsl) as (sp & Hacc & HI). simpl in Hacc. destruct (sl_inUse slot) eqn:Hu.
  { exfalso. unfold sequence_kind in Hk. rewrite Hu in Hk. cbn [negb andb] in Hk. by destruct (_ && _). }
  destruct (si_idle _ _ _ _ HI Hd Hu) as [Hrun Hidle]. destruct sp as [run last]. simpl in Hrun, Hidle. subst run.
  pose proof (kind_idle slot last _ a kind Hu Hidle (proj1 Hq) (fun Ho => proj1 (si_ok _ _ _ _ HI Ho)) Hk) as Hkind. cbv zeta in Hkind.
  fold (asked args a) in Hkind. unfold sequence_event. destruct kind.
  - destruct Hr as (-> & -> & ->). eapply claim_inv; [done.. | by constructor | done | done | by left].
  - destruct Hr as (-> & -> & ->). destruct Hkind as (reply & -> & ->). split; [apply HInv|]. intros s slot' Hs'. simpl in Hs' |- *.
    destruct (proj2 HInv _ _ Hs') as (sp' & Hacc' & HI'). destruct (decide (s = sa_slotid args)) as [->|Hne].
    + rewrite Hsl in Hs'. injection Hs' as <-. eexists. split; [|exact HI]. eapply accepts_step; [exact Hacc|]. constructor.
    + exists sp'. split; [|done]. by apply (accepts_frame _ (sa_slotid args) _ _ [_]); [repeat constructor|..].
  - destruct Hr as (-> & -> & ->). destruct Hkind as (p & -> & -> & ->). eapply claim_inv; [done.. | by constructor | done | done | right; by exists p].
Qed.

(** ** The file *)

Lemma writeRecord_live sess s rec w unlinked sf' written : file_inv sess -> (s < length (se_slots sess))%nat ->
  is_u32 (r_Seq rec) -> is_u8 (r_Kind rec) -> length (r_Digest rec) = 32%nat ->
  (forall f old, sf_state (se_file sess) = fileLive -> sf_f (se_file sess) = Some f -> Slot f s = Some old -> newer rec old = true) ->
  writeRecord (se_file sess) s rec w unlinked = (sf', written) -> sf_state sf' = fileLive ->
  exists f f', sf_state (se_file sess) = fileLive /\ sf_f (se_file sess) = Some f /\ sf_f sf' = Some f' /\ SessionFile.Inv f' /\
    file_header f' = file_header f /\ forall t, Slot f' t = if decide (s = t) then Some rec else Slot f t.
Proof.
  intros Hf Hs H1 H2 H3 Hnew H Hl. unfold writeRecord, write in H. destruct (sf_state (se_file sess)) eqn:Hst;
    try (simpl in H; injection H as <- _; congruence).
  destruct (Hf Hst) as (f & Hff & HI & Hcount). rewrite Hff in H. destruct (Write f s rec w) as [f1 res] eqn:Hw.
  assert (Hfail : forall x, (let '(sf0, state) := invalidate (mkSessionFile (Some f1) fileLive (sf_onDisk (se_file sess)) (sf_poisoned (se_file sess)) (sf_path (se_file sess))) unlinked in
    (sf0, negb (bool_decide (state = filePoisoned)))) = (sf', x) -> sf_state sf' <> fileLive).
  { intros x. unfold invalidate. simpl. destruct unlinked; simpl; intros [= <- <-]; done. }
  destruct res as [[]|e|]; simpl in H; [|by destruct (Hfail _ H)..]. injection H as <- <-. exists f, f1.
  assert (Hr : record_ok (file_header f) rec).
  { unfold Write in Hw. destruct (_ <=? _); [done|]. destruct (_ || _) eqn:Hc; [done|]. reflect_bools. by constructor. }
  assert (Hss : Z.of_nat s < h_SlotCount (file_header f)) by lia.
  destruct (Write_spec f s rec w HI Hss Hr) as (st & _ & _ & Hw'). rewrite Hw in Hw'. destruct w; [|done].
  destruct (Write_inv f s rec HI Hss Hr (fun old => Hnew f old eq_refl Hff)) as (HI' & Hh & _ & Hslot). rewrite Hw in HI', Hh, Hslot. done.
Qed.

(** The file says what the slot durably knows, so a record of the running
    request that is not an intent over an intent is newer. *)
Lemma running_newer sess s slot sp rec f old : slot_inv sess s slot sp -> sl_inUse slot = true ->
  sf_state (se_file sess) = fileLive -> sf_f (se_file sess) = Some f -> Slot f s = Some old ->
  r_Seq rec = sl_seq slot -> (r_Kind rec = KindSlot \/ later (running slot) (sp_last sp)) -> newer rec old = true.
Proof.
  intros HI Hu Hl Hf Hold Hseq Hk. pose proof (si_file _ _ _ _ HI f Hl Hf) as Hm. rewrite Hold in Hm.
  destruct (si_run _ _ _ _ HI Hu) as (_ & _ & Hlast). unfold newer. rewrite Hseq.
  assert (Hlater : later (running slot) (sp_last sp) -> SeqAfter (sl_seq slot) (r_Seq old) = true).
  { unfold later, matches in *. destruct (sp_last sp) as [[q [r|p]]|]; [| |done]; [destruct Hm as [c [= ->]]|injection Hm as ->]; done. }
  destruct Hk as [Hk|Hk]; [|by rewrite (Hlater Hk)]. destruct Hlast as [Hlast|[p Hlast]]; [by rewrite (Hlater Hlast)|].
  rewrite Hlast in Hm. simpl in Hm. injection Hm as ->. simpl. rewrite Hk, Z.eqb_refl. by rewrite orb_true_r.
Qed.

(** A record of slot [s] in the file, or no live file any more. *)
Lemma record_frame sess sess' s rec w unlinked written : file_inv sess -> (s < length (se_slots sess))%nat ->
  is_u32 (r_Seq rec) -> is_u8 (r_Kind rec) -> length (r_Digest rec) = 32%nat ->
  (forall f old, sf_state (se_file sess) = fileLive -> sf_f (se_file sess) = Some f -> Slot f s = Some old -> newer rec old = true) ->
  writeRecord (se_file sess) s rec w unlinked = (se_file sess', written) -> length (se_slots sess') = length (se_slots sess) ->
  file_inv sess' /\ (forall t, s <> t -> same_record sess sess' t) /\
  (forall f', sf_state (se_file sess') = fileLive -> sf_f (se_file sess') = Some f' -> Slot f' s = Some rec).
Proof.
  intros Hf Hs H1 H2 H3 Hnew H Hlen. pose proof (writeRecord_live sess s rec w unlinked _ _ Hf Hs H1 H2 H3 Hnew H) as Hw.
  split_and!.
  - intros Hl. destruct (Hw Hl) as (f & f' & Hl0 & Hf0 & Hf' & HI' & Hh & _). exists f'. rewrite Hh, Hlen. split_and!; [done..|].
    destruct (Hf Hl0) as (f0 & E & _ & Hc). congruence.
  - intros t Hne f' Hl Hf'. destruct (Hw Hl) as (f & f1 & Hl0 & Hf0 & Hf1 & _ & _ & Hslot). exists f. split_and!; [done..|].
    rewrite Hf' in Hf1. injection Hf1 as <-. by rewrite Hslot, decide_False.
  - intros f' Hl Hf'. destruct (Hw Hl) as (f & f1 & Hl0 & Hf0 & Hf1 & _ & _ & Hslot). rewrite Hf' in Hf1. injection Hf1 as <-.
    by rewrite Hslot, decide_True.
Qed.

Lemma write_intent_inv sess log s slot payload w unlinked sf' written : Inv (sess, log) -> se_slots sess !! s = Some slot -> sl_inUse slot = true ->
  (sf_state (se_file sess) = fileLive -> older (identity s (running slot)) (se_file sess)) ->
  writeRecord (se_file sess) s (intent_record (identity s (running slot)) payload) w unlinked = (sf', written) ->
  Inv (set_file sf' sess, (if bool_decide (sf_state sf' = fileLive) then [Intent s payload] else []) ++ log).
Proof.
  intros HInv Hsl Hu Hold H. destruct (proj2 HInv _ _ Hsl) as (sp & Hacc & HI). simpl in Hacc.
  destruct (si_run _ _ _ _ HI Hu) as (Hocc & Hrun & Hlast). destruct (si_ok _ _ _ _ HI Hocc) as (Hq1 & Hq2 & Hq3).
  destruct (record_frame sess (set_file sf' sess) s (intent_record (identity s (running slot)) payload) w unlinked written (proj1 HInv)) as (Hfile & Hrec & Hslot);
    [by eapply lookup_lt_Some | done | done | done | | done | done |].
  { intros f old Hl Hf Ho. unfold newer. pose proof (Hold Hl f old Hf Ho) as Ha. simpl in Ha |- *. by rewrite Ha. }
  destruct (bool_decide (sf_state sf' = fileLive)) eqn:Hlive.
  - apply bool_decide_eq_true in Hlive.
    assert (Hlater : later (running slot) (sp_last sp)).
    { destruct Hlast as [?|[p Hp]]; [done|]. exfalso.
      destruct (sf_state (se_file sess)) eqn:Hl; try (unfold writeRecord, write in H; rewrite Hl in H; simpl in H; injection H as <- _; congruence).
      destruct (proj1 HInv Hl) as (f & Hf & _). pose proof (si_file _ _ _ _ HI f Hl Hf) as Hm. rewrite Hp in Hm. simpl in Hm.
      pose proof (Hold eq_refl f _ Hf Hm) as Hs. simpl in Hs. by rewrite SeqAfter_irrefl in Hs. }
    apply (update_slot_inv sess log s slot _ _ (mkSpec (Some (running slot)) (Some (running slot, Intended payload)))); try done.
    + simpl. by rewrite list_insert_id.
    + by repeat constructor.
    + eapply accepts_step; [exact Hacc|]. destruct sp as [run last]. simpl in Hrun, Hlater. subst run. by constructor.
    + destruct HI. constructor; simpl; try done.
      * intros q k [= <- <-]. by split.
      * intros _. split_and!; try done. right. by exists payload.
      * congruence.
  - apply bool_decide_eq_false in Hlive. apply (update_slot_inv sess log s slot _ [] sp); try done; [simpl; by rewrite list_insert_id|].
    apply (slot_inv_frame sess); [done | intros f' Hl'; done | done].
Qed.

Lemma drop_file_inv sess log unlinked : Inv (sess, log) -> Inv (set_file (dropSessionFile (se_file sess) unlinked).1 sess, log).
Proof.
  intros [Hf Hs].
  assert (Hd : (dropSessionFile (se_file sess) unlinked).1 = se_file sess \/ sf_state (dropSessionFile (se_file sess) unlinked).1 <> fileLive).
  { unfold dropSessionFile, invalidate. destruct (bool_decide (sf_state (se_file sess) = fileLive)); simpl; [|by left]. right. by destruct unlinked. }
  destruct Hd as [Hd|Hd]; split; try (intros s slot Hsl; destruct (Hs s slot Hsl) as (sp & Ha & Hi); exists sp; split; [done|]).
  - rewrite Hd. exact Hf.
  - apply (slot_inv_frame sess); [done | by apply same_record_refl | done].
  - intros Hl. done.
  - apply (slot_inv_frame sess); [done | intros f' Hl; done | done].
Qed.

Lemma retire_inv sess log fatal : Inv (sess, log) -> Inv (retireSession fatal sess, log).
Proof.
  intros [Hf Hs]. assert (Hdead : dead (retireSession fatal sess) = true) by (unfold dead; simpl; destruct fatal; by rewrite ?orb_true_r).
  split; [intros Hl; simpl; rewrite length_map; by apply Hf|]. intros s slot Hsl. simpl in Hsl. rewrite list_lookup_fmap in Hsl.
  destruct (se_slots sess !! s) as [slot0|] eqn:H0; [|done]. injection Hsl as <-. destruct (Hs s slot0 H0) as (sp & Ha & []).
  exists sp. split; [done|]. cbn [fst snd] in *. constructor; [exact si_ok0 | exact si_last0 | exact si_run0 | congruence | congruence | exact si_file0].
Qed.

Lemma finish_request_inv sess log s slot cache reply w unlinked sess' : Inv (sess, log) -> se_slots sess !! s = Some slot -> sl_inUse slot = true ->
  finish sess s (sl_seq slot) cache reply w unlinked = Ok sess' ->
  Inv (sess', (if dead sess then [] else match saved_reply cache reply with Ok saved => [Saved s saved] | _ => [] end) ++ log).
Proof.
  intros HInv Hsl Hu H. destruct (proj2 HInv _ _ Hsl) as (sp & Hacc & HI). simpl in Hacc.
  destruct (si_run _ _ _ _ HI Hu) as (Hocc & Hrun & Hlast). destruct (si_ok _ _ _ _ HI Hocc) as (Hq1 & Hq2 & Hq3).
  unfold finish in H. rewrite Hsl in H.
  assert (Hretire : forall sess1 es, Inv (sess1, es) -> Inv (if sf_poisoned (se_file sess1) then retireSession true sess1 else sess1, es)).
  { intros sess1 es H1. destruct (sf_poisoned (se_file sess1)); [by apply retire_inv | done]. }
  destruct (dead sess) eqn:Hd.
  - injection H as <-. apply (Hretire (set_slots (<[s := end_slot slot false None false]> (se_slots sess)) sess)).
    apply (update_slot_inv sess log s (end_slot slot false None false) _ [] sp); try done.
    + intros Hl. simpl. rewrite length_insert. by apply HInv.
    + intros t _. by apply same_record_refl.
    + destruct HI. constructor; try done. unfold dead in *. simpl. congruence.
  - destruct (saved_reply cache reply) as [saved| |]; simpl in H; [|done..].
    set (sess1 := set_slots (<[s := end_slot slot cache (Some saved) (sl_buffer slot)]> (se_slots sess)) sess) in H.
    destruct (writeRecord (se_file sess) s _ w unlinked) as [sf' written] eqn:Hw. injection H as <-.
    destruct (record_frame sess (set_file sf' sess1) s (mkSlotRecord (sl_seq slot) KindSlot cache (sl_digest slot) (encodeUser (sl_user slot)) saved) w unlinked written (proj1 HInv) ltac:(by eapply lookup_lt_Some) ltac:(exact Hq1) ltac:(done) ltac:(exact Hq2)) as (Hfile & Hrec & Hslot);
      [|done | by simpl; rewrite length_insert |].
    { intros f old Hl Hf Ho. eapply running_newer; try done. by left. }
    apply (Hretire (set_file sf' sess1)), (update_slot_inv sess log s (end_slot slot cache (Some saved) (sl_buffer slot)) _ _ (mkSpec None (Some (running slot, Answered saved))));
      try done; [by repeat constructor | |].
    + eapply accepts_step; [exact Hacc|]. destruct sp as [run last]. simpl in Hrun. subst run. constructor.
    + pose proof (si_buffer _ _ _ _ HI Hd Hu) as Hbuf. constructor; try done.
      * intros q k [= <- <-]. by split.
      * intros f' Hl Hf'. exists cache. by apply Hslot.
Qed.

(** ** Restarts *)

Lemma restore_slots_spec f reserved l slots : restore_slots f reserved l = Ok (Some slots) ->
  Forall2 (fun t slot => restore_slot (Slot f t) (reserved t) = Ok (Some slot)) l slots.
Proof.
  revert slots. induction l as [|t l IH]; intros slots H; simpl in H; [injection H as <-; constructor|].
  destruct (restore_slot _ _) as [[slot|]| |] eqn:Hs; simpl in H; [|done..]. destruct (restore_slots f reserved l) as [[rest|]| |]; simpl in H; [|done..].
  injection H as <-. constructor; auto.
Qed.

Lemma restore_slot_idle s rec reserved last slot : matches s rec last -> (forall q k, last = Some (q, k) -> request_ok q) ->
  restore_slot rec reserved = Ok (Some slot) -> sl_inUse slot = false /\ idle slot last /\ (sl_occupied slot = true -> request_ok (running slot)).
Proof.
  unfold matches, restore_slot. intros Hm Hok H. destruct last as [[q [r|p]]|].
  - destruct Hm as [c ->]. destruct (Hok _ _ eq_refl) as (Hq1 & Hq2 & Hu1 & Hu2 & Hu3). simpl in H. rewrite decodeUser_encode in H by done. simpl in H.
    destruct reserved; [|done]. simpl in H. injection H as <-. unfold running. simpl. destruct q. split_and!; try done.
  - subst rec. destruct (Hok _ _ eq_refl) as (Hq1 & Hq2 & Hu1 & Hu2 & Hu3). simpl in H. rewrite decodeUser_encode in H by done. simpl in H.
    injection H as <-. unfold running. simpl. destruct q. split_and!; try done.
  - subst rec. injection H as <-. done.
Qed.

Lemma restart_inv sess log f g rec live reserved credit sess' : Inv (sess, log) ->
  sf_state (se_file sess) = fileLive -> sf_f (se_file sess) = Some f -> open (file_data f) = Ok g ->
  restoreSession g rec live reserved credit = Ok (Some sess') -> Inv (sess', Restart :: log).
Proof.
  intros [Hf Hs] Hl Hff Hopen H. cbn [fst snd] in *. destruct (Hf Hl) as (f0 & E & HI & Hcount). rewrite Hff in E. injection E as <-.
  rewrite (open_inv f HI) in Hopen. injection Hopen as <-. unfold restoreSession in H. destruct live; [|done]. simpl in H.
  destruct (restore_slots f reserved _) as [[slots|]| |] eqn:Hr; simpl in H; [|done..]. destruct credit; [|done]. simpl in H. injection H as <-.
  apply restore_slots_spec in Hr. pose proof (Forall2_length _ _ _ Hr) as Hlen. rewrite length_seq, Hcount, Nat2Z.id in Hlen. split.
  - intros _. exists f. simpl. split_and!; [done..|]. by rewrite <- Hlen.
  - intros s slot Hsl. simpl in Hsl |- *. destruct (Forall2_lookup_r _ _ _ _ _ Hr Hsl) as (t & Ht & Hrs).
    apply lookup_seq in Ht as [-> Hlt]. simpl in Hrs.
    destruct (se_slots sess !! s) as [slot0|] eqn:H0; [|apply lookup_ge_None in H0; lia]. destruct (Hs s slot0 H0) as ([run last] & Ha & []). simpl in *.
    exists (mkSpec None last). split; [eapply accepts_step; [exact Ha | constructor]|].
    destruct (restore_slot_idle s (Slot f s) (reserved s) last slot (si_file0 f Hl Hff) si_last0 Hrs) as (Hu & Hidle & Hok).
    constructor; simpl; try done; try congruence. intros f' _ [= <-]. auto.
Qed.

(** ** Reachable sessions *)

Lemma created_session_inv sess : created sess -> Inv (sess, []).
Proof.
  intros [Hslots Hfile].
  assert (Hf : forall f, sf_state (se_file sess) = fileLive -> sf_f (se_file sess) = Some f ->
    SessionFile.Inv f /\ h_SlotCount (file_header f) = Z.of_nat (length (se_slots sess)) /\ forall s, Slot f s = None).
  { intros f Hl Hf. destruct Hfile as [E|(h & f0 & Hh & Hc & E & Hn)]; rewrite E in Hl, Hf; [done|]. injection Hf as <-.
    destruct (Create_inv h f0 Hh Hc) as [HI Hhd]. split; [done|]. split; [by rewrite Hhd|]. intros s.
    unfold Create in Hc. destruct (_ || _); [done|]. destruct (_ <? _)%nat; [done|]. apply Ok_inj in Hc as <-. unfold Slot. simpl.
    by destruct (replicate _ _ !! s) as [st|] eqn:Hr; [apply lookup_replicate in Hr as [-> _]|]. }
  split; cbn [fst snd].
  - intros Hl. destruct Hfile as [E|(h & f0 & Hh & Hc & E & Hn)]; rewrite E in Hl; [done|]. exists f0. rewrite E.
    destruct (Hf f0) as (H1 & H2 & _); [by rewrite E..|]. done.
  - intros s slot Hsl. rewrite Forall_forall in Hslots. rewrite <- (Hslots slot) by (by eapply list_elem_of_lookup_2).
    exists (mkSpec None None). split; [constructor|]. constructor; simpl; try done. intros f Hl Hff. by apply Hf.
Qed.

Lemma slots_step_inv w w' : step w w' -> Inv w -> Inv w'.
Proof.
  destruct 1; intros HI; [by eapply sequence_inv | by eapply write_intent_inv | by apply drop_file_inv | by eapply finish_request_inv | by apply retire_inv|].
  by eapply restart_inv.
Qed.

Lemma slots_reachable_inv w : reachable w -> Inv w.
Proof. intros (sess0 & Hc & Hr). pose proof (created_session_inv _ Hc) as HI. clear Hc. induction Hr; eauto using slots_step_inv. Qed.

(** ** Whether the file is on disk *)

Definition path_ok (sf : sessionFile) : Prop :=
  match sf_state sf with fileLive | filePoisoned => sf_path sf = true | _ => sf_path sf = false end.

Lemma invalidate_path sf unlinked : path_ok sf -> path_ok (invalidate sf unlinked).1.
Proof. unfold path_ok, invalidate. intros H. destruct (sf_state sf) eqn:E; simpl; rewrite ?E; try done. by destruct unlinked. Qed.

Lemma writeRecord_path sf s rec w unlinked : path_ok sf -> path_ok (writeRecord sf s rec w unlinked).1.
Proof.
  intros H. unfold writeRecord, write. destruct (sf_state sf) eqn:E; try (simpl; done). destruct (sf_f sf) as [f|]; [|simpl; done].
  destruct (Write f s rec w) as [f' res]. unfold path_ok in H. rewrite E in H.
  assert (Hi : path_ok (invalidate (mkSessionFile (Some f') fileLive (sf_onDisk sf) (sf_poisoned sf) (sf_path sf)) unlinked).1) by (by apply invalidate_path).
  destruct res as [[]| |]; simpl; [done|..]; destruct (invalidate _ _) as [sf0 st]; done.
Qed.

Lemma step_path w w' : step w w' -> path_ok (se_file w.1) -> path_ok (se_file w'.1).
Proof.
  destruct 1 as [sess log args a g sess' r trace _ H|sess log s slot payload w unlinked sf' written _ _ _ H|sess log unlinked|
    sess log s slot cache reply w unlinked sess' Hsl _ H|sess log fatal|sess log f g rec live reserved credit sess' _ _ _ _ H]; cbn [fst snd]; intros Hp.
  - destruct (startSequence_cases _ _ _ _ _ _ _ H) as [[-> _]|(_ & slot & kind & _ & _ & Hr)]; [done|]. destruct kind; by destruct Hr as [-> _].
  - simpl. change sf' with ((sf', written).1). rewrite <- H. by apply writeRecord_path.
  - unfold dropSessionFile. pose proof (invalidate_path _ unlinked Hp) as Hi. by destruct (invalidate _ _).
  - unfold finish in H. rewrite Hsl in H. destruct (dead sess); [injection H as <-; simpl; by destruct (sf_poisoned _)|].
    destruct (saved_reply cache reply); simpl in H; [|done..].
    pose proof (writeRecord_path (se_file sess) s (mkSlotRecord (sl_seq slot) KindSlot cache (sl_digest slot) (encodeUser (sl_user slot)) a) w unlinked Hp) as Hi.
    destruct (writeRecord _ _ _ _ _) as [sf' written]. injection H as <-. simpl. by destruct (sf_poisoned sf').
  - done.
  - unfold restoreSession in H. destruct (negb live); [done|]. destruct (restore_slots _ _ _) as [[slots|]| |]; simpl in H; [|done..].
    destruct (negb credit); [done|]. by injection H as <-.
Qed.

Lemma reachable_path sess log : reachable (sess, log) -> path_ok (se_file sess).
Proof.
  intros (sess0 & [_ Hc] & Hr). assert (H0 : path_ok (se_file (sess0, @nil event).1)) by (destruct Hc as [E|(h & f & _ & _ & E & _)]; simpl; by rewrite E).
  change sess with ((sess, log).1). clear Hc. induction Hr; eauto using step_path.
Qed.

(** ** Admitted requests *)

(** The request respects the limits of its session. *)
Definition within (sess : session) (args : SEQUENCE4args) (a : sequenceAdmission) : Prop :=
  let least := Z.max (ad_sequenceReplyBytes a) (ad_uncachedBytes a) in
  Z.of_nat (sa_slotid args) <= sa_highest_slotid args < Z.of_nat (length (se_slots sess)) /\
  ad_operations a <= Z.min (se_maxOps sess) maxCompoundOperations /\ ad_requestBytes a <= se_maxReq sess /\ least <= se_maxResp sess /\
  (sa_cachethis args = true -> least <= se_maxCached sess).

Definition granted : grants := mkGrants true true NFS4_OK true true true NFS4_OK false.

Lemma startSequence_granted sess args a slot kind : dead sess = false -> within sess args a -> se_slots sess !! sa_slotid args = Some slot ->
  sequence_kind slot (sa_sequenceid args) a = inr kind ->
  let r := (startSequence sess args a granted).1.2 in
  q_status r = NFS4_OK /\
  match kind with
  | Retransmission => q_slot r = None /\ q_replay r = sl_reply slot
  | NewRequest => q_slot r = Some (sa_slotid args) /\ q_hasIntent r = false
  | Rerun => q_slot r = Some (sa_slotid args) /\ q_hasIntent r = sl_hasIntent slot /\ (sl_hasIntent slot = true -> q_intent r = sl_intent slot)
  end.
Proof.
  intros Hd (Hhi & Hops & Hreq & Hresp & Hcache) Hsl Hk. apply orb_false_iff in Hd as [Hd Hf]. unfold startSequence. rewrite Hd, Hf, Hsl, Hk.
  cbn [gr_known gr_tryLock granted negb orb].
  rewrite (proj2 (Z.leb_gt (Z.of_nat (length (se_slots sess))) (Z.of_nat (sa_slotid args)))) by lia.
  rewrite (proj2 (Z.ltb_ge (sa_highest_slotid args) (Z.of_nat (sa_slotid args)))) by lia.
  rewrite (proj2 (Z.leb_gt (Z.of_nat (length (se_slots sess))) (sa_highest_slotid args))) by lia. cbn [orb].
  rewrite (proj2 (Z.ltb_ge (Z.min (se_maxOps sess) maxCompoundOperations) (ad_operations a))) by lia.
  rewrite (proj2 (Z.ltb_ge (se_maxReq sess) (ad_requestBytes a))) by lia.
  rewrite (proj2 (Z.ltb_ge (se_maxResp sess) (Z.max (ad_sequenceReplyBytes a) (ad_uncachedBytes a)))) by lia.
  destruct (sa_cachethis args); [rewrite (proj2 (Z.ltb_ge (se_maxCached sess) (Z.max (ad_sequenceReplyBytes a) (ad_uncachedBytes a)))) by auto|];
    destruct kind; simpl; split_and!; try done; by intros ->.
Qed.

(** The sequence id that comes next. *)
Definition next_seq (last : option (request * known)) : Z :=
  match last with None => 1 | Some (q, _) => wrap32 (rq_seq q + 1) end.

Lemma kind_next slot last a : sl_inUse slot = false -> idle slot last -> (sl_occupied slot = true -> is_u32 (sl_seq slot)) ->
  sequence_kind slot (next_seq last) a = inr NewRequest.
Proof.
  intros Hu Hidle Hok. unfold sequence_kind, next_seq. rewrite Hu. destruct last as [[q k]|].
  - assert (Hq : sl_occupied slot = true /\ rq_seq q = sl_seq slot) by (destruct k; simpl in Hidle; destruct Hidle as (? & <- & _); done).
    destruct Hq as [Hocc Hs]. specialize (Hok Hocc). rewrite Hocc, Hs. cbn [andb negb].
    rewrite (proj2 (Z.eqb_neq (wrap32 (sl_seq slot + 1)) (sl_seq slot))).
    + by rewrite Z.eqb_refl.
    + intros E. pose proof (SeqAfter_succ _ Hok) as Ha. by rewrite E, SeqAfter_irrefl in Ha.
  - simpl in Hidle. by rewrite Hidle.
Qed.

Lemma kind_same slot q k a : sl_inUse slot = false -> idle slot (Some (q, k)) -> ad_digest a = rq_digest q -> ad_user a = rq_user q ->
  sequence_kind slot (rq_seq q) a = inr (match k with Answered _ => Retransmission | Intended _ => Rerun end).
Proof.
  intros Hu Hidle H1 H2. unfold sequence_kind. rewrite Hu, H1, H2.
  assert (Hq : sl_occupied slot = true /\ running slot = q) by (destruct k; simpl in Hidle; tauto). destruct Hq as [-> <-]. simpl.
  rewrite Z.eqb_refl, !bool_decide_eq_true_2 by done. simpl. destruct k; simpl in Hidle.
  - destruct Hidle as (_ & _ & -> & _). done.
  - destruct Hidle as (_ & _ & -> & -> & _). done.
Qed.

(** ** Admission *)

Lemma sequence_kind_error slot seq a status : sequence_kind slot seq a = inl status -> status <> NFS4_OK.
Proof. unfold sequence_kind. intros H. repeat (case_match; try done); by injection H as <-. Qed.

(** An admission that fails gives back what it took, last first. *)
Lemma take_resources_trace kind g trace status : take_resources kind g = (trace, status) ->
  (status <> NFS4_OK -> exists taken, trace = map Take taken ++ map Release (reverse taken)) /\
  (status = NFS4_OK -> trace = map Take (match kind with Retransmission => [Hold; Use; Association] | _ => [Hold; Use; Association; Reply] end) ++
     [Commit Association; Commit Hold]).
Proof.
  assert (Hfail : forall tr undo e taken (P : Prop), tr = map Take taken -> undo = reverse taken -> e <> NFS4_OK -> unwind tr undo e = (trace, status) ->
    (status <> NFS4_OK -> exists taken, trace = map Take taken ++ map Release (reverse taken)) /\ (status = NFS4_OK -> P)).
  { intros tr undo e taken P -> -> He [= <- <-]. split; [eauto | done]. }
  unfold take_resources. intros H.
  destruct (Z.eqb_spec (gr_hold g) NFS4_OK) as [_|Hh]; cbn [negb] in H; [|exact (Hfail _ _ _ [] _ eq_refl eq_refl Hh H)].
  destruct (gr_use g); cbn [negb] in H; [|refine (Hfail _ _ NFS4ERR_BADSESSION [Hold] _ eq_refl eq_refl _ H); done].
  destruct (gr_association g); cbn [negb] in H; [|refine (Hfail _ _ NFS4ERR_RESOURCE [Hold; Use] _ eq_refl eq_refl _ H); done].
  assert (Hrest : forall all, (if negb (gr_gate g =? NFS4_OK) then unwind (map Take all) (reverse all) (gr_gate g)
    else if gr_retired g then unwind (map Take all) (reverse all) NFS4ERR_BADSESSION
    else (map Take all ++ [Commit Association; Commit Hold], NFS4_OK)) = (trace, status) ->
    (status <> NFS4_OK -> exists taken, trace = map Take taken ++ map Release (reverse taken)) /\
    (status = NFS4_OK -> trace = map Take all ++ [Commit Association; Commit Hold])).
  { intros all Ha. destruct (Z.eqb_spec (gr_gate g) NFS4_OK) as [_|Hg]; cbn [negb] in Ha; [|exact (Hfail _ _ _ all _ eq_refl eq_refl Hg Ha)].
    destruct (gr_retired g); [refine (Hfail _ _ NFS4ERR_BADSESSION all _ eq_refl eq_refl _ Ha); done|]. by injection Ha as <- <-. }
  destruct kind; cbn [andb] in H; [|by apply (Hrest [Hold; Use; Association])|];
    (destruct (gr_reply g); cbn [negb] in H; [|refine (Hfail _ _ NFS4ERR_RESOURCE [Hold; Use; Association] _ eq_refl eq_refl _ H); done];
     by apply (Hrest [Hold; Use; Association; Reply])).
Qed.

(** What an admission may do. *)
Definition admission_ok (sess : session) (res : session * sequenceResult * list resource_event) : Prop :=
  let '(sess', r, trace) := res in
  (q_status r <> NFS4_OK -> sess' = sess /\ q_slot r = None /\ q_replay r = None /\
     exists taken, trace = map Take taken ++ map Release (reverse taken)) /\
  (q_status r = NFS4_OK -> q_slot r = None -> sess' = sess /\
     trace = [Take Hold; Take Use; Take Association; Commit Association; Commit Hold; Release Use]) /\
  (forall s, q_slot r = Some s -> q_status r = NFS4_OK /\
     trace = [Take Hold; Take Use; Take Association; Take Reply; Commit Association; Commit Hold] /\
     se_file sess' = se_file sess /\ forall t, t <> s -> se_slots sess' !! t = se_slots sess !! t).

Lemma refused_ok sess status trace : status <> NFS4_OK -> (exists taken, trace = map Take taken ++ map Release (reverse taken)) ->
  admission_ok sess (sess, refused status, trace).
Proof. intros Hs Ht. by split_and!. Qed.

(** ** Wire forms *)

(** A compound's reply, with its results after the count. *)
Definition compound_reply (status : Z) (tag pad : list byte) (count : Z) (results : list byte) : list byte :=
  be_bytes 4 status ++ be_bytes 4 (Z.of_nat (length tag)) ++ (tag ++ pad) ++ be_bytes 4 count ++ results.

(** A compound that starts with SEQUENCE. *)
Definition compound_args (tag pad header sequence rest : list byte) : list byte :=
  be_bytes 4 (Z.of_nat (length tag)) ++ (tag ++ pad) ++ header ++ be_bytes 4 OP_SEQUENCE ++ sequence ++ rest.

Definition padded (tag pad : list byte) : Prop := Z.of_nat (length tag) < 2 ^ 32 /\ Z.of_nat (length (tag ++ pad)) = pad4 (Z.of_nat (length tag)).

Lemma put_u32_mid (b pre post : list byte) (old v : Z) off : b = pre ++ be_bytes 4 old ++ post -> length pre = off ->
  put_u32 b off v = Ok (pre ++ be_bytes 4 v ++ post).
Proof.
  intros -> <-. unfold put_u32. rewrite !length_app, length_be_bytes. rewrite (proj2 (Nat.leb_le _ _)) by lia.
  rewrite take_app_length, (app_assoc pre (be_bytes 4 old) post), (drop_app_length' (pre ++ be_bytes 4 old)) by (by rewrite length_app, length_be_bytes). done.
Qed.

Lemma replay_input_args tag pad header sequence rest : padded tag pad -> length header = 8%nat -> length sequence = 32%nat ->
  replay_input (compound_args tag pad header sequence rest) =
  Ok (be_bytes 4 (Z.of_nat (length tag)) ++ (tag ++ pad) ++ header ++ be_bytes 4 OP_SEQUENCE ++ rest).
Proof.
  intros [Ht Hpad] Hh Hs. set (b := compound_args _ _ _ _ _).
  set (before := be_bytes 4 (Z.of_nat (length tag)) ++ (tag ++ pad) ++ header ++ be_bytes 4 OP_SEQUENCE).
  assert (Hb : b = before ++ sequence ++ rest) by (unfold b, before, compound_args; by rewrite <- !app_assoc).
  assert (Hlb : length before = Z.to_nat (4 + pad4 (Z.of_nat (length tag)) + 4 + 4 + 4)).
  { unfold before. rewrite !length_app, !length_be_bytes, Hh. rewrite length_app in Hpad. lia. }
  assert (Hlen : length b = (length before + (32 + length rest))%nat) by (rewrite Hb, !length_app, Hs; lia).
  unfold replay_input. rewrite (proj2 (Nat.leb_le 4 (length b))) by lia.
  rewrite (be_mid 4 b [] ((tag ++ pad) ++ header ++ be_bytes 4 OP_SEQUENCE ++ sequence ++ rest) 0 (Z.of_nat (length tag))) by (done || (simpl; lia)).
  cbn [mbind outcome_bind]. unfold sequenceArgs.
  rewrite !(proj2 (Z.leb_le _ (Z.of_nat (length b)))) by lia. cbn [andb].
  rewrite (be_mid 4 b (be_bytes 4 (Z.of_nat (length tag)) ++ (tag ++ pad) ++ header) (sequence ++ rest) _ OP_SEQUENCE)
    by (first [unfold b, compound_args; by rewrite <- !app_assoc | rewrite !length_app, length_be_bytes, Hh; rewrite length_app in Hpad; lia | done]).
  cbn [mbind outcome_bind]. rewrite Z.eqb_refl, (sub_mid b [] before (sequence ++ rest) 0 (Z.to_nat (4 + pad4 (Z.of_nat (length tag)) + 4 + 4 + 4))) by (first [exact Hb | exact Hlb | done]). cbn [mbind outcome_bind].
  rewrite (sub_mid b (before ++ sequence) rest []) by (rewrite ?app_nil_r, ?length_app, ?Hs, ?Hlen, <- ?app_assoc; (exact Hb || lia)).
  cbn [mbind outcome_bind]. unfold before. by rewrite <- !app_assoc.
Qed.

(** * Properties *)


(** C27: what a compound starts from. When SEQUENCE lets a request of a reachable
    session run, the session file is as the replay of its operations requires:
    the intent it was given is the record of its slot, and without one the
    record is that of an earlier request. *)
Theorem sequence_prepares_replay sess log args a g sess' r trace s : reachable (sess, log) -> request_ok (asked args a) ->
  startSequence sess args a g = (sess', r, trace) -> q_slot r = Some s ->
  file_start (identity s (asked args a)) (q_hasIntent r) (if q_hasIntent r then q_intent r else []) (se_file sess').
Proof.
  intros Hr Hq H Hs. pose proof (sequence_inv _ _ _ _ _ _ _ _ (slots_reachable_inv _ Hr) Hq H) as HI.
  assert (Hpath : path_ok (se_file sess')) by (apply (step_path _ _ (step_sequence _ log _ _ _ _ _ _ Hq H)); by apply (reachable_path sess log)).
  destruct (startSequence_cases _ _ _ _ _ _ _ H) as [[_ E]|(_ & slot & kind & Hsl & _ & Hcase)]; [unfold sequence_event in E; by rewrite Hs in E|].
  assert (Hc : se_slots sess' !! s = Some (claim_slot (sa_sequenceid args) a)).
  { destruct kind; destruct Hcase as (-> & Hqs & _); [|congruence|]; rewrite Hs in Hqs; injection Hqs as ->; simpl; apply list_lookup_insert_eq;
      by eapply lookup_lt_Some. }
  destruct HI as [Hf Hslots]. destruct (Hslots _ _ Hc) as (sp & Hacc & HIs). cbn [fst snd] in *. unfold sequence_event in Hacc. rewrite Hs in Hacc. simpl in Hacc.
  inversion Hacc as [|? ? ? _ Hne|? ? sp0 ? _ Hst]; subst; [done|].
  destruct Hq as (Hq1 & Hq2 & _). constructor; simpl; try done.
  - unfold file_ok. unfold path_ok in Hpath. destruct (sf_state (se_file sess')) eqn:Hl; try done. split; [done|].
    destruct (Hf Hl) as (f & Hff & HIf & Hn). exists f. rewrite Hn. split_and!; [done..|]. apply lookup_lt_Some in Hc. simpl. lia.
  - intros Hh Hl. rewrite Hh in *. destruct (Hf Hl) as (f & Hff & HIf & _). inversion Hst; subst.
    pose proof (si_file _ _ _ _ HIs f Hl Hff) as Hm. simpl in Hm. eexists f, _. split_and!; [done | by apply open_inv | exact Hm | done..].
  - intros Hh Hl f old Hff Hold. rewrite Hh in Hst. inversion Hst as [q last Hlater| | | | |]; subst.
    pose proof (si_file _ _ _ _ HIs f Hl Hff) as Hm. simpl in Hm, Hold. rewrite Hold in Hm. unfold later, matches in *.
    destruct last as [[q [r0|p]]|]; [| |done]; [destruct Hm as [c [= ->]]|injection Hm as ->]; done.
Qed.

(** C28: SEQUENCE admission is all or nothing. A refused request leaves the
    session as it was and gives back the resources it took, each once, last
    first; an answered retransmission changes nothing and keeps its hold and
    its connection; a request that runs holds all four resources and changes
    its own slot alone. *)
Theorem admission_all_or_nothing sess args a g : admission_ok sess (startSequence sess args a g).
Proof.
  unfold startSequence. do 7 (match goal with |- context [if ?b then (sess, refused _, []) else _] => destruct b; [apply refused_ok; [done | by exists []]|] end).
  destruct (se_slots sess !! sa_slotid args) as [slot|]; [|apply refused_ok; [done | by exists []]].
  destruct (negb (gr_tryLock g)); [apply refused_ok; [done | by exists []]|].
  destruct (sequence_kind slot (sa_sequenceid args) a) as [status|kind] eqn:Hk; [apply refused_ok; [by eapply sequence_kind_error | by exists []]|].
  destruct (take_resources kind g) as [trace status] eqn:Ha. destruct (take_resources_trace _ _ _ _ Ha) as [H1 H2].
  destruct (Z.eqb_spec status NFS4_OK) as [->|Hs]; cbn [negb]; [|by apply refused_ok; auto]. rewrite (H2 eq_refl).
  destruct kind; simpl; split_and!; try done; intros s [= <-]; split_and!; try done; intros t Ht; by rewrite list_lookup_insert_ne.
Qed.

(** What is saved of a reply that the client did not ask to cache. The
    status, tag and SEQUENCE result stay; of a reply with more results, the
    second is replaced by the error RETRY_UNCACHED_REP of its operation, which
    is also the status, unless that operation's own error is required; and the
    length is what the admission reserved for it. *)
Theorem uncached_reply_form status tag pad count sequence rest : padded tag pad -> is_u32 count -> length sequence = 44%nat ->
  (count <= 1 -> uncached_reply (compound_reply status tag pad count (sequence ++ rest)) = Ok (compound_reply status tag pad 1 sequence)) /\
  (forall op st more, 1 < count -> is_u32 op -> is_u32 st -> rest = be_bytes 4 op ++ be_bytes 4 st ++ more ->
   let e := if (op =? OP_ILLEGAL) || mandatoryUnsupported op then st else NFS4ERR_RETRY_UNCACHED_REP in
   let saved := compound_reply e tag pad 2 (appendResultError sequence op e) in
   uncached_reply (compound_reply status tag pad count (sequence ++ rest)) = Ok saved /\
   Z.of_nat (length saved) = 4 + 4 + pad4 (Z.of_nat (length tag)) + 4 + 44 + resultErrorSize op).
Proof.
  intros [Ht Hpad] Hc Hs. set (head := fun st : Z => be_bytes 4 st ++ be_bytes 4 (Z.of_nat (length tag)) ++ (tag ++ pad)).
  assert (Hhead : forall st n l, compound_reply st tag pad n l = head st ++ be_bytes 4 n ++ l) by (intros; unfold compound_reply, head; by rewrite <- !app_assoc).
  assert (Hlen : forall st, length (head st) = Z.to_nat (8 + pad4 (Z.of_nat (length tag)))).
  { intros st. unfold head. rewrite !length_app, !length_be_bytes. rewrite length_app in Hpad. lia. }
  assert (Hbe : forall v, is_u32 v -> 0 <= v < 256 ^ Z.of_nat 4) by (intros v Hv; exact Hv).
  unfold uncached_reply.
  rewrite (be_mid 4 _ (be_bytes 4 status) ((tag ++ pad) ++ be_bytes 4 count ++ sequence ++ rest) 4 (Z.of_nat (length tag))) by (done || (apply Hbe; unfold is_u32; lia)).
  cbn [mbind outcome_bind]. rewrite <- (Hlen status), Hhead. set (off := length (head status)).
  rewrite (be_mid 4 _ (head status) (sequence ++ rest) off count) by (done || by apply Hbe). cbn [mbind outcome_bind].
  rewrite (sub_mid _ [] (head status ++ be_bytes 4 count ++ sequence) rest) by (rewrite <- ?app_assoc, ?length_app, ?length_be_bytes, ?Hs; (done || lia)).
  cbn [mbind outcome_bind]. rewrite (put_u32_mid _ (head status) sequence count 1 off) by done. cbn [mbind outcome_bind]. split.
  - intros H1. rewrite (proj2 (Z.ltb_ge 1 count)) by done. by rewrite Hhead.
  - intros op st more H1 Hop Hst ->.
    set (e := if (op =? OP_ILLEGAL) || mandatoryUnsupported op then st else NFS4ERR_RETRY_UNCACHED_REP). rewrite (proj2 (Z.ltb_lt 1 count)) by done.
    rewrite (be_mid 4 _ (head status ++ be_bytes 4 count ++ sequence) (be_bytes 4 st ++ more) (off + 4 + 44) op)
      by (rewrite <- ?app_assoc, ?length_app, ?length_be_bytes, ?Hs; (done || lia || by apply Hbe)).
    cbn [mbind outcome_bind].
    assert (He : (if (op =? OP_ILLEGAL) || mandatoryUnsupported op then be_at (E:=unit) 4 (head status ++ be_bytes 4 count ++ sequence ++ be_bytes 4 op ++ be_bytes 4 st ++ more) (off + 4 + 44 + 4)
      else Ok NFS4ERR_RETRY_UNCACHED_REP) = Ok e).
    { unfold e. destruct (_ || _); [|done]. apply (be_mid 4 _ (head status ++ be_bytes 4 count ++ sequence ++ be_bytes 4 op) more);
        [by rewrite <- !app_assoc | rewrite !length_app, !length_be_bytes, Hs; lia | by apply Hbe]. }
    rewrite He. cbn [mbind outcome_bind].
    rewrite (put_u32_mid _ [] (be_bytes 4 (Z.of_nat (length tag)) ++ (tag ++ pad) ++ be_bytes 4 1 ++ sequence) status e 0) by (unfold head; by rewrite <- ?app_assoc).
    cbn [mbind outcome_bind]. rewrite (put_u32_mid _ (head e) sequence 1 2 off) by (unfold head, off; rewrite <- ?app_assoc; simpl; rewrite ?Hlen; done).
    cbn [mbind outcome_bind]. rewrite Hhead. unfold appendResultError. rewrite <- !app_assoc. split; [done|].
    rewrite !length_app, !length_be_bytes, Hlen, Hs. unfold resultErrorSize, wireOperation, knownOperation.
    destruct (Z.eqb_spec op OP_SETATTR) as [->|Hne]; simpl; [lia|].
    destruct (negb _); simpl; [lia|]. rewrite (proj2 (Z.eqb_neq op OP_SETATTR)) by done. simpl. lia.
Qed.

(** What makes two requests the same. Two compounds that start with a
    SEQUENCE are hashed alike exactly when they agree on everything but its
    arguments: the session, slot and sequence id, which are compared on their
    own, and the highest slot and the caching flag, which a retransmission may
    change. *)
Theorem replay_identity tag pad header sequence rest tag' pad' header' sequence' rest' :
  padded tag pad -> padded tag' pad' -> length header = 8%nat -> length header' = 8%nat ->
  length sequence = 32%nat -> length sequence' = 32%nat ->
  let b := compound_args tag pad header sequence rest in
  let b' := compound_args tag' pad' header' sequence' rest' in
  (replay_input b = replay_input b' <-> tag = tag' /\ pad = pad' /\ header = header' /\ rest = rest') /\
  (forall sha256, tag = tag' -> pad = pad' -> header = header' -> rest = rest' ->
     replayDigest sha256 b = replayDigest sha256 b' /\ exists d, replayDigest sha256 b = Ok d).
Proof.
  intros Hp Hp' Hh Hh' Hs Hs' b b'. pose proof (replay_input_args tag pad header sequence rest Hp Hh Hs) as E.
  pose proof (replay_input_args tag' pad' header' sequence' rest' Hp' Hh' Hs') as E'. fold b in E. fold b' in E'. split.
  - rewrite E, E'. split; [|by intros (-> & -> & -> & ->)]. intros H. apply Ok_inj in H.
    apply app_inj_1 in H as [H1 H]; [|by rewrite !length_be_bytes].
    assert (Hlen : Z.of_nat (length tag) = Z.of_nat (length tag')).
    { destruct Hp as [Hp _], Hp' as [Hp' _]. rewrite <- (be_val_bytes_u32 (Z.of_nat (length tag))) by (unfold is_u32; lia).
      rewrite H1. apply be_val_bytes_u32. unfold is_u32. lia. }
    apply app_inj_1 in H as [H2 H]; [|destruct Hp as [_ Hp], Hp' as [_ Hp']; rewrite <- Hlen in Hp'; lia].
    apply app_inj_1 in H2 as [-> ->]; [|lia]. apply app_inj_1 in H as [-> H]; [|by rewrite Hh, Hh']. by apply app_inj_1 in H as [_ ->].
  - intros sha256 -> -> -> ->. unfold replayDigest. rewrite E, E'. split; [done|]. by eexists.
Qed.

(** * Examples *)

Definition slot_header : Header := mkHeader 1 200 [Byte.x01].
Definition slot_file : File := match Create slot_header true with Ok f => f | _ => mkFile slot_header [] [] end.
Definition new_session : session := mkSession [emptySlot] 16 1000 1000 1000 false false (attach slot_file noFile).
Definition first_args : SEQUENCE4args := mkSequence 1 0 0 true.
Definition first_admission : sequenceAdmission := mkAdmission (replicate 32 Byte.x07) (mkUser 1 0 0 []) 100 2 60 68.
Definition first_running : session := (startSequence new_session first_args first_admission granted).1.1.
Definition first_reply : list byte := [Byte.x2a].
Definition first_finished : session :=
  match finish first_running 0 1 true first_reply Written true with Ok sess => sess | _ => first_running end.
Definition first_record : sessionRecord := mkSessionRecord 1 1 (mkAttrs 0 1000 1000 1000 16 1) (mkAttrs 0 0 0 0 0 0) 0 false 0 [].
Definition first_restored : session :=
  match sf_f (se_file first_finished) with
  | Some f => match restoreSession f first_record true (fun _ => true) true with Ok (Some sess) => sess | _ => first_finished end
  | None => first_finished
  end.
Definition first_log : list event := [Saved 0 first_reply; Ran 0 (asked first_args first_admission) None].

Lemma new_session_created : created new_session.
Proof.
  split; [by repeat constructor|]. right. exists slot_header, slot_file. split_and!; [|by vm_compute|done..].
  constructor; simpl; unfold RecordOverhead, recordFixedSize, MaxSessionRecord, headerAreaSize, headerFixedSize; lia.
Qed.

Lemma first_asked_ok : request_ok (asked first_args first_admission).
Proof. repeat split; simpl; unfold is_u32; lia. Qed.

Lemma finished_reachable : reachable (first_finished, first_log).
Proof.
  exists new_session. split; [exact new_session_created|]. eapply rtc_l; [|apply rtc_once].
  - refine (step_sequence new_session [] first_args first_admission granted first_running (startSequence new_session first_args first_admission granted).1.2
      (startSequence new_session first_args first_admission granted).2 first_asked_ok _).
    unfold first_running. by destruct (startSequence _ _ _ _) as [[sess r] tr].
  - assert (E : finish first_running 0 1 true first_reply Written true = Ok first_finished) by (by vm_compute).
    assert (Hs : se_slots first_running !! 0%nat = Some (claim_slot 1 first_admission)) by (by vm_compute).
    assert (Hr : sequence_event first_args first_admission (startSequence new_session first_args first_admission granted).1.2 = [Ran 0 (asked first_args first_admission) None]) by (by vm_compute).
    rewrite Hr. exact (step_finish first_running _ 0 _ true first_reply Written true first_finished Hs eq_refl E).
Qed.

Lemma restored_reachable : reachable (first_restored, Restart :: first_log).
Proof.
  destruct finished_reachable as (sess0 & Hc & Hr). exists sess0. split; [done|]. eapply rtc_r; [exact Hr|].
  destruct (proj1 (slots_reachable_inv _ finished_reachable)) as (f & Hf & HI & _); [by vm_compute|].
  eapply (step_restart first_finished first_log f f first_record true (fun _ => true) true); [by vm_compute | by vm_compute | exact Hf | by apply open_inv|].
  assert (E : match sf_f (se_file first_finished) with
    | Some f => match restoreSession f first_record true (fun _ => true) true with Ok (Some _) => true | _ => false end | None => false end = true) by (by vm_compute).
  unfold first_restored. cbn [fst] in Hf. rewrite Hf in E |- *. by destruct (restoreSession f first_record true (fun _ => true) true) as [[sess|]| |].
Qed.


Lemma sequence_prepares_replay_witness :
  file_start (identity 0 (mkRequest 2 (replicate 32 Byte.x07) (mkUser 1 0 0 []))) false []
    (se_file (startSequence first_restored (mkSequence 2 0 0 true) first_admission granted).1.1).
Proof.
  assert (Hok : request_ok (asked (mkSequence 2 0 0 true) first_admission)) by (repeat split; simpl; unfold is_u32; lia).
  assert (Hs : q_slot (startSequence first_restored (mkSequence 2 0 0 true) first_admission granted).1.2 = Some 0%nat) by (by vm_compute).
  assert (Hi : q_hasIntent (startSequence first_restored (mkSequence 2 0 0 true) first_admission granted).1.2 = false) by (by vm_compute).
  pose proof (sequence_prepares_replay first_restored _ (mkSequence 2 0 0 true) first_admission granted
    (startSequence first_restored (mkSequence 2 0 0 true) first_admission granted).1.1
    (startSequence first_restored (mkSequence 2 0 0 true) first_admission granted).1.2
    (startSequence first_restored (mkSequence 2 0 0 true) first_admission granted).2 0 restored_reachable Hok) as H.
  rewrite Hi in H. apply H; [|exact Hs]. by destruct (startSequence _ _ _ _) as [[sess r] tr].
Defined.

Lemma uncached_reply_form_witness :
  uncached_reply (compound_reply 0 [Byte.x61] (replicate 3 zero_byte) 3 (replicate 44 zero_byte ++ be_bytes 4 OP_LOOKUP ++ be_bytes 4 0 ++ [Byte.x01])) =
  Ok (compound_reply NFS4ERR_RETRY_UNCACHED_REP [Byte.x61] (replicate 3 zero_byte) 2 (appendResultError (replicate 44 zero_byte) OP_LOOKUP NFS4ERR_RETRY_UNCACHED_REP)).
Proof.
  refine (proj1 (proj2 (uncached_reply_form 0 [Byte.x61] (replicate 3 zero_byte) 3 (replicate 44 zero_byte) (be_bytes 4 OP_LOOKUP ++ be_bytes 4 0 ++ [Byte.x01]) _ _ _) OP_LOOKUP 0 [Byte.x01] _ _ _ eq_refl));
    try (unfold is_u32, padded, OP_LOOKUP; simpl; lia); done.
Defined.

Lemma replay_identity_witness :
  replay_input (compound_args [Byte.x61] (replicate 3 zero_byte) (replicate 8 zero_byte) (replicate 32 zero_byte) [Byte.x05]) =
  replay_input (compound_args [Byte.x61] (replicate 3 zero_byte) (replicate 8 zero_byte) (replicate 32 Byte.x01) [Byte.x05]).
Proof.
  apply (proj1 (replay_identity [Byte.x61] (replicate 3 zero_byte) (replicate 8 zero_byte) (replicate 32 zero_byte) [Byte.x05]
    [Byte.x61] (replicate 3 zero_byte) (replicate 8 zero_byte) (replicate 32 Byte.x01) [Byte.x05]
    ltac:(by split) ltac:(by split) eq_refl eq_refl eq_refl eq_refl)). done.
Defined.
