(* ===== verification/ClientRecords.v ===== *)
(** Client records: src/go/nfsd/internal/clientrecords/records.go.

    One record per confirmed client identity, in memory and in the directory
    clients/. A transition writes the directory first and the memory once the
    directory is durable; a crash in between, or a directory that cannot be
    synced, leaves what a later process may or may not find. The directory is
    the values each name may have after a crash, the last one being what it has
    now; a sync settles every name. Transitions of different identities
    interleave step by step; those of one identity are serialised by the
    identity's lock (KeyedLock.v).

    SHA-256 is a parameter. The JSON text of a record is its fields in the order
    the code writes them, with the incarnation and the verifier as the texts
    their methods give. Creating clients/ and syncing it in [Open] succeed. *)

From Stdlib Require Import ZArith Lia.
From stdpp Require Import base numbers option gmap relations list.
From S2P Require Import Prelude.

(** * Texts *)

Inductive records_error := ErrNotCurrent | ErrCorrupt | ErrInUse | ErrArgument | ErrFailed | ErrIO.

Definition hex_digit (d : Z) : byte := byte_of (if d <? 10 then 48 + d else 87 + d).

Definition hex_value (b : byte) : option Z :=
  let v := byte_val b in
  if (48 <=? v) && (v <=? 57) then Some (v - 48)
  else if (97 <=? v) && (v <=? 102) then Some (v - 87)
  else if (65 <=? v) && (v <=? 70) then Some (v - 55)
  else None.

(** hex.EncodeToString. *)
Definition hex_encode (bs : list byte) : list byte :=
  mjoin ((fun b => [hex_digit (byte_val b / 16); hex_digit (byte_val b mod 16)]) <$> bs).

(** hex.Decode into an array of [room] bytes: it stores each byte before it
    looks at the next digits, past the end of the array too. *)
Fixpoint hex_Decode (room : nat) (text : list byte) {struct text} : outcome records_error (list byte) :=
  match text with
  | [] => Ok []
  | [_] => Err ErrCorrupt
  | a :: b :: text =>
    match hex_value a, hex_value b with
    | Some x, Some y =>
      match room with
      | O => Panic
      | S room => let! rest := hex_Decode room text in Ok (byte_of (16 * x + y) :: rest)
      end
    | _, _ => Err ErrCorrupt
    end
  end.

(** The loop of strconv.ParseUint, base 16, on a text too short to overflow. *)
Fixpoint parse_hex (text : list byte) (v : Z) : option Z :=
  match text with
  | [] => Some v
  | b :: text => match hex_value b with Some d => parse_hex text (16 * v + d) | None => None end
  end.

Definition Incarnation_String (id : Z) : list byte := hex_encode (be_bytes 8 id).

Definition Incarnation_UnmarshalText (text : list byte) : option Z :=
  if negb (length text =? 16)%nat then None else parse_hex text 0.

Definition hexVerifier_MarshalText (v : list byte) : list byte := hex_encode v.

Definition hexVerifier_UnmarshalText (text : list byte) : outcome records_error (list byte) :=
  let! v := hex_Decode 8 text in
  if negb (length v =? 8)%nat || negb (length text =? 16)%nat then Err ErrCorrupt else Ok v.

(** * Records *)

Record Principal := mkPrincipal { p_Flavor : Z; p_Body : list byte }.

Record ClientRecord := mkClientRecord {
  cr_Owner : list byte;
  cr_Principal : Principal;
  cr_Incarnation : Z;
  cr_Verifier : list byte;
  cr_ConfirmedAt : Z;
}.

Record recordJSON := mkRecordJSON {
  j_Owner : list byte;
  j_Principal : Principal;
  j_ID : list byte;
  j_Verifier : list byte;
  j_ConfirmedAt : Z;
  j_Expired : bool;
}.

Definition newRecordJSON (rec : ClientRecord) : recordJSON :=
  mkRecordJSON (cr_Owner rec) (cr_Principal rec) (Incarnation_String (cr_Incarnation rec)) (hexVerifier_MarshalText (cr_Verifier rec)) (cr_ConfirmedAt rec) false.

(** json.Unmarshal into a [recordJSON] and [recordJSON.record]. *)
Definition json_record (j : recordJSON) : outcome records_error ClientRecord :=
  match Incarnation_UnmarshalText (j_ID j) with
  | None => Err ErrCorrupt
  | Some id => let! v := hexVerifier_UnmarshalText (j_Verifier j) in Ok (mkClientRecord (j_Owner j) (j_Principal j) id v (j_ConfirmedAt j))
  end.

Abbreviation IdentityHash := (list byte).

Record Records := mkRecords {
  r_records : gmap IdentityHash ClientRecord;
  r_byID : gmap Z IdentityHash;
  r_failed : bool;
}.

Section records.
Context (sha256 : list byte -> IdentityHash).

Definition HashOwner (owner : list byte) : IdentityHash := sha256 owner.
Definition Record_Hash (rec : ClientRecord) : IdentityHash := HashOwner (cr_Owner rec).

(** What [RecoveryKey] hashes; [prefix] is the constant it starts with. *)
Definition recovery_input (prefix : list byte) (rec : ClientRecord) : list byte :=
  prefix ++ Record_Hash rec ++ cr_Verifier rec ++ be_bytes 4 (p_Flavor (cr_Principal rec)) ++
  be_bytes 4 (Z.of_nat (length (p_Body (cr_Principal rec)))) ++ p_Body (cr_Principal rec).

Definition RecoveryKey (prefix : list byte) (rec : ClientRecord) : IdentityHash := sha256 (recovery_input prefix rec).

(** ** Opening *)

(** What os.ReadFile and json give for a file. *)
Inductive file_body := Unreadable | NotJSON | Body (j : recordJSON).

(** An entry of clients/; [e_removed] is whether os.Remove of it succeeds. *)
Record dir_entry := mkEntry { e_name : list byte; e_isDir : bool; e_body : file_body; e_removed : bool }.

(** strings.ToLower on ASCII. *)
Definition to_lower (b : byte) : byte := if (65 <=? byte_val b) && (byte_val b <=? 90) then byte_of (byte_val b + 32) else b.

(** strings.HasPrefix and strings.Contains. *)
Definition has_prefix (prefix text : list byte) : bool := bool_decide (take (length prefix) text = prefix).
Fixpoint contains (text part : list byte) : bool :=
  has_prefix part text || match text with [] => false | _ :: text => contains text part end.

Definition dot : list byte := byte_of <$> [46].
Definition tmp_mark : list byte := byte_of <$> [46; 116; 109; 112; 45]. (* .tmp- *)
Definition is_temporary (name : list byte) : bool := has_prefix dot name && contains name tmp_mark.

(** The hash a file is named by. *)
Definition entry_hash (name : list byte) : outcome records_error IdentityHash :=
  let! want := hex_Decode 32 name in
  if negb (length want =? 32)%nat || negb (length name =? 64)%nat || negb (bool_decide (to_lower <$> name = name)) then Err ErrCorrupt
  else Ok want.

Definition load (name : list byte) (body : file_body) : outcome records_error (ClientRecord * bool) :=
  let! want := entry_hash name in
  match body with
  | Unreadable => Err ErrIO
  | NotJSON => Err ErrCorrupt
  | Body j =>
    let! rec := json_record j in
    if (length (cr_Owner rec) =? 0)%nat then Err ErrCorrupt
    else if negb (bool_decide (Record_Hash rec = want)) then Err ErrCorrupt
    else if cr_Incarnation rec =? 0 then Err ErrCorrupt
    else Ok (rec, j_Expired j)
  end.

(** The loop of [Open] over the entries. *)
Fixpoint open_entries (entries : list dir_entry) (r : Records) : outcome records_error Records :=
  match entries with
  | [] => Ok r
  | e :: entries =>
    if e_isDir e then Err ErrCorrupt
    else if is_temporary (e_name e) then if e_removed e then open_entries entries r else Err ErrIO
    else
      let! p := load (e_name e) (e_body e) in
      let '(rec, expired) := p in
      if (expired : bool) then if e_removed e then open_entries entries r else Err ErrIO
      else
        match r_byID r !! cr_Incarnation rec with
        | Some _ => Err ErrCorrupt
        | None =>
          open_entries entries
            (mkRecords (<[Record_Hash rec := rec]> (r_records r)) (<[cr_Incarnation rec := Record_Hash rec]> (r_byID r)) (r_failed r))
        end
  end.

Definition Open (entries : list dir_entry) : outcome records_error Records := open_entries entries (mkRecords ∅ ∅ false).

(** ** Queries *)

Definition InUse (r : Records) (id : Z) : bool := bool_decide (is_Some (r_byID r !! id)).
Definition Lookup (r : Records) (h : IdentityHash) : option ClientRecord := r_records r !! h.
Definition Live (r : Records) (id : Z) : option ClientRecord :=
  match r_byID r !! id with None => None | Some h => r_records r !! h end.

(** ** Transitions *)

(** The first part of [Confirm], under the identity's lock: the record to write
    and the incarnation it replaces, zero for none. *)
Definition confirm_check (r : Records) (owner verifier : list byte) (principal : Principal) (id now : Z) : outcome records_error (ClientRecord * Z) :=
  if (length owner =? 0)%nat then Err ErrArgument
  else if id =? 0 then Err ErrArgument
  else
    let old := r_records r !! HashOwner owner in
    if r_failed r then Err ErrFailed
    else if InUse r id then Err ErrInUse
    else Ok (mkClientRecord owner principal id verifier now, match old with Some rec => cr_Incarnation rec | None => 0 end).

(** The end of [write], once the directory is durable. *)
Definition publish (rec : ClientRecord) (old : Z) (r : Records) : Records :=
  mkRecords (<[Record_Hash rec := rec]> (r_records r)) (<[cr_Incarnation rec := Record_Hash rec]> (delete old (r_byID r))) (r_failed r).

(** [lockCurrent] before the lock, and its check after it. *)
Definition lock_lookup (r : Records) (id : Z) : outcome records_error IdentityHash :=
  if r_failed r then Err ErrFailed
  else match r_byID r !! id with None => Err ErrNotCurrent | Some h => Ok h end.

Definition lock_current (r : Records) (h : IdentityHash) (id : Z) : bool :=
  match r_records r !! h with Some rec => cr_Incarnation rec =? id | None => 0 =? id end.

(** The end of [Remove]. *)
Definition forget (h : IdentityHash) (id : Z) (r : Records) : Records :=
  mkRecords (delete h (r_records r)) (delete id (r_byID r)) (r_failed r).

(** [settle] when the directory cannot be synced. *)
Definition fail_records (r : Records) : Records := mkRecords (r_records r) (r_byID r) true.

(** ** The directory *)

(** What a name may hold after a crash, and what it holds now. *)
Abbreviation directory := (gmap IdentityHash (list (option recordJSON))).

Definition possible (d : directory) (h : IdentityHash) : list (option recordJSON) := default [None] (d !! h).
Definition holds_now (d : directory) (h : IdentityHash) : option recordJSON := default None (last (possible d h)).

(** A rename or an unlink, not yet durable; then a sync of the directory. *)
Definition change (h : IdentityHash) (v : option recordJSON) (d : directory) : directory := <[h := possible d h ++ [v]]> d.
Definition sync (d : directory) : directory := (fun vs => [default None (last vs)]) <$> d.

(** * Interleavings *)

(** A transition past its lock: before its rename or unlink, between that and
    the sync, and between the sync and the change in memory. *)
Inductive phase :=
| Writing (rec : ClientRecord) (old : Z)
| Renamed (rec : ClientRecord) (old : Z)
| Settled (rec : ClientRecord) (old : Z)
| Removing (id : Z)
| Unlinked (id : Z)
| Gone (id : Z).

(** [w_tried] is a ghost: what was tried on an identity since the last
    transition of it that was reported a success. *)
Record world := mkWorld {
  w_mem : Records;
  w_dir : directory;
  w_flight : gmap IdentityHash phase;
  w_tried : gmap IdentityHash (list (option ClientRecord));
}.

Definition tried (w : world) (h : IdentityHash) : list (option ClientRecord) := default [] (w_tried w !! h).

Definition phase_id (ph : phase) : option Z :=
  match ph with Writing rec _ | Renamed rec _ | Settled rec _ => Some (cr_Incarnation rec) | _ => None end.

(** A process that stops at any moment leaves one of the possible values at
    each name; the next one opens the directory with those files in any order,
    and whatever temporaries, which it can remove. *)
Definition file_of (e : dir_entry) : option (IdentityHash * recordJSON) :=
  if e_isDir e || is_temporary (e_name e) then None
  else match entry_hash (e_name e), e_body e with Ok h, Body j => Some (h, j) | _, _ => None end.

Definition temporary (e : dir_entry) : Prop := e_isDir e = false /\ is_temporary (e_name e) = true /\ e_removed e = true.

Record crash (d : directory) (entries : list dir_entry) : Prop := {
  cr_kinds : Forall (fun e => temporary e \/ is_Some (file_of e)) entries;
  cr_nodup : NoDup (omap file_of entries).*1;
  cr_files : forall h, (list_to_map (omap file_of entries) : gmap IdentityHash recordJSON) !! h ∈ possible d h;
}.

(** The steps of the transitions. A new incarnation is random, so that no
    transition in progress has it. [lock_lookup] before the lock names the
    identity; the check after it decides. *)
Inductive step : world -> world -> Prop :=
| step_confirm w owner verifier principal id now rec old :
    confirm_check (w_mem w) owner verifier principal id now = Ok (rec, old) -> w_flight w !! HashOwner owner = None ->
    is_u64 id -> length verifier = 8%nat -> (forall h ph, w_flight w !! h = Some ph -> phase_id ph <> Some id) ->
    step w (mkWorld (w_mem w) (w_dir w) (<[HashOwner owner := Writing rec old]> (w_flight w)) (w_tried w))
| step_write_fails w h rec old : w_flight w !! h = Some (Writing rec old) ->
    step w (mkWorld (w_mem w) (w_dir w) (delete h (w_flight w)) (w_tried w))
| step_rename w h rec old : w_flight w !! h = Some (Writing rec old) ->
    step w (mkWorld (w_mem w) (change h (Some (newRecordJSON rec)) (w_dir w)) (<[h := Renamed rec old]> (w_flight w)) (<[h := tried w h ++ [Some rec]]> (w_tried w)))
| step_sync w h rec old : w_flight w !! h = Some (Renamed rec old) ->
    step w (mkWorld (w_mem w) (sync (w_dir w)) (<[h := Settled rec old]> (w_flight w)) (w_tried w))
| step_sync_fails w h rec old : w_flight w !! h = Some (Renamed rec old) ->
    step w (mkWorld (fail_records (w_mem w)) (w_dir w) (delete h (w_flight w)) (w_tried w))
| step_publish w h rec old : w_flight w !! h = Some (Settled rec old) ->
    step w (mkWorld (publish rec old (w_mem w)) (w_dir w) (delete h (w_flight w)) (delete h (w_tried w)))
| step_remove w h id : w_flight w !! h = None -> id <> 0 -> lock_current (w_mem w) h id = true ->
    step w (mkWorld (w_mem w) (w_dir w) (<[h := Removing id]> (w_flight w)) (w_tried w))
| step_unlink_fails w h id : w_flight w !! h = Some (Removing id) ->
    step w (mkWorld (w_mem w) (w_dir w) (delete h (w_flight w)) (w_tried w))
| step_unlink w h id : w_flight w !! h = Some (Removing id) ->
    step w (mkWorld (w_mem w) (change h None (w_dir w)) (<[h := Unlinked id]> (w_flight w)) (<[h := tried w h ++ [None]]> (w_tried w)))
| step_sync_unlink w h id : w_flight w !! h = Some (Unlinked id) ->
    step w (mkWorld (w_mem w) (sync (w_dir w)) (<[h := Gone id]> (w_flight w)) (w_tried w))
| step_sync_unlink_fails w h id : w_flight w !! h = Some (Unlinked id) ->
    step w (mkWorld (fail_records (w_mem w)) (w_dir w) (delete h (w_flight w)) (w_tried w))
| step_forget w h id : w_flight w !! h = Some (Gone id) ->
    step w (mkWorld (forget h id (w_mem w)) (w_dir w) (delete h (w_flight w)) (delete h (w_tried w)))
| step_restart w entries r : crash (w_dir w) entries -> Open entries = Ok r ->
    step w (mkWorld r ((fun j => [Some j]) <$> list_to_map (omap file_of entries)) ∅ ∅).

Definition new_world : world := mkWorld (mkRecords ∅ ∅ false) ∅ ∅ ∅.
Definition reachable (w : world) : Prop := rtc step new_world w.

(** * Invariant *)

Definition record_ok (h : IdentityHash) (rec : ClientRecord) : Prop :=
  Record_Hash rec = h /\ cr_Owner rec <> [] /\ cr_Incarnation rec <> 0 /\ is_u64 (cr_Incarnation rec) /\ length (cr_Verifier rec) = 8%nat.

Definition id_of (o : option ClientRecord) : Z := match o with Some rec => cr_Incarnation rec | None => 0 end.

Definition phase_record (ph : phase) : option ClientRecord :=
  match ph with Writing rec _ | Renamed rec _ | Settled rec _ => Some rec | _ => None end.

(** The directory was changed. *)
Definition changed (ph : phase) : bool := match ph with Writing _ _ | Removing _ => false | _ => true end.

(** What a transition in progress has tried. *)
Definition tried_of (o : option phase) : list (option ClientRecord) :=
  match o with Some ph => if changed ph then [phase_record ph] else [] | None => [] end.

(** An identity has a record, or had one tried, or is getting one. *)
Definition holds (w : world) (h : IdentityHash) (rec : ClientRecord) : Prop :=
  r_records (w_mem w) !! h = Some rec \/ Some rec ∈ tried w h \/ exists ph, w_flight w !! h = Some ph /\ phase_record ph = Some rec.

Definition phase_ok (w : world) (h : IdentityHash) (ph : phase) : Prop :=
  let id := id_of (r_records (w_mem w) !! h) in
  match ph with
  | Writing rec old => old = id
  | Renamed rec old => old = id /\ holds_now (w_dir w) h = Some (newRecordJSON rec)
  | Settled rec old => old = id /\ possible (w_dir w) h = [Some (newRecordJSON rec)]
  | Removing i => i = id /\ i <> 0
  | Unlinked i => i = id /\ i <> 0 /\ holds_now (w_dir w) h = None
  | Gone i => i = id /\ i <> 0 /\ possible (w_dir w) h = [None]
  end.

Record Inv (w : world) : Prop := {
  iv_byID : forall id h, r_byID (w_mem w) !! id = Some h <-> exists rec, r_records (w_mem w) !! h = Some rec /\ cr_Incarnation rec = id;
  iv_ok : forall h rec, holds w h rec -> record_ok h rec;
  iv_disk : forall h v, v ∈ possible (w_dir w) h -> exists o, v = newRecordJSON <$> o /\ (o = r_records (w_mem w) !! h \/ o ∈ tried w h);
  iv_possible : forall h, possible (w_dir w) h <> [];
  iv_phase : forall h ph, w_flight w !! h = Some ph -> phase_ok w h ph;
  iv_clean : forall h, r_failed (w_mem w) = false -> tried w h = tried_of (w_flight w !! h);
  iv_unique : forall h h' rec rec', holds w h rec -> holds w h' rec' -> cr_Incarnation rec = cr_Incarnation rec' -> h = h';
}.

Lemma possible_change h v d h' : possible (change h v d) h' = if decide (h = h') then possible d h ++ [v] else possible d h'.
Proof. unfold change, possible at 1. destruct (decide (h = h')) as [->|Hne]; [by rewrite lookup_insert_eq | by rewrite lookup_insert_ne]. Qed.

Lemma holds_now_change h v d h' : holds_now (change h v d) h' = if decide (h = h') then v else holds_now d h'.
Proof. unfold holds_now. rewrite possible_change. destruct (decide (h = h')); [|done]. by rewrite last_snoc. Qed.

Lemma possible_sync d h : possible (sync d) h = [holds_now d h].
Proof. unfold holds_now, possible, sync. rewrite lookup_fmap. by destruct (d !! h). Qed.

Lemma holds_now_sync d h : holds_now (sync d) h = holds_now d h.
Proof. unfold holds_now at 1. by rewrite possible_sync. Qed.

Lemma possible_last d h : possible d h <> [] -> holds_now d h ∈ possible d h.
Proof.
  unfold holds_now. intros Hne. destruct (last (possible d h)) as [v|] eqn:E; [|by apply last_None in E].
  simpl. by apply last_Some_elem_of in E.
Qed.

(** Only the flight of [h] changes. *)
Lemma flight_insert_inv w h ph : Inv w -> phase_ok w h ph ->
  (forall rec, phase_record ph = Some rec -> record_ok h rec /\ forall h' rec', holds w h' rec' -> cr_Incarnation rec' = cr_Incarnation rec -> h' = h) ->
  tried_of (w_flight w !! h) = tried_of (Some ph) ->
  Inv (mkWorld (w_mem w) (w_dir w) (<[h := ph]> (w_flight w)) (w_tried w)).
Proof.
  intros [] Hph Hrec Hch. set (w' := mkWorld _ _ _ _).
  assert (Hholds : forall h' rec, holds w' h' rec -> holds w h' rec \/ h' = h /\ phase_record ph = Some rec).
  { intros h' rec [H|[H|(ph' & H & Hr)]]; [left; by left | left; right; by left|]. simpl in H.
    destruct (decide (h = h')) as [<-|Hne]; [rewrite lookup_insert_eq in H; injection H as <-; by right|].
    rewrite lookup_insert_ne in H by done. left. right. right. eauto. }
  constructor; try done.
  - intros h' rec [H|[-> H]]%Hholds; [auto | by apply Hrec].
  - intros h' ph' H. simpl in H. destruct (decide (h = h')) as [<-|Hne]; [rewrite lookup_insert_eq in H; by injection H as <-|].
    rewrite lookup_insert_ne in H by done. by apply iv_phase0.
  - intros h' Hf. simpl. destruct (decide (h = h')) as [<-|Hne]; [|by rewrite lookup_insert_ne; [apply iv_clean0|]].
    rewrite lookup_insert_eq, <- Hch. by apply iv_clean0.
  - intros h1 h2 r1 r2 [H1|[-> H1]]%Hholds [H2|[-> H2]]%Hholds E; [eauto | by eapply (proj2 (Hrec _ H2)) | symmetry; by eapply (proj2 (Hrec _ H1)) | done].
Qed.

Lemma flight_delete_inv w h : Inv w -> (r_failed (w_mem w) = true \/ tried_of (w_flight w !! h) = []) ->
  Inv (mkWorld (w_mem w) (w_dir w) (delete h (w_flight w)) (w_tried w)).
Proof.
  intros [] Hh. set (w' := mkWorld _ _ _ _).
  assert (Hfl : forall h' ph, w_flight w' !! h' = Some ph -> w_flight w !! h' = Some ph /\ h' <> h).
  { intros h' ph H. simpl in H. destruct (decide (h = h')) as [<-|Hne]; [by rewrite lookup_delete_eq in H|]. rewrite lookup_delete_ne in H by done. done. }
  assert (Hholds : forall h' rec, holds w' h' rec -> holds w h' rec).
  { intros h' rec [H|[H|(ph' & H & Hr)]]; [by left | right; by left|]. apply Hfl in H as [H _]. right. right. eauto. }
  constructor; try done.
  - eauto.
  - intros h' ph' [H _]%Hfl. by apply iv_phase0.
  - intros h' Hf. simpl. destruct (decide (h = h')) as [<-|Hne]; [|by rewrite lookup_delete_ne; [apply iv_clean0|]].
    rewrite lookup_delete_eq. destruct Hh as [Hh|Hh]; [simpl in Hf; congruence|]. transitivity (tried_of (w_flight w !! h)); [by apply iv_clean0 | done].
  - eauto.
Qed.

(** A rename or an unlink by the transition of [h]. *)
Lemma change_file_inv w h ph v ph' : Inv w -> w_flight w !! h = Some ph -> changed ph = false -> v = phase_record ph ->
  phase_record ph' = phase_record ph -> changed ph' = true ->
  let w' := mkWorld (w_mem w) (change h (newRecordJSON <$> v) (w_dir w)) (<[h := ph']> (w_flight w)) (<[h := tried w h ++ [v]]> (w_tried w)) in
  phase_ok w' h ph' -> Inv w'.
Proof.
  intros [] Hfl Hc0 Hv Hr Hc w' Hok.
  assert (Htried : forall h', tried w' h' = if decide (h = h') then tried w h ++ [v] else tried w h').
  { intros h'. unfold tried at 1. simpl. destruct (decide (h = h')) as [<-|Hne]; [by rewrite lookup_insert_eq | by rewrite lookup_insert_ne]. }
  assert (Hflight : forall h' p, w_flight w' !! h' = Some p -> h' = h /\ p = ph' \/ h' <> h /\ w_flight w !! h' = Some p).
  { intros h' p H. simpl in H. destruct (decide (h = h')) as [<-|Hne]; [rewrite lookup_insert_eq in H; injection H as <-; by left|].
    rewrite lookup_insert_ne in H by done. by right. }
  assert (Hholds : forall h' rec, holds w' h' rec -> holds w h' rec).
  { intros h' rec [H|[H|(p & H & Hp)]]; [by left| |].
    - rewrite Htried in H. destruct (decide (h = h')) as [<-|Hne]; [|right; by left]. apply elem_of_app in H as [H|H%list_elem_of_singleton]; [right; by left|].
      right. right. exists ph. split; [done | congruence].
    - right. right. apply Hflight in H as [[-> ->]|[_ H]]; [exists ph; split; [done | congruence] | eauto]. }
  constructor; try done.
  - eauto.
  - intros h' v' H. simpl in H. rewrite possible_change in H. rewrite Htried. destruct (decide (h = h')) as [<-|Hne]; [|by apply iv_disk0].
    apply elem_of_app in H as [H|H%list_elem_of_singleton].
    + destruct (iv_disk0 h v' H) as (o & -> & [Ho|Ho]); exists o; split; [done|by left|done|]. right. apply elem_of_app. by left.
    + exists v. split; [done|]. right. apply elem_of_app. right. by apply list_elem_of_singleton.
  - intros h'. simpl. rewrite possible_change. destruct (decide (h = h')); [by destruct (possible (w_dir w) h) | apply iv_possible0].
  - intros h' p [[-> ->]|[Hne H]]%Hflight; [done|]. specialize (iv_phase0 h' p H). unfold phase_ok in *. simpl.
    rewrite possible_change, holds_now_change. by destruct (decide (h = h')) as [->|].
  - intros h' Hf. rewrite Htried. simpl. destruct (decide (h = h')) as [<-|Hne]; [|by rewrite lookup_insert_ne; [apply iv_clean0|]].
    rewrite lookup_insert_eq, (iv_clean0 h Hf), Hfl. simpl. by rewrite Hc, Hc0, Hr, Hv.
  - eauto.
Qed.

Lemma sync_inv w : Inv w -> Inv (mkWorld (w_mem w) (sync (w_dir w)) (w_flight w) (w_tried w)).
Proof.
  intros []. constructor; try done.
  - intros h v H. simpl in H. rewrite possible_sync in H. apply list_elem_of_singleton in H as ->. by apply iv_disk0, possible_last.
  - intros h. simpl. by rewrite possible_sync.
  - intros h ph H. specialize (iv_phase0 h ph H). unfold phase_ok in *. simpl. rewrite possible_sync, holds_now_sync.
    destruct ph; try done; unfold holds_now; [destruct iv_phase0 as [? ->] | destruct iv_phase0 as (? & ? & ->)]; done.
Qed.

Lemma fail_inv w : Inv w -> Inv (mkWorld (fail_records (w_mem w)) (w_dir w) (w_flight w) (w_tried w)).
Proof. intros []. by constructor. Qed.

(** ** The two maps *)

Definition mirrors (B : gmap Z IdentityHash) (M : gmap IdentityHash ClientRecord) : Prop :=
  forall id h, B !! id = Some h <-> exists rec, M !! h = Some rec /\ cr_Incarnation rec = id.

Lemma mirrors_unique B M h h' rec rec' : mirrors B M -> M !! h = Some rec -> M !! h' = Some rec' -> cr_Incarnation rec = cr_Incarnation rec' -> h = h'.
Proof. intros HB H H' E. assert (H1 : B !! cr_Incarnation rec = Some h) by (apply HB; eauto). assert (H2 : B !! cr_Incarnation rec = Some h') by (apply HB; eauto). congruence. Qed.

Lemma mirrors_forget B M h rec : mirrors B M -> M !! h = Some rec -> mirrors (delete (cr_Incarnation rec) B) (delete h M).
Proof.
  intros HB H id h'. destruct (decide (cr_Incarnation rec = id)) as [<-|Hne].
  - rewrite lookup_delete_eq. split; [done|]. intros (rec' & Hd & E). apply lookup_delete_Some in Hd as [Hn Hd].
    destruct Hn. by eapply mirrors_unique.
  - rewrite lookup_delete_ne by done. rewrite (HB id h'). split; intros (rec' & Hr & E); exists rec'.
    + split; [|done]. apply lookup_delete_Some. split; [congruence | done].
    + apply lookup_delete_Some in Hr as [_ Hr]. done.
Qed.

Lemma mirrors_insert B M h rec : mirrors B M -> M !! h = None -> (forall h' rec', M !! h' = Some rec' -> cr_Incarnation rec' <> cr_Incarnation rec) ->
  mirrors (<[cr_Incarnation rec := h]> B) (<[h := rec]> M).
Proof.
  intros HB Hn Hu id h'. destruct (decide (cr_Incarnation rec = id)) as [<-|Hne].
  - rewrite lookup_insert_eq. split; [intros [= <-]; exists rec; by rewrite lookup_insert_eq|]. intros (rec' & Hd & E).
    destruct (decide (h = h')) as [<-|Hh]; [done|]. rewrite lookup_insert_ne in Hd by done. by destruct (Hu _ _ Hd).
  - rewrite lookup_insert_ne by done. rewrite (HB id h'). destruct (decide (h = h')) as [<-|Hh]; [|by rewrite lookup_insert_ne].
    rewrite lookup_insert_eq, Hn. split; [by intros (? & ? & _) | intros (? & [= <-] & ?); done].
Qed.

(** The end of a transition of [h] whose value [o] is settled. *)
Lemma report_inv w h ph o mem' : Inv w -> w_flight w !! h = Some ph -> possible (w_dir w) h = [newRecordJSON <$> o] ->
  (forall rec, o = Some rec -> phase_record ph = Some rec) -> mirrors (r_byID mem') (r_records mem') ->
  (forall h', r_records mem' !! h' = if decide (h = h') then o else r_records (w_mem w) !! h') -> r_failed mem' = r_failed (w_mem w) ->
  Inv (mkWorld mem' (w_dir w) (delete h (w_flight w)) (delete h (w_tried w))).
Proof.
  intros [] Hfl Hpos Ho Hm Hrec Hf. set (w' := mkWorld _ _ _ _).
  assert (Htried : forall h', tried w' h' = if decide (h = h') then [] else tried w h').
  { intros h'. unfold tried at 1. simpl. destruct (decide (h = h')) as [<-|Hne]; [by rewrite lookup_delete_eq | by rewrite lookup_delete_ne]. }
  assert (Hflight : forall h' p, w_flight w' !! h' = Some p -> h <> h' /\ w_flight w !! h' = Some p) by (intros h' p H; simpl in H; by apply lookup_delete_Some in H).
  assert (Hholds : forall h' rec, holds w' h' rec -> holds w h' rec).
  { intros h' rec [H|[H|(p & H & Hp)]].
    - simpl in H. rewrite Hrec in H. destruct (decide (h = h')) as [<-|]; [|by left]. right. right. eauto.
    - rewrite Htried in H. destruct (decide (h = h')); [by apply not_elem_of_nil in H | right; by left].
    - apply Hflight in H as [_ H]. right. right. eauto. }
  constructor; try done.
  - eauto.
  - intros h' v H. rewrite Htried. simpl in *. rewrite Hrec. destruct (decide (h = h')) as [<-|]; [|by apply iv_disk0].
    rewrite Hpos in H. apply list_elem_of_singleton in H as ->. exists o. split; [done | by left].
  - intros h' p [Hne H]%Hflight. specialize (iv_phase0 h' p H). unfold phase_ok in *. simpl. by rewrite Hrec, decide_False.
  - intros h' Hf'. rewrite Htried. simpl in *. destruct (decide (h = h')) as [<-|Hne]; [by rewrite lookup_delete_eq|]. rewrite lookup_delete_ne by done.
    apply iv_clean0. congruence.
  - eauto.
Qed.

(** ** Texts *)

Lemma hex_value_digit d : 0 <= d < 16 -> hex_value (hex_digit d) = Some d.
Proof.
  intros Hd. unfold hex_value, hex_digit. rewrite byte_val_of. destruct (Z.ltb_spec d 10).
  - rewrite Z.mod_small by lia. rewrite (proj2 (Z.leb_le 48 (48 + d))), (proj2 (Z.leb_le (48 + d) 57)) by lia. simpl. f_equal. lia.
  - rewrite Z.mod_small by lia. rewrite (proj2 (Z.leb_le 48 (87 + d))), (proj2 (Z.leb_gt (87 + d) 57)) by lia. cbn [andb].
    rewrite (proj2 (Z.leb_le 97 (87 + d))), (proj2 (Z.leb_le (87 + d) 102)) by lia. cbn [andb]. f_equal. lia.
Qed.

Lemma nibbles (b : byte) : 0 <= byte_val b / 16 < 16 /\ 0 <= byte_val b mod 16 < 16 /\ 16 * (byte_val b / 16) + byte_val b mod 16 = byte_val b.
Proof.
  pose proof (byte_val_bound b). pose proof (Z.mod_pos_bound (byte_val b) 16 ltac:(lia)). pose proof (Z.div_mod (byte_val b) 16 ltac:(lia)).
  split_and!; lia.
Qed.

Lemma hex_encode_cons b bs : hex_encode (b :: bs) = hex_digit (byte_val b / 16) :: hex_digit (byte_val b mod 16) :: hex_encode bs.
Proof. done. Qed.

Lemma hex_Decode_encode bs : forall room, (length bs <= room)%nat -> hex_Decode room (hex_encode bs) = Ok bs.
Proof.
  induction bs as [|b bs IH]; intros room Hr; [done|]. destruct (nibbles b) as (H1 & H2 & H3). rewrite hex_encode_cons. cbn [hex_Decode].
  rewrite !hex_value_digit by done. simpl in Hr. destruct room as [|room]; [lia|]. rewrite IH, H3, byte_of_val by lia. done.
Qed.

Lemma hex_Decode_long bs : forall room, (room < length bs)%nat -> hex_Decode room (hex_encode bs) = Panic.
Proof.
  induction bs as [|b bs IH]; intros room Hr; simpl in Hr; [lia|]. destruct (nibbles b) as (H1 & H2 & H3). rewrite hex_encode_cons. cbn [hex_Decode].
  rewrite !hex_value_digit by done. destruct room as [|room]; [done|]. rewrite IH by lia. done.
Qed.

Lemma be_val_cons b bs : be_val (b :: bs) = byte_val b * 256 ^ Z.of_nat (length bs) + be_val bs.
Proof.
  unfold be_val. rewrite reverse_cons, <- (length_reverse bs). assert (Hc : forall x l, le_val (x :: l) = byte_val x + 256 * le_val l) by done.
  induction (reverse bs) as [|x l IH]; cbn [app length]; rewrite !Hc; [|rewrite IH, pow256_S; ring].
  change (le_val []) with 0. change (Z.of_nat 0) with 0. rewrite Z.pow_0_r. lia.
Qed.

Lemma parse_hex_encode bs v : parse_hex (hex_encode bs) v = Some (v * 256 ^ Z.of_nat (length bs) + be_val bs).
Proof.
  revert v. induction bs as [|b bs IH]; intros v; [change (be_val []) with 0; simpl; f_equal; lia|]. destruct (nibbles b) as (H1 & H2 & H3).
  rewrite hex_encode_cons. cbn [parse_hex]. rewrite !hex_value_digit by done. rewrite IH, be_val_cons. simpl length. rewrite pow256_S. f_equal. rewrite <- H3 at 3. ring.
Qed.

Lemma length_hex_encode bs : length (hex_encode bs) = (2 * length bs)%nat.
Proof. induction bs as [|b bs IH]; [done|]. rewrite hex_encode_cons. simpl. rewrite IH. lia. Qed.

Lemma incarnation_text id : is_u64 id -> Incarnation_UnmarshalText (Incarnation_String id) = Some id.
Proof.
  intros H. unfold Incarnation_UnmarshalText, Incarnation_String. rewrite length_hex_encode, length_be_bytes. cbn [Nat.mul Nat.add Nat.eqb negb].
  rewrite parse_hex_encode, be_val_bytes_u64 by done. done.
Qed.

Lemma json_record_new rec : is_u64 (cr_Incarnation rec) -> length (cr_Verifier rec) = 8%nat -> json_record (newRecordJSON rec) = Ok rec.
Proof.
  intros H1 H2. unfold json_record, newRecordJSON. cbn [j_ID j_Verifier]. rewrite incarnation_text by done.
  unfold hexVerifier_UnmarshalText, hexVerifier_MarshalText. rewrite hex_Decode_encode by lia. cbn [mbind outcome_bind]. rewrite length_hex_encode, H2. by destruct rec.
Qed.

Lemma load_ok name h rec : entry_hash name = Ok h -> record_ok h rec -> load name (Body (newRecordJSON rec)) = Ok (rec, false).
Proof.
  intros Hn (Hh & Ho & Hi & Hu & Hv). unfold load. rewrite Hn. cbn [mbind outcome_bind]. rewrite json_record_new by done. cbn [mbind outcome_bind].
  destruct (cr_Owner rec) eqn:E; [done|]. cbn [length Nat.eqb].
  rewrite bool_decide_eq_true_2 by done. simpl. by rewrite (proj2 (Z.eqb_neq _ _)).
Qed.

Lemma hex_encode_first b bs : exists c rest, hex_encode (b :: bs) = c :: rest /\ 48 <= byte_val c.
Proof.
  rewrite hex_encode_cons. do 2 eexists; split; [done|]. destruct (nibbles b) as (H1 & _ & _). unfold hex_digit. rewrite byte_val_of.
  destruct (Z.ltb_spec (byte_val b / 16) 10); rewrite Z.mod_small; lia.
Qed.

(** A name in hexadecimal is no temporary's. *)
Lemma hex_encode_permanent b bs : is_temporary (hex_encode (b :: bs)) = false.
Proof.
  destruct (hex_encode_first b bs) as (c & rest & -> & Hc). unfold is_temporary, has_prefix. rewrite bool_decide_eq_false_2; [done|].
  intros E. injection E as ->. by vm_compute in Hc.
Qed.

(** ** Opening *)

Lemma file_of_some e h j : file_of e = Some (h, j) ->
  e_isDir e = false /\ is_temporary (e_name e) = false /\ entry_hash (e_name e) = Ok h /\ e_body e = Body j.
Proof.
  unfold file_of. destruct (e_isDir e), (is_temporary (e_name e)); try done. simpl.
  destruct (entry_hash (e_name e)), (e_body e); try done. by intros [= -> ->].
Qed.

Lemma open_entries_ok entries : forall recs r,
  omap file_of entries = prod_map id newRecordJSON <$> recs -> Forall (fun e => temporary e \/ is_Some (file_of e)) entries ->
  Forall (fun p => record_ok p.1 p.2) recs -> NoDup recs.*1 ->
  (forall p q, p ∈ recs -> q ∈ recs -> cr_Incarnation p.2 = cr_Incarnation q.2 -> p.1 = q.1) ->
  (forall p, p ∈ recs -> r_records r !! p.1 = None /\ forall h' rec', r_records r !! h' = Some rec' -> cr_Incarnation rec' <> cr_Incarnation p.2) ->
  mirrors (r_byID r) (r_records r) ->
  exists r', open_entries entries r = Ok r' /\ mirrors (r_byID r') (r_records r') /\ r_failed r' = r_failed r /\
    forall h, r_records r' !! h = match (list_to_map recs : gmap IdentityHash ClientRecord) !! h with Some rec => Some rec | None => r_records r !! h end.
Proof.
  induction entries as [|e entries IH]; intros recs r Homap Hk Hok Hnd Hu Hfresh Hm.
  { destruct recs; [|done]. exists r. split_and!; try done. }
  inversion Hk as [|? ? [Ht|[[h j] He]] Hk']; subst.
  { destruct Ht as (Hd & Ht & Hrm). cbn [open_entries]. rewrite Hd, Ht, Hrm. apply IH; try done.
    rewrite <- Homap. simpl. unfold file_of at 2. by rewrite Hd, Ht. }
  simpl in Homap. rewrite He in Homap. destruct recs as [|[h0 rec] recs]; [done|]. injection Homap as -> -> Homap.
  apply file_of_some in He as (Hd & Ht & Hn & Hb).
  apply Forall_cons in Hok as [Hrec Hok]. simpl in Hrec. apply NoDup_cons in Hnd as [Hnot Hnd].
  destruct (Hfresh (h0, rec) ltac:(left)) as [Hnone Hids]. simpl in Hnone, Hids.
  cbn [open_entries id prod_map fst snd]. rewrite Hd, Ht, Hb, (load_ok _ h0 rec Hn Hrec). cbn [mbind outcome_bind].
  destruct (r_byID r !! cr_Incarnation rec) as [h'|] eqn:Hby; [apply Hm in Hby as (rec' & Hr' & E); by destruct (Hids _ _ Hr')|].
  rewrite (proj1 Hrec).
  destruct (IH recs (mkRecords (<[h0 := rec]> (r_records r)) (<[cr_Incarnation rec := h0]> (r_byID r)) (r_failed r))) as (r' & H1 & H2 & H3 & H4); try done.
  - intros p q Hp Hq. apply Hu; by right.
  - intros p Hp. simpl. destruct (Hfresh p ltac:(by right)) as [Hpn Hpi].
    assert (Hne : h0 <> p.1) by (intros E; apply Hnot; simpl; rewrite E; apply (list_elem_of_fmap_2 fst); exact Hp).
    rewrite lookup_insert_ne by done. split; [done|]. intros h' rec' Hr' E. destruct (decide (h0 = h')) as [<-|]; [|rewrite lookup_insert_ne in Hr' by done; by destruct (Hpi _ _ Hr')].
    rewrite lookup_insert_eq in Hr'. injection Hr' as <-. destruct Hne. by apply (Hu (h0, rec) p); [left | by right|].
  - by apply mirrors_insert.
  - exists r'. split_and!; try done. intros h. rewrite H4. simpl. destruct (decide (h0 = h)) as [<-|Hne].
    + rewrite !lookup_insert_eq. by rewrite not_elem_of_list_to_map_1.
    + by rewrite !lookup_insert_ne.
Qed.

Lemma Forall_choice {A B} (P : A -> B -> Prop) (l : list A) : Forall (fun a => exists b, P a b) l -> exists l', Forall2 P l l'.
Proof. induction 1 as [|a l [b Hb] _ [l' IH]]; [by exists [] | exists (b :: l'); by constructor]. Qed.

(** What a process finds after a crash. *)
Lemma open_crash w entries : Inv w -> crash (w_dir w) entries ->
  exists r, Open entries = Ok r /\ r_failed r = false /\ mirrors (r_byID r) (r_records r) /\
    (forall h, Some (newRecordJSON <$> r_records r !! h) = Some ((list_to_map (omap file_of entries) : gmap IdentityHash recordJSON) !! h)) /\
    forall h, r_records r !! h = r_records (w_mem w) !! h \/ r_records r !! h ∈ tried w h.
Proof.
  intros HI [Hk Hnd Hfiles]. set (files := omap file_of entries) in *.
  assert (Hch : Forall (fun p => exists q : IdentityHash * ClientRecord, p = prod_map id newRecordJSON q /\ holds w q.1 q.2 /\
    (Some q.2 = r_records (w_mem w) !! q.1 \/ Some q.2 ∈ tried w q.1)) files).
  { apply Forall_forall. intros [h j] Hin. pose proof (elem_of_list_to_map_1 files h j Hnd Hin) as Hl. specialize (Hfiles h). rewrite Hl in Hfiles.
    destruct (iv_disk _ HI h _ Hfiles) as ([rec|] & E & Ho); [|done]. injection E as ->. exists (h, rec). split; [done|]. split; [|done].
    destruct Ho as [Ho|Ho]; [by left | right; by left]. }
  apply Forall_choice in Hch as [recs Hrecs].
  assert (Hfl : files = prod_map id newRecordJSON <$> recs) by (clear -Hrecs; induction Hrecs as [|? ? ? ? [-> _] _ IH]; [done | simpl; by f_equal]).
  assert (Hgood : forall q, q ∈ recs -> holds w q.1 q.2 /\ (Some q.2 = r_records (w_mem w) !! q.1 \/ Some q.2 ∈ tried w q.1)).
  { intros q Hq. apply list_elem_of_lookup in Hq as [i Hi]. destruct (Forall2_lookup_r _ _ _ _ _ Hrecs Hi) as (p & _ & _ & Hp). done. }
  assert (Hkeys : recs.*1 = files.*1) by (rewrite Hfl, <- list_fmap_compose; done).
  destruct (open_entries_ok entries recs (mkRecords ∅ ∅ false)) as (r & Hopen & Hm & Hf & Hr); try done.
  - apply Forall_forall. intros q Hq. by apply (iv_ok _ HI), Hgood.
  - by rewrite Hkeys.
  - intros q q' Hq Hq' E. eapply (iv_unique _ HI); [apply Hgood, Hq | apply Hgood, Hq' | done].
  - intros id h. simpl. rewrite lookup_empty. split; [done|]. intros (rec & H & _). by rewrite lookup_empty in H.
  - assert (Hlook : forall h, r_records r !! h = (list_to_map recs : gmap IdentityHash ClientRecord) !! h)
      by (intros h; rewrite Hr; simpl; rewrite lookup_empty; by destruct (list_to_map recs !! h)).
    assert (Hjs : forall h, newRecordJSON <$> r_records r !! h = (list_to_map files : gmap IdentityHash recordJSON) !! h).
    { intros h. rewrite Hlook, Hfl. rewrite <- lookup_fmap. by rewrite list_to_map_fmap. }
    exists r. split_and!; try done; [intros h; by rewrite Hjs|]. intros h. rewrite Hlook. destruct (list_to_map recs !! h) as [rec|] eqn:E.
    + apply elem_of_list_to_map_2, Hgood in E as [_ [E|E]]; simpl in E; [by left | by right].
    + specialize (Hjs h). rewrite Hlook, E in Hjs. specialize (Hfiles h). rewrite <- Hjs in Hfiles.
      destruct (iv_disk _ HI h _ Hfiles) as ([rec|] & Eo & Ho); [done|]. destruct Ho as [Ho|Ho]; [by left | by right].
Qed.

(** ** Steps *)

Lemma new_world_inv : Inv new_world.
Proof.
  assert (Hholds : forall h rec, ~ holds new_world h rec).
  { intros h rec [H|[H|(ph & H & _)]]; [exact (lookup_empty_Some _ _ H) | exact (not_elem_of_nil _ H) | exact (lookup_empty_Some _ _ H)]. }
  constructor; cbn [w_mem w_dir w_flight w_tried new_world].
  - intros id h. split; [intros H; destruct (lookup_empty_Some _ _ H)|]. intros (rec & H & _). destruct (lookup_empty_Some _ _ H).
  - intros h rec H. by apply Hholds in H.
  - intros h v H. unfold possible in H. rewrite lookup_empty in H. apply list_elem_of_singleton in H as ->. exists None. split; [done|]. by left.
  - intros h. unfold possible. by rewrite lookup_empty.
  - intros h ph H. destruct (lookup_empty_Some _ _ H).
  - done.
  - intros h h' rec rec' H. by apply Hholds in H.
Qed.

Lemma confirm_inv w owner verifier principal id now rec old : Inv w ->
  confirm_check (w_mem w) owner verifier principal id now = Ok (rec, old) -> w_flight w !! HashOwner owner = None ->
  is_u64 id -> length verifier = 8%nat -> (forall h ph, w_flight w !! h = Some ph -> phase_id ph <> Some id) ->
  Inv (mkWorld (w_mem w) (w_dir w) (<[HashOwner owner := Writing rec old]> (w_flight w)) (w_tried w)).
Proof.
  intros HI H Hn Hid Hv Hfree. unfold confirm_check in H. destruct (Nat.eqb_spec (length owner) 0) as [|Ho]; [done|].
  destruct (Z.eqb_spec id 0) as [|Hz]; [done|]. destruct (r_failed (w_mem w)) eqn:Hf; [done|]. unfold InUse in H.
  destruct (bool_decide (is_Some (r_byID (w_mem w) !! id))) eqn:Hu; [done|]. apply bool_decide_eq_false in Hu. injection H as <- <-.
  apply flight_insert_inv; try done; [|by rewrite Hn]. intros rec [= <-]. split; [split_and!; try done; simpl; by destruct owner|].
  intros h' rec' [Hr|[Hr|(ph & Hp & Hr)]] E; exfalso; simpl in E.
  - apply Hu. exists h'. apply (iv_byID _ HI). eauto.
  - rewrite (iv_clean _ HI h' Hf) in Hr. destruct (w_flight w !! h') as [ph|] eqn:Hp; [|by apply not_elem_of_nil in Hr].
    simpl in Hr. destruct (changed ph); [|by apply not_elem_of_nil in Hr]. apply list_elem_of_singleton in Hr. apply (Hfree h' ph Hp).
    destruct ph; simpl in Hr |- *; congruence.
  - apply (Hfree h' ph Hp). destruct ph; simpl in Hr |- *; congruence.
Qed.

Lemma id_of_some o id : id_of o = id -> id <> 0 -> exists rec, o = Some rec /\ cr_Incarnation rec = id.
Proof. destruct o as [rec|]; [eauto|]. by intros <-. Qed.

Lemma publish_inv w h rec old : Inv w -> w_flight w !! h = Some (Settled rec old) ->
  Inv (mkWorld (publish rec old (w_mem w)) (w_dir w) (delete h (w_flight w)) (delete h (w_tried w))).
Proof.
  intros HI Hfl. destruct (iv_phase _ HI _ _ Hfl) as [Hold Hpos].
  assert (Hh : holds w h rec) by (right; right; exists (Settled rec old); done). destruct (iv_ok _ HI _ _ Hh) as (Hhash & _).
  eapply (report_inv w h (Settled rec old) (Some rec)); try done; unfold publish; rewrite Hhash; cbn [r_byID r_records].
  - destruct (r_records (w_mem w) !! h) as [r0|] eqn:H0; simpl in Hold; subst old.
    + rewrite <- (insert_delete_eq (r_records (w_mem w)) h rec). apply mirrors_insert; [by apply mirrors_forget; [exact (iv_byID _ HI)|] | by rewrite lookup_delete_eq|].
      intros h' rec' [Hne Hr]%lookup_delete_Some E. apply Hne. symmetry. eapply (iv_unique _ HI h' h rec' rec); [by left | done..].
    + rewrite delete_id; [apply mirrors_insert; [exact (iv_byID _ HI) | done|]|].
      * intros h' rec' Hr E. assert (h' = h) as -> by (eapply (iv_unique _ HI h' h rec' rec); [by left | done..]). congruence.
      * destruct (r_byID (w_mem w) !! 0) as [h'|] eqn:Hz; [|done]. apply (iv_byID _ HI) in Hz as (rec' & Hr & E).
        destruct (iv_ok _ HI h' rec' ltac:(by left)) as (_ & _ & Hnz & _). done.
  - intros h'. destruct (decide (h = h')) as [<-|Hne]; [by rewrite lookup_insert_eq | by rewrite lookup_insert_ne].
Qed.

Lemma forget_inv w h id : Inv w -> w_flight w !! h = Some (Gone id) ->
  Inv (mkWorld (forget h id (w_mem w)) (w_dir w) (delete h (w_flight w)) (delete h (w_tried w))).
Proof.
  intros HI Hfl. destruct (iv_phase _ HI _ _ Hfl) as (Hid & Hz & Hpos). destruct (id_of_some _ id (eq_sym Hid) Hz) as (rec & Hr & <-).
  eapply (report_inv w h (Gone (cr_Incarnation rec)) None); try done.
  - simpl. apply mirrors_forget; [exact (iv_byID _ HI) | done].
  - intros h'. simpl. destruct (decide (h = h')) as [<-|Hne]; [by rewrite lookup_delete_eq | by rewrite lookup_delete_ne].
Qed.

Lemma restart_records_inv w entries r : Inv w -> crash (w_dir w) entries -> Open entries = Ok r ->
  Inv (mkWorld r ((fun j => [Some j]) <$> list_to_map (omap file_of entries)) ∅ ∅).
Proof.
  intros HI Hc Ho. destruct (open_crash w entries HI Hc) as (r' & Ho' & Hf & Hm & Hjs & Hval). rewrite Ho in Ho'. injection Ho' as <-.
  set (w' := mkWorld _ _ _ _). assert (Hholds : forall h rec, holds w' h rec -> r_records r !! h = Some rec).
  { intros h rec [H|[H|(ph & H & _)]]; [done | destruct (not_elem_of_nil _ H) | destruct (lookup_empty_Some _ _ H)]. }
  assert (Hpos : forall h, possible (w_dir w') h = [newRecordJSON <$> r_records r !! h]).
  { intros h. specialize (Hjs h). injection Hjs as ->. unfold possible. cbn [w_dir w']. rewrite lookup_fmap. by destruct (list_to_map _ !! h). }
  constructor; try done.
  - intros h rec H%Hholds. apply (iv_ok _ HI). destruct (Hval h) as [E|E]; rewrite H in E; [by left | right; by left].
  - intros h v H. rewrite Hpos in H. apply list_elem_of_singleton in H as ->. exists (r_records r !! h). split; [done | by left].
  - intros h. by rewrite Hpos.
  - intros h h' rec rec' H%Hholds H'%Hholds E. by eapply mirrors_unique.
Qed.

Lemma records_step_inv w w' : step w w' -> Inv w -> Inv w'.
Proof.
  destruct 1 as [w owner verifier principal id now rec old Hc Hn Hid Hv Hfree|w h rec old H|w h rec old H|w h rec old H|w h rec old H|w h rec old H|
    w h id Hn Hz Hc|w h id H|w h id H|w h id H|w h id H|w h id H|w entries r Hc Ho]; intros HI.
  - by eapply confirm_inv.
  - apply flight_delete_inv; [done|]. right. by rewrite H.
  - pose proof (iv_phase _ HI _ _ H) as Hp. simpl in Hp. apply (change_file_inv w h (Writing rec old) (Some rec) (Renamed rec old)); try done.
    split; [done|]. simpl. by rewrite holds_now_change, decide_True.
  - destruct (iv_phase _ HI _ _ H) as [Hp1 Hp2]. pose proof (sync_inv w HI) as HI'.
    apply (flight_insert_inv (mkWorld (w_mem w) (sync (w_dir w)) (w_flight w) (w_tried w))); [done| | |by simpl; rewrite H].
    + split; [done|]. simpl. by rewrite possible_sync, Hp2.
    + intros r0 [= <-]. assert (Hh : holds w h rec) by (right; right; exists (Renamed rec old); done). split; [by apply (iv_ok _ HI)|].
      intros h' rec' Hh' E. by eapply (iv_unique _ HI h' h rec' rec).
  - apply (flight_delete_inv (mkWorld (fail_records (w_mem w)) (w_dir w) (w_flight w) (w_tried w))); [by apply fail_inv | by left].
  - by apply publish_inv.
  - apply flight_insert_inv; [done | | done | by rewrite Hn]. unfold lock_current in Hc. simpl. destruct (r_records (w_mem w) !! h); simpl; apply Z.eqb_eq in Hc; split; congruence.
  - apply flight_delete_inv; [done|]. right. by rewrite H.
  - destruct (iv_phase _ HI _ _ H) as [Hp1 Hp2]. apply (change_file_inv w h (Removing id) None (Unlinked id)); try done.
    split_and!; try done. simpl. by rewrite holds_now_change, decide_True.
  - destruct (iv_phase _ HI _ _ H) as (Hp1 & Hp2 & Hp3). pose proof (sync_inv w HI) as HI'.
    apply (flight_insert_inv (mkWorld (w_mem w) (sync (w_dir w)) (w_flight w) (w_tried w))); [done| |done|by simpl; rewrite H].
    split_and!; try done. simpl. by rewrite possible_sync, Hp3.
  - apply (flight_delete_inv (mkWorld (fail_records (w_mem w)) (w_dir w) (w_flight w) (w_tried w))); [by apply fail_inv | by left].
  - by apply forget_inv.
  - by eapply restart_records_inv.
Qed.

Lemma records_reachable_inv w : reachable w -> Inv w.
Proof. unfold reachable. intros Hr. pose proof new_world_inv as HI. induction Hr; eauto using records_step_inv. Qed.

Lemma live_lookup r id rec : mirrors (r_byID r) (r_records r) ->
  Live r id = Some rec <-> exists h, Lookup r h = Some rec /\ cr_Incarnation rec = id.
Proof.
  intros Hm. unfold Live, Lookup. destruct (r_byID r !! id) as [h|] eqn:Hb.
  - apply Hm in Hb as (rec' & Hr & E). rewrite Hr. split; [intros [= <-]; eauto|]. intros (h' & Hr' & E'). f_equal.
    assert (h = h') as <- by (eapply mirrors_unique; [exact Hm | exact Hr | exact Hr' | congruence]). congruence.
  - split; [done|]. intros (h & Hr & E). assert (H : r_byID r !! id = Some h) by (apply Hm; eauto). congruence.
Qed.

(** * Properties *)


(** What a record says survives its text, and the recovery key is taken of
    one client boot: two records give one input to the hash exactly when they
    agree on the identity, the boot verifier and the principal, and not on the
    incarnation. *)
Theorem record_text_and_key prefix rec rec' : (forall owner, length (sha256 owner) = 32%nat) ->
  is_u64 (cr_Incarnation rec) -> length (cr_Verifier rec) = 8%nat -> length (cr_Verifier rec') = 8%nat ->
  is_u32 (p_Flavor (cr_Principal rec)) -> is_u32 (p_Flavor (cr_Principal rec')) ->
  json_record (newRecordJSON rec) = Ok rec /\
  (recovery_input prefix rec = recovery_input prefix rec' <->
   Record_Hash rec = Record_Hash rec' /\ cr_Verifier rec = cr_Verifier rec' /\ cr_Principal rec = cr_Principal rec').
Proof.
  intros Hsha Hu Hv Hv' Hf Hf'. split; [by apply json_record_new|]. split; [|unfold recovery_input; by intros (-> & -> & ->)].
  unfold recovery_input. intros H. apply app_inj_1 in H as [_ H]; [|done]. apply app_inj_1 in H as [-> H]; [|unfold Record_Hash, HashOwner; by rewrite !Hsha].
  apply app_inj_1 in H as [-> H]; [|by rewrite Hv, Hv']. apply app_inj_1 in H as [H1 H]; [|by rewrite !length_be_bytes].
  apply app_inj_1 in H as [_ H]; [|by rewrite !length_be_bytes]. split_and!; try done.
  destruct (cr_Principal rec), (cr_Principal rec'). simpl in *. subst. f_equal.
  rewrite <- (be_val_bytes_u32 p_Flavor0) by done. rewrite H1. by apply be_val_bytes_u32.
Qed.

(** C38: [Open] is meant to refuse with an error whatever it did not write. A file
    named by more than sixty-four hexadecimal digits makes it panic instead:
    the name is decoded into an array of thirty-two bytes before its length is
    looked at. *)
Theorem long_name_panics bs body removed entries r : (32 < length bs)%nat ->
  open_entries (mkEntry (hex_encode bs) false body removed :: entries) r = Panic.
Proof.
  intros Hl. destruct bs as [|b bs]; [simpl in Hl; lia|]. cbn [open_entries e_isDir e_name e_body e_removed].
  rewrite hex_encode_permanent. unfold load, entry_hash. by rewrite hex_Decode_long.
Qed.

End records.

(** * Examples *)

Lemma long_name_panics_witness :
  (32 < length (replicate 33 Byte.x61))%nat /\ Open id [mkEntry (hex_encode (replicate 33 Byte.x61)) false NotJSON true] = Panic.
Proof. split; [vm_compute; lia|]. apply (long_name_panics id (replicate 33 Byte.x61)). vm_compute. lia. Defined.

(** A hash for the examples: the owner, padded. *)
Definition demo_hash (owner : list byte) : list byte := take 32 (owner ++ replicate 32 Byte.x00).
Definition demo_client : ClientRecord := mkClientRecord [Byte.x61] (mkPrincipal 1 []) 5 (replicate 8 Byte.x01) 100.
Definition demo_key : list byte := demo_hash [Byte.x61].
Definition demo_writing : world := mkWorld (mkRecords ∅ ∅ false) ∅ (<[demo_key := Writing demo_client 0]> ∅) ∅.
Definition demo_world : world :=
  mkWorld (w_mem demo_writing) (change demo_key (Some (newRecordJSON demo_client)) (w_dir demo_writing))
    (<[demo_key := Renamed demo_client 0]> (w_flight demo_writing)) (<[demo_key := tried demo_writing demo_key ++ [Some demo_client]]> (w_tried demo_writing)).
Definition demo_entries : list dir_entry :=
  [mkEntry (dot ++ hex_encode demo_key ++ tmp_mark) false NotJSON true; mkEntry (hex_encode demo_key) false (Body (newRecordJSON demo_client)) true].

Lemma demo_world_reachable : reachable demo_hash demo_world.
Proof.
  eapply rtc_l; [apply (step_confirm demo_hash new_world [Byte.x61] (replicate 8 Byte.x01) (mkPrincipal 1 []) 5 100 demo_client 0); done|].
  apply rtc_once. exact (step_rename demo_hash demo_writing demo_key demo_client 0 eq_refl).
Qed.

Lemma demo_crash : crash (w_dir demo_world) demo_entries.
Proof.
  constructor.
  - apply Forall_cons; split; [left; split_and!; by vm_compute|]. apply Forall_singleton. right. vm_compute. by eexists.
  - apply (bool_decide_unpack _). by vm_compute.
  - intros h. replace (omap file_of demo_entries) with [(demo_key, newRecordJSON demo_client)] by (by vm_compute).
    unfold possible, demo_world, change. cbn [w_dir demo_writing list_to_map foldr fst snd]. destruct (decide (demo_key = h)) as [<-|Hne].
    + simpl. rewrite !lookup_insert_eq. simpl. right. left.
    + simpl. rewrite !lookup_insert_ne by done. rewrite !lookup_empty. left.
Qed.


Lemma record_text_and_key_witness :
  json_record (newRecordJSON demo_client) = Ok demo_client /\
  (recovery_input demo_hash [] demo_client = recovery_input demo_hash [] demo_client <->
   Record_Hash demo_hash demo_client = Record_Hash demo_hash demo_client /\
   cr_Verifier demo_client = cr_Verifier demo_client /\ cr_Principal demo_client = cr_Principal demo_client).
Proof.
  apply (record_text_and_key demo_hash [] demo_client demo_client); try done; try (unfold is_u64, is_u32; simpl; lia).
  intros owner. unfold demo_hash. rewrite length_take, length_app, length_replicate. lia.
Defined.
