(* ===== verification/DiskIO.v ===== *)
(** Admission of disk I/O in the block service: src/go/ternblocks/io_limits.go.

    A request takes a slot of its block service, then a worker of its class,
    waiting for either inside two bounded queues; the worker runs its job and
    gives the slot back, and the request gives the worker back. Each operation
    on a channel and each look at the clock is one step of a request, so that
    any interleaving of requests is a sequence of steps: a buffered channel is
    the number of its elements, a send needs room and a receive an element, and
    a timer can be received from once its time has come. The statistics, the
    flags and the metrics are left out. *)

From Stdlib Require Import ZArith Lia.
From stdpp Require Import base numbers option gmap relations list.
From S2P Require Import Prelude Counting.

Inductive diskIOClass := diskRead | diskWrite | diskErase.

#[export] Instance diskIOClass_eq_dec : EqDecision diskIOClass.
Proof. solve_decision. Defined.

Definition diskIOClasses : list diskIOClass := [diskRead; diskWrite; diskErase].

Record diskIOLimitOptions := mkOptions {
  o_max : diskIOClass -> Z;
  o_perService : diskIOClass -> Z;
  o_maxWaiting : Z;
  o_perServiceWaiting : Z;
  o_waitTimeout : Z; (* nanoseconds *)
}.

Definition defaultDiskIOLimitOptions : diskIOLimitOptions :=
  mkOptions (fun c => match c with diskRead => 4096 | diskWrite => 2048 | diskErase => 1024 end)
    (fun c => match c with diskRead => 128 | diskWrite => 64 | diskErase => 1 end) 4096 128 1000000000.

Definition validate (o : diskIOLimitOptions) : bool :=
  forallb (fun c => negb ((o_max o c <=? 0) || (o_perService o c <=? 0))) diskIOClasses &&
  negb ((o_maxWaiting o <? 0) || (o_perServiceWaiting o <? 0) || (o_waitTimeout o <? 0)).

(** The kinds of the requests of the block protocol. *)
Definition FETCH_BLOCK : Z := 2.
Definition WRITE_BLOCK : Z := 3.
Definition FETCH_BLOCK_WITH_CRC : Z := 4.
Definition ERASE_BLOCK : Z := 1.
Definition TEST_WRITE : Z := 5.
Definition CHECK_BLOCK : Z := 6.

Inductive diskIOError := BLOCK_SERVICE_NOT_FOUND | errDiskIOBusy.

Definition diskIORequestClass (kind : Z) : outcome diskIOError diskIOClass :=
  if (kind =? FETCH_BLOCK) || (kind =? FETCH_BLOCK_WITH_CRC) || (kind =? CHECK_BLOCK) then Ok diskRead
  else if (kind =? WRITE_BLOCK) || (kind =? TEST_WRITE) then Ok diskWrite
  else if kind =? ERASE_BLOCK then Ok diskErase
  else Panic.

(** * The limiter *)

Record diskIOLimiter := mkLimiter {
  l_services : list Z;
  l_slots : Z -> diskIOClass -> Z; (* len(service.slots[class]) *)
  l_queue : Z -> Z; (* len(service.waiting) *)
  l_waiting : Z; (* len(l.waiting) *)
  l_idle : diskIOClass -> Z; (* len(pools[class].idle) *)
  l_now : Z; (* the clock *)
}.

(** The channels are made empty and the workers of every pool sent to [idle]. *)
Definition newDiskIOLimiter (o : diskIOLimitOptions) (serviceIDs : list Z) (now : Z) : diskIOLimiter :=
  mkLimiter serviceIDs (fun _ _ => 0) (fun _ => 0) 0 (o_max o) now.

Definition add_slots (s : Z) (c : diskIOClass) (n : Z) (l : diskIOLimiter) : diskIOLimiter :=
  mkLimiter (l_services l) (fun s' c' => if decide (s = s' /\ c = c') then l_slots l s' c' + n else l_slots l s' c')
    (l_queue l) (l_waiting l) (l_idle l) (l_now l).
Definition add_queue (s n : Z) (l : diskIOLimiter) : diskIOLimiter :=
  mkLimiter (l_services l) (l_slots l) (fun s' => if decide (s = s') then l_queue l s' + n else l_queue l s') (l_waiting l) (l_idle l) (l_now l).
Definition add_waiting (n : Z) (l : diskIOLimiter) : diskIOLimiter :=
  mkLimiter (l_services l) (l_slots l) (l_queue l) (l_waiting l + n) (l_idle l) (l_now l).
Definition add_idle (c : diskIOClass) (n : Z) (l : diskIOLimiter) : diskIOLimiter :=
  mkLimiter (l_services l) (l_slots l) (l_queue l) (l_waiting l) (fun c' => if decide (c = c') then l_idle l c' + n else l_idle l c') (l_now l).
Definition set_now (now : Z) (l : diskIOLimiter) : diskIOLimiter :=
  mkLimiter (l_services l) (l_slots l) (l_queue l) (l_waiting l) (l_idle l) now.

(** [close] receives every worker of a pool; [None] is a receive that blocks. *)
Fixpoint drain (n : nat) (idle : Z) : option Z :=
  match n with O => Some idle | S n => if 0 <? idle then drain n (idle - 1) else None end.
Definition close (o : diskIOLimitOptions) (l : diskIOLimiter) : option (list Z) :=
  mapM (fun c => drain (Z.to_nat (o_max o c)) (l_idle l c)) diskIOClasses.

(** A zero deadline is none. *)
Definition passed (deadline : option Z) (now : Z) : bool := match deadline with Some d => d <=? now | None => false end.

(** The deadline of a request that has to wait, read at [now]. *)
Definition waitDeadline (o : diskIOLimitOptions) (requestDeadline : option Z) (now : Z) : Z :=
  let deadline := now + o_waitTimeout o in
  match requestDeadline with Some d => if d <? deadline then d else deadline | None => deadline end.

(** What a job reports: [busy] is [errDiskIOBusy]. *)
Inductive diskIOResult := Busy | Kept (keepConnection : bool) | Panicked.

(** Where a request is in [run]. [Leaving] runs the deferred releases of
    [takeWorker], the process queue first; its first three arguments are what it
    still holds and the last the deadline of the job if it got a worker. *)
Inductive pc :=
| Start
| TryWorker
| TryQueue (slot : bool)
| TryWaiting (slot : bool)
| AwaitSlot (deadline : Z)
| Recheck (deadline : Z)
| AwaitWorker (deadline : Z)
| Leaving (slot queued waiting : bool) (job : option (option Z))
| HaveWorker (deadline : option Z)
| Submitted (deadline : option Z)
| Working (started : Z)
| Executed (result : diskIOResult)
| Returning (result : diskIOResult)
| Finished (result : diskIOResult).

Record request := mkRequest {
  rq_service : Z;
  rq_class : diskIOClass;
  rq_deadline : option Z;
  rq_now : Z; (* [now] of [takeWorker] *)
  rq_pc : pc;
}.
Definition go (p : pc) (r : request) : request := mkRequest (rq_service r) (rq_class r) (rq_deadline r) (rq_now r) p.
Definition read_clock (now : Z) (r : request) : request := mkRequest (rq_service r) (rq_class r) (rq_deadline r) now (rq_pc r).

(** [run] before it takes a worker. *)
Definition run_class (l : diskIOLimiter) (id kind : Z) : outcome diskIOError diskIOClass :=
  if bool_decide (id ∈ l_services l) then diskIORequestClass kind else Err BLOCK_SERVICE_NOT_FOUND.

(** Does [tryDiskIOSlot] send on a channel of [len] elements? *)
Definition tryDiskIOSlot (len capacity : Z) : bool := len <? capacity.

(** [takeWorker]. *)
Inductive takeWorker (o : diskIOLimitOptions) (l : diskIOLimiter) (r : request) : diskIOLimiter -> request -> Prop :=
| t_late : rq_pc r = Start -> passed (rq_deadline r) (l_now l) = true -> takeWorker o l r l (go (Finished Busy) r)
| t_slot : rq_pc r = Start -> passed (rq_deadline r) (l_now l) = false ->
    tryDiskIOSlot (l_slots l (rq_service r) (rq_class r)) (o_perService o (rq_class r)) = true ->
    takeWorker o l r (add_slots (rq_service r) (rq_class r) 1 l) (go TryWorker (read_clock (l_now l) r))
| t_no_slot : rq_pc r = Start -> passed (rq_deadline r) (l_now l) = false ->
    tryDiskIOSlot (l_slots l (rq_service r) (rq_class r)) (o_perService o (rq_class r)) = false ->
    takeWorker o l r l (go (TryQueue false) (read_clock (l_now l) r))
| t_worker : rq_pc r = TryWorker -> 0 < l_idle l (rq_class r) ->
    takeWorker o l r (add_idle (rq_class r) (-1) l) (go (Leaving true false false (Some (rq_deadline r))) r)
| t_no_worker : rq_pc r = TryWorker -> l_idle l (rq_class r) <= 0 -> takeWorker o l r l (go (TryQueue true) r)
| t_queue slot : rq_pc r = TryQueue slot -> o_waitTimeout o <> 0 ->
    tryDiskIOSlot (l_queue l (rq_service r)) (o_perServiceWaiting o) = true ->
    takeWorker o l r (add_queue (rq_service r) 1 l) (go (TryWaiting slot) r)
| t_queue_full slot : rq_pc r = TryQueue slot ->
    o_waitTimeout o = 0 \/ tryDiskIOSlot (l_queue l (rq_service r)) (o_perServiceWaiting o) = false ->
    takeWorker o l r l (go (Leaving slot false false None) r)
| t_waiting slot : rq_pc r = TryWaiting slot -> tryDiskIOSlot (l_waiting l) (o_maxWaiting o) = true ->
    takeWorker o l r (add_waiting 1 l)
      (go ((if slot then Recheck else AwaitSlot) (waitDeadline o (rq_deadline r) (rq_now r))) r)
| t_waiting_full slot : rq_pc r = TryWaiting slot -> tryDiskIOSlot (l_waiting l) (o_maxWaiting o) = false ->
    takeWorker o l r l (go (Leaving slot true false None) r)
| t_await_slot d : rq_pc r = AwaitSlot d -> l_slots l (rq_service r) (rq_class r) < o_perService o (rq_class r) ->
    takeWorker o l r (add_slots (rq_service r) (rq_class r) 1 l) (go (Recheck d) r)
| t_slot_timer d : rq_pc r = AwaitSlot d -> d <= l_now l -> takeWorker o l r l (go (Leaving false true true None) r)
| t_recheck d : rq_pc r = Recheck d -> l_now l < d -> takeWorker o l r l (go (AwaitWorker d) r)
| t_recheck_late d : rq_pc r = Recheck d -> d <= l_now l -> takeWorker o l r l (go (Leaving true true true None) r)
| t_await_worker d : rq_pc r = AwaitWorker d -> 0 < l_idle l (rq_class r) ->
    takeWorker o l r (add_idle (rq_class r) (-1) l) (go (Leaving true true true (Some (Some d))) r)
| t_worker_timer d : rq_pc r = AwaitWorker d -> d <= l_now l -> takeWorker o l r l (go (Leaving true true true None) r)
| t_leave_waiting slot queued job : rq_pc r = Leaving slot queued true job -> 0 < l_waiting l ->
    takeWorker o l r (add_waiting (-1) l) (go (Leaving slot queued false job) r)
| t_leave_queue slot job : rq_pc r = Leaving slot true false job -> 0 < l_queue l (rq_service r) ->
    takeWorker o l r (add_queue (rq_service r) (-1) l) (go (Leaving slot false false job) r)
| t_leave_slot : rq_pc r = Leaving true false false None -> 0 < l_slots l (rq_service r) (rq_class r) ->
    takeWorker o l r (add_slots (rq_service r) (rq_class r) (-1) l) (go (Finished Busy) r)
| t_rejected : rq_pc r = Leaving false false false None -> takeWorker o l r l (go (Finished Busy) r)
| t_taken slot d : rq_pc r = Leaving slot false false (Some d) -> takeWorker o l r l (go (HaveWorker d) r).

(** [execute]: the job is dropped when its deadline has passed, and [work]
    returns or panics, which is delivered as a result. *)
Inductive execute (l : diskIOLimiter) (r : request) : request -> Prop :=
| w_expired d : rq_pc r = Submitted d -> passed d (l_now l) = true -> execute l r (go (Executed Busy) r)
| w_start d : rq_pc r = Submitted d -> passed d (l_now l) = false -> execute l r (go (Working (l_now l)) r)
| w_return started keep : rq_pc r = Working started -> execute l r (go (Executed (Kept keep)) r)
| w_panic started : rq_pc r = Working started -> execute l r (go (Executed Panicked) r).

(** The loop of a worker: it runs the job and gives the slot of its service back. *)
Inductive worker_loop (l : diskIOLimiter) (r : request) : diskIOLimiter -> request -> Prop :=
| w_execute r' : execute l r r' -> worker_loop l r l r'
| w_free_slot res : rq_pc r = Executed res -> 0 < l_slots l (rq_service r) (rq_class r) ->
    worker_loop l r (add_slots (rq_service r) (rq_class r) (-1) l) (go (Returning res) r).

(** [run] around both. *)
Inductive run (o : diskIOLimitOptions) (l : diskIOLimiter) (r : request) : diskIOLimiter -> request -> Prop :=
| run_take l' r' : takeWorker o l r l' r' -> run o l r l' r'
| run_submit d : rq_pc r = HaveWorker d -> run o l r l (go (Submitted d) r)
| run_worker l' r' : worker_loop l r l' r' -> run o l r l' r'
| run_return res : rq_pc r = Returning res -> l_idle l (rq_class r) < o_max o (rq_class r) ->
    run o l r (add_idle (rq_class r) 1 l) (go (Finished res) r).

Definition world : Type := diskIOLimiter * gmap nat request.

Inductive step (o : diskIOLimitOptions) : world -> world -> Prop :=
| step_arrive l ts t id kind c deadline : ts !! t = None -> run_class l id kind = Ok c ->
    step o (l, ts) (l, <[t := mkRequest id c deadline 0 Start]> ts)
| step_run l ts t r l' r' : ts !! t = Some r -> run o l r l' r' -> step o (l, ts) (l', <[t := r']> ts)
| step_tick l ts now : l_now l <= now -> step o (l, ts) (set_now now l, ts).

Definition reachable (o : diskIOLimitOptions) (ids : list Z) (w : world) : Prop :=
  exists now, rtc (step o) (newDiskIOLimiter o ids now, ∅) w.

(** * What a request holds *)

Definition holds_slot (p : pc) : bool :=
  match p with
  | TryWorker | Recheck _ | AwaitWorker _ | HaveWorker _ | Submitted _ | Working _ | Executed _ => true
  | TryQueue slot | TryWaiting slot | Leaving slot _ _ _ => slot
  | _ => false
  end.
Definition is_waiting (p : pc) : bool := match p with AwaitSlot _ | Recheck _ | AwaitWorker _ => true | _ => false end.
Definition holds_queue (p : pc) : bool := match p with TryWaiting _ => true | Leaving _ queued _ _ => queued | _ => is_waiting p end.
Definition holds_waiting (p : pc) : bool := match p with Leaving _ _ waiting _ => waiting | _ => is_waiting p end.
Definition holds_worker (p : pc) : bool :=
  match p with
  | HaveWorker _ | Submitted _ | Working _ | Executed _ | Returning _ => true
  | Leaving _ _ _ (Some _) => true
  | _ => false
  end.
Definition is_working (p : pc) : bool := match p with Working _ => true | _ => false end.
Definition is_finished (p : pc) : bool := match p with Finished _ => true | _ => false end.

Definition on (s : Z) (c : diskIOClass) (f : pc -> bool) (r : request) : bool := bool_decide (rq_service r = s /\ rq_class r = c) && f (rq_pc r).
Definition at_service (s : Z) (f : pc -> bool) (r : request) : bool := bool_decide (rq_service r = s) && f (rq_pc r).
Definition of_class (c : diskIOClass) (f : pc -> bool) (r : request) : bool := bool_decide (rq_class r = c) && f (rq_pc r).
Definition anywhere (f : pc -> bool) (r : request) : bool := f (rq_pc r).

(** A deadline that is at most the request's own. *)
Definition within (own deadline : option Z) : Prop := forall rd, own = Some rd -> exists d, deadline = Some d /\ d <= rd.

Definition request_ok (r : request) : Prop :=
  match rq_pc r with
  | AwaitSlot d | Recheck d | AwaitWorker d => within (rq_deadline r) (Some d)
  | Leaving slot queued waiting job => (waiting = true -> queued = true) /\ (forall d, job = Some d -> slot = true /\ within (rq_deadline r) d)
  | HaveWorker d | Submitted d => within (rq_deadline r) d
  | Working started => forall rd, rq_deadline r = Some rd -> started < rd
  | _ => True
  end.

(** * The invariant: a channel holds what the requests hold *)

Section limiter.
Context (o : diskIOLimitOptions).
Implicit Types (l : diskIOLimiter) (r : request) (ts : gmap nat request).

Definition counted (P : request -> bool) ts : Z := Z.of_nat (count P ts).
Definition zbit (b : bool) : Z := Z.of_nat (bit b).

Record Inv l ts : Prop := {
  iv_slots : forall s c, l_slots l s c = counted (on s c holds_slot) ts /\ l_slots l s c <= o_perService o c;
  iv_queue : forall s, l_queue l s = counted (at_service s holds_queue) ts /\ l_queue l s <= o_perServiceWaiting o;
  iv_waiting : l_waiting l = counted (anywhere holds_waiting) ts /\ l_waiting l <= o_maxWaiting o;
  iv_idle : forall c, l_idle l c + counted (of_class c holds_worker) ts = o_max o c /\ 0 <= l_idle l c;
  iv_request : forall t r, ts !! t = Some r -> request_ok r;
}.

(** A step moves what it says it moves: each channel changes by what the request
    takes or gives back, and stays within its capacity. *)
Record moves l r l' r' : Prop := {
  mv_slots : forall s c, l_slots l' s c + zbit (on s c holds_slot r) = l_slots l s c + zbit (on s c holds_slot r') /\
    (l_slots l s c <= o_perService o c -> l_slots l' s c <= o_perService o c);
  mv_queue : forall s, l_queue l' s + zbit (at_service s holds_queue r) = l_queue l s + zbit (at_service s holds_queue r') /\
    (l_queue l s <= o_perServiceWaiting o -> l_queue l' s <= o_perServiceWaiting o);
  mv_waiting : l_waiting l' + zbit (anywhere holds_waiting r) = l_waiting l + zbit (anywhere holds_waiting r') /\
    (l_waiting l <= o_maxWaiting o -> l_waiting l' <= o_maxWaiting o);
  mv_idle : forall c, l_idle l' c + zbit (of_class c holds_worker r') = l_idle l c + zbit (of_class c holds_worker r) /\
    (0 <= l_idle l c -> 0 <= l_idle l' c);
}.

Lemma waitDeadline_within own now : within own (Some (waitDeadline o own now)).
Proof. intros rd ->. eexists; split; [done|]. unfold waitDeadline. case_match; lia. Qed.

Lemma within_self own : within own own.
Proof. intros rd ->. eauto with lia. Qed.

Lemma not_passed own d now rd : within own d -> passed d now = false -> own = Some rd -> now < rd.
Proof. intros Hw Hp Hrd. destruct (Hw rd Hrd) as (d' & -> & Hle). simpl in Hp. lia. Qed.

Ltac moves_tac :=
  constructor; intros; unfold on, at_service, of_class, anywhere, zbit, tryDiskIOSlot in *; simpl in *;
  repeat match goal with |- context [decide ?P] => destruct (decide P) end;
  repeat match goal with |- context [bool_decide ?P] => destruct (bool_decide_reflect P) end;
  destruct_and?; subst; simpl in *;
  repeat match goal with H : rq_pc _ = _ |- _ => rewrite H in * end;
  simpl in *; repeat split; intros; try lia; try tauto.

Ltac at_pc Hok :=
  unfold request_ok in Hok; match goal with H : rq_pc _ = _ |- _ => rewrite H in Hok end;
  repeat match goal with b : bool |- _ => destruct b | job : option (option Z) |- _ => destruct job end.

Lemma takeWorker_moves l r l' r' : request_ok r -> takeWorker o l r l' r' -> moves l r l' r'.
Proof. intros Hok H. destruct H; at_pc Hok; moves_tac; naive_solver. Qed.

Lemma takeWorker_ok l r l' r' : request_ok r -> takeWorker o l r l' r' -> request_ok r'.
Proof.
  intros Hok H. destruct H; at_pc Hok; unfold request_ok; simpl; try done; try apply waitDeadline_within;
    pose proof (within_self (rq_deadline r)); naive_solver.
Qed.

Lemma worker_loop_moves l r l' r' : worker_loop l r l' r' -> moves l r l' r'.
Proof. destruct 1 as [r' []|]; moves_tac. Qed.

Lemma worker_loop_ok l r l' r' : request_ok r -> worker_loop l r l' r' -> request_ok r'.
Proof. intros Hok H. destruct H as [r' []|]; at_pc Hok; unfold request_ok; simpl; try done. intros rd. by apply (not_passed _ d). Qed.

Lemma run_moves l r l' r' : request_ok r -> run o l r l' r' -> moves l r l' r' /\ request_ok r'.
Proof.
  intros Hok []; eauto using takeWorker_moves, takeWorker_ok, worker_loop_moves, worker_loop_ok.
  - split; [moves_tac|]. at_pc Hok. done.
  - split; [moves_tac|done].
Qed.

Lemma counted_update P ts t r r' : ts !! t = Some r -> counted P (<[t := r']> ts) + zbit (P r) = counted P ts + zbit (P r').
Proof. intros Ht. pose proof (count_update P ts t r r' Ht). unfold counted, zbit. lia. Qed.

Lemma counted_idle_request P ts t r : ts !! t = None -> P r = false -> counted P (<[t := r]> ts) = counted P ts.
Proof. intros Ht HP. unfold counted. by rewrite count_add, HP. Qed.

Lemma run_inv l ts t r l' r' : Inv l ts -> ts !! t = Some r -> run o l r l' r' -> Inv l' (<[t := r']> ts).
Proof.
  intros [Hs Hq Hw Hi Hr] Ht Hrun. destruct (run_moves _ _ _ _ (Hr _ _ Ht) Hrun) as [[Ms Mq Mw Mi] Hok].
  constructor.
  - intros s c. pose proof (counted_update (on s c holds_slot) ts t r r' Ht). specialize (Hs s c). specialize (Ms s c). lia.
  - intros s. pose proof (counted_update (at_service s holds_queue) ts t r r' Ht). specialize (Hq s). specialize (Mq s). lia.
  - pose proof (counted_update (anywhere holds_waiting) ts t r r' Ht). lia.
  - intros c. pose proof (counted_update (of_class c holds_worker) ts t r r' Ht). specialize (Hi c). specialize (Mi c). lia.
  - intros t' r'' [[-> <-]|[_ H]]%lookup_insert_Some; [done|eauto].
Qed.

Lemma arrive_inv l ts t id c deadline : Inv l ts -> ts !! t = None -> Inv l (<[t := mkRequest id c deadline 0 Start]> ts).
Proof.
  intros [Hs Hq Hw Hi Hr] Ht. constructor; intros;
    try (rewrite counted_idle_request; [auto | done | unfold on, at_service, of_class, anywhere; by rewrite ?andb_false_r]).
  apply lookup_insert_Some in H as [[-> <-]|[_ H]]; [done|eauto].
Qed.

Lemma disk_step_inv w w' : step o w w' -> Inv w.1 w.2 -> Inv w'.1 w'.2.
Proof. intros [] HI; simpl in *; eauto using arrive_inv, run_inv. by destruct HI. Qed.

Lemma counted_empty P : counted P ∅ = 0.
Proof. unfold counted. by rewrite count_none. Qed.

Lemma new_limiter_inv ids now : validate o = true -> Inv (newDiskIOLimiter o ids now) ∅.
Proof.
  unfold validate. cbn. intros Hv. constructor; intros; cbn; rewrite ?counted_empty; try done; try (destruct c; lia); lia.
Qed.

Lemma limiter_inv ids w : validate o = true -> reachable o ids w -> Inv w.1 w.2.
Proof.
  intros Hv [now Hw]. apply (rtc_ind_l (fun v => Inv v.1 v.2 -> Inv w.1 w.2)) in Hw; eauto using new_limiter_inv, disk_step_inv.
Qed.

Lemma counted_mono P P' ts : (forall r, P r = true -> P' r = true) -> counted P ts <= counted P' ts.
Proof. intros HP. apply Nat2Z.inj_le, count_mono, HP. Qed.

Lemma held_positive P ts t r : ts !! t = Some r -> P r = true -> 0 < counted P ts.
Proof. intros Ht HP. pose proof (count_positive P ts t r Ht HP). unfold counted. lia. Qed.

(** How many steps a request has left at most. *)
Definition rank (p : pc) : nat :=
  match p with
  | Start => 16 | TryWorker => 15 | TryQueue _ => 14 | TryWaiting _ => 13
  | AwaitSlot _ => 12 | Recheck _ => 11 | AwaitWorker _ => 10
  | Leaving _ queued waiting _ => 7 + bit queued + bit waiting
  | HaveWorker _ => 6 | Submitted _ => 5 | Working _ => 4 | Executed _ => 3 | Returning _ => 2 | Finished _ => 0
  end.

Lemma run_rank l r l' r' : run o l r l' r' -> (rank (rq_pc r') < rank (rq_pc r))%nat.
Proof.
  intros []; try match goal with H : takeWorker _ _ _ _ _ |- _ => destruct H | H : worker_loop _ _ _ _ |- _ => destruct H as [? []|] end;
    match goal with H : rq_pc r = _ |- _ => rewrite H end; repeat match goal with b : bool |- _ => destruct b end; simpl; lia.
Qed.

(** The time a request that waits can wait for. *)
Definition wakes (now : Z) (p : pc) : Prop := match p with AwaitSlot d | AwaitWorker d => d <= now | _ => True end.

Lemma on_own r f : f (rq_pc r) = true -> on (rq_service r) (rq_class r) f r = true.
Proof. intros Hf. unfold on. by rewrite bool_decide_eq_true_2. Qed.

Lemma at_own r f : f (rq_pc r) = true -> at_service (rq_service r) f r = true.
Proof. intros Hf. unfold at_service. by rewrite bool_decide_eq_true_2. Qed.

Lemma of_own r f : f (rq_pc r) = true -> of_class (rq_class r) f r = true.
Proof. intros Hf. unfold of_class. by rewrite bool_decide_eq_true_2. Qed.

(** What a request holds is in the channel it gives it back to. *)
Lemma held l ts t r : Inv l ts -> ts !! t = Some r ->
  (holds_slot (rq_pc r) = true -> 0 < l_slots l (rq_service r) (rq_class r)) /\
  (holds_queue (rq_pc r) = true -> 0 < l_queue l (rq_service r)) /\
  (holds_waiting (rq_pc r) = true -> 0 < l_waiting l) /\
  (holds_worker (rq_pc r) = true -> l_idle l (rq_class r) < o_max o (rq_class r)).
Proof.
  intros [Hs Hq Hw Hi _] Ht. split_and!; intros Hh.
  - rewrite (proj1 (Hs _ _)). by apply (held_positive _ _ t r), on_own.
  - rewrite (proj1 (Hq _)). by apply (held_positive _ _ t r), at_own.
  - rewrite (proj1 Hw). by apply (held_positive _ _ t r).
  - specialize (Hi (rq_class r)). pose proof (held_positive _ _ t r Ht (of_own r _ Hh)). lia.
Qed.

Lemma takeWorker_progress l ts t r now : Inv l ts -> ts !! t = Some r -> (6 < rank (rq_pc r))%nat -> wakes now (rq_pc r) ->
  exists l' r', takeWorker o (set_now now l) r l' r'.
Proof.
  intros HI Ht Hr Hw. destruct (held _ _ _ _ HI Ht) as (Hs & Hq & Hwt & _).
  destruct (rq_pc r) as [| |slot|slot|d|d|d|slot queued waiting job| | | | | |] eqn:E; simpl in *; try lia.
  - destruct (passed (rq_deadline r) now) eqn:Ep; [by eauto using t_late|].
    destruct (tryDiskIOSlot (l_slots l (rq_service r) (rq_class r)) (o_perService o (rq_class r))) eqn:Et; eauto using t_slot, t_no_slot.
  - destruct (decide (0 < l_idle l (rq_class r))); [by eauto using t_worker|]. do 2 eexists. apply t_no_worker; [done|simpl; lia].
  - destruct (decide (o_waitTimeout o = 0)); [by eauto using t_queue_full|].
    destruct (tryDiskIOSlot (l_queue l (rq_service r)) (o_perServiceWaiting o)) eqn:Et; eauto using t_queue, t_queue_full.
  - destruct (tryDiskIOSlot (l_waiting l) (o_maxWaiting o)) eqn:Et; eauto using t_waiting, t_waiting_full.
  - eauto using t_slot_timer.
  - destruct (decide (now < d)); [by eauto using t_recheck|]. do 2 eexists. eapply t_recheck_late; [done|simpl; lia].
  - eauto using t_worker_timer.
  - destruct waiting; [by eauto using t_leave_waiting|]. destruct queued; [by eauto using t_leave_queue|].
    destruct job as [d|]; [by eauto using t_taken|]. destruct slot; eauto using t_leave_slot, t_rejected.
Qed.

Lemma run_progress l ts t r now : Inv l ts -> ts !! t = Some r -> is_finished (rq_pc r) = false -> wakes now (rq_pc r) ->
  exists l' r', run o (set_now now l) r l' r'.
Proof.
  intros HI Ht Hf Hw. destruct (decide (6 < rank (rq_pc r))%nat) as [Hr|Hr].
  { destruct (takeWorker_progress l ts t r now HI Ht Hr Hw) as (l' & r' & H). eauto using run_take. }
  destruct (held _ _ _ _ HI Ht) as (Hs & _ & _ & Hi).
  destruct (rq_pc r) eqn:E; simpl in *; try lia; try done; eauto using run_submit, run_return.
  - destruct (passed deadline now) eqn:Ep; eauto 8 using run_worker, w_execute, w_expired, w_start.
  - eauto 8 using run_worker, w_execute, w_panic.
  - do 2 eexists. apply run_worker. eapply w_free_slot; [done|]. by apply Hs.
Qed.

Lemma drain_all n : drain n (Z.of_nat n) = Some 0.
Proof.
  induction n as [|n IH]; [done|]. cbn [drain]. rewrite (proj2 (Z.ltb_lt _ _)) by lia.
  by replace (Z.of_nat (S n) - 1) with (Z.of_nat n) by lia.
Qed.

Lemma counted_finished (P : request -> bool) ts : (forall t r, ts !! t = Some r -> is_finished (rq_pc r) = true) ->
  (forall r, is_finished (rq_pc r) = true -> P r = false) -> counted P ts = 0.
Proof. intros Hf HP. unfold counted. rewrite count_none; eauto. Qed.

Lemma finished_holds (f : pc -> bool) r : (forall res, f (Finished res) = false) -> is_finished (rq_pc r) = true ->
  f (rq_pc r) = false.
Proof. intros Hf Hr. by destruct (rq_pc r). Qed.

Lemma finished_inv l ts : validate o = true -> Inv l ts -> (forall t r, ts !! t = Some r -> is_finished (rq_pc r) = true) ->
  (forall s c, l_slots l s c = 0) /\ (forall s, l_queue l s = 0) /\ l_waiting l = 0 /\ close o l = Some [0; 0; 0].
Proof.
  intros Hv [Hs Hq Hw Hi _] Hf.
  assert (Hz : forall (f : pc -> bool) (g : request -> bool), (forall res, f (Finished res) = false) -> counted (fun r => g r && f (rq_pc r)) ts = 0).
  { intros f g Hfin. apply counted_finished; [done|]. intros r Hr. by rewrite (finished_holds f r), andb_false_r. }
  split_and!.
  - intros s c. rewrite (proj1 (Hs s c)). by apply (Hz holds_slot).
  - intros s. rewrite (proj1 (Hq s)). by apply (Hz holds_queue).
  - rewrite (proj1 Hw). by apply (Hz holds_waiting (fun _ => true)).
  - assert (Hd : forall c, drain (Z.to_nat (o_max o c)) (l_idle l c) = Some 0).
    { intros c. specialize (Hi c). unfold of_class in Hi. rewrite (Hz holds_worker) in Hi by done.
      replace (l_idle l c) with (Z.of_nat (Z.to_nat (o_max o c))); [apply drain_all|].
      unfold validate in Hv. cbn in Hv. destruct c; lia. }
    unfold close. cbn [diskIOClasses mapM]. by rewrite !Hd.
Qed.
End limiter.

(** * The claims *)

(** C14: whatever way the requests of the block service interleave, the work in
    progress never exceeds the limit of its class in the process nor the limit
    of its class at its block service, the requests that wait never exceed the
    two waiter limits, and work never starts once the request's own deadline
    has passed. *)
Theorem disk_io_limits (o : diskIOLimitOptions) (ids : list Z) (l : diskIOLimiter) (ts : gmap nat request) :
  validate o = true -> reachable o ids (l, ts) ->
  (forall c, counted (of_class c is_working) ts <= o_max o c) /\
  (forall s c, counted (on s c is_working) ts <= o_perService o c) /\
  (forall s, counted (at_service s is_waiting) ts <= o_perServiceWaiting o) /\
  counted (anywhere is_waiting) ts <= o_maxWaiting o /\
  (forall t r started rd, ts !! t = Some r -> rq_pc r = Working started -> rq_deadline r = Some rd -> started < rd).
Proof.
  intros Hv Hre. destruct (limiter_inv o ids _ Hv Hre) as [Hs Hq Hw Hi Hr]. simpl in *.
  assert (Hsub : forall f g (P : request -> bool) n, (forall p, f p = true -> g p = true) ->
    counted (fun r => P r && g (rq_pc r)) ts <= n -> counted (fun r => P r && f (rq_pc r)) ts <= n).
  { intros f g P n Hfg Hn. etrans; [apply counted_mono|exact Hn]. intros r [HP Hf]%andb_true_iff. by rewrite HP, (Hfg _ Hf). }
  split_and!.
  - intros c. apply (Hsub _ holds_worker); [by intros []|]. specialize (Hi c). unfold of_class in Hi. lia.
  - intros s c. apply (Hsub _ holds_slot); [by intros []|]. specialize (Hs s c). unfold on in Hs. lia.
  - intros s. apply (Hsub _ holds_queue); [by intros []|]. specialize (Hq s). unfold at_service in Hq. lia.
  - apply (Hsub is_waiting holds_waiting (fun _ => true)); [by intros []|]. unfold anywhere in Hw. simpl. lia.
  - intros t r started rd Ht Hpc. specialize (Hr t r Ht). unfold request_ok in Hr. rewrite Hpc in Hr. eauto.
Qed.

(** C26: no request hangs and none leaks. A request makes at most sixteen steps;
    at any moment from the deadline of its wait on it can make its next one
    whatever the others do, so giving back a slot, a place in a queue or a
    worker never blocks; and once every request has returned all channels are
    empty and [close] receives every worker without blocking. *)
Theorem disk_io_returns (o : diskIOLimitOptions) (ids : list Z) (l : diskIOLimiter) (ts : gmap nat request) :
  validate o = true -> reachable o ids (l, ts) ->
  (forall t r now, ts !! t = Some r -> is_finished (rq_pc r) = false -> wakes now (rq_pc r) ->
     exists l' r', run o (set_now now l) r l' r') /\
  (forall l1 r l2 r', run o l1 r l2 r' -> (rank (rq_pc r') < rank (rq_pc r) <= 16)%nat) /\
  ((forall t r, ts !! t = Some r -> is_finished (rq_pc r) = true) ->
     (forall s c, l_slots l s c = 0) /\ (forall s, l_queue l s = 0) /\ l_waiting l = 0 /\ close o l = Some [0; 0; 0]).
Proof.
  intros Hv Hre. pose proof (limiter_inv o ids _ Hv Hre) as HI. simpl in HI. split_and!.
  - intros t r now. by apply run_progress.
  - intros l1 r l2 r' H. split; [by apply (run_rank o l1 r l2)|]. destruct (rq_pc r) as [| | | | | | |? [] [] ?| | | | | |]; simpl; lia.
  - intros Hf. by apply (finished_inv o l ts).
Qed.

(** One read of a block service: its worker works, then the read has returned. *)
Definition running : request := mkRequest 7 diskRead (Some 50) 10 (Working 10).
Definition served : request := mkRequest 7 diskRead (Some 50) 10 (Finished (Kept true)).
Definition running_limiter : diskIOLimiter :=
  add_idle diskRead (-1) (add_slots 7 diskRead 1 (newDiskIOLimiter defaultDiskIOLimitOptions [7] 10)).
Definition served_limiter : diskIOLimiter := add_idle diskRead 1 (add_slots 7 diskRead (-1) running_limiter).

Lemma run_steps o l r l' r' : run o l r l' r' -> step o (l, {[0%nat := r]}) (l', {[0%nat := r']}).
Proof.
  intros H. pose proof (step_run o l {[0%nat := r]} 0 r l' r' (lookup_singleton_eq _ _) H) as Hs.
  by rewrite insert_singleton_eq in Hs.
Qed.

Lemma running_reachable : reachable defaultDiskIOLimitOptions [7] (running_limiter, {[0%nat := running]}).
Proof.
  exists 10.
  eapply rtc_l; [by eapply (step_arrive _ _ _ 0 7 FETCH_BLOCK diskRead (Some 50))|].
  eapply rtc_l; [apply run_steps, run_take, t_slot; done|].
  eapply rtc_l; [apply run_steps, run_take, t_worker; done|].
  eapply rtc_l; [apply run_steps, run_take; by eapply t_taken|].
  eapply rtc_l; [apply run_steps; by eapply run_submit|].
  apply rtc_once, run_steps, run_worker, w_execute. exact (w_start running_limiter (go (Submitted (Some 50)) running) (Some 50) eq_refl eq_refl).
Qed.

Lemma served_reachable : reachable defaultDiskIOLimitOptions [7] (served_limiter, {[0%nat := served]}).
Proof.
  destruct running_reachable as [now H]. exists now. etrans; [exact H|].
  eapply rtc_l; [apply run_steps, run_worker, w_execute; by eapply (w_return _ _ 10 true)|].
  eapply rtc_l; [apply run_steps, run_worker; by eapply w_free_slot|].
  apply rtc_once, run_steps.
  exact (run_return defaultDiskIOLimitOptions (add_slots 7 diskRead (-1) running_limiter) (go (Returning (Kept true)) running) (Kept true) eq_refl eq_refl).
Qed.

Lemma disk_io_limits_witness :
  counted (of_class diskRead is_working) {[0%nat := running]} = 1 /\
  counted (on 7 diskRead is_working) {[0%nat := running]} <= 128 /\ 10 < 50.
Proof.
  destruct (disk_io_limits defaultDiskIOLimitOptions [7] running_limiter {[0%nat := running]} eq_refl running_reachable) as (_ & H & _ & _ & Hd).
  split_and!; [by vm_compute | exact (H 7 diskRead) | exact (Hd 0%nat running 10 50 eq_refl eq_refl eq_refl)].
Defined.

Lemma disk_io_returns_witness :
  close defaultDiskIOLimitOptions served_limiter = Some [0; 0; 0] /\ l_slots running_limiter 7 diskRead = 1 /\
  close defaultDiskIOLimitOptions running_limiter = None.
Proof.
  destruct (disk_io_returns defaultDiskIOLimitOptions [7] served_limiter {[0%nat := served]} eq_refl served_reachable) as (_ & _ & H).
  split_and!; [apply H; intros t r [_ <-]%lookup_singleton_Some; done | done | by vm_compute].
Defined.
